(* ===== verification/_CoqProject ===== *)
-Q . S2P
Prelude.v
BTree.v
Text.v
Sharding.v
MasterState.v
AppState.v
ClusterConfig.v
RaftNode.v
RaftRpc.v
RaftLoop.v
RaftDemo.v
RaftFrame.v
RaftElection.v
RaftLog.v
RaftDurable.v
RaftSafety.v
RaftCommit.v
RaftMatching.v
RaftGhost.v
RaftSteps.v
RaftComplete.v
RaftStateMachine.v
RaftProgress.v
RaftTransfer.v
TwoPhase.v
TwoPhaseSafety.v
Placement.v
Healing.v
Monitor.v
Program.v
MasterService.v
ServiceSpec.v
MasterTasks.v
Checker.v
Diagnosis.v
Policy.v
Signing.v
AuthMiddleware.v
Erasure.v
ChunkServer.v
Client.v
ClientRead.v
Cluster.v
ConfigService.v
Repair.v
Sse.v
S3Base.v
S3Handlers.v
S3Spec.v
S3Multipart.v
AuditWorker.v
AuditLog.v
AuditSpec.v
AuditQuery.v
AuditReader.v
Tokens.v
TokenService.v
AccessLog.v
Workload.v
WorkloadSpec.v
Benchmark.v
Cli.v
CliSpec.v
Transport.v
Startup.v
IoUring.v
GatewayStart.v
