(* ===== verification/Prelude.v ===== *)
(** * Rust DFS: a verification development

    The repository is a distributed file system: metadata servers ("masters"),
    one Raft group per shard, that keep the file table of their shard; a
    configuration server, also a Raft group, that keeps the shard map; chunk
    servers that store blocks; a client library with a linearizability checker
    for its histories; and an S3 gateway. This library models the parts that
    carry the logic of the system as Rocq functions and proves what makes them
    correct. Every modelled definition names the lines it translates, in
    brackets, in the comment before it.

    ** Files

    - [Prelude]: tactics, record update, the state-and-error monad, sorting, the
      iteration order of hash maps, and this overview.
    - [BTree]: ordered maps ([BTreeMap]) as sorted association lists.
    - [Sharding]: dfs/common/src/sharding.rs, [ShardMap] with consistent hashing
      and ranges.
    - [MasterState]: the metadata of one shard and the safe-mode state machine,
      dfs/metaserver/src/master.rs 1-376.
    - [AppState]: the commands that Raft replicates and their application,
      dfs/metaserver/src/simple_raft.rs, [apply_command].
    - [ClusterConfig]: configurations, joint consensus and quorums.
    - [RaftNode], [RaftRpc], [RaftLoop]: simple_raft.rs, the Raft node: its state
      and persistence; elections, replication and the RPC handlers; ticks, event
      batches, membership changes and leadership transfer. [RaftDemo] is a
      concrete three-node cluster.
    - [RaftFrame], [RaftElection], [RaftLog], [RaftDurable], [RaftSafety],
      [RaftCommit], [RaftTransfer]: what is proved of it. [RaftMatching],
      [RaftGhost], [RaftSteps], [RaftComplete], [RaftStateMachine],
      [RaftProgress]: logs that
      grow from the logs of leaders; the ghost state of a cluster (ballots, logs
      of leaders and candidates, acknowledgements) and its invariant; that each
      kind of step, each handler and each round keeps it; and the theorems about
      executions, the last of them that no node panics.
    - [TwoPhase], [TwoPhaseSafety]: master.rs, the rename RPC, the four
      transaction RPCs and the cleanup and recovery tasks; and their proofs, over
      a step relation for several shards.
    - [Placement], [Healing]: master.rs, rack-aware placement; the healer,
      heartbeats, the liveness checker and the balancer.
    - [Program]: request handlers and tasks as programs over effects, their
      executions under interference ([exec]) and undisturbed ([run]), and the
      effects of a metadata server.
    - [Monitor], [MasterService], [MasterTasks]: master.rs, the throughput
      monitor; the file, safe-mode, membership and ingest RPCs; the shuffler,
      tiering, shard-map refresh, split and merge tasks. [ServiceSpec]: what the
      file RPCs promise, and that they keep it.
    - [ConfigService]: dfs/metaserver/src/config_server.rs, and what masters and
      clients learn from it.
    - [Client], [ClientRead]: dfs/client/src/mod.rs, and what its reads return.
    - [Cluster]: the client, the file service, placement and the chunk servers
      together.
    - [Repair]: dfs/chunkserver/src/bin/chunkserver.rs and the rest of
      chunkserver.rs: heartbeats and the commands they bring back, together with
      the healer.
    - [Checker], [Diagnosis]: dfs/client/src/checker.rs, the linearizability
      checker; the reading of histories, its verdicts and the diagnosis of a
      failure.
    - [Workload], [WorkloadSpec]: dfs/client/src/workload.rs, the tasks that
      record histories, and what the checker says of the histories they record.
    - [Policy]: dfs/common/src/auth/policy.rs and bucket_policy.rs.
    - [Text], [Signing]: dfs/common/src/auth/encoding.rs, mod.rs, signing.rs and
      presign.rs, and the request normalisation of the gateway.
    - [AuthMiddleware]: dfs/s3_server/src/auth_middleware.rs with the key cache of
      dfs/common/src/auth/cache.rs. [AccessLog]: its answers and audit records.
    - [Tokens], [TokenService]: credentials.rs, oidc.rs, sts.rs and chunked.rs of
      dfs/common/src/auth, and dfs/s3_server/src/sts_handler.rs: web identities,
      session tokens, and what the credentials of a session are worth.
    - [Sse]: dfs/common/src/auth/sse.rs, server-side encryption.
    - [S3Base], [S3Handlers], [S3Spec], [S3Multipart]: the S3 gateway,
      dfs/s3_server/src/handlers.rs, as programs over the client library; that
      what is put is got, that listings are complete; multipart uploads.
    - [AuditWorker], [AuditLog], [AuditSpec], [AuditQuery], [AuditReader]:
      dfs/s3_server/src/audit.rs and bin/audit_reader.rs: the audit worker, its
      log as an ordered map, the chain of hashes, the queries, and the reader as
      a command.
    - [Erasure]: dfs/common/src/erasure.rs.
    - [ChunkServer]: dfs/chunkserver/src/chunkserver.rs. [IoUring]:
      io_uring_pool.rs beside it, which the crate does not compile.
    - [Benchmark], [Cli], [CliSpec]: dfs/client/src/bin/dfs_cli.rs, the
      benchmarks and all other commands, as programs over the client library, and
      what they print.
    - [Transport]: dfs/metaserver/src/bin/master.rs and config_server.rs, the HTTP
      routes of the Raft messages and the tasks that post them.
    - [Startup]: the states and settings with which masters, configuration
      servers and chunk servers start. [GatewayStart]: dfs/s3_server/src/main.rs.

    ** How the code is modelled

    - A method on mutable state is a function from the state to an outcome and
      the new state (the monad [M]); the state survives an error, as mutations
      made before a `?` do. [Panic] is an outcome.
    - Machine integers are [N] or [Z] with the wrap-around of the release build
      written out where arithmetic can leave their range; `usize` indices are
      [nat], and their underflow and out-of-range indexing is [Panic]. Floats are
      the binary64 format of [SpecFloat].
    - [HashMap] and [HashSet] are stdpp maps and sets; where the code iterates
      over one, the order is unspecified and the theorems hold for every order
      (class [HashOrder]).
    - RocksDB is a record of the stored values, and each write consults a fault
      script ([db_faults]), so that any write can fail. A crash keeps the
      database and loses the memory; it happens between two events.
    - The network is a step relation. In [RaftElection] and [RaftStateMachine]
      messages may be lost, delayed, reordered and duplicated; in [TwoPhaseSafety] a handler is an
      asynchronous program ([Proc]) that reads the local state, submits commands
      and calls other shards, and the relation interleaves any number of them,
      loses and repeats requests and replies, delays commits and kills programs.
    - The other handlers of the servers and the client are programs ([Prog]) of
      critical sections, Raft submissions and calls. A theorem about [exec]
      holds for every interference between two effects and every answer the
      environment may give; one about [run] for the undisturbed execution.
    - Background tasks are modelled one interval at a time; the clock is an
      argument.
    - Code outside the repository is a parameter: CRC-32, SHA-256, HMAC and
      hexadecimal encoding, regular expressions, JSON and time formats, and the
      Reed-Solomon crate (class [ReedSolomon], with the contract of its
      documentation and an instance).

    ** Bounds and fuel

    Loops that are not structural carry fuel that is proved or seen to be enough:
    deleting log entries runs once per stored entry, [S (size (db_log d))]; the
    application loop [commit_index - last_applied] times; loading the log
    [size (db_log d)] times; the wait for a leadership transfer has the fifty
    attempts of the code; placement makes one pass more than there are servers
    asked for; one level of the checker's search consumes one remaining
    operation; cutting a block into chunks one byte per step; the greedy
    diagnosis of the checker makes one pass more than there are operations; the
    benchmarks wait one round more than there are tasks in flight; reading with
    io_uring takes one request more than there are bytes. The number of rounds
    of the stress test, which runs for a time, is an argument, and once the time
    is over it ends within one round more than there are tasks in flight. The
    client makes the number of attempts of the code.

    ** What the theorems show

    - Raft: at most one leader per term in every execution. In executions in
      which all command lines name the same servers, clients do not change the
      membership, database writes succeed and no snapshot is transferred between
      nodes: logs match; a leader has every entry committed before; nodes commit
      the same commands at the same indices, as far as they have not compacted
      them; no node panics while the term counter has room. (Installing an old
      snapshot discards acknowledged entries, so the last condition is needed.)
      The AppendEntries handler merges a log as a reference function does; the leader
      commits only entries of its term stored by a joint majority; application is
      in order, once, and terminates; a restart recovers the node; a round does
      not panic, even when writes fail, on messages that respect what the node has
      committed; quorums of joint configurations meet. Also what goes wrong when a write of
      the term fails, when an old snapshot is installed, and in TimeoutNow.
    - Two-phase commit: a cross-shard rename never loses the file and reports
      success only when the destination exists; undisturbed it completes, and it
      refuses an existing destination.
    - Metadata: the commands of a master are deterministic, touch only the files
      they name, are idempotent where clients retry, and keep the table keyed by
      path but for one, which is characterised; safe mode ends when it should.
    - File service: whatever runs in between, each file RPC answers and changes
      the state as an abstract specification allows; a tiering scan moves
      exactly the cold files.
    - Sharding: what split, merge, addition and removal of shards do to routing;
      a new shard gets the masters heard from last; a refreshed shard map has
      the shards and peers of the configuration server.
    - Client: a block is read while one replica answers; ranges are cut and
      joined correctly.
    - The whole system: a file that was written is read back byte for byte after
      the loss of all but one of its replicas, or of as many shards as it has
      parity shards.
    - Placement and healing: replicas are spread over racks; healing sends only
      useful commands and enough of them; a silent server is replaced; the
      chunk servers that carry the commands out restore the replicas and shards.
    - Chunk server and erasure coding: what is written is read back, lost shards
      are restored; once the chunk server knows a term, masters of earlier terms
      are fenced off, however requests are interleaved. Comparing and storing a
      term are two operations, and two requests at the same time can lower the
      known term.
    - Checker: the search decides linearizability of histories with renames,
      and accepts what the workload generator records of a correct file store;
      a failure is always explained; the command that checks a history file
      reports what the search decides.
    - Transport: the HTTP routes and the posting tasks of the server binaries
      make only steps of the two networks that the proofs about Raft assume, the
      one of the elections and the one of the logs.
    - Command-line client: the signature of a URL it presigns verifies, with the
      credentials, region, endpoint and validity the command was given (the
      gateway refuses such a URL before, since it looks for a date header);
      downloads
      have the contents of the file; the write benchmark reports only when every
      file was written, and the latencies it reports are those of its sample.
    - Start: what becomes of the safe mode, of settings and of the identity
      configuration when a server starts, with the cases that go wrong.
    - Access: requests are passed on only when authentic; deny overrides allow;
      a presigned URL verifies; percent-encoding can be undone. Sessions: the
      token service gives credentials to whom the trust policy of a role
      accepts, and the middleware honours them until they expire, as long as it
      has no other session's key in its cache.
    - S3 gateway: an object is got back as it was put, whole or in the range
      asked for by its first byte, plain, chunked, encrypted or in parts; the
      pages of a listing without a start hold every file once that is not one of
      the gateway's own.
    - Audit log: the chain of hashes verifies after crashes, failed writes and
      deletions; a verified log with a known last hash was not tampered with, or
      the altered records contain a collision of the keyed hash; queries find and
      print exactly the matching records, up to the limit. Every request that has
      to authenticate hands one record to the logger.

    ** Not modelled

    TLS, telemetry, the counters of the gateway (iam_metrics.rs), the listeners
    and the gRPC transport, which call external libraries; the parsing of
    command lines, whose results are the arguments of the modelled commands;
    the XML and JSON texts, whose values are modelled; and the tests. *)

From Stdlib Require Export Ascii.
From stdpp Require Export base tactics option list numbers strings gmap fin_maps fin_sets sorting relations.

#[global] Set Default Goal Selector "!".

(** ** Tactics *)

(** [case_if] splits the first boolean or sumbool conditional, remembering it. *)
Ltac case_if :=
  match goal with
  | |- context [if ?b then _ else _] => let E := fresh "Hif" in destruct b eqn:E
  | H : context [if ?b then _ else _] |- _ => let E := fresh "Hif" in destruct b eqn:E
  end.

(** [split_conj] destructs conjunctions and existentials of the context. *)
Ltac split_conj :=
  repeat match goal with
  | H : _ ∧ _ |- _ => destruct H
  | H : ∃ _, _ |- _ => destruct H
  end.

(** ** Functional record update

    [r <| f := v |>] is the record [r] with field [f] set to [v]. A field is
    updatable when it has an [Upd] instance; [upd_tac] builds the instance
    from an eta-expansion of the record. *)
Class Upd {R T : Type} (proj : R → T) := upd : T → R → R.

Notation "r <| f := v |>" := (upd (proj := f) v r)
  (at level 12, left associativity, format "r  <| f  :=  v |>").

Ltac upd_tac eta proj :=
  let g := constr:(fun r => ltac:(
    let e := eval hnf in (eta r) in
    let p := eval pattern (proj r) in e in
    match p with ?h _ => exact h end)) in
  let g' := eval cbv beta in (fun v r => g r v) in
  exact g'.

(** ** Outcomes and the state-and-error monad

    A Rust method [fn m(&mut self, ..) -> Result<A>] is a function from the
    state to an outcome and the state it leaves behind. The state survives an
    [Err]: `?` returns early and keeps the mutations made so far. [Panic]
    stands for an out-of-range index, an underflowing [usize] subtraction, an
    overflowing addition or a failed [unwrap]. *)
Inductive outcome (A : Type) : Type :=
  | Ok (a : A)
  | Err (e : string)
  | Panic (why : string).
Arguments Ok {A} a.
Arguments Err {A} e.
Arguments Panic {A} why.

Definition no_panic {A} (o : outcome A) : Prop :=
  match o with Panic _ => False | _ => True end.

Definition is_ok {A} (o : outcome A) : bool :=
  match o with Ok _ => true | _ => false end.

Definition M (S A : Type) : Type := S → outcome A * S.

Definition ret {S A} (a : A) : M S A := λ s, (Ok a, s).
Definition fail {S A} (e : string) : M S A := λ s, (Err e, s).
Definition panic {S A} (why : string) : M S A := λ s, (Panic why, s).
Definition bind {S A B} (m : M S A) (k : A → M S B) : M S B := λ s,
  match m s with
  | (Ok a, s') => k a s'
  | (Err e, s') => (Err e, s')
  | (Panic w, s') => (Panic w, s')
  end.
Definition get {S} : M S S := λ s, (Ok s, s).
Definition put {S} (s' : S) : M S unit := λ _, (Ok tt, s').
Definition modify {S} (f : S → S) : M S unit := λ s, (Ok tt, f s).

(** [ignore_err m] is `if let Err(e) = m { tracing::error!(..) }`. *)
Definition ignore_err {S A} (m : M S A) : M S unit := λ s,
  match m s with
  | (Ok _, s') => (Ok tt, s')
  | (Err _, s') => (Ok tt, s')
  | (Panic w, s') => (Panic w, s')
  end.

(** [or_else m h] is `if let Err(e) = m { h(e) }` with a handler that may itself
    return early. *)
Definition or_else {S A} (m : M S A) (h : string → M S A) : M S A := λ s,
  match m s with
  | (Err e, s') => h e s'
  | r => r
  end.

Declare Scope outcome_scope.
Delimit Scope outcome_scope with outcome.
Notation "'let!' x ':=' c 'in' k" := (bind c (λ x, k))
  (at level 10, x name, c at level 200, k at level 200) : outcome_scope.
Notation "'do!' c 'in' k" := (bind c (λ _, k))
  (at level 10, c at level 200, k at level 200) : outcome_scope.
#[global] Open Scope outcome_scope.

(** A loop `for x in xs { body }` whose body may fail. *)
Fixpoint for_each {S A} (xs : list A) (body : A → M S unit) : M S unit :=
  match xs with
  | [] => ret tt
  | x :: xs => do! body x in for_each xs body
  end.

(** ** Reasoning about monadic code *)

Create HintDb dfs.

(** [np P I m s]: running [m] from [s] does not panic when [P] holds, and when it
    does not panic it leaves a state that satisfies [I], on success and on error. *)
Definition np {S A} (P : Prop) (I : S → Prop) (m : M S A) (s : S) : Prop :=
  (P → no_panic (m s).1) ∧ (no_panic (m s).1 → I (m s).2).

Section np.
Context {S : Type} (P : Prop) (I : S → Prop).

Lemma np_ret {A} (a : A) s : I s → np P I (ret a) s.
Proof. by split. Qed.
Lemma np_fail {A} e s : I s → np P I (fail (A := A) e) s.
Proof. by split. Qed.
Lemma np_modify f s : I (f s) → np P I (modify f) s.
Proof. by split. Qed.
Lemma np_put s s' : I s' → np P I (put s') s.
Proof. by split. Qed.
Lemma np_get_bind {B} (k : S → M S B) s : np P I (k s) s → np P I (bind get k) s.
Proof. done. Qed.

Lemma np_run {A} (m : M S A) s a s' : m s = (Ok a, s') → I s' → np P I m s.
Proof. unfold np. by intros ->. Qed.

Lemma np_bind {A B} (m : M S A) (k : A → M S B) s :
  np P I m s → (∀ a s', m s = (Ok a, s') → I s' → np P I (k a) s') → np P I (bind m k) s.
Proof.
  unfold np, bind. intros [Hp HI] Hk. destruct (m s) as [[a|e|w] s'] eqn:E; simpl in *; [|by split; auto|done].
  by apply Hk, HI.
Qed.

Lemma np_ignore_err {A} (m : M S A) s : np P I m s → np P I (ignore_err m) s.
Proof. unfold np, ignore_err. destruct (m s) as [[] ?]; simpl; naive_solver. Qed.

Lemma np_or_else {A} (m : M S A) h s :
  np P I m s → (∀ e s', m s = (Err e, s') → I s' → np P I (h e) s') → np P I (or_else m h) s.
Proof.
  unfold np, or_else. intros [Hp HI] Hh. destruct (m s) as [[a|e|w] s'] eqn:E; simpl in *; [done| |done].
  by apply Hh, HI.
Qed.

Lemma np_for_each {A} (xs : list A) (body : A → M S unit) s :
  I s → (∀ x s', x ∈ xs → I s' → np P I (body x) s') → np P I (for_each xs body) s.
Proof.
  revert s. induction xs as [|x xs IH]; intros s Hs H; simpl; [by apply np_ret|].
  apply np_bind; [apply H; set_solver|]. intros ? ? _ ?. apply IH; set_solver.
Qed.
End np.

Ltac np_step :=
  match goal with
  | |- np ?P ?I (ret _) _ => apply (np_ret P I)
  | |- np ?P ?I (fail _) _ => apply (np_fail P I)
  | |- np ?P ?I (modify _) _ => apply (np_modify P I)
  | |- np ?P ?I (put _) _ => apply (np_put P I)
  | |- np ?P ?I (bind get _) _ => apply (np_get_bind P I)
  | |- np ?P ?I (bind _ _) _ => apply (np_bind P I); [|intros ? ? ? ?]
  | |- np ?P ?I (ignore_err _) _ => apply (np_ignore_err P I)
  | |- np ?P ?I (or_else _ _) _ => apply (np_or_else P I); [|intros ? ? ? ?]
  | |- np ?P ?I (for_each _ _) _ => apply (np_for_each P I); [|intros ? ? ? ?]
  | |- np ?P ?I (if ?b then _ else _) _ => let H := fresh "Hif" in destruct b eqn:H
  | |- np ?P ?I (match ?x with _ => _ end) _ => let H := fresh "Hm" in destruct x eqn:H
  | |- np ?P ?I (let _ := _ in _) _ => cbv zeta
  end.

(** [ne m s]: running [m] from [s] does not return an error. *)
Definition ne {S A} (m : M S A) (s : S) : Prop := ∀ e s', m s ≠ (Err e, s').

Lemma ne_bind {S A B} (m : M S A) (k : A → M S B) s :
  ne m s → (∀ a s', ne (k a) s') → ne (bind m k) s.
Proof.
  intros Hm Hk e s'. unfold bind. destruct (m s) as [[a|e'|w] s1] eqn:Hr; [apply Hk| |done].
  intros [= <- <-]. by apply Hm in Hr.
Qed.

Lemma ne_ignore_err {S A} (m : M S A) s : ne (ignore_err m) s.
Proof. intros e s'. unfold ignore_err. by destruct (m s) as [[] ?]. Qed.

Ltac ne_step :=
  match goal with
  | |- ne (bind _ _) _ => apply ne_bind; [|intros ? ?]
  | |- ne (ignore_err _) _ => apply ne_ignore_err
  | |- ne (match ?x with _ => _ end) _ => destruct x
  | |- ne (if ?b then _ else _) _ => destruct b
  | |- ne _ _ => by intros ? ?
  end.

(** [kp R m s]: running [m] from [s] relates [s] to the state left behind by
    [R], on success and on error. After a panic the state is not used again. *)
Definition kp {S A} (R : S → S → Prop) (m : M S A) (s : S) : Prop :=
  match m s with (Panic _, _) => True | (_, s') => R s s' end.

Section kp.
Context {S : Type} (R : S → S → Prop) `{!PreOrder R}.

Lemma kp_ret {A} (a : A) s : kp R (ret a) s.
Proof. unfold kp. simpl. reflexivity. Qed.
Lemma kp_fail {A} e s : kp R (fail (A := A) e) s.
Proof. unfold kp. simpl. reflexivity. Qed.
Lemma kp_panic {A} e s : kp R (panic (A := A) e) s.
Proof. unfold kp. simpl. reflexivity. Qed.
Lemma kp_modify f s : R s (f s) → kp R (modify f) s.
Proof. done. Qed.
Lemma kp_put s s' : R s s' → kp R (put s') s.
Proof. done. Qed.
Lemma kp_get_bind {B} (k : S → M S B) s : kp R (k s) s → kp R (bind get k) s.
Proof. done. Qed.

Lemma kp_bind {A B} (m : M S A) (k : A → M S B) s :
  kp R m s → (∀ a s', m s = (Ok a, s') → kp R (k a) s') → kp R (bind m k) s.
Proof.
  unfold kp, bind. intros Hm Hk. destruct (m s) as [[a|e|w] s'] eqn:E; [|done..].
  specialize (Hk a s' eq_refl). destruct (k a s') as [[] ?]; [by etrans..|done].
Qed.

Lemma kp_ok {A} (m : M S A) s a s' : kp R m s → m s = (Ok a, s') → R s s'.
Proof. unfold kp. by intros ? Hm; rewrite Hm in *. Qed.

Lemma kp_ignore_err {A} (m : M S A) s : kp R m s → kp R (ignore_err m) s.
Proof. unfold kp, ignore_err. by destruct (m s) as [[] ?]. Qed.

Lemma kp_or_else {A} (m : M S A) h s :
  kp R m s → (∀ e s', m s = (Err e, s') → kp R (h e) s') → kp R (or_else m h) s.
Proof.
  unfold kp, or_else. intros Hm Hh. destruct (m s) as [[a|e|w] s'] eqn:E; [done| |done].
  specialize (Hh e s' eq_refl). destruct (h e s') as [[] ?]; [by etrans..|done].
Qed.

Lemma kp_for_each {A} (xs : list A) (body : A → M S unit) s :
  (∀ x s', x ∈ xs → kp R (body x) s') → kp R (for_each xs body) s.
Proof.
  revert s. induction xs as [|x xs IH]; intros s H; simpl; [apply kp_ret|].
  apply kp_bind; [apply H; set_solver|]. intros ? ? _. apply IH. set_solver.
Qed.
End kp.

(** [kp_step] decomposes one construct of monadic code; [kp] closes the code
    whose pieces are in the hint database. *)
Ltac kp_step :=
  match goal with
  | |- kp ?R (ret _) _ => apply (kp_ret R)
  | |- kp ?R (fail _) _ => apply (kp_fail R)
  | |- kp ?R (panic _) _ => apply (kp_panic R)
  | |- kp ?R (modify _) _ => apply (kp_modify R)
  | |- kp ?R (put _) _ => apply (kp_put R)
  | |- kp ?R (bind get _) _ => apply (kp_get_bind R)
  | |- kp ?R (bind _ _) _ => apply (kp_bind R); [|intros ? ? ?]
  | |- kp ?R (ignore_err _) _ => apply (kp_ignore_err R)
  | |- kp ?R (or_else _ _) _ => apply (kp_or_else R); [|intros ? ? ?]
  | |- kp ?R (for_each _ _) _ => apply (kp_for_each R); intros ? ? ?
  | |- kp ?R (if ?b then _ else _) _ => let H := fresh "Hif" in destruct b eqn:H
  | |- kp ?R (match ?x with _ => _ end) _ => let H := fresh "Hm" in destruct x eqn:H
  | |- kp ?R (let _ := _ in _) _ => cbv zeta
  end.
Ltac kp := repeat (first [solve [eauto 2 with dfs nocore] | kp_step]).

Lemma bind_ok {S A B} (m : M S A) (k : A → M S B) s a s' :
  m s = (Ok a, s') → bind m k s = k a s'.
Proof. unfold bind. by intros ->. Qed.

Lemma bind_ok_inv {S A B} (m : M S A) (k : A → M S B) s b s' :
  bind m k s = (Ok b, s') → ∃ a s1, m s = (Ok a, s1) ∧ k a s1 = (Ok b, s').
Proof. unfold bind. destruct (m s) as [[]]; naive_solver. Qed.

Lemma is_ok_run {S} (m : M S unit) s : is_ok (m s).1 = true → m s = (Ok tt, (m s).2).
Proof. by destruct (m s) as [[[]| |] ?]. Qed.

(** [inv_ok] inverts every hypothesis that says a computation succeeded. *)
Ltac inv_ok :=
  repeat match goal with
  | H : bind get _ ?s = (Ok _, _) |- _ => change (bind get ?k s) with (k s s) in H; cbv beta in H
  | H : bind (modify ?f) ?k ?s = (Ok ?b, ?s') |- _ =>
      change (k tt (f s) = (Ok b, s')) in H; cbv beta in H
  | H : bind _ _ _ = (Ok _, _) |- _ =>
      let a := fresh "a" in let s1 := fresh "s" in let H1 := fresh "Hrun" in
      apply bind_ok_inv in H as (a & s1 & H1 & H); cbv beta in H
  | H : ret _ _ = (Ok _, _) |- _ => first [injection H as ? ? | injection H as ?]; subst
  | H : put _ _ = (Ok _, _) |- _ => first [injection H as ? ? | injection H as ?]; subst
  | H : modify _ _ = (Ok _, _) |- _ => first [injection H as ? ? | injection H as ?]; subst
  | H : fail _ _ = (Ok _, _) |- _ => discriminate H
  | H : panic _ _ = (Ok _, _) |- _ => discriminate H
  | H : (if ?b then _ else _) _ = (Ok _, _) |- _ => let E := fresh "Hif" in destruct b eqn:E
  | H : (match ?x with _ => _ end) _ = (Ok _, _) |- _ => let E := fresh "Hm" in destruct x eqn:E
  end.

(** ** Lists *)

(** Rust's [Vec::truncate], [Vec::resize] and [Iterator::position]. *)
Definition truncate {A} (n : nat) (l : list A) : list A := take n l.
Definition resize_vec {A} (n : nat) (x : A) (l : list A) : list A :=
  take n l ++ replicate (n - length l) x.
Fixpoint position {A} (f : A → bool) (l : list A) : option nat :=
  match l with
  | [] => None
  | x :: l => if f x then Some 0 else S <$> position f l
  end.

Lemma length_resize_vec {A} n (x : A) l : length (resize_vec n x l) = n.
Proof. unfold resize_vec. rewrite length_app, length_take, length_replicate. lia. Qed.

Lemma position_lt {A} (f : A → bool) l i : position f l = Some i → i < length l.
Proof.
  revert i. induction l as [|x l IH]; intros i; simpl; [done|].
  case_if; [naive_solver lia|]. intros (j & Hj & ->)%fmap_Some.
  apply IH in Hj. lia.
Qed.

Lemma position_Some {A} (f : A → bool) l i :
  position f l = Some i → ∃ x, l !! i = Some x ∧ f x = true.
Proof.
  revert i. induction l as [|x l IH]; intros i; simpl; [done|].
  case_if; [intros [= <-]; eauto|]. intros (j & Hj & ->)%fmap_Some. by apply IH.
Qed.

Lemma find_Some_elem {A} (f : A → bool) l x : List.find f l = Some x → x ∈ l ∧ f x = true.
Proof. intros [H ?]%List.find_some. by rewrite list_elem_of_In. Qed.

Lemma filter_all_id {A} (P : A → Prop) `{∀ x, Decision (P x)} (l : list A) :
  (∀ x, x ∈ l → P x) → filter P l = l.
Proof.
  induction l as [|x l IH]; intros Hall; [done|]. rewrite filter_cons_True by (apply Hall; by left).
  f_equal. apply IH. intros y ?. apply Hall. by right.
Qed.

(** ** Strings: Rust [str] is a byte string, ordered lexicographically by byte. *)

Lemma ascii_compare_lt_trans a b c :
  Ascii.compare a b = Lt → Ascii.compare b c = Lt → Ascii.compare a c = Lt.
Proof. unfold Ascii.compare. rewrite !N.compare_lt_iff. lia. Qed.

Lemma ascii_compare_eq a b : Ascii.compare a b = Eq → a = b.
Proof. apply Ascii.compare_eq_iff. Qed.

Lemma ascii_compare_refl a : Ascii.compare a a = Eq.
Proof. unfold Ascii.compare. apply N.compare_refl. Qed.

Lemma string_compare_refl s : String.compare s s = Eq.
Proof. induction s as [|a s IH]; simpl; [done|]. by rewrite ascii_compare_refl. Qed.

Lemma string_leb_refl s : String.leb s s = true.
Proof. unfold String.leb. by rewrite string_compare_refl. Qed.

Lemma string_compare_lt_trans s1 s2 s3 :
  String.compare s1 s2 = Lt → String.compare s2 s3 = Lt → String.compare s1 s3 = Lt.
Proof.
  revert s2 s3. induction s1 as [|a s1 IH]; intros [|b s2] [|c s3]; simpl; try done.
  destruct (Ascii.compare a b) eqn:Hab; [|intros _|done].
  - apply ascii_compare_eq in Hab as ->. destruct (Ascii.compare b c) eqn:?; [by apply IH|done..].
  - destruct (Ascii.compare b c) eqn:Hbc; [|intros _|done].
    + apply ascii_compare_eq in Hbc as ->. by rewrite Hab.
    + by rewrite (ascii_compare_lt_trans a b c).
Qed.

Lemma string_leb_trans s1 s2 s3 :
  String.leb s1 s2 = true → String.leb s2 s3 = true → String.leb s1 s3 = true.
Proof.
  unfold String.leb.
  destruct (String.compare s1 s2) eqn:H12; [|intros _|done];
    [by apply String.compare_eq_iff in H12 as ->|].
  destruct (String.compare s2 s3) eqn:H23; [|intros _|done].
  - apply String.compare_eq_iff in H23 as ->. by rewrite H12.
  - by rewrite (string_compare_lt_trans s1 s2 s3).
Qed.

(** Every string is at most any of its extensions. *)
Lemma string_leb_app s t : String.leb s (s +:+ t) = true.
Proof.
  unfold String.leb. induction s as [|a s IH]; simpl; [by destruct t|].
  by rewrite ascii_compare_refl.
Qed.

(** ** Stable sorting

    `sort_by_key` of a slice: insertion sort, the order of equal keys kept.
    [leb x y] says that [x] may stand before [y]. *)
Section sort_by.
Context {A : Type} (leb : A → A → bool).

Fixpoint insert_by (x : A) (l : list A) : list A :=
  match l with
  | [] => [x]
  | y :: l => if leb x y then x :: y :: l else y :: insert_by x l
  end.

Definition sort_by (l : list A) : list A := foldr insert_by [] l.

Lemma insert_by_perm x l : insert_by x l ≡ₚ x :: l.
Proof.
  induction l as [|y l IH]; simpl; [done|]. destruct (leb x y); [done|].
  rewrite IH. apply Permutation_swap.
Qed.

Lemma sort_by_perm l : sort_by l ≡ₚ l.
Proof. induction l as [|x l IH]; simpl; [done|]. by rewrite insert_by_perm, IH. Qed.

Context (leb_total : ∀ x y, leb x y = true ∨ leb y x = true)
        (leb_trans : ∀ x y z, leb x y = true → leb y z = true → leb x z = true).

Lemma insert_by_sorted x l :
  StronglySorted (λ x y, leb x y = true) l → StronglySorted (λ x y, leb x y = true) (insert_by x l).
Proof.
  induction 1 as [|y l Hl IH Hy]; simpl; [by repeat constructor|].
  destruct (leb x y) eqn:E; constructor; [by constructor| |done|].
  - constructor; [done|]. eapply Forall_impl; [exact Hy|]. intros z Hz. by eapply leb_trans.
  - rewrite (insert_by_perm x l). constructor; [|done].
    destruct (leb_total x y) as [H|H]; congruence.
Qed.

Lemma sort_by_sorted l : StronglySorted (λ x y, leb x y = true) (sort_by l).
Proof. induction l as [|x l IH]; simpl; [constructor|by apply insert_by_sorted]. Qed.

End sort_by.

#[global] Instance mjoin_perm {A} : Proper ((≡ₚ) ==> (≡ₚ)) (mjoin (A := A) (M := list)).
Proof.
  induction 1 as [|x l l' _ IH|x y l|l1 l2 l3 _ IH1 _ IH2]; simpl; [done|by rewrite IH| |by etrans].
  by rewrite !app_assoc, (Permutation_app_comm x y).
Qed.

(** ** Iterating over a HashMap

    The order in which a HashMap yields its entries is not specified; the
    definitions that iterate over one take it as an instance of this class. *)
Class HashOrder := {
  entries : ∀ {A : Type}, gmap string A → list (string * A);
  entries_perm : ∀ {A : Type} (m : gmap string A), entries m ≡ₚ map_to_list m;
}.

(** The order of the model's own maps; used to evaluate examples. *)
Definition map_order : HashOrder := {| entries := λ A m, map_to_list m; entries_perm := λ A m, reflexivity _ |}.

Lemma elem_of_entries `{HashOrder} {A} (m : gmap string A) k a :
  (k, a) ∈ entries m ↔ m !! k = Some a.
Proof. by rewrite entries_perm, elem_of_map_to_list. Qed.

Lemma NoDup_entries `{HashOrder} {A} (m : gmap string A) : NoDup (entries m).*1.
Proof. rewrite entries_perm. apply NoDup_fst_map_to_list. Qed.
