(* ===== verification/BTree.v ===== *)
(** * Ordered maps

    Rust's [BTreeMap<K, V>] as a strictly sorted association list: what
    [ShardMap] uses of it (insert, remove, get, ordered iteration and the
    [range(k..).next()] query), with the facts its clients need. *)

From S2P Require Import Prelude.

(** What a key type promises: a decidable total order. *)
Class OrdKey (K : Type) `{EqDecision K} := {
  key_leb : K → K → bool;
  key_leb_refl k : key_leb k k = true;
  key_leb_trans k1 k2 k3 : key_leb k1 k2 = true → key_leb k2 k3 = true → key_leb k1 k3 = true;
  key_leb_antisym k1 k2 : key_leb k1 k2 = true → key_leb k2 k1 = true → k1 = k2;
  key_leb_total k1 k2 : key_leb k1 k2 = true ∨ key_leb k2 k1 = true;
}.

#[global] Arguments key_leb {_ _ _} _ _ : simpl never.

#[global] Instance string_ord_key : OrdKey string := {
  key_leb := String.leb;
  key_leb_refl := string_leb_refl;
  key_leb_trans := string_leb_trans;
  key_leb_antisym := String.leb_antisym;
  key_leb_total := String.leb_total;
}.

#[global] Program Instance N_ord_key : OrdKey N := { key_leb := N.leb }.
Next Obligation. apply N.leb_refl. Qed.
Next Obligation. intros ???. rewrite !N.leb_le. lia. Qed.
Next Obligation. intros ??. rewrite !N.leb_le. lia. Qed.
Next Obligation. intros ??. rewrite !N.leb_le. lia. Qed.

Definition key_le {K} `{OrdKey K} (a b : K) : Prop := key_leb a b = true.
Definition key_lt {K} `{OrdKey K} (a b : K) : Prop := key_leb a b = true ∧ a ≠ b.

#[global] Instance key_le_dec {K} `{OrdKey K} (a b : K) : Decision (key_le a b).
Proof. unfold key_le. apply _. Defined.

Section btree.
Context {K V : Type} `{OrdKey K}.
Implicit Types (m : list (K * V)) (k : K) (v : V).

Fixpoint bt_insert k v m : list (K * V) :=
  match m with
  | [] => [(k, v)]
  | (k', v') :: m' =>
      if decide (k = k') then (k, v) :: m'
      else if key_leb k k' then (k, v) :: m
      else (k', v') :: bt_insert k v m'
  end.

Definition bt_remove k m : list (K * V) := filter (λ e, e.1 ≠ k) m.

Fixpoint bt_get k m : option V :=
  match m with
  | [] => None
  | (k', v) :: m' => if decide (k = k') then Some v else bt_get k m'
  end.

Definition bt_contains k m : bool := bool_decide (is_Some (bt_get k m)).

(** `m.range(k..).next()`: the entry with the least key that is at least [k]. *)
Definition bt_ceiling k m : option (K * V) := List.find (λ e, key_leb k e.1) m.

Definition bt_wf m : Prop := StronglySorted key_lt m.*1.

Lemma key_lt_irrefl k : ¬ key_lt k k.
Proof. by intros [_ ?]. Qed.
Lemma key_lt_trans (a b c : K) : key_lt a b → key_lt b c → key_lt a c.
Proof.
  intros [??] [??]. split; [by eapply key_leb_trans|].
  intros ->. eauto using key_leb_antisym.
Qed.
Lemma key_not_le (a b : K) : ¬ key_le a b → key_lt b a.
Proof.
  unfold key_le, key_lt. destruct (key_leb_total a b); [done|].
  split; [done|]. intros ->. by rewrite key_leb_refl in *.
Qed.
Lemma key_lt_not_le (a b : K) : key_lt a b → ¬ key_le b a.
Proof. intros [??] ?. eauto using key_leb_antisym. Qed.

Lemma bt_get_elem k v m : bt_get k m = Some v → (k, v) ∈ m.
Proof.
  induction m as [|[k' v'] m IH]; simpl; [done|]. case_decide; set_solver.
Qed.

Lemma bt_get_None k m : bt_get k m = None ↔ k ∉ m.*1.
Proof.
  induction m as [|[k' v'] m IH]; simpl; [set_solver|].
  case_decide; subst; set_solver.
Qed.

Lemma elem_bt_get k v m : bt_wf m → (k, v) ∈ m → bt_get k m = Some v.
Proof.
  unfold bt_wf. induction m as [|[k' v'] m IH]; simpl; [set_solver|].
  rewrite StronglySorted_cons, Forall_forall, elem_of_cons. intros [Hlt Hs] [[= -> ->]|Hin].
  - by rewrite decide_True.
  - rewrite decide_False; [by apply IH|]. intros ->.
    apply (key_lt_irrefl k'), Hlt, list_elem_of_fmap. by exists (k', v).
Qed.

Lemma bt_insert_keys k v m k' : k' ∈ (bt_insert k v m).*1 ↔ k' = k ∨ k' ∈ m.*1.
Proof.
  induction m as [|[k1 v1] m IH]; simpl; [set_solver|].
  repeat case_decide; subst; simpl; [set_solver|].
  destruct (key_leb k k1); simpl; set_solver.
Qed.

Lemma bt_insert_wf k v m : bt_wf m → bt_wf (bt_insert k v m).
Proof.
  unfold bt_wf. induction m as [|[k1 v1] m IH]; simpl; [by repeat constructor|].
  rewrite StronglySorted_cons. intros [Hlt Hs].
  case_decide as Hk; subst; simpl; [by constructor|].
  destruct (key_leb k k1) eqn:Hle; simpl; constructor; eauto.
  - by constructor.
  - constructor; [by split|]. rewrite Forall_forall in *. intros x ?.
    eapply key_lt_trans; [by split|]. by apply Hlt.
  - rewrite Forall_forall in *. intros x [->|?]%bt_insert_keys; [|by apply Hlt].
    apply key_not_le. unfold key_le. by rewrite Hle.
Qed.

Lemma bt_get_insert_eq k v m : bt_get k (bt_insert k v m) = Some v.
Proof.
  induction m as [|[k1 v1] m IH]; simpl; [by rewrite decide_True|].
  repeat case_decide; subst; simpl; [by rewrite decide_True|].
  destruct (key_leb k k1); simpl; [by rewrite decide_True|by rewrite decide_False].
Qed.

Lemma bt_get_insert_ne k k' v m : k' ≠ k → bt_get k' (bt_insert k v m) = bt_get k' m.
Proof.
  intros Hne. induction m as [|[k1 v1] m IH]; simpl; [by rewrite decide_False|].
  destruct (decide (k = k1)); subst; simpl; [by rewrite !decide_False|].
  destruct (key_leb k k1); simpl; [by rewrite decide_False|]. by rewrite IH.
Qed.

Lemma bt_remove_wf k m : bt_wf m → bt_wf (bt_remove k m).
Proof.
  unfold bt_wf, bt_remove. induction m as [|[k1 v1] m IH]; simpl; [done|].
  rewrite StronglySorted_cons. intros [Hlt Hs]. rewrite filter_cons. case_decide; [|by apply IH].
  simpl. constructor; [by apply IH|].
  rewrite Forall_forall in *. intros x ([??]&->&[_ Hin]%list_elem_of_filter)%list_elem_of_fmap.
  apply Hlt, list_elem_of_fmap. eauto.
Qed.

Lemma bt_get_remove_eq k m : bt_get k (bt_remove k m) = None.
Proof.
  apply bt_get_None. unfold bt_remove.
  intros ([??]&->&[Hne _]%list_elem_of_filter)%list_elem_of_fmap. done.
Qed.

Lemma bt_get_remove_ne k k' m : k' ≠ k → bt_get k' (bt_remove k m) = bt_get k' m.
Proof.
  intros Hne. unfold bt_remove. induction m as [|[k1 v1] m IH]; simpl; [done|].
  rewrite filter_cons. simpl.
  destruct (decide (k1 = k)) as [->|?].
  - rewrite decide_False by (by intros ?). by rewrite decide_False.
  - rewrite decide_True by done. simpl. by rewrite IH.
Qed.

(** [bt_ceiling k m] is the entry of least key among those at least [k]. *)
Lemma bt_ceiling_Some k m k' v :
  bt_wf m →
  bt_ceiling k m = Some (k', v) ↔
    bt_get k' m = Some v ∧ key_le k k' ∧ ∀ k'', is_Some (bt_get k'' m) → key_le k k'' → key_le k' k''.
Proof.
  unfold bt_wf, bt_ceiling, key_le. induction m as [|[k1 v1] m IH]; simpl; [naive_solver|].
  rewrite StronglySorted_cons, Forall_forall. intros [Hlt Hs].
  destruct (key_leb k k1) eqn:Hk; simpl.
  - split.
    + intros [= -> ->]. rewrite decide_True by done. split_and!; [done..|].
      intros k'' [v'' Hv'']. case_decide; subst; [by rewrite key_leb_refl|]. intros _.
      apply Hlt, list_elem_of_fmap. exists (k'', v''). by eauto using bt_get_elem.
    + intros (Hget & Hle & Hmin). case_decide; simplify_eq; [done|].
      assert (key_leb k' k1 = true) as Hle'.
      { apply Hmin; [|done]. rewrite decide_True by done. eauto. }
      assert (key_lt k1 k') as Hlt'.
      { apply Hlt, list_elem_of_fmap. exists (k', v). by eauto using bt_get_elem. }
      by destruct (key_lt_not_le _ _ Hlt').
  - rewrite IH by done. split.
    + intros (Hget & Hle & Hmin). rewrite decide_False by (intros ->; congruence).
      split_and!; [done..|]. intros k'' Hk'' ?. apply Hmin; [|done].
      rewrite decide_False in Hk'' by (intros ->; congruence). done.
    + intros (Hget & Hle & Hmin). rewrite decide_False in Hget by (intros ->; congruence).
      split_and!; [done..|]. intros k'' Hk'' ?. apply Hmin; [|done].
      rewrite decide_False by (intros ->; congruence). done.
Qed.

Lemma bt_ceiling_None k m :
  bt_ceiling k m = None ↔ ∀ k', k' ∈ m.*1 → ¬ key_le k k'.
Proof.
  unfold bt_ceiling, key_le. induction m as [|[k1 v1] m IH]; simpl; [set_solver|].
  destruct (key_leb k k1) eqn:Hk; simpl.
  2: { rewrite IH. split; intros Hn k'; [|intros; apply Hn; by right].
       intros [->|?]%elem_of_cons; [by rewrite Hk|by apply Hn]. }
  split; [done|]. intros Hn. destruct (Hn k1); [by left|done].
Qed.

Lemma bt_contains_spec k m : bt_contains k m = true ↔ k ∈ m.*1.
Proof.
  unfold bt_contains. rewrite bool_decide_eq_true, <-not_eq_None_Some, bt_get_None.
  split; [|by intros ? ?]. intros Hn. destruct (decide (k ∈ m.*1)); [done|]. by destruct Hn.
Qed.

Lemma bt_get_is_Some k m : is_Some (bt_get k m) ↔ k ∈ m.*1.
Proof. rewrite <-bt_contains_spec. unfold bt_contains. by rewrite bool_decide_eq_true. Qed.
End btree.
