(* ===== verification/Text.v ===== *)
(** * Text: the string functions the gateway uses

    `str::split`, `join`, `trim`, `split_whitespace`, `contains` and the URI
    encoding of dfs/common/src/auth/encoding.rs, on byte strings. White space
    and case are those of ASCII, which is what HTTP header values consist of. *)

From S2P Require Import Prelude.

(** ** Splitting and joining *)

(** `s.split(c)`: never empty. *)
Fixpoint split_on (c : ascii) (s : string) : list string :=
  match s with
  | EmptyString => [""]
  | String a s =>
      if decide (a = c) then "" :: split_on c s
      else match split_on c s with
           | [] => [String a ""]
           | p :: ps => String a p :: ps
           end
  end.

(** `parts.join(sep)`. *)
Fixpoint join (sep : string) (parts : list string) : string :=
  match parts with
  | [] => ""
  | [p] => p
  | p :: ps => p +:+ sep +:+ join sep ps
  end.

(** `s.splitn(2, c)`: the part before the first [c] and the part after it. *)
Fixpoint split_once (c : ascii) (s : string) : string * option string :=
  match s with
  | EmptyString => ("", None)
  | String a s =>
      if decide (a = c) then ("", Some s)
      else let '(k, v) := split_once c s in (String a k, v)
  end.

(** `s.contains(sub)`. *)
Fixpoint contains (sub s : string) : bool :=
  String.prefix sub s || match s with EmptyString => false | String _ s => contains sub s end.

Definition is_space (a : ascii) : bool :=
  let n := nat_of_ascii a in ((9 <=? n) && (n <=? 13))%nat || (n =? 32)%nat.

Fixpoint trim_start (s : string) : string :=
  match s with
  | EmptyString => ""
  | String a s' => if is_space a then trim_start s' else s
  end.

Fixpoint trim_end (s : string) : string :=
  match s with
  | EmptyString => ""
  | String a s => let t := trim_end s in
                  if is_space a && bool_decide (t = "") then "" else String a t
  end.

(** `s.trim()`. *)
Definition trim (s : string) : string := trim_end (trim_start s).

(** `s.split_whitespace()`. *)
Definition split_whitespace (s : string) : list string :=
  let fix words (s : string) : list string :=
    match s with
    | EmptyString => [""]
    | String a s => if is_space a then "" :: words s
                    else match words s with [] => [String a ""] | w :: ws => String a w :: ws end
    end in
  List.filter (λ w, negb (bool_decide (w = ""))) (words s).

(** `s.to_lowercase()` and `s.to_uppercase()` on ASCII letters. *)
Definition lower (a : ascii) : ascii :=
  let n := nat_of_ascii a in if ((65 <=? n) && (n <=? 90))%nat then ascii_of_nat (n + 32) else a.
Definition upper (a : ascii) : ascii :=
  let n := nat_of_ascii a in if ((97 <=? n) && (n <=? 122))%nat then ascii_of_nat (n - 32) else a.
Fixpoint map_string (f : ascii → ascii) (s : string) : string :=
  match s with EmptyString => "" | String a s => String (f a) (map_string f s) end.

(** ** URI encoding *)

Definition hex_digit (n : N) : ascii :=
  if (n <? 10)%N then ascii_of_N (48 + n) else ascii_of_N (55 + n).

(** `b'A'..=b'Z' | b'a'..=b'z' | b'0'..=b'9' | b'_' | b'.' | b'-' | b'~'`. *)
Definition unreserved (a : ascii) : bool :=
  let n := N_of_ascii a in
  (((65 <=? n) && (n <=? 90)) || ((97 <=? n) && (n <=? 122)) || ((48 <=? n) && (n <=? 57))
   || (n =? 95) || (n =? 46) || (n =? 45) || (n =? 126))%N.

(** One byte. [src/dfs/common/src/auth/encoding.rs:9-25 uri_encode] *)
Definition encode_byte (encode_slash : bool) (a : ascii) : string :=
  if unreserved a then String a ""
  else if decide (a = "/"%char) then if encode_slash then "%2F" else "/"
  else String "%" (String (hex_digit (N_of_ascii a / 16)) (String (hex_digit (N_of_ascii a `mod` 16)) "")).

(** [src/dfs/common/src/auth/encoding.rs:7-28 uri_encode] *)
Fixpoint uri_encode (encode_slash : bool) (s : string) : string :=
  match s with
  | EmptyString => ""
  | String a s => encode_byte encode_slash a +:+ uri_encode encode_slash s
  end.

(** The value of a hexadecimal digit. *)
Definition hex_value (a : ascii) : option N :=
  let n := N_of_ascii a in
  if ((48 <=? n) && (n <=? 57))%N then Some (n - 48)%N
  else if ((65 <=? n) && (n <=? 70))%N then Some (n - 55)%N
  else if ((97 <=? n) && (n <=? 102))%N then Some (n - 87)%N
  else None.

(** Percent-decoding as RFC 3986 describes it: what a receiver does. *)
Fixpoint percent_decode (s : string) : string :=
  match s with
  | EmptyString => ""
  | String a s1 =>
      if decide (a = "%"%char) then
        match s1 with
        | String h (String l s2) =>
            match hex_value h, hex_value l with
            | Some x, Some y => String (ascii_of_N (16 * x + y)) (percent_decode s2)
            | _, _ => String a (percent_decode s1)
            end
        | _ => String a (percent_decode s1)
        end
      else String a (percent_decode s1)
  end.

(** Every byte is decoded to itself, checked for all 256 of them. *)
Definition all_bytes : list ascii := ascii_of_nat <$> seq 0 256.

Lemma all_bytes_complete a : a ∈ all_bytes.
Proof.
  apply list_elem_of_fmap. exists (nat_of_ascii a). split; [by rewrite ascii_nat_embedding|].
  apply elem_of_seq. pose proof (nat_ascii_bounded a). lia.
Qed.

Lemma all_bytes_check (P : ascii → bool) : forallb P all_bytes = true → ∀ a, P a = true.
Proof.
  intros H a. rewrite forallb_forall in H. apply H, list_elem_of_In, all_bytes_complete.
Qed.

(** The three shapes of an encoded byte. *)
Lemma encode_byte_shape slash a :
  (encode_byte slash a = String a "" ∧ a ≠ "%"%char) ∨
  ∃ h l x y, encode_byte slash a = String "%" (String h (String l "")) ∧
    hex_value h = Some x ∧ hex_value l = Some y ∧ ascii_of_N (16 * x + y) = a.
Proof.
  pose (P := λ a, let e := encode_byte slash a in
    match e with
    | String b "" => bool_decide (b = a) && negb (bool_decide (a = "%"%char))
    | String p (String h (String l "")) =>
        bool_decide (p = "%"%char) &&
        match hex_value h, hex_value l with
        | Some x, Some y => bool_decide (ascii_of_N (16 * x + y) = a)
        | _, _ => false
        end
    | _ => false
    end).
  assert (P a = true) as HP by (apply all_bytes_check; destruct slash; vm_compute; reflexivity).
  unfold P in HP. cbv zeta in HP.
  destruct (encode_byte slash a) as [|p [|h [|l [|]]]]; try done.
  - left. apply andb_true_iff in HP as [->%bool_decide_eq_true ?%negb_true_iff%bool_decide_eq_false]. done.
  - right. apply andb_true_iff in HP as [->%bool_decide_eq_true HP].
    destruct (hex_value h) as [x|] eqn:Hh; [|done]. destruct (hex_value l) as [y|] eqn:Hl; [|done].
    apply bool_decide_eq_true in HP. exists h, l, x, y. done.
Qed.

(** Percent-decoding inverts the URI encoding of any byte string, with or
    without encoded slashes: no two strings share an encoding. *)
Theorem uri_encode_roundtrip slash s : percent_decode (uri_encode slash s) = s.
Proof.
  induction s as [|a s IH]; [done|]. cbn [uri_encode].
  destruct (encode_byte_shape slash a) as [[-> Ha]|(h & l & x & y & -> & Hh & Hl & Hxy)].
  - change (String a "" +:+ uri_encode slash s) with (String a (uri_encode slash s)).
    cbn [percent_decode]. by rewrite decide_False, IH.
  - change (String "%" (String h (String l "")) +:+ uri_encode slash s) with
      (String "%" (String h (String l (uri_encode slash s)))).
    cbn [percent_decode]. rewrite decide_True, Hh, Hl by done. by rewrite Hxy, IH.
Qed.

(** ** Separators *)

(** The character [c] does not occur in [s]. *)
Fixpoint absent (c : ascii) (s : string) : bool :=
  match s with
  | EmptyString => true
  | String a s => negb (bool_decide (a = c)) && absent c s
  end.

Lemma absent_app c s t : absent c (s +:+ t) = absent c s && absent c t.
Proof. induction s as [|a s IH]; [done|]. simpl. rewrite <- andb_assoc. by rewrite <- IH. Qed.

Lemma append_assoc (s t u : string) : (s +:+ t) +:+ u = s +:+ (t +:+ u).
Proof. induction s as [|a s IH]; [done|]. exact (f_equal (String a) IH). Qed.

Lemma prefix_append s t : String.prefix s (s +:+ t) = true.
Proof.
  induction s as [|a s IH]; [by destruct t|]. change (String a s +:+ t) with (String a (s +:+ t)). simpl.
  by destruct (ascii_dec a a).
Qed.

Lemma split_on_absent c s : absent c s = true → split_on c s = [s].
Proof.
  induction s as [|a s IH]; [done|]. simpl. intros [Ha%negb_true_iff%bool_decide_eq_false Hs]%andb_true_iff.
  rewrite decide_False, IH by done. done.
Qed.

Lemma split_on_app c s t :
  absent c s = true → split_on c (s +:+ String c t) = s :: split_on c t.
Proof.
  induction s as [|a s IH]; intros H.
  - change ("" +:+ String c t) with (String c t). simpl. by rewrite decide_True.
  - change (String a s +:+ String c t) with (String a (s +:+ String c t)). simpl in H |- *.
    apply andb_true_iff in H as [Ha%negb_true_iff%bool_decide_eq_false Hs].
    by rewrite decide_False, IH.
Qed.

Lemma split_on_join c parts :
  parts ≠ [] → Forall (λ p, absent c p = true) parts → split_on c (join (String c "") parts) = parts.
Proof.
  intros Hne Hall. induction Hall as [|p parts Hp Hall IH]; [done|]. destruct parts as [|q parts].
  - simpl. by apply split_on_absent.
  - change (join (String c "") (p :: q :: parts)) with (p +:+ String c (join (String c "") (q :: parts))).
    by rewrite split_on_app, IH.
Qed.

Lemma split_once_app c k v : absent c k = true → split_once c (k +:+ String c v) = (k, Some v).
Proof.
  induction k as [|a k IH]; intros H.
  - change ("" +:+ String c v) with (String c v). simpl. by rewrite decide_True.
  - change (String a k +:+ String c v) with (String a (k +:+ String c v)). simpl in H |- *.
    apply andb_true_iff in H as [Ha%negb_true_iff%bool_decide_eq_false Hs].
    by rewrite decide_False, IH.
Qed.

(** Encoded text contains no separator of a query string. *)
Lemma uri_encode_absent c s :
  c ∈ ["&"; "="; ";"; ","; "/"]%char → absent c (uri_encode true s) = true.
Proof.
  intros Hc. induction s as [|a s IH]; [done|]. cbn [uri_encode]. rewrite absent_app, IH, andb_true_r.
  assert (forallb (λ c, absent c (encode_byte true a)) ["&"; "="; ";"; ","; "/"]%char = true) as H.
  { apply (all_bytes_check (λ a, forallb (λ c, absent c (encode_byte true a)) _)). vm_compute. reflexivity. }
  rewrite forallb_forall in H. by apply H, list_elem_of_In.
Qed.

Lemma join_snoc c parts q :
  parts ≠ [] → join (String c "") (parts ++ [q]) = join (String c "") parts +:+ String c q.
Proof.
  intros Hne. induction parts as [|x [|y parts] IH]; [done|done|].
  change (join (String c "") ((x :: y :: parts) ++ [q])) with
    (x +:+ String c (join (String c "") ((y :: parts) ++ [q]))). rewrite IH by done.
  change (join (String c "") (x :: y :: parts)) with (x +:+ String c (join (String c "") (y :: parts))).
  by rewrite append_assoc.
Qed.

Lemma contains_prefix sub s : String.prefix sub s = true → contains sub s = true.
Proof. intros H. destruct s; simpl in *; by rewrite H. Qed.

(** ** Prefixes and concatenation *)

Lemma compare_append s a b : String.compare (s +:+ a) (s +:+ b) = String.compare a b.
Proof.
  induction s as [|c s IH]; [done|]. change (String c s +:+ a) with (String c (s +:+ a)). change (String c s +:+ b) with (String c (s +:+ b)).
  cbn [String.compare]. by rewrite ascii_compare_refl.
Qed.

Lemma leb_append s a b : String.leb (s +:+ a) (s +:+ b) = String.leb a b.
Proof. unfold String.leb. by rewrite compare_append. Qed.

Lemma prefix_strip p s : String.prefix p s = true ↔ ∃ t, s = p +:+ t.
Proof.
  revert s. induction p as [|a p IH]; intros s; [split; [intros _; by exists s|by destruct s]|].
  destruct s as [|b s]; simpl; [split; [done|by intros [t [=]]]|]. destruct (ascii_dec a b) as [<-|Hne].
  - rewrite IH. split; intros [t Ht]; exists t; [by rewrite Ht|by injection Ht].
  - split; [done|]. by intros [t [= ->]].
Qed.

Lemma append_empty_r (s : string) : s +:+ "" = s.
Proof. induction s as [|a s IH]; [done|]. exact (f_equal (String a) IH). Qed.

Lemma append_ne_self (s t : string) : t ≠ "" → s +:+ t ≠ s.
Proof.
  intros Ht E. apply Ht. induction s as [|a s IH]; simpl in E; [done|]. injection E as E. by apply IH.
Qed.

Lemma append_inj_l (p s t : string) : p +:+ s = p +:+ t → s = t.
Proof. induction p as [|a p IH]; [done|]. intros H. injection H as H. by apply IH. Qed.

Lemma append_length (s t : string) : String.length (s +:+ t) = String.length s + String.length t.
Proof. induction s as [|a s IH]; [done|]. exact (f_equal S IH). Qed.

Lemma append_inj_length (s t s' t' : string) : String.length t = String.length t' → s +:+ t = s' +:+ t' → s = s' ∧ t = t'.
Proof.
  intros Hl. revert s'. induction s as [|a s IH]; intros [|b s'] E; [done|..].
  - apply (f_equal String.length) in E. rewrite !append_length in E. simpl in E. lia.
  - apply (f_equal String.length) in E. rewrite !append_length in E. simpl in E. lia.
  - injection E as -> E. by destruct (IH s' E) as [-> ->].
Qed.

Lemma prefix_trans a b f : String.prefix (a +:+ b) f = true → String.prefix a f = true.
Proof. intros [x ->]%prefix_strip. apply prefix_strip. exists (b +:+ x). by rewrite append_assoc. Qed.

Lemma prefix_refl p : String.prefix p p = true.
Proof. apply prefix_strip. exists "". by rewrite append_empty_r. Qed.

(** ** Values as text

    The binary digits of the number of a value; an encoding to evaluate examples
    with. *)
Fixpoint bits (p : positive) : string :=
  match p with xH => "." | xO p => String "0" (bits p) | xI p => String "1" (bits p) end.
Fixpoint number (s : string) : option positive :=
  match s with
  | String "0" s => xO <$> number s
  | String "1" s => xI <$> number s
  | String "." _ => Some xH
  | _ => None
  end.
Definition spell `{Countable A} (a : A) : string := bits (encode a).
Definition unspell `{Countable A} (s : string) : option A := number s ≫= decode.

Lemma unspell_spell `{Countable A} (a : A) : unspell (spell a) = Some a.
Proof.
  assert (∀ p, number (bits p) = Some p) as Hn by (induction p as [p IH|p IH|]; [cbn; by rewrite IH..|done]).
  unfold unspell, spell. rewrite Hn. apply decode_encode.
Qed.
