(* ===== verification/Sharding.v ===== *)
(** * Shard routing: dfs/common/src/sharding.rs

    [ShardMap] maps file paths to shards, by consistent hashing or by ranges of
    the key space. Ordered maps come from [BTree]; the two [HashMap]/[HashSet]
    fields are stdpp maps and sets. CRC32 (crate crc32fast) and the reader of
    the JSON configuration file are parameters. *)

From S2P Require Import Prelude BTree.
From stdpp Require Import pretty.

(** [src/dfs/common/src/sharding.rs:6-6 ShardId] *)
Definition ShardId : Type := string.

(** [src/dfs/common/src/sharding.rs:17-32 ShardingStrategy] *)
Inductive ShardingStrategy : Type :=
  | ConsistentHash (ring : list (N * string)) (virtual_nodes : nat)
  | Range (ranges : list (string * string)).

(** [src/dfs/common/src/sharding.rs:36-43 ShardMap] *)
Record ShardMap : Type := mkShardMap {
  strategy : ShardingStrategy;
  shards : gset string;
  shard_peers : gmap string (list string);
}.

(** The literal "\u{10FFFF}" of [add_shard] and [merge_shards], in UTF-8.
    [src/dfs/common/src/sharding.rs:98-98 MAX_KEY] *)
Definition max_key : string :=
  String "244"%char (String "143"%char (String "191"%char (String "191"%char ""))).

Section shard_map.
  Context (crc32 : string → N).

(** [src/dfs/common/src/sharding.rs:9-13 hash_key] *)
Definition hash_key (key : string) : N := crc32 key.

(** [src/dfs/common/src/sharding.rs:47-56 new_consistent_hash] *)
Definition new_consistent_hash (virtual_nodes : nat) : ShardMap :=
  mkShardMap (ConsistentHash [] virtual_nodes) ∅ ∅.

(** [src/dfs/common/src/sharding.rs:59-67 new_range] *)
Definition new_range : ShardMap := mkShardMap (Range []) ∅ ∅.

(** The virtual nodes of one shard, inserted into the ring.
    [src/dfs/common/src/sharding.rs:88-91 add_shard] *)
Definition ring_add (shard_id : string) (virtual_nodes : nat) (ring : list (N * string))
  : list (N * string) :=
  foldl (λ ring i, bt_insert (hash_key (shard_id +:+ ":" +:+ pretty i)) shard_id ring)
        ring (seq 0 virtual_nodes).

(** The range bookkeeping of a new shard.
    [src/dfs/common/src/sharding.rs:93-110 add_shard] *)
Definition range_add (shard_id : string) (ranges : list (string * string))
  : list (string * string) :=
  match ranges with
  | [] => bt_insert max_key shard_id []
  | [(_, old_shard)] => bt_insert max_key old_shard (bt_insert "/m" shard_id [])
  | _ => bt_insert ("z-" +:+ shard_id) shard_id ranges
  end.

(** [src/dfs/common/src/sharding.rs:70-112 add_shard] *)
Definition add_shard (m : ShardMap) (shard_id : string) (peers : list string) : ShardMap :=
  if decide (shard_id ∈ shards m) then
    mkShardMap (strategy m) (shards m) (<[shard_id := peers]> (shard_peers m))
  else
    mkShardMap
      match strategy m with
      | ConsistentHash ring vn => ConsistentHash (ring_add shard_id vn ring) vn
      | Range ranges => Range (range_add shard_id ranges)
      end
      ({[shard_id]} ∪ shards m)
      (<[shard_id := peers]> (shard_peers m)).

(** [src/dfs/common/src/sharding.rs:114-116 has_shard] *)
Definition has_shard (m : ShardMap) (shard_id : string) : bool :=
  bool_decide (shard_id ∈ shards m).

(** [src/dfs/common/src/sharding.rs:118-120 get_peers] *)
Definition get_peers (m : ShardMap) (shard_id : string) : option (list string) :=
  shard_peers m !! shard_id.

(** Collecting the keys of a shard and removing them one by one.
    [src/dfs/common/src/sharding.rs:132-151 remove_shard] *)
Definition bt_remove_owned {K} `{OrdKey K} (shard_id : string) (m : list (K * string))
  : list (K * string) :=
  let keys_to_remove := (filter (λ e, e.2 = shard_id) m).*1 in
  foldl (λ m k, bt_remove k m) m keys_to_remove.

(** [src/dfs/common/src/sharding.rs:123-154 remove_shard] *)
Definition remove_shard (m : ShardMap) (shard_id : string) : ShardMap :=
  if decide (shard_id ∈ shards m) then
    mkShardMap
      match strategy m with
      | ConsistentHash ring vn => ConsistentHash (bt_remove_owned shard_id ring) vn
      | Range ranges => Range (bt_remove_owned shard_id ranges)
      end
      (shards m ∖ {[shard_id]})
      (delete shard_id (shard_peers m))
  else m.

(** [src/dfs/common/src/sharding.rs:157-177 get_shard] *)
Definition get_shard (m : ShardMap) (key : string) : option string :=
  match strategy m with
  | ConsistentHash ring _ =>
      match ring with
      | [] => None
      | first :: _ =>
          match bt_ceiling (hash_key key) ring with
          | Some (_, shard_id) => Some shard_id
          | None => Some first.2
          end
      end
  | Range ranges =>
      match ranges with
      | [] => None
      | _ => snd <$> bt_ceiling key ranges
      end
  end.

(** [src/dfs/common/src/sharding.rs:180-208 split_shard] *)
Definition split_shard (m : ShardMap) (split_key new_shard_id : string) (peers : list string)
  : bool * ShardMap :=
  match strategy m with
  | Range ranges =>
      if decide (new_shard_id ∈ shards m) then (false, m)
      else if bt_contains split_key ranges then (false, m)
      else
        match bt_ceiling split_key ranges with
        | Some _ =>
            (true, mkShardMap (Range (bt_insert split_key new_shard_id ranges))
                     ({[new_shard_id]} ∪ shards m)
                     (<[new_shard_id := peers]> (shard_peers m)))
        | None => (false, m)
        end
  | _ => (false, m)
  end.

(** `ranges.iter().find(|(_, sid)| *sid == shard).map(|(k, _)| k.clone())`.
    [src/dfs/common/src/sharding.rs:219-222 merge_shards] *)
Definition key_of (shard_id : string) (ranges : list (string * string)) : option string :=
  fst <$> List.find (λ e, bool_decide (e.2 = shard_id)) ranges.

(** [src/dfs/common/src/sharding.rs:212-245 merge_shards] *)
Definition merge_shards (m : ShardMap) (victim_shard_id retained_shard_id : string)
  : bool * ShardMap :=
  match strategy m with
  | Range ranges =>
      if bool_decide (victim_shard_id ∉ shards m) || bool_decide (retained_shard_id ∉ shards m)
      then (false, m)
      else
        match key_of victim_shard_id ranges with
        | Some vk =>
            let ranges1 := bt_remove vk ranges in
            let ranges2 :=
              if decide (vk = max_key) then
                let ranges' :=
                  match key_of retained_shard_id ranges1 with
                  | Some rk => bt_remove rk ranges1
                  | None => ranges1
                  end in
                bt_insert max_key retained_shard_id ranges'
              else ranges1 in
            (true, mkShardMap (Range ranges2) (shards m ∖ {[victim_shard_id]})
                     (delete victim_shard_id (shard_peers m)))
        | None => (false, m)
        end
  | _ => (false, m)
  end.

(** [src/dfs/common/src/sharding.rs:249-257 rebalance_boundary] *)
Definition rebalance_boundary (m : ShardMap) (old_key new_key : string) : bool * ShardMap :=
  match strategy m with
  | Range ranges =>
      match bt_get old_key ranges with
      | Some shard_id =>
          (true, mkShardMap (Range (bt_insert new_key shard_id (bt_remove old_key ranges)))
                   (shards m) (shard_peers m))
      | None => (false, m)
      end
  | _ => (false, m)
  end.

(** The loop of [get_neighbors]: [prev] is the value of the entry before.
    [src/dfs/common/src/sharding.rs:262-270 get_neighbors] *)
Fixpoint neighbors_loop (shard_id : string) (prev : option string)
    (ranges : list (string * string)) : option string * option string :=
  match ranges with
  | [] => (None, None)
  | (_, sid) :: rest =>
      if decide (sid = shard_id) then (prev, snd <$> head rest)
      else neighbors_loop shard_id (Some sid) rest
  end.

(** [src/dfs/common/src/sharding.rs:260-273 get_neighbors] *)
Definition get_neighbors (m : ShardMap) (shard_id : string) : option string * option string :=
  match strategy m with
  | Range ranges => neighbors_loop shard_id None ranges
  | _ => (None, None)
  end.

(** The vector lists the set in an unspecified order.
    [src/dfs/common/src/sharding.rs:276-280 get_all_shards] *)
Definition get_all_shards (m : ShardMap) : list string := elements (shards m).

(** [src/dfs/common/src/sharding.rs:283-285 get_shard_peers] *)
Definition get_shard_peers (m : ShardMap) (shard_id : string) : option (list string) :=
  shard_peers m !! shard_id.

(** [src/dfs/common/src/sharding.rs:288-296 get_all_masters] *)
Definition get_all_masters (m : ShardMap) : list string :=
  elements (list_to_set (concat (map_to_list (shard_peers m)).*2) : gset string).

(** [src/dfs/common/src/sharding.rs:299-301 ShardMap::new] *)
Definition shard_map_new (virtual_nodes : nat) : ShardMap := new_consistent_hash virtual_nodes.

(** [src/dfs/common/src/sharding.rs:305-307 ShardConfig] *)
Record ShardConfig : Type := mkShardConfig { config_shards : gmap string (list string) }.

(** `sorted_shards.sort_by_key(|(shard_id, _)| *shard_id)`.
    [src/dfs/common/src/sharding.rs:318-320 to_shard_map] *)
Definition sorted_shards (c : ShardConfig) : list (string * list string) :=
  merge_sort (λ a b, key_le a.1 b.1) (map_to_list (config_shards c)).

(** [src/dfs/common/src/sharding.rs:316-325 to_shard_map] *)
Definition to_shard_map (c : ShardConfig) (_virtual_nodes : nat) : ShardMap :=
  foldl (λ m e, add_shard m e.1 e.2) new_range (sorted_shards c).

(** [from_file] stands for [ShardConfig::from_file]: reading and parsing JSON.
    [src/dfs/common/src/sharding.rs:328-341 load_shard_map_from_config] *)
Definition load_shard_map_from_config (from_file : string → option ShardConfig)
    (path : option string) (virtual_nodes : nat) : ShardMap :=
  match path with
  | Some p =>
      match from_file p with
      | Some config => to_shard_map config virtual_nodes
      | None => shard_map_new virtual_nodes
      end
  | None => shard_map_new virtual_nodes
  end.

End shard_map.

(** ** Well-formed shard maps *)

(** The ordered map is sorted, every owner it names is a registered shard and,
    for ranges, no shard owns two ranges. *)
Definition strategy_ok (st : ShardingStrategy) (ids : gset string) : Prop :=
  match st with
  | ConsistentHash ring _ =>
      bt_wf ring ∧ ∀ k sid, bt_get k ring = Some sid → sid ∈ ids
  | Range ranges =>
      bt_wf ranges ∧ (∀ k sid, bt_get k ranges = Some sid → sid ∈ ids) ∧
      (∀ k1 k2 sid, bt_get k1 ranges = Some sid → bt_get k2 ranges = Some sid → k1 = k2)
  end.

Definition shard_map_ok (m : ShardMap) : Prop :=
  strategy_ok (strategy m) (shards m) ∧ dom (shard_peers m) = shards m.

(** The last range ends at the greatest key. *)
Definition covers_all (m : ShardMap) : Prop :=
  match strategy m with
  | Range ranges => is_Some (bt_get max_key ranges)
  | _ => True
  end.

Definition range_strategy (m : ShardMap) : Prop :=
  match strategy m with Range _ => True | _ => False end.

(** *** Ordered-map helpers *)
Section btree_helpers.
Context {K : Type} `{OrdKey K}.
Implicit Types (m : list (K * string)).

Lemma bt_get_remove_all (ks : list K) m k :
  bt_get k (foldl (λ m k, bt_remove k m) m ks) = if decide (k ∈ ks) then None else bt_get k m.
Proof.
  revert m. induction ks as [|k1 ks IH]; intros m; [done|]. simpl foldl.
  rewrite IH. destruct (decide (k ∈ ks)).
  - by rewrite decide_True by set_solver.
  - destruct (decide (k = k1)) as [->|?].
    + rewrite decide_True by set_solver. apply bt_get_remove_eq.
    + rewrite decide_False by set_solver. by apply bt_get_remove_ne.
Qed.

Lemma bt_remove_all_wf (ks : list K) m :
  bt_wf m → bt_wf (foldl (λ m k, bt_remove k m) m ks).
Proof. revert m. induction ks; intros m ?; simpl; [done|]. eauto using bt_remove_wf. Qed.

Lemma bt_get_remove_owned sid m k s :
  bt_wf m → bt_get k (bt_remove_owned sid m) = Some s ↔ bt_get k m = Some s ∧ s ≠ sid.
Proof.
  intros Hwf. unfold bt_remove_owned. rewrite bt_get_remove_all. case_decide as Hin.
  - split; [done|]. intros [Hk ?].
    apply list_elem_of_fmap in Hin as ([k' s'] & -> & [? Hin]%list_elem_of_filter).
    simpl in *. apply elem_bt_get in Hin; [|done]. congruence.
  - split; [|naive_solver]. intros Hk. split; [done|]. intros ->. apply Hin.
    apply list_elem_of_fmap. exists (k, sid). split; [done|].
    apply list_elem_of_filter. split; [done|]. by apply bt_get_elem.
Qed.

Lemma bt_remove_owned_wf sid m : bt_wf m → bt_wf (bt_remove_owned sid m).
Proof. apply bt_remove_all_wf. Qed.

(** Removing entries that are not the ceiling of [k] does not move it. *)
Lemma bt_ceiling_sub k m m' e :
  bt_wf m → bt_wf m' →
  (∀ k' v, bt_get k' m' = Some v → is_Some (bt_get k' m)) →
  bt_ceiling k m = Some e → bt_get e.1 m' = Some e.2 → bt_ceiling k m' = Some e.
Proof.
  destruct e as [k1 v1]; simpl. intros Hwf Hwf' Hsub.
  rewrite !bt_ceiling_Some by done. intros (Hg & Hle & Hmin) Hg'. split_and!; [done..|].
  intros k'' [v'' Hv'']; eauto.
Qed.

Lemma bt_ceiling_is_Some k m k' : k' ∈ m.*1 → key_le k k' → is_Some (bt_ceiling k m).
Proof.
  intros Hin Hle. apply not_eq_None_Some. rewrite bt_ceiling_None. intros Hn. by apply (Hn k').
Qed.
End btree_helpers.

Lemma ring_add_wf crc sid n ring : bt_wf ring → bt_wf (ring_add crc sid n ring).
Proof.
  unfold ring_add. generalize (seq 0 n). intros ixs. revert ring.
  induction ixs; intros ring ?; simpl; [done|]. eauto using bt_insert_wf.
Qed.

(** An entry of the extended ring is new and belongs to the new shard, or was there. *)
Lemma ring_add_get crc sid n ring k s :
  bt_get k (ring_add crc sid n ring) = Some s → s = sid ∨ bt_get k ring = Some s.
Proof.
  unfold ring_add. generalize (seq 0 n). intros ixs. revert ring.
  induction ixs as [|i ixs IH]; intros ring; simpl; [auto|]. intros [?|Hk]%IH; [auto|].
  destruct (decide (k = hash_key crc (sid +:+ ":" +:+ pretty i))) as [->|?].
  - rewrite bt_get_insert_eq in Hk. naive_solver.
  - rewrite bt_get_insert_ne in Hk by done. auto.
Qed.

(** Entries are never removed by [ring_add], only overwritten with the new shard. *)
Lemma ring_add_get_mono crc sid n ring k :
  is_Some (bt_get k ring) → is_Some (bt_get k (ring_add crc sid n ring)).
Proof.
  unfold ring_add. generalize (seq 0 n). intros ixs. revert ring.
  induction ixs as [|i ixs IH]; intros ring Hk; simpl; [done|]. apply IH.
  destruct (decide (k = hash_key crc (sid +:+ ":" +:+ pretty i))) as [->|?].
  - rewrite bt_get_insert_eq. eauto.
  - by rewrite bt_get_insert_ne.
Qed.

Lemma max_key_ne_m : "/m" ≠ max_key.
Proof. discriminate. Qed.

(** *** Range tables as finite maps *)
Definition ranges_ok (ids : gset string) (r : list (string * string)) : Prop :=
  strategy_ok (Range r) ids.

Lemma ranges_ok_insert ids r k sid :
  ranges_ok ids r → sid ∉ ids → ranges_ok ({[sid]} ∪ ids) (bt_insert k sid r).
Proof.
  intros (Hwf & Hown & Huniq) Hnew. split_and!; [by apply bt_insert_wf|..].
  - intros k' s. destruct (decide (k' = k)) as [->|?].
    + rewrite bt_get_insert_eq. set_solver.
    + rewrite bt_get_insert_ne by done. intros ?%Hown. set_solver.
  - intros k1 k2 s.
    destruct (decide (k1 = k)) as [->|?], (decide (k2 = k)) as [->|?];
      rewrite ?bt_get_insert_eq, ?bt_get_insert_ne by done; try done.
    + intros [= <-] ?%Hown. done.
    + intros ?%Hown [= <-]. done.
    + eauto.
Qed.

Lemma ranges_ok_remove ids r k :
  ranges_ok ids r → ranges_ok ids (bt_remove k r).
Proof.
  intros (Hwf & Hown & Huniq).
  assert (∀ k' s, bt_get k' (bt_remove k r) = Some s → bt_get k' r = Some s) as Hsub.
  { intros k' s. destruct (decide (k' = k)) as [->|?].
    - by rewrite bt_get_remove_eq.
    - by rewrite bt_get_remove_ne. }
  split_and!; [by apply bt_remove_wf|naive_solver..].
Qed.

(** Moving a shard's only range to another end key. *)
Lemma ranges_ok_move ids r k k' sid :
  ranges_ok ids r → sid ∈ ids → (∀ k0, bt_get k0 r = Some sid → k0 = k) →
  ranges_ok ids (bt_insert k' sid (bt_remove k r)).
Proof.
  intros Hok Hin Honly. destruct (ranges_ok_remove _ _ k Hok) as (Hwf & Hown & Huniq).
  assert (∀ k0, bt_get k0 (bt_remove k r) = Some sid → False) as Hnone.
  { intros k0. destruct (decide (k0 = k)) as [->|Hne].
    - by rewrite bt_get_remove_eq.
    - rewrite bt_get_remove_ne by done. by intros ?%Honly. }
  split_and!; [by apply bt_insert_wf|..].
  - intros k1 s. destruct (decide (k1 = k')) as [->|?].
    + rewrite bt_get_insert_eq. naive_solver.
    + rewrite bt_get_insert_ne by done. eauto.
  - intros k1 k2 s.
    destruct (decide (k1 = k')) as [->|?], (decide (k2 = k')) as [->|?];
      rewrite ?bt_get_insert_eq, ?bt_get_insert_ne by done; try done.
    + intros [= <-] ?. exfalso; eauto.
    + intros ? [= <-]. exfalso; eauto.
    + eauto.
Qed.

Lemma key_of_get r sid k : bt_wf r → key_of sid r = Some k → bt_get k r = Some sid.
Proof.
  intros Hwf. unfold key_of. intros ([k' s] & [Hin Hs]%find_Some_elem & ->)%fmap_Some.
  apply bool_decide_eq_true in Hs. simpl in *. subst. by apply elem_bt_get.
Qed.

Lemma key_of_None r sid k : key_of sid r = None → bt_get k r ≠ Some sid.
Proof.
  unfold key_of. intros Hn Hk%bt_get_elem. apply fmap_None in Hn.
  eapply List.find_none in Hn; [|by apply list_elem_of_In]. simpl in Hn.
  by rewrite bool_decide_eq_false in Hn.
Qed.

(** ** Every operation preserves well-formedness *)

Lemma new_range_ok : shard_map_ok new_range.
Proof. split; [split_and!; [constructor|done..]|done]. Qed.

Lemma new_consistent_hash_ok n : shard_map_ok (new_consistent_hash n).
Proof. split; [split; [constructor|done]|done]. Qed.

Lemma range_add_ok ids r sid :
  ranges_ok ids r → sid ∉ ids → ranges_ok ({[sid]} ∪ ids) (range_add sid r).
Proof.
  intros Hok Hnew. unfold range_add. destruct r as [|[k old] [|e r]].
  - by apply ranges_ok_insert.
  - assert (old ∈ ids) as Hold.
    { destruct Hok as (_ & Hown & _). apply (Hown k). simpl. by rewrite decide_True. }
    assert (ranges_ok {[sid]} [("/m", sid)]) as H1.
    { split_and!; [by repeat constructor|..]; simpl; intros ??; repeat case_decide; set_solver. }
    apply (ranges_ok_insert _ _ max_key old) in H1 as (? & Hown & ?); [|set_solver].
    split_and!; [done| |done]. intros k' s ?%Hown. set_solver.
  - by apply ranges_ok_insert.
Qed.

Lemma add_shard_ok crc m sid peers : shard_map_ok m → shard_map_ok (add_shard crc m sid peers).
Proof.
  intros [Hst Hdom]. unfold add_shard. case_decide as Hin; split; simpl.
  - done.
  - rewrite dom_insert_L. set_solver.
  - destruct (strategy m) as [ring n|r]; [|by apply range_add_ok].
    destruct Hst as [Hwf Hown]. split; [by apply ring_add_wf|].
    intros k s [->|?%Hown]%ring_add_get; set_solver.
  - rewrite dom_insert_L. by rewrite Hdom.
Qed.

Lemma remove_shard_ok m sid : shard_map_ok m → shard_map_ok (remove_shard m sid).
Proof.
  intros [Hst Hdom]. unfold remove_shard. case_decide; [|by split]. split; simpl.
  - destruct (strategy m) as [ring n|r]; simpl in *.
    + destruct Hst as [Hwf Hown]. split; [by apply bt_remove_owned_wf|].
      intros k s. rewrite bt_get_remove_owned by done. intros [?%Hown ?]. set_solver.
    + destruct Hst as (Hwf & Hown & Huniq). split_and!; [by apply bt_remove_owned_wf|..].
      * intros k s. rewrite bt_get_remove_owned by done. intros [?%Hown ?]. set_solver.
      * intros k1 k2 s. rewrite !bt_get_remove_owned by done. naive_solver.
  - rewrite dom_delete_L. by rewrite Hdom.
Qed.

Lemma split_shard_ok m k sid peers : shard_map_ok m → shard_map_ok (split_shard m k sid peers).2.
Proof.
  intros [Hst Hdom]. unfold split_shard. destruct m as [[ring n|r] ids ps]; simpl in *; [done|].
  case_decide; [done|]. destruct (bt_contains k r); [done|].
  destruct (bt_ceiling k r); [|done]. split; simpl.
  - by apply ranges_ok_insert.
  - rewrite dom_insert_L. by rewrite Hdom.
Qed.

Lemma rebalance_boundary_ok m ok nk : shard_map_ok m → shard_map_ok (rebalance_boundary m ok nk).2.
Proof.
  intros [Hst Hdom]. unfold rebalance_boundary.
  destruct m as [[ring n|r] ids ps]; simpl in *; [done|].
  destruct (bt_get ok r) as [sid|] eqn:Hg; [|done]. split; [|done]. simpl.
  destruct Hst as (Hwf & Hown & Huniq). apply ranges_ok_move; [done|by eapply Hown|eauto].
Qed.

Lemma merge_shards_ok m v rt :
  shard_map_ok m → v ≠ rt → shard_map_ok (merge_shards m v rt).2.
Proof.
  intros [Hst Hdom] Hne. unfold merge_shards.
  destruct m as [[ring n|r] ids ps]; simpl in *; [done|].
  destruct (bool_decide (v ∉ ids) || bool_decide (rt ∉ ids)) eqn:Hb; [done|].
  rewrite orb_false_iff, !bool_decide_eq_false in Hb.
  assert (v ∈ ids ∧ rt ∈ ids) as [Hv Hrt] by (split; apply dec_stable; tauto). clear Hb.
  destruct (key_of v r) as [vk|] eqn:Hvk; [|done]. split; simpl; [|rewrite dom_delete_L; set_solver].
  pose proof Hst as (Hwf & Hown & Huniq). apply key_of_get in Hvk; [|done].
  assert (ranges_ok (ids ∖ {[v]}) (bt_remove vk r)) as Hok1.
  { destruct (ranges_ok_remove _ _ vk Hst) as (? & Hown1 & ?). split_and!; [done| |done].
    intros k s Hk. apply elem_of_difference. split; [by eapply Hown1|].
    intros ->%elem_of_singleton. destruct (decide (k = vk)) as [->|Hk'].
    - by rewrite bt_get_remove_eq in Hk.
    - rewrite bt_get_remove_ne in Hk by done. naive_solver. }
  case_decide; subst; [|done].
  pose proof Hok1 as (Hwf1 & _ & Huniq1).
  destruct (key_of rt (bt_remove max_key r)) as [rk|] eqn:Hrk.
  - apply key_of_get in Hrk; [|done]. apply ranges_ok_move; [done|set_solver|eauto].
  - replace (bt_remove max_key r) with (bt_remove max_key (bt_remove max_key r)).
    + apply ranges_ok_move; [done|set_solver|]. by intros k ?%(key_of_None _ _ k Hrk).
    + unfold bt_remove. rewrite list_filter_filter. apply list_filter_iff. naive_solver.
Qed.

(** ** Coverage is preserved by adding, splitting and merging *)

Lemma add_shard_covers crc m sid peers :
  shards m ≠ ∅ → covers_all m → covers_all (add_shard crc m sid peers).
Proof.
  unfold covers_all, add_shard. destruct m as [[ring n|r] ids ps]; simpl;
    intros Hne Hc; case_decide; simpl; try done.
  destruct r as [|[k old] [|e r]]; simpl.
  - by eexists.
  - by eexists.
  - change (is_Some (bt_get max_key (bt_insert ("z-" +:+ sid) sid ((k, old) :: e :: r)))).
    by rewrite bt_get_insert_ne.
Qed.

Lemma split_shard_covers m k sid peers : covers_all m → covers_all (split_shard m k sid peers).2.
Proof.
  unfold covers_all, split_shard. destruct m as [[ring n|r] ids ps]; simpl; [done|].
  intros Hc. case_decide; [done|]. destruct (bt_contains k r); [done|].
  destruct (bt_ceiling k r); [|done]. simpl.
  destruct (decide (max_key = k)) as [<-|?].
  - rewrite bt_get_insert_eq. eauto.
  - by rewrite bt_get_insert_ne.
Qed.

Lemma merge_shards_covers m v rt : covers_all m → covers_all (merge_shards m v rt).2.
Proof.
  unfold covers_all, merge_shards. destruct m as [[ring n|r] ids ps]; simpl; [done|].
  intros Hc. destruct (_ || _); [done|]. destruct (key_of v r) as [vk|]; [|done]. simpl.
  case_decide; [rewrite bt_get_insert_eq; eauto|]. by rewrite bt_get_remove_ne.
Qed.

(** ** Routing *)

Definition range_table (m : ShardMap) : list (string * string) :=
  match strategy m with Range r => r | _ => [] end.

Lemma get_shard_range crc m key :
  range_strategy m → get_shard crc m key = snd <$> bt_ceiling key (range_table m).
Proof.
  unfold range_strategy, get_shard, range_table. destruct m as [[|r] ? ?]; simpl; [done|].
  by destruct r.
Qed.

(** Two range ends with no other range end between them. *)
Definition adjacent (m : ShardMap) (k1 k2 : string) : Prop :=
  key_lt k1 k2 ∧ ∀ e, e ∈ (range_table m).*1 → key_lt k1 e → key_le k2 e.

(** A small range map used by the witnesses: shard-1 up to "/m", shard-2 up to
    "/t", shard-0 above. *)
Definition demo_map : ShardMap :=
  let m0 := add_shard (λ _, 0%N) new_range "shard-0" ["h0:1"] in
  let m1 := (split_shard m0 "/m" "shard-1" ["h1:1"]).2 in
  (split_shard m1 "/t" "shard-2" ["h2:1"]).2.

Lemma demo_map_ok : shard_map_ok demo_map.
Proof. by apply split_shard_ok, split_shard_ok, add_shard_ok, new_range_ok. Qed.

Lemma range_table_ok m : shard_map_ok m → range_strategy m → ranges_ok (shards m) (range_table m).
Proof. unfold range_strategy, range_table. by destruct m as [[] ? ?]; intros [? ?]. Qed.

Lemma ceiling_insert_new (r : list (string * string)) k sid key :
  bt_wf r → bt_get k r = None → key_le key k →
  (∀ e, e ∈ r.*1 → key_le key e → key_le k e) →
  bt_ceiling key (bt_insert k sid r) = Some (k, sid).
Proof.
  intros Hwf Hnew Hle Hmin. apply bt_ceiling_Some; [by apply bt_insert_wf|].
  rewrite bt_get_insert_eq. split_and!; [done..|].
  intros e He ?. destruct (decide (e = k)) as [->|?]; [apply key_leb_refl|].
  rewrite bt_get_insert_ne in He by done. apply Hmin; [|done]. by apply bt_get_is_Some.
Qed.

Lemma ceiling_insert_old (r : list (string * string)) k sid key :
  bt_wf r → bt_get k r = None →
  (¬ key_le key k ∨ ∃ e, e ∈ r.*1 ∧ key_le key e ∧ ¬ key_le k e) →
  bt_ceiling key (bt_insert k sid r) = bt_ceiling key r.
Proof.
  intros Hwf Hnew Hside. assert (bt_wf (bt_insert k sid r)) by by apply bt_insert_wf.
  destruct (bt_ceiling key r) as [[k1 v1]|] eqn:Hc.
  - apply bt_ceiling_Some in Hc as (Hg & Hle & Hmin); [|done].
    apply bt_ceiling_Some; [done|].
    assert (k1 ≠ k) by (intros ->; congruence). rewrite bt_get_insert_ne by done.
    split_and!; [done..|]. intros e He Hke. destruct (decide (e = k)) as [->|?].
    + destruct Hside as [?|(e' & He' & Hle' & Hn)]; [done|].
      apply key_not_le in Hn as [Hn _]. eapply key_leb_trans; [|exact Hn].
      apply Hmin; [by apply bt_get_is_Some|done].
    + rewrite bt_get_insert_ne in He by done. by apply Hmin.
  - rewrite bt_ceiling_None in *. intros k'. rewrite bt_insert_keys.
    intros [->|?]; [|by apply Hc]. destruct Hside as [?|(e & He & Hle & _)]; [done|].
    by destruct (Hc e He).
Qed.

(** Splitting a shard at [k] hands exactly the keys between the preceding
    range end (exclusive) and [k] (inclusive) to the new shard; the owner of
    every other key is unchanged. *)
Theorem split_shard_routes crc m k new peers m' :
  shard_map_ok m → split_shard m k new peers = (true, m') →
  (∀ key, key_le key k → (∀ e, e ∈ (range_table m).*1 → key_le key e → key_le k e) →
     get_shard crc m' key = Some new) ∧
  (∀ key, (¬ key_le key k ∨ ∃ e, e ∈ (range_table m).*1 ∧ key_le key e ∧ ¬ key_le k e) →
     get_shard crc m' key = get_shard crc m key).
Proof.
  unfold split_shard. destruct m as [[|r] ids ps]; simpl; [done|]. intros [Hst _].
  case_decide; [done|]. destruct (bt_contains k r) eqn:Hk; [done|].
  destruct (bt_ceiling k r); [|done]. intros [= <-]. destruct Hst as (Hwf & _).
  assert (bt_get k r = None) as Hnew.
  { apply bt_get_None. rewrite <-bt_contains_spec. by rewrite Hk. }
  split; intros key; intros; rewrite !get_shard_range by done; unfold range_table; simpl in *.
  - by rewrite ceiling_insert_new.
  - by rewrite ceiling_insert_old.
Qed.

Lemma split_shard_routes_witness :
  get_shard (λ _, 0%N) (split_shard demo_map "/c" "shard-3" []).2 "/b" = Some "shard-3" ∧
  get_shard (λ _, 0%N) (split_shard demo_map "/c" "shard-3" []).2 "/d" = Some "shard-1".
Proof.
  destruct (split_shard_routes (λ _, 0%N) demo_map "/c" "shard-3" []
              (split_shard demo_map "/c" "shard-3" []).2) as [Hnew Hold].
  - apply demo_map_ok.
  - by vm_compute.
  - split.
    + apply Hnew; [by vm_compute|]. intros e He _. vm_compute in He.
      repeat (apply elem_of_cons in He as [->|He]; [by vm_compute|]). by apply not_elem_of_nil in He.
    + rewrite Hold; [by vm_compute|]. left. by vm_compute.
Defined.

(** The success case of [merge_shards], with the victim's range end known. *)
Lemma merge_shards_eq m v rt vk :
  shard_map_ok m → range_strategy m → v ≠ rt → rt ∈ shards m →
  bt_get vk (range_table m) = Some v →
  (merge_shards m v rt).1 = true ∧
  range_table (merge_shards m v rt).2 =
    (if decide (vk = max_key) then
       bt_insert max_key rt
         (match key_of rt (bt_remove vk (range_table m)) with
          | Some rk => bt_remove rk (bt_remove vk (range_table m))
          | None => bt_remove vk (range_table m)
          end)
     else bt_remove vk (range_table m)) ∧
  range_strategy (merge_shards m v rt).2.
Proof.
  intros [Hst _] Hr Hne Hrt Hvk. unfold merge_shards, range_strategy, range_table in *.
  destruct m as [[|r] ids ps]; simpl in *; [done|].
  destruct Hst as (Hwf & Hown & Huniq). pose proof (Hown _ _ Hvk) as Hv.
  rewrite !bool_decide_eq_false_2 by (by intros ?). simpl.
  destruct (key_of v r) as [vk'|] eqn:Hk.
  - apply key_of_get in Hk; [|done]. rewrite (Huniq _ _ _ Hk Hvk). simpl. by case_decide.
  - by destruct (key_of_None _ _ vk Hk).
Qed.

Definition reroute (v rt s : string) : string := if decide (s = v) then rt else s.

(** Removing the entry before [rk] sends its keys to [rk]'s owner. *)
Lemma ceiling_remove_pred (r : list (string * string)) vk rk v rt key :
  bt_wf r → bt_get vk r = Some v → bt_get rk r = Some rt → key_lt vk rk →
  (∀ e, e ∈ r.*1 → key_lt vk e → key_le rk e) →
  bt_ceiling key (bt_remove vk r) =
    match bt_ceiling key r with
    | Some (k, s) => if decide (k = vk) then Some (rk, rt) else Some (k, s)
    | None => None
    end.
Proof.
  intros Hwf Hv Hrt Hlt Hadj. assert (bt_wf (bt_remove vk r)) by by apply bt_remove_wf.
  destruct (bt_ceiling key r) as [[k s]|] eqn:Hc.
  - apply bt_ceiling_Some in Hc as (Hg & Hle & Hmin); [|done].
    assert (rk ≠ vk) by (intros ->; by apply key_lt_irrefl in Hlt).
    case_decide as Hk; subst; apply bt_ceiling_Some; try done;
      rewrite bt_get_remove_ne by done; split_and!; try done.
    + eapply key_leb_trans; [done|apply Hlt].
    + intros e He ?. destruct (decide (e = vk)) as [->|Hne];
        [rewrite bt_get_remove_eq in He; by inv He|].
      rewrite bt_get_remove_ne in He by done. apply Hadj; [by apply bt_get_is_Some|].
      split; [by apply Hmin|congruence].
    + intros e He ?. destruct (decide (e = vk)) as [->|Hne];
        [rewrite bt_get_remove_eq in He; by inv He|].
      rewrite bt_get_remove_ne in He by done. by apply Hmin.
  - rewrite bt_ceiling_None in *. intros k' Hin. apply Hc.
    unfold bt_remove in Hin. apply list_elem_of_fmap in Hin as (e & -> & [_ He]%list_elem_of_filter).
    by apply list_elem_of_fmap_2.
Qed.

(** Replacing the value at [k] does not move ceilings. *)
Lemma ceiling_overwrite (r : list (string * string)) k v sid key :
  bt_wf r → bt_get k r = Some v →
  bt_ceiling key (bt_insert k sid r) =
    match bt_ceiling key r with
    | Some (k', s) => if decide (k' = k) then Some (k, sid) else Some (k', s)
    | None => None
    end.
Proof.
  intros Hwf Hv. assert (bt_wf (bt_insert k sid r)) by by apply bt_insert_wf.
  assert (∀ e, is_Some (bt_get e (bt_insert k sid r)) ↔ is_Some (bt_get e r)) as Hdom.
  { intros e. destruct (decide (e = k)) as [->|?].
    - rewrite bt_get_insert_eq, Hv. split; eauto.
    - by rewrite bt_get_insert_ne. }
  destruct (bt_ceiling key r) as [[k' s]|] eqn:Hc.
  - apply bt_ceiling_Some in Hc as (Hg & Hle & Hmin); [|done].
    case_decide; subst; apply bt_ceiling_Some; try done.
    + rewrite bt_get_insert_eq. split_and!; [done..|]. intros e ?%Hdom. by apply Hmin.
    + rewrite bt_get_insert_ne by done. split_and!; [done..|]. intros e ?%Hdom. by apply Hmin.
  - rewrite bt_ceiling_None in *. intros k'. rewrite <-bt_get_is_Some, Hdom, bt_get_is_Some.
    apply Hc.
Qed.

Lemma bt_insert_remove_same (r : list (string * string)) k v :
  bt_wf r → bt_insert k v (bt_remove k r) = bt_insert k v r.
Proof.
  unfold bt_wf, bt_remove. induction r as [|[k1 v1] r IH]; simpl; [done|].
  rewrite StronglySorted_cons, Forall_forall. intros [Hlt Hs]. rewrite filter_cons. simpl.
  destruct (decide (k1 = k)) as [->|Hne].
  - rewrite decide_False by (by intros ?). rewrite decide_True by done.
    assert (filter (λ e : string * string, e.1 ≠ k) r = r) as ->.
    { apply filter_all_id. intros e He Hek.
      apply (key_lt_irrefl k), Hlt. rewrite <-Hek. by apply list_elem_of_fmap_2. }
    destruct r as [|[k2 v2] r]; simpl; [done|].
    assert (key_lt k k2) as [Hle Hne] by (apply Hlt; set_solver).
    rewrite decide_False by done. simpl in *. by rewrite Hle.
  - rewrite decide_True by done. simpl. rewrite !decide_False by congruence.
    destruct (key_leb k k1) eqn:Hle; [|by rewrite IH].
    assert (filter (λ e : string * string, e.1 ≠ k) r = r) as ->; [|done].
    apply filter_all_id. intros e He Hek.
    assert (key_lt k1 k) as [??]; [|by destruct Hne; apply key_leb_antisym].
    apply Hlt. rewrite <-Hek. by apply list_elem_of_fmap_2.
Qed.

Lemma bt_remove_comm (r : list (string * string)) k1 k2 :
  bt_remove k1 (bt_remove k2 r) = bt_remove k2 (bt_remove k1 r).
Proof. unfold bt_remove. rewrite !list_filter_filter. apply list_filter_iff. naive_solver. Qed.

(** Merging a shard into its neighbour: when the retained range directly
    follows the victim's, or the victim's is the last range and the retained
    one directly precedes it, exactly the victim's keys change owner, to the
    retained shard. *)
Theorem merge_adjacent_routes crc m v rt vk rk :
  shard_map_ok m → range_strategy m → v ≠ rt →
  bt_get vk (range_table m) = Some v → bt_get rk (range_table m) = Some rt →
  (vk ≠ max_key ∧ adjacent m vk rk ∨ vk = max_key ∧ adjacent m rk vk) →
  (merge_shards m v rt).1 = true ∧
  ∀ key, get_shard crc (merge_shards m v rt).2 key = reroute v rt <$> get_shard crc m key.
Proof.
  intros Hok Hr Hne Hvk Hrk Hadj.
  pose proof (range_table_ok m Hok Hr) as (Hwf & Hown & Huniq).
  destruct (merge_shards_eq m v rt vk) as (Hsucc & Htab & Hr'); eauto. split; [done|].
  intros key. rewrite !get_shard_range, Htab by done. clear Htab Hsucc Hr'.
  assert (∀ k s, bt_ceiling key (range_table m) = Some (k, s) → bt_get k (range_table m) = Some s)
    as Hceil by (intros k s ?%bt_ceiling_Some; naive_solver).
  assert (vk ≠ rk) as Hkne by (intros ->; congruence).
  destruct Hadj as [[Hmax [Hlt Hadj]]|[Hmax [Hlt Hadj]]].
  - rewrite decide_False by done. rewrite (ceiling_remove_pred _ vk rk v rt) by done.
    destruct (bt_ceiling key (range_table m)) as [[k s]|]; simpl; [|done].
    specialize (Hceil k s eq_refl). unfold reroute.
    repeat case_decide; simplify_eq; simpl; try done; exfalso; naive_solver.
  - subst vk. rewrite decide_True by done.
    assert (bt_wf (bt_remove max_key (range_table m))) as Hwf1 by by apply bt_remove_wf.
    assert (key_of rt (bt_remove max_key (range_table m)) = Some rk) as ->.
    { destruct (key_of rt (bt_remove max_key (range_table m))) as [k|] eqn:Hk.
      - apply key_of_get in Hk; [|done]. f_equal. apply (Huniq _ _ rt); [|done].
        destruct (decide (k = max_key)) as [->|?]; [by rewrite bt_get_remove_eq in Hk|].
        by rewrite bt_get_remove_ne in Hk.
      - destruct (key_of_None _ _ rk Hk). by rewrite bt_get_remove_ne. }
    rewrite bt_remove_comm, bt_insert_remove_same by by apply bt_remove_wf.
    rewrite (ceiling_overwrite _ _ v), (ceiling_remove_pred _ rk max_key rt v);
      [|done..|by apply bt_remove_wf|by rewrite bt_get_remove_ne].
    destruct (bt_ceiling key (range_table m)) as [[k s]|]; simpl; [|done].
    specialize (Hceil k s eq_refl). unfold reroute.
    destruct (decide (k = rk)) as [->|?]; simpl.
    + assert (s = rt) as -> by congruence. simpl.
      by case_decide.
    + destruct (decide (k = max_key)) as [->|?]; simpl; case_decide; simplify_eq; try done.
      exfalso. naive_solver.
Qed.

Lemma merge_adjacent_routes_witness :
  get_shard (λ _, 0%N) (merge_shards demo_map "shard-1" "shard-2").2 "/a" = Some "shard-2".
Proof.
  destruct (merge_adjacent_routes (λ _, 0%N) demo_map "shard-1" "shard-2" "/m" "/t")
    as [_ Hroute]; [apply demo_map_ok|by vm_compute|done|by vm_compute|by vm_compute|..].
  - left. split; [done|]. split; [by vm_compute|]. intros e He [_ Hne]. vm_compute in He.
    repeat (apply elem_of_cons in He as [->|He]; [done || by vm_compute|]).
    by apply not_elem_of_nil in He.
  - rewrite Hroute. by vm_compute.
Defined.

(** Merging a shard that directly follows the retained one and is not the
    last range loses its keys: none of them is routed to the retained shard
    afterwards, although the call succeeds. *)
Theorem merge_successor_misroutes crc m v rt vk rk key :
  shard_map_ok m → range_strategy m → v ≠ rt →
  bt_get vk (range_table m) = Some v → bt_get rk (range_table m) = Some rt →
  vk ≠ max_key → adjacent m rk vk →
  get_shard crc m key = Some v →
  (merge_shards m v rt).1 = true ∧ get_shard crc (merge_shards m v rt).2 key ≠ Some rt.
Proof.
  intros Hok Hr Hne Hvk Hrk Hmax [Hlt Hadj] Hkey.
  pose proof (range_table_ok m Hok Hr) as (Hwf & Hown & Huniq).
  destruct (merge_shards_eq m v rt vk) as (Hsucc & Htab & Hr'); eauto. split; [done|].
  rewrite get_shard_range in * by done. rewrite Htab, decide_False by done.
  apply fmap_Some in Hkey as ([k s] & Hc & ->). simpl in *.
  apply bt_ceiling_Some in Hc as (Hg & Hle & Hmin); [|done].
  pose proof (Huniq _ _ _ Hg Hvk) as ->.
  intros ([k' s'] & Hc' & [= <-])%fmap_Some.
  apply bt_ceiling_Some in Hc' as (Hg' & Hle' & _); [|by apply bt_remove_wf].
  destruct (decide (k' = vk)) as [->|?]; [by rewrite bt_get_remove_eq in Hg'|].
  rewrite bt_get_remove_ne in Hg' by done. pose proof (Huniq _ _ _ Hg' Hrk) as ->.
  apply (key_lt_not_le _ _ Hlt), Hmin; [eauto|done].
Qed.

Lemma merge_successor_misroutes_witness :
  get_shard (λ _, 0%N) (merge_shards demo_map "shard-2" "shard-1").2 "/p" ≠ Some "shard-1".
Proof.
  apply (merge_successor_misroutes (λ _, 0%N) demo_map "shard-2" "shard-1" "/t" "/m" "/p");
    [apply demo_map_ok|by vm_compute|done|by vm_compute|by vm_compute|done| |by vm_compute].
  split; [by vm_compute|]. intros e He [Hle Hne]. vm_compute in He.
  repeat (apply elem_of_cons in He as [->|He]; [done || by vm_compute|]).
  by apply not_elem_of_nil in He.
Defined.

(** Every absolute path is below the greatest key. *)
Lemma absolute_path_le_max p : key_le (String "/" p) max_key.
Proof. by vm_compute. Qed.

(** A covering range map routes every key up to the greatest key, and to a
    registered shard whose peers are known. *)
Lemma covering_map_routes crc m key :
  shard_map_ok m → range_strategy m → covers_all m → key_le key max_key →
  ∃ sid, get_shard crc m key = Some sid ∧ has_shard m sid = true ∧
         is_Some (get_shard_peers m sid).
Proof.
  intros Hok Hr Hcov Hle. pose proof (range_table_ok m Hok Hr) as (Hwf & Hown & _).
  destruct Hok as [_ Hdom]. rewrite get_shard_range by done.
  destruct (bt_ceiling_is_Some key (range_table m) max_key) as [[k s] Hc].
  - apply bt_get_is_Some. unfold covers_all, range_table, range_strategy in *. by destruct (strategy m).
  - done.
  - rewrite Hc. simpl. apply bt_ceiling_Some in Hc as (Hg & _); [|done].
    exists s. apply Hown in Hg. split_and!; [done|by apply bool_decide_eq_true|].
    unfold get_shard_peers. apply elem_of_dom. by rewrite Hdom.
Qed.

(** ** Consistent hashing *)

Lemma bt_head_min {K} `{OrdKey K} (m : list (K * string)) k v :
  bt_wf m →
  head m = Some (k, v) ↔ bt_get k m = Some v ∧ ∀ k', is_Some (bt_get k' m) → key_le k k'.
Proof.
  unfold bt_wf. destruct m as [|[k0 v0] m]; simpl; [naive_solver|].
  rewrite StronglySorted_cons, Forall_forall. intros [Hlt Hs]. split.
  - intros [= -> ->]. rewrite decide_True by done. split; [done|].
    intros k' Hk'. case_decide; subst; [apply key_leb_refl|].
    apply bt_get_is_Some in Hk'. by apply Hlt.
  - intros [Hg Hmin]. case_decide; [congruence|].
    assert (key_le k k0) as Hle by (apply Hmin; rewrite decide_True by done; eauto).
    assert (key_lt k0 k) as Hlt' by (apply Hlt, bt_get_is_Some; eauto).
    by destruct (key_lt_not_le _ _ Hlt').
Qed.

(** The owner a ring gives to a hash value: the ceiling entry, else the first. *)
Definition ring_owner (ring : list (N * string)) (h : N) : option string :=
  match bt_ceiling h ring with
  | Some e => Some e.2
  | None => snd <$> head ring
  end.

Lemma get_shard_ring crc ring n ids ps key :
  get_shard crc (mkShardMap (ConsistentHash ring n) ids ps) key = ring_owner ring (crc key).
Proof.
  unfold get_shard, ring_owner, hash_key. simpl. destruct ring as [|e ring]; [done|].
  by destruct (bt_ceiling (crc key) (e :: ring)) as [[]|].
Qed.

(** [ring_owner] as an order-theoretic statement. *)
Lemma ring_owner_Some ring h s :
  bt_wf ring →
  ring_owner ring h = Some s ↔ ∃ k, bt_get k ring = Some s ∧
    ((key_le h k ∧ ∀ k', is_Some (bt_get k' ring) → key_le h k' → key_le k k') ∨
     ((∀ k', is_Some (bt_get k' ring) → ¬ key_le h k') ∧ ∀ k', is_Some (bt_get k' ring) → key_le k k')).
Proof.
  intros Hwf. unfold ring_owner. destruct (bt_ceiling h ring) as [[k1 s1]|] eqn:Hc; simpl.
  - apply bt_ceiling_Some in Hc as (Hg & Hle & Hmin); [|done]. split.
    + intros [= <-]. exists k1. eauto.
    + intros (k & Hk & [[Hle' Hmin']|[Hnone _]]); [|by destruct (Hnone k1); eauto].
      assert (k = k1) as ->; [|congruence].
      apply key_leb_antisym; [apply Hmin'|apply Hmin]; eauto.
  - rewrite bt_ceiling_None in Hc.
    assert (∀ k', is_Some (bt_get k' ring) → ¬ key_le h k') as Hnone
      by (intros k' ?%bt_get_is_Some; by apply Hc).
    split.
    + intros ([k1 s1] & Hh & ->)%fmap_Some. apply bt_head_min in Hh as [Hg Hmin]; [|done].
      exists k1. eauto.
    + intros (k & Hk & [[Hle' _]|[_ Hmin]]); [by destruct (Hnone k); eauto|].
      apply fmap_Some. exists (k, s). split; [|done]. by apply bt_head_min.
Qed.

(** Consistent hashing, removal: removing a shard does not move the keys
    owned by the other shards. *)
Theorem remove_shard_stable crc m ring n sid key s :
  shard_map_ok m → strategy m = ConsistentHash ring n →
  get_shard crc m key = Some s → s ≠ sid →
  get_shard crc (remove_shard m sid) key = Some s.
Proof.
  destruct m as [st ids ps]; simpl. intros [Hst _] ->. destruct Hst as [Hwf _]. simpl in *.
  unfold remove_shard. simpl. case_decide; [|done].
  rewrite !get_shard_ring, !ring_owner_Some by eauto using bt_remove_owned_wf.
  assert (∀ k', is_Some (bt_get k' (bt_remove_owned sid ring)) → is_Some (bt_get k' ring)) as Hsub.
  { intros k' [s' Hs']. apply bt_get_remove_owned in Hs' as [??]; eauto. }
  intros (k & Hk & Hcase) Hne. exists k. split; [by apply bt_get_remove_owned|].
  destruct Hcase as [[Hle Hmin]|[Hnone Hmin]]; [left|right]; split; eauto.
Qed.

(** A three-shard consistent-hash map whose "CRC" is the string length. *)
Definition demo_ring : ShardMap :=
  let h s := N.of_nat (String.length s) in
  foldl (λ m e, add_shard h m e []) (new_consistent_hash 1) ["s"; "s-2"; "shard-3"].

Lemma demo_ring_ok : shard_map_ok demo_ring.
Proof. by apply add_shard_ok, add_shard_ok, add_shard_ok, new_consistent_hash_ok. Qed.

Lemma remove_shard_stable_witness :
  get_shard (λ s, N.of_nat (String.length s)) (remove_shard demo_ring "s") "abcd" = Some "s-2".
Proof.
  eapply (remove_shard_stable _ demo_ring); [apply demo_ring_ok|by vm_compute|by vm_compute|done].
Defined.

(** Consistent hashing, addition: a new shard only takes keys over; every
    other key of a non-empty map keeps its owner. *)
Theorem add_shard_stable crc m ring n sid peers key s :
  shard_map_ok m → strategy m = ConsistentHash ring n →
  get_shard crc m key = Some s →
  get_shard crc (add_shard crc m sid peers) key = Some sid ∨
  get_shard crc (add_shard crc m sid peers) key = Some s.
Proof.
  destruct m as [st ids ps]; simpl. intros [Hst _] ->. destruct Hst as [Hwf _]. simpl in *.
  unfold add_shard. simpl. case_decide; [by rewrite !get_shard_ring; auto|]. rewrite !get_shard_ring.
  intros Hold. pose proof (ring_add_wf crc sid n ring Hwf) as Hwf'.
  pose proof (λ k, ring_add_get_mono crc sid n ring k) as Hsup.
  destruct (ring_owner (ring_add crc sid n ring) (crc key)) as [s'|] eqn:Hnew.
  2: { exfalso. apply ring_owner_Some in Hold as (k & Hk & _); [|done].
       unfold ring_owner in Hnew. destruct (bt_ceiling _ _); [done|].
       destruct (ring_add crc sid n ring) eqn:Hr; [|done].
       destruct (Hsup k) as [s0 Hs]; [eauto|]. done. }
  destruct (decide (s' = sid)) as [->|Hne]; [auto|]. right. rewrite <-Hold.
  symmetry. apply ring_owner_Some; [done|].
  apply ring_owner_Some in Hnew as (k & Hk & Hcase); [|done].
  exists k. split; [by apply ring_add_get in Hk as [?|?]|].
  destruct Hcase as [[Hle Hmin]|[Hnone Hmin]]; [left|right]; split; eauto.
Qed.

Lemma add_shard_stable_witness :
  get_shard (λ s, N.of_nat (String.length s))
    (add_shard (λ s, N.of_nat (String.length s)) demo_ring "four" []) "abcd" = Some "four" ∨
  get_shard (λ s, N.of_nat (String.length s))
    (add_shard (λ s, N.of_nat (String.length s)) demo_ring "four" []) "abcd" = Some "s-2".
Proof.
  eapply add_shard_stable; [apply demo_ring_ok|by vm_compute|by vm_compute].
Defined.
