(* ===== verification/MasterState.v ===== *)
(** * Master metadata: the state of dfs/metaserver/src/master.rs

    File metadata and blocks (the messages of proto/dfs.proto the master
    stores), transaction records, chunk-server status and [MasterState] with
    its safe-mode operations. 64-bit counters are [N] with wrap-around written
    out (the release build); [f64] is the binary64 format of [SpecFloat]; the
    clock is an argument. *)

From Corelib Require Import SpecFloat.
From S2P Require Import Prelude.

(** ** Machine integers and floats *)

Definition u64_mod : N := 2 ^ 64.
Definition u32_mod : N := 2 ^ 32.
Definition wrap64 (x : N) : N := x `mod` u64_mod.
Definition wrap32 (x : N) : N := x `mod` u32_mod.
Definition sub64 (x y : N) : N := (x + u64_mod - y) `mod` u64_mod.

Definition f64 : Type := spec_float.
Definition f64_of_N (n : N) : f64 := binary_normalize 53 1024 (Z.of_N n) 0 false.
Definition f64_div : f64 → f64 → f64 := SFdiv 53 1024.
Definition f64_leb : f64 → f64 → bool := SFleb.
(** The literal 0.99. *)
Definition f64_0_99 : f64 := S754_finite false 8917127262193582 (-53).

(** ** Files and blocks *)

(** [src/proto/dfs.proto:216-225 BlockInfo] *)
Record BlockInfo : Type := mkBlockInfo {
  block_id : string;
  block_size : N;
  locations : list string;
  checksum_crc32c : N;
  block_ec_data_shards : Z;
  block_ec_parity_shards : Z;
  original_size : N;
}.

(** [src/proto/dfs.proto:201-214 FileMetadata] *)
Record FileMetadata : Type := mkFileMetadata {
  path : string;
  file_size : N;
  blocks : list BlockInfo;
  etag_md5 : string;
  created_at_ms : N;
  ec_data_shards : Z;
  ec_parity_shards : Z;
  last_access_ms : N;
  access_count : N;
  moved_to_cold_at_ms : N;
}.

(** [src/proto/dfs.proto:135-139 BlockChecksumInfo] *)
Record BlockChecksumInfo : Type := mkBlockChecksumInfo {
  info_block_id : string;
  info_checksum_crc32c : N;
  actual_size : N;
}.

(** [src/proto/dfs.proto:64-82 ChunkServerCommand] *)
Record ChunkServerCommand : Type := mkChunkServerCommand {
  cmd_type : Z;
  cmd_block_id : string;
  target_chunk_server_address : string;
  shard_index : Z;
  cmd_ec_data_shards : Z;
  cmd_ec_parity_shards : Z;
  ec_shard_sources : list string;
  original_block_size : N;
  master_term : N;
}.

Definition eta_block (b : BlockInfo) : BlockInfo :=
  mkBlockInfo (block_id b) (block_size b) (locations b) (checksum_crc32c b)
    (block_ec_data_shards b) (block_ec_parity_shards b) (original_size b).
#[global] Instance upd_block_size : Upd block_size := ltac:(upd_tac eta_block block_size).
#[global] Instance upd_checksum : Upd checksum_crc32c := ltac:(upd_tac eta_block checksum_crc32c).
#[global] Instance upd_original_size : Upd original_size := ltac:(upd_tac eta_block original_size).

Definition eta_file (f : FileMetadata) : FileMetadata :=
  mkFileMetadata (path f) (file_size f) (blocks f) (etag_md5 f) (created_at_ms f) (ec_data_shards f)
    (ec_parity_shards f) (last_access_ms f) (access_count f) (moved_to_cold_at_ms f).
#[global] Instance upd_path : Upd path := ltac:(upd_tac eta_file path).
#[global] Instance upd_size : Upd file_size := ltac:(upd_tac eta_file file_size).
#[global] Instance upd_blocks : Upd blocks := ltac:(upd_tac eta_file blocks).
#[global] Instance upd_etag : Upd etag_md5 := ltac:(upd_tac eta_file etag_md5).
#[global] Instance upd_created : Upd created_at_ms := ltac:(upd_tac eta_file created_at_ms).
#[global] Instance upd_ec_data : Upd ec_data_shards := ltac:(upd_tac eta_file ec_data_shards).
#[global] Instance upd_ec_parity : Upd ec_parity_shards := ltac:(upd_tac eta_file ec_parity_shards).
#[global] Instance upd_last_access : Upd last_access_ms := ltac:(upd_tac eta_file last_access_ms).
#[global] Instance upd_access_count : Upd access_count := ltac:(upd_tac eta_file access_count).
#[global] Instance upd_moved : Upd moved_to_cold_at_ms := ltac:(upd_tac eta_file moved_to_cold_at_ms).

(** ** Transaction records *)

(** [src/dfs/metaserver/src/master.rs:35-44 TxState] *)
Inductive TxState : Type := Pending | Prepared | Committed | Aborted.

#[global] Instance TxState_eq_dec : EqDecision TxState.
Proof. solve_decision. Defined.

(** [src/dfs/metaserver/src/master.rs:48-54 TransactionType] *)
Inductive TransactionType : Type :=
  | Rename (source_path dest_path : string).

(** [src/dfs/metaserver/src/master.rs:67-75 TxOpType] *)
Inductive TxOpType : Type :=
  | TxDelete (p : string)
  | TxCreate (p : string) (metadata : FileMetadata).

(** [src/dfs/metaserver/src/master.rs:58-63 TxOperation] *)
Record TxOperation : Type := mkTxOperation {
  op_shard_id : string;
  op_type : TxOpType;
}.

(** [src/dfs/metaserver/src/master.rs:79-101 TransactionRecord] *)
Record TransactionRecord : Type := mkTransactionRecord {
  tx_id : string;
  tx_type : TransactionType;
  state : TxState;
  timestamp : N;
  participants : list string;
  operations : list TxOperation;
  coordinator_shard : string;
  participant_acked : bool;
  inquiry_count : N;
}.

Definition eta_record (r : TransactionRecord) : TransactionRecord :=
  mkTransactionRecord (tx_id r) (tx_type r) (state r) (timestamp r) (participants r)
    (operations r) (coordinator_shard r) (participant_acked r) (inquiry_count r).
#[global] Instance upd_state : Upd state := ltac:(upd_tac eta_record state).
#[global] Instance upd_acked : Upd participant_acked := ltac:(upd_tac eta_record participant_acked).
#[global] Instance upd_inquiry : Upd inquiry_count := ltac:(upd_tac eta_record inquiry_count).

(** [now] is the clock in milliseconds.
    [src/dfs/metaserver/src/master.rs:105-144 TransactionRecord::new_rename] *)
Definition new_rename (now : N) (id source_path dest_path source_shard dest_shard : string)
    (source_metadata : FileMetadata) : TransactionRecord := {|
  tx_id := id;
  tx_type := Rename source_path dest_path;
  state := Pending;
  timestamp := now;
  participants := [source_shard; dest_shard];
  operations := [mkTxOperation source_shard (TxDelete source_path);
                 mkTxOperation dest_shard (TxCreate dest_path source_metadata)];
  coordinator_shard := source_shard;
  participant_acked := false;
  inquiry_count := 0;
|}.

(** [src/dfs/metaserver/src/master.rs:147-151 deletes_file] *)
Definition deletes_file (r : TransactionRecord) (p : string) : bool :=
  existsb (λ op, match op_type op with TxDelete p' => bool_decide (p' = p) | _ => false end)
    (operations r).

(** [src/dfs/metaserver/src/master.rs:154-158 creates_file] *)
Definition creates_file (r : TransactionRecord) (p : string) : bool :=
  existsb (λ op, match op_type op with TxCreate p' _ => bool_decide (p' = p) | _ => false end)
    (operations r).

(** The loop of [get_created_metadata].
    [src/dfs/metaserver/src/master.rs:162-169 get_created_metadata] *)
Fixpoint created_metadata_loop (p : string) (ops : list TxOperation) : option FileMetadata :=
  match ops with
  | [] => None
  | op :: ops =>
      match op_type op with
      | TxCreate p' md => if decide (p' = p) then Some md else created_metadata_loop p ops
      | TxDelete _ => created_metadata_loop p ops
      end
  end.

(** [src/dfs/metaserver/src/master.rs:161-170 get_created_metadata] *)
Definition get_created_metadata (r : TransactionRecord) (p : string) : option FileMetadata :=
  created_metadata_loop p (operations r).

(** [src/dfs/metaserver/src/master.rs:173-179 is_timed_out] *)
Definition is_timed_out (now : N) (r : TransactionRecord) : bool :=
  (10000 <? sub64 now (timestamp r))%N.

(** [src/dfs/metaserver/src/master.rs:182-188 is_stale] *)
Definition is_stale (now : N) (r : TransactionRecord) : bool :=
  (3600000 <? sub64 now (timestamp r))%N.

(** ** Master state *)

(** [src/dfs/metaserver/src/master.rs:196-203 ChunkServerStatus] *)
Record ChunkServerStatus : Type := mkChunkServerStatus {
  last_heartbeat : N;
  used_space : N;
  available_space : N;
  chunk_count : N;
  rack_id : string;
}.

(** [src/dfs/metaserver/src/master.rs:206-256 MasterState] *)
Record MasterState : Type := mkMasterState {
  files : gmap string FileMetadata;
  transaction_records : gmap string TransactionRecord;
  shuffling_prefixes : gset string;
  chunk_servers : gmap string ChunkServerStatus;
  pending_commands : gmap string (list ChunkServerCommand);
  safe_mode : bool;
  safe_mode_entered_at : N;
  safe_mode_min_chunkservers : nat;
  expected_block_count : nat;
  reported_block_count : nat;
  safe_mode_threshold : f64;
  safe_mode_manual : bool;
  bad_block_locations : gmap string (gset string);
}.

Definition eta_master (s : MasterState) : MasterState :=
  mkMasterState (files s) (transaction_records s) (shuffling_prefixes s) (chunk_servers s)
    (pending_commands s) (safe_mode s) (safe_mode_entered_at s) (safe_mode_min_chunkservers s)
    (expected_block_count s) (reported_block_count s) (safe_mode_threshold s) (safe_mode_manual s)
    (bad_block_locations s).
#[global] Instance upd_files : Upd files := ltac:(upd_tac eta_master files).
#[global] Instance upd_txs : Upd transaction_records := ltac:(upd_tac eta_master transaction_records).
#[global] Instance upd_shuffling : Upd shuffling_prefixes := ltac:(upd_tac eta_master shuffling_prefixes).
#[global] Instance upd_chunk_servers : Upd chunk_servers := ltac:(upd_tac eta_master chunk_servers).
#[global] Instance upd_pending : Upd pending_commands := ltac:(upd_tac eta_master pending_commands).
#[global] Instance upd_safe_mode : Upd safe_mode := ltac:(upd_tac eta_master safe_mode).
#[global] Instance upd_entered : Upd safe_mode_entered_at := ltac:(upd_tac eta_master safe_mode_entered_at).
#[global] Instance upd_min_cs : Upd safe_mode_min_chunkservers := ltac:(upd_tac eta_master safe_mode_min_chunkservers).
#[global] Instance upd_expected : Upd expected_block_count := ltac:(upd_tac eta_master expected_block_count).
#[global] Instance upd_reported : Upd reported_block_count := ltac:(upd_tac eta_master reported_block_count).
#[global] Instance upd_threshold : Upd safe_mode_threshold := ltac:(upd_tac eta_master safe_mode_threshold).
#[global] Instance upd_manual : Upd safe_mode_manual := ltac:(upd_tac eta_master safe_mode_manual).
#[global] Instance upd_bad_blocks : Upd bad_block_locations := ltac:(upd_tac eta_master bad_block_locations).

(** `#[derive(Default)]`. [src/dfs/metaserver/src/master.rs:205-206 MasterState::default] *)
Definition master_default : MasterState :=
  mkMasterState ∅ ∅ ∅ ∅ ∅ false 0 0 0 0 (f64_of_N 0) false ∅.

(** [src/dfs/metaserver/src/master.rs:282-284 count_total_blocks] *)
Definition count_total_blocks (s : MasterState) : nat :=
  map_fold (λ _ f n, length (blocks f) + n) 0 (files s).

(** [src/dfs/metaserver/src/master.rs:260-279 enter_safe_mode] *)
Definition enter_safe_mode (now : N) (s : MasterState) : MasterState :=
  s <| safe_mode := true |>
    <| safe_mode_entered_at := now |>
    <| safe_mode_min_chunkservers := 1 |>
    <| safe_mode_threshold := f64_0_99 |>
    <| expected_block_count := count_total_blocks s |>
    <| reported_block_count := 0 |>
    <| safe_mode_manual := false |>.

(** [src/dfs/metaserver/src/master.rs:287-323 should_exit_safe_mode] *)
Definition should_exit_safe_mode (now : N) (s : MasterState) : bool :=
  if safe_mode_manual s then false
  else if negb (safe_mode s) then false
  else if Nat.ltb (size (chunk_servers s)) (safe_mode_min_chunkservers s) then false
  else if Nat.eqb (expected_block_count s) 0 then true
  else
    let reported_ratio := f64_div (f64_of_N (N.of_nat (reported_block_count s)))
                                  (f64_of_N (N.of_nat (expected_block_count s))) in
    if f64_leb (safe_mode_threshold s) reported_ratio then true
    else (60000 <? sub64 now (safe_mode_entered_at s))%N.

(** [src/dfs/metaserver/src/master.rs:326-337 exit_safe_mode] *)
Definition exit_safe_mode (s : MasterState) : MasterState :=
  if safe_mode s then s <| safe_mode := false |> <| safe_mode_manual := false |> else s.

(** [src/dfs/metaserver/src/master.rs:340-344 force_enter_safe_mode] *)
Definition force_enter_safe_mode (now : N) (s : MasterState) : MasterState :=
  enter_safe_mode now s <| safe_mode_manual := true |>.

(** [src/dfs/metaserver/src/master.rs:347-351 force_exit_safe_mode] *)
Definition force_exit_safe_mode (s : MasterState) : MasterState :=
  exit_safe_mode (s <| safe_mode_manual := false |>).

(** [src/dfs/metaserver/src/master.rs:354-356 is_in_safe_mode] *)
Definition is_in_safe_mode (s : MasterState) : bool := safe_mode s.

(** [src/dfs/metaserver/src/master.rs:359-366 update_reported_blocks] *)
Definition update_reported_blocks (now : N) (block_count : nat) (s : MasterState) : MasterState :=
  let s := s <| reported_block_count := reported_block_count s + block_count |> in
  if should_exit_safe_mode now s then exit_safe_mode s else s.

(** What a snapshot keeps: the fields marked `#[serde(skip)]` are dropped by
    the serializer and come back as their defaults.
    [src/dfs/metaserver/src/master.rs:205-256 MasterState] *)
Definition replicated (s : MasterState) : MasterState :=
  master_default <| files := files s |>
    <| transaction_records := transaction_records s |>
    <| shuffling_prefixes := shuffling_prefixes s |>.

(** ** Safe mode *)

(** A heartbeat of a chunk server as safe mode sees it: clock and block count. *)
Definition report (s : MasterState) (hb : N * nat) : MasterState :=
  update_reported_blocks hb.1 hb.2 s.

Lemma report_manual s hb :
  safe_mode s = true → safe_mode_manual s = true →
  safe_mode (report s hb) = true ∧ safe_mode_manual (report s hb) = true.
Proof.
  intros Hs Hm. unfold report, update_reported_blocks, should_exit_safe_mode. simpl.
  by rewrite Hm.
Qed.

(** Manual safe mode survives any sequence of block reports; only
    [force_exit_safe_mode] ends it. *)
Theorem manual_safe_mode_sticky now s hbs :
  is_in_safe_mode (foldl report (force_enter_safe_mode now s) hbs) = true ∧
  is_in_safe_mode (force_exit_safe_mode (foldl report (force_enter_safe_mode now s) hbs)) = false.
Proof.
  assert (∀ s, safe_mode s = true → safe_mode_manual s = true →
               safe_mode (foldl report s hbs) = true) as Hrun.
  { induction hbs as [|hb hbs IH]; intros s' Hs Hm; simpl; [done|].
    destruct (report_manual s' hb Hs Hm). by apply IH. }
  specialize (Hrun (force_enter_safe_mode now s) eq_refl eq_refl). split; [done|].
  unfold is_in_safe_mode, force_exit_safe_mode, exit_safe_mode. simpl. by rewrite Hrun.
Qed.

Lemma sub64_of_le now t : (t ≤ now)%N → (now < u64_mod)%N → sub64 now t = (now - t)%N.
Proof.
  intros Hle Hlt. unfold sub64. rewrite N.add_sub_swap by done.
  replace (now - t + u64_mod)%N with ((now - t) + 1 * u64_mod)%N by lia.
  rewrite N.Div0.mod_add. apply N.mod_small. lia.
Qed.

(** Automatic safe mode ends: a block report that arrives more than sixty
    seconds after it was entered, with at least one chunk server registered,
    leaves it whatever was reported. *)
Theorem safe_mode_times_out entered now n s0 s :
  s = enter_safe_mode entered s0 → 0 < size (chunk_servers s0) →
  (entered + 60000 < now)%N → (now < u64_mod)%N →
  is_in_safe_mode (update_reported_blocks now n s) = false.
Proof.
  intros -> Hcs Hlate Hnow. unfold is_in_safe_mode, update_reported_blocks, should_exit_safe_mode. simpl.
  rewrite (proj2 (Nat.ltb_ge _ 1)) by lia.
  rewrite sub64_of_le by lia. rewrite (proj2 (N.ltb_lt _ _)) by lia.
  by repeat case_match.
Qed.

Definition one_server : gmap string ChunkServerStatus :=
  {["cs1" := mkChunkServerStatus 0 0 0 0 ""]}.

Lemma safe_mode_times_out_witness :
  is_in_safe_mode (update_reported_blocks 100000 0
    (enter_safe_mode 5 (master_default <| chunk_servers := one_server |>))) = false.
Proof. eapply safe_mode_times_out; [reflexivity|vm_compute; lia|vm_compute; done|vm_compute; done]. Defined.
