(* ===== verification/AppState.v ===== *)
(** * The replicated state machine: commands and [apply_command]

    dfs/metaserver/src/simple_raft.rs, [RaftNode::apply_command] and the
    command types. A log entry is applied to [AppState], either the metadata
    of one shard ([MasterState]) or the configuration state ([ShardMap] and
    the registered masters). *)

From S2P Require Import Prelude BTree Sharding MasterState.

(** ** Commands *)

(** [src/dfs/metaserver/src/simple_raft.rs:255-356 MasterCommand] *)
Inductive MasterCommand : Type :=
  | CreateFile (p : string) (ec_data ec_parity : Z)
  | DeleteFile (p : string)
  | AllocateBlock (p bid : string) (locs : list string)
  | RegisterChunkServer (address : string)
  | RenameFile (source_path dest_path : string)
  | CreateTransactionRecord (record : TransactionRecord)
  | UpdateTransactionState (id : string) (new_state : TxState)
  | ApplyTransactionOperation (id : string) (operation : TxOperation)
  | DeleteTransactionRecord (id : string)
  | SplitShard (split_key new_shard_id : string) (new_shard_peers : list string)
  | MergeShard (victim_shard_id : string)
  | IngestBatch (batch : list FileMetadata)
  | TriggerShuffle (prefix : string)
  | CompleteFile (p : string) (sz : N) (etag : option string) (created : option N)
                 (block_checksums : list BlockChecksumInfo)
  | StopShuffle (prefix : string)
  | UpdateAccessStats (p : string) (accessed_at_ms : N)
  | MoveToCold (p : string) (moved_at_ms : N)
  | ConvertToEc (p : string) (ec_data ec_parity : Z) (new_blocks : list BlockInfo)
  | SetParticipantAcked (id : string)
  | IncrementInquiryCount (id : string).

(** [src/dfs/metaserver/src/simple_raft.rs:359-389 ConfigCommand] *)
Inductive ConfigCommand : Type :=
  | CfgAddShard (shard_id : string) (peers : list string)
  | CfgRemoveShard (shard_id : string)
  | CfgSplitShard (shard_id split_key new_shard_id : string) (new_shard_peers : list string)
  | CfgMergeShard (victim_shard_id retained_shard_id : string)
  | CfgRebalanceShard (old_key new_key : string)
  | CfgRegisterMaster (address shard_id : string)
  | CfgShardHeartbeat (address : string) (rps_per_prefix : gmap string f64).

(** [src/dfs/metaserver/src/simple_raft.rs:72-106 MembershipCommand] *)
Inductive MembershipCommand : Type :=
  | AddServer (server_id : nat) (server_address : string)
  | RemoveServer (server_id : nat)
  | AddServers (servers : gmap nat string)
  | RemoveServers (server_ids : list nat)
  | BeginJointConsensus (old_members new_members : gmap nat string) (version : N)
  | FinalizeConfiguration (new_members : gmap nat string) (version : N).

(** [src/dfs/metaserver/src/simple_raft.rs:63-68 Command] *)
Inductive Command : Type :=
  | CMaster (c : MasterCommand)
  | CConfig (c : ConfigCommand)
  | CMembership (c : MembershipCommand)
  | NoOp.

(** How a command submitted to Raft ends: applied, answered with a leader hint,
    not accepted because the channel is closed, or never answered. *)
Inductive RaftReply : Type :=
  | RaftOk
  | RaftNotLeader (hint : option string)
  | RaftClosed
  | RaftLost.

(** ** Application states *)

(** [src/dfs/metaserver/src/simple_raft.rs:392-397 MasterInfo] *)
Record MasterInfo : Type := mkMasterInfo {
  info_address : string;
  info_shard_id : string;
  info_last_heartbeat : N;
  info_rps_per_prefix : gmap string f64;
}.

(** [src/dfs/metaserver/src/simple_raft.rs:400-403 ConfigStateInner] *)
Record ConfigStateInner : Type := mkConfigState {
  shard_map : ShardMap;
  masters : gmap string MasterInfo;
}.

(** [src/dfs/metaserver/src/simple_raft.rs:406-409 AppState] *)
Inductive AppState : Type :=
  | AMaster (m : MasterState)
  | AConfig (c : ConfigStateInner).

(** [src/dfs/metaserver/src/simple_raft.rs:412-417 is_safe_mode] *)
Definition is_safe_mode (a : AppState) : bool :=
  match a with
  | AMaster m => is_in_safe_mode m
  | AConfig _ => false
  end.

(** ** Master commands *)

(** `get_mut(path)` followed by an in-place change. *)
Definition update_file (p : string) (f : FileMetadata → FileMetadata) (s : MasterState)
  : MasterState := s <| files := alter f p (files s) |>.
Definition update_record (id : string) (f : TransactionRecord → TransactionRecord) (s : MasterState)
  : MasterState := s <| transaction_records := alter f id (transaction_records s) |>.

(** [src/dfs/metaserver/src/simple_raft.rs:3012-3026 apply_command] *)
Definition new_file (p : string) (ec_data ec_parity : Z) : FileMetadata :=
  mkFileMetadata p 0 [] "" 0 ec_data ec_parity 0 0 0.

(** [src/dfs/metaserver/src/simple_raft.rs:3034-3054 apply_command] *)
Definition allocate_block (bid : string) (locs : list string) (meta : FileMetadata) : FileMetadata :=
  meta <| blocks := blocks meta ++
            [mkBlockInfo bid 0 locs 0 (ec_data_shards meta) (ec_parity_shards meta) 0] |>.

(** [src/dfs/metaserver/src/simple_raft.rs:3062-3077 apply_command] *)
Definition rename_file (src dst : string) (s : MasterState) : MasterState :=
  match files s !! src with
  | Some metadata =>
      s <| files := <[dst := metadata <| path := dst |>]> (delete src (files s)) |>
  | None => s
  end.

(** [src/dfs/metaserver/src/simple_raft.rs:3106-3136 apply_command] *)
Definition apply_tx_operation (op : TxOperation) (s : MasterState) : MasterState :=
  match op_type op with
  | TxDelete p => s <| files := delete p (files s) |>
  | TxCreate p metadata =>
      match files s !! p with
      | None => s <| files := <[p := metadata]> (files s) |>
      | Some _ => s
      end
  end.

(** [src/dfs/metaserver/src/simple_raft.rs:3148-3167 apply_command] *)
Definition split_files (split_key : string) (s : MasterState) : MasterState :=
  let to_move := filter (λ k, String.leb split_key k = true) (map_to_list (files s)).*1 in
  s <| files := foldl (λ m k, delete k m) (files s) to_move |>.

(** `file.blocks.iter_mut().find(|b| b.block_id == info.block_id)` and the update.
    [src/dfs/metaserver/src/simple_raft.rs:3204-3214 apply_command] *)
Fixpoint set_block_checksum (info : BlockChecksumInfo) (bs : list BlockInfo) : list BlockInfo :=
  match bs with
  | [] => []
  | b :: bs =>
      if decide (block_id b = info_block_id info) then
        (b <| checksum_crc32c := info_checksum_crc32c info |>
           <| block_size := actual_size info |>
           <| original_size := actual_size info |>) :: bs
      else b :: set_block_checksum info bs
  end.

(** [src/dfs/metaserver/src/simple_raft.rs:3216-3237 apply_command] *)
Definition distribute_sizes (sz : N) (bs : list BlockInfo) : list BlockInfo :=
  let num_blocks := length bs in
  match bs with
  | [] => []
  | [b] => [b <| block_size := sz |>]
  | _ =>
      let bsize := (sz / N.of_nat num_blocks)%N in
      let last_block_size := (sz - bsize * N.of_nat (num_blocks - 1))%N in
      imap (λ i b, b <| block_size := if Nat.ltb i (num_blocks - 1) then bsize
                                      else last_block_size |>) bs
  end.

(** [src/dfs/metaserver/src/simple_raft.rs:3187-3248 apply_command] *)
Definition complete_file (sz : N) (etag : option string) (created : option N)
    (block_checksums : list BlockChecksumInfo) (file : FileMetadata) : FileMetadata :=
  let file := file <| file_size := sz |> in
  let file := match etag with Some e => file <| etag_md5 := e |> | None => file end in
  let file := match created with Some c => file <| created_at_ms := c |> | None => file end in
  match block_checksums with
  | [] => file <| blocks := distribute_sizes sz (blocks file) |>
  | _ => file <| blocks := foldl (λ bs info, set_block_checksum info bs) (blocks file)
                             block_checksums |>
  end.

(** [src/dfs/metaserver/src/simple_raft.rs:3004-3300 apply_command] *)
Definition apply_master_command (cmd : MasterCommand) (s : MasterState) : MasterState :=
  match cmd with
  | CreateFile p d r => s <| files := <[p := new_file p d r]> (files s) |>
  | DeleteFile p => s <| files := delete p (files s) |>
  | AllocateBlock p bid locs => update_file p (allocate_block bid locs) s
  | RegisterChunkServer _ => s
  | RenameFile src dst => rename_file src dst s
  | CreateTransactionRecord record =>
      s <| transaction_records := <[tx_id record := record]> (transaction_records s) |>
  | UpdateTransactionState id new_state => update_record id (λ r, r <| state := new_state |>) s
  | ApplyTransactionOperation _ op => apply_tx_operation op s
  | DeleteTransactionRecord id =>
      s <| transaction_records := delete id (transaction_records s) |>
  | SplitShard split_key _ _ => split_files split_key s
  | MergeShard _ => s
  | IngestBatch batch =>
      s <| files := foldl (λ m f, <[path f := f]> m) (files s) batch |>
  | TriggerShuffle prefix => s <| shuffling_prefixes := {[prefix]} ∪ shuffling_prefixes s |>
  | CompleteFile p sz etag created sums => update_file p (complete_file sz etag created sums) s
  | StopShuffle prefix => s <| shuffling_prefixes := shuffling_prefixes s ∖ {[prefix]} |>
  | UpdateAccessStats p t =>
      update_file p (λ m, m <| last_access_ms := t |>
                            <| access_count := wrap64 (access_count m + 1) |>) s
  | MoveToCold p t => update_file p (λ m, m <| moved_to_cold_at_ms := t |>) s
  | ConvertToEc p d r new_blocks =>
      update_file p (λ m, m <| ec_data_shards := d |> <| ec_parity_shards := r |>
                            <| blocks := new_blocks |>) s
  | SetParticipantAcked id => update_record id (λ r, r <| participant_acked := true |>) s
  | IncrementInquiryCount id =>
      update_record id (λ r, r <| inquiry_count := wrap32 (inquiry_count r + 1) |>) s
  end.

#[global] Arguments split_files : simpl never.
#[global] Arguments rename_file : simpl never.
#[global] Arguments apply_tx_operation : simpl never.
#[global] Arguments complete_file : simpl never.
#[global] Arguments allocate_block : simpl never.

(** ** Configuration commands *)

Section config.
  Context (crc32 : string → N).

(** [now] is the wall clock in seconds the applying node reads.
    [src/dfs/metaserver/src/simple_raft.rs:3333-3372 apply_command] *)
Definition register_master (now : N) (address shard_id : string) (c : ConfigStateInner)
  : ConfigStateInner :=
  let map' :=
    if negb (has_shard (shard_map c) shard_id) then add_shard crc32 (shard_map c) shard_id [address]
    else
      let peers := default [] (get_peers (shard_map c) shard_id) in
      if bool_decide (address ∈ peers) then shard_map c
      else add_shard crc32 (shard_map c) shard_id (peers ++ [address]) in
  mkConfigState map' (<[address := mkMasterInfo address shard_id now ∅]> (masters c)).

(** [src/dfs/metaserver/src/simple_raft.rs:3302-3388 apply_command] *)
Definition apply_config_command (now : N) (cmd : ConfigCommand) (c : ConfigStateInner)
  : ConfigStateInner :=
  match cmd with
  | CfgAddShard sid peers => mkConfigState (add_shard crc32 (shard_map c) sid peers) (masters c)
  | CfgRemoveShard sid => mkConfigState (remove_shard (shard_map c) sid) (masters c)
  | CfgSplitShard _ split_key new_id peers =>
      mkConfigState (split_shard (shard_map c) split_key new_id peers).2 (masters c)
  | CfgMergeShard victim retained =>
      mkConfigState (merge_shards (shard_map c) victim retained).2 (masters c)
  | CfgRebalanceShard old_key new_key =>
      mkConfigState (rebalance_boundary (shard_map c) old_key new_key).2 (masters c)
  | CfgRegisterMaster address sid => register_master now address sid c
  | CfgShardHeartbeat address rps =>
      mkConfigState (shard_map c)
        (alter (λ info, mkMasterInfo (info_address info) (info_shard_id info) now rps)
           address (masters c))
  end.

(** [src/dfs/metaserver/src/simple_raft.rs:2995-3399 apply_command] *)
Definition apply_command (now : N) (command : Command) (a : AppState) : AppState :=
  match command with
  | CMaster cmd =>
      match a with
      | AMaster s => AMaster (apply_master_command cmd s)
      | AConfig _ => a
      end
  | CConfig cmd =>
      match a with
      | AConfig c => AConfig (apply_config_command now cmd c)
      | AMaster _ => a
      end
  | CMembership _ => a
  | NoOp => a
  end.

End config.

(** ** Configuration state: the shard map stays well formed *)

(** A merge command that names the same shard twice. *)
Definition self_merge (cmd : ConfigCommand) : Prop :=
  match cmd with CfgMergeShard v rt => v = rt | _ => False end.

Lemma apply_config_ok crc now cmd c :
  ¬ self_merge cmd → shard_map_ok (shard_map c) →
  shard_map_ok (shard_map (apply_config_command crc now cmd c)).
Proof.
  intros Hself Hok. destruct cmd; simpl;
    eauto using add_shard_ok, remove_shard_ok, split_shard_ok, merge_shards_ok, rebalance_boundary_ok.
  unfold register_master. simpl. repeat case_match; eauto using add_shard_ok.
Qed.

(** Whatever sequence of configuration commands is committed, with no
    shard merged into itself, the shard map stays well formed: sorted tables,
    only registered owners, no shard owning two ranges, peers known for exactly
    the registered shards. *)
Theorem config_commands_keep_shard_map_ok crc (cmds : list (N * ConfigCommand)) c :
  shard_map_ok (shard_map c) → Forall (λ nc, ¬ self_merge nc.2) cmds →
  shard_map_ok (shard_map (foldl (λ c nc, apply_config_command crc nc.1 nc.2 c) c cmds)).
Proof.
  intros Hok Hcmds. revert c Hok.
  induction Hcmds as [|[now cmd] cmds Hself _ IH]; intros c Hok; simpl; [done|].
  by apply IH, apply_config_ok.
Qed.

Lemma config_commands_keep_shard_map_ok_witness :
  let c0 := mkConfigState new_range ∅ in
  let cmds := [(1%N, CfgRegisterMaster "m1:1" "shard-1"); (2%N, CfgRegisterMaster "m2:1" "shard-2");
               (3%N, CfgSplitShard "shard-2" "/t" "shard-3" []);
               (4%N, CfgMergeShard "shard-1" "shard-3")] in
  shard_map_ok (shard_map (foldl (λ c nc, apply_config_command (λ _, 0%N) nc.1 nc.2 c) c0 cmds)).
Proof.
  intros c0 cmds. apply config_commands_keep_shard_map_ok; [apply new_range_ok|].
  subst cmds. by repeat (apply Forall_cons; split; [simpl; by intros ?|]).
Defined.

(** Merging a shard into itself breaks the map: the last range is then
    owned by a shard that is no longer registered. *)
Theorem self_merge_breaks_map :
  ∃ m, shard_map_ok m ∧ (merge_shards m "shard-0" "shard-0").1 = true ∧
       get_shard (λ _, 0%N) (merge_shards m "shard-0" "shard-0").2 "/x" = Some "shard-0" ∧
       has_shard (merge_shards m "shard-0" "shard-0").2 "shard-0" = false.
Proof.
  exists (add_shard (λ _, 0%N) new_range "shard-0" []).
  split; [by apply add_shard_ok, new_range_ok|]. by vm_compute.
Qed.

(** Registering a master is not a function of the replicated state: nodes that
    apply the command at different times differ afterwards. *)
Lemma register_depends_on_clock crc c address sid now now' :
  now ≠ now' →
  masters (apply_config_command crc now (CfgRegisterMaster address sid) c) ≠
  masters (apply_config_command crc now' (CfgRegisterMaster address sid) c).
Proof.
  intros Hne Heq. apply (f_equal (.!! address)) in Heq. cbn in Heq. rewrite !lookup_insert_eq in Heq. congruence.
Qed.

(** ** Master state: replicas agree *)

(** Replica determinism: a master command changes the replicated fields
    as a function of the replicated fields alone, so nodes whose local
    chunk-server and safe-mode state differ stay in agreement. *)
Theorem apply_master_deterministic cmd s1 s2 :
  replicated s1 = replicated s2 →
  replicated (apply_master_command cmd s1) = replicated (apply_master_command cmd s2).
Proof.
  destruct s1, s2. unfold replicated. cbn. intros [= -> -> ->].
  destruct cmd; cbn; try reflexivity;
    unfold rename_file, apply_tx_operation, split_files; cbn; by repeat case_match.
Qed.

Lemma apply_master_deterministic_witness :
  replicated (apply_master_command (CreateFile "/a" 0 0) master_default) =
  replicated (apply_master_command (CreateFile "/a" 0 0)
                (master_default <| chunk_servers := one_server |>)).
Proof. apply apply_master_deterministic. reflexivity. Defined.

(** ** Splitting a shard *)

Lemma foldl_delete_lookup {V} (ks : list string) (m : gmap string V) k :
  foldl (λ m k, delete k m) m ks !! k = if decide (k ∈ ks) then None else m !! k.
Proof.
  revert m. induction ks as [|k1 ks IH]; intros m; [done|]. simpl foldl. rewrite IH.
  destruct (decide (k ∈ ks)).
  - by rewrite decide_True by set_solver.
  - destruct (decide (k = k1)) as [->|?].
    + rewrite decide_True by set_solver. apply lookup_delete_eq.
    + rewrite decide_False by set_solver. by apply lookup_delete_ne.
Qed.

Lemma split_files_lookup k s p :
  files (split_files k s) !! p = if String.leb k p then None else files s !! p.
Proof.
  unfold split_files. cbn. rewrite foldl_delete_lookup. case_decide as Hin.
  - apply list_elem_of_filter in Hin as [-> _]. done.
  - destruct (String.leb k p) eqn:Hle; [|done]. apply eq_None_not_Some. intros [f Hf].
    apply Hin, list_elem_of_filter. split; [done|].
    apply list_elem_of_fmap. exists (p, f). split; [done|]. by apply elem_of_map_to_list.
Qed.

(** Once a split at [prefix] has been applied, no file below [prefix] is
    left in the shard's metadata, so a migration that selects the files to
    ship by prefix afterwards finds none. *)
Theorem split_leaves_nothing_to_migrate prefix new_id peers s suffix :
  files (apply_master_command (SplitShard prefix new_id peers) s) !! (prefix +:+ suffix) = None.
Proof. unfold apply_master_command. rewrite split_files_lookup. by rewrite string_leb_app. Qed.

(** ** Commands touch only the files they name *)

Definition touches (cmd : MasterCommand) (p : string) : Prop :=
  match cmd with
  | CreateFile q _ _ | DeleteFile q | AllocateBlock q _ _ | CompleteFile q _ _ _ _
  | UpdateAccessStats q _ | MoveToCold q _ | ConvertToEc q _ _ _ => p = q
  | RenameFile src dst => p = src ∨ p = dst
  | ApplyTransactionOperation _ op =>
      match op_type op with TxDelete q => p = q | TxCreate q _ => p = q end
  | SplitShard k _ _ => String.leb k p = true
  | IngestBatch batch => p ∈ path <$> batch
  | _ => False
  end.

Lemma foldl_ingest_ne (batch : list FileMetadata) (m : gmap string FileMetadata) p :
  p ∉ path <$> batch → foldl (λ m f, <[path f := f]> m) m batch !! p = m !! p.
Proof.
  revert m. induction batch as [|f batch IH]; intros m Hp; simpl in *; [done|].
  rewrite IH by set_solver. apply lookup_insert_ne. set_solver.
Qed.

Lemma files_frame cmd s p :
  ¬ touches cmd p → files (apply_master_command cmd s) !! p = files s !! p.
Proof.
  destruct cmd; cbn; intros Hn; try done;
    rewrite ?lookup_insert_ne, ?lookup_delete_ne, ?lookup_alter_ne by (by intros ->);
    try done.
  - unfold rename_file. destruct (files s !! source_path); cbn; [|done].
    rewrite lookup_insert_ne by naive_solver. apply lookup_delete_ne. naive_solver.
  - unfold apply_tx_operation. destruct (op_type operation) as [q|q md]; cbn in *.
    + by rewrite lookup_delete_ne by (by intros ->).
    + destruct (files s !! q); cbn; [done|]. by rewrite lookup_insert_ne by (by intros ->).
  - rewrite split_files_lookup. by destruct (String.leb split_key p).
  - by apply foldl_ingest_ne.
Qed.

(** Frame: a command leaves the metadata of every file it does not name unchanged. *)
Theorem apply_master_frame cmd s p :
  ¬ touches cmd p → files (apply_master_command cmd s) !! p = files s !! p.
Proof. apply files_frame. Qed.

Lemma apply_master_frame_witness :
  files (apply_master_command (RenameFile "/a" "/b")
    (apply_master_command (CreateFile "/c" 0 0) master_default)) !! "/c" =
  Some (new_file "/c" 0 0).
Proof. rewrite apply_master_frame; [by vm_compute|simpl; intros [?|?]; done]. Defined.

(** ** Retried transaction commands *)

(** The commands the two-phase-commit code may submit more than once. *)
Definition retryable (cmd : MasterCommand) : bool :=
  match cmd with
  | CreateTransactionRecord _ | UpdateTransactionState _ _ | ApplyTransactionOperation _ _
  | DeleteTransactionRecord _ | SetParticipantAcked _ => true
  | _ => false
  end.

Lemma master_eta s : eta_master s = s.
Proof. by destruct s. Qed.

Lemma update_record_idem id f s :
  (∀ r, f (f r) = f r) → update_record id f (update_record id f s) = update_record id f s.
Proof.
  intros Hf. unfold update_record. cbn.
  assert (alter f id (alter f id (transaction_records s)) = alter f id (transaction_records s))
    as ->; [|done].
  apply map_eq. intros k. destruct (decide (id = k)) as [->|?].
  - rewrite !lookup_alter_eq. destruct (transaction_records s !! k); cbn; [by rewrite Hf|done].
  - by rewrite !lookup_alter_ne.
Qed.

(** Idempotence: applying a retried transaction command twice in a row is
    applying it once. *)
Theorem retry_idempotent cmd s :
  retryable cmd = true →
  apply_master_command cmd (apply_master_command cmd s) = apply_master_command cmd s.
Proof.
  destruct cmd; cbn [retryable]; try done; intros _; unfold apply_master_command.
  - cbn. by rewrite insert_insert_eq.
  - by apply update_record_idem.
  - unfold apply_tx_operation. destruct (op_type operation) as [q|q md]; cbn.
    + by rewrite delete_delete_eq.
    + destruct (files s !! q) eqn:Hq; cbn; [by rewrite Hq|]. by rewrite lookup_insert_eq.
  - cbn. by rewrite delete_delete_eq.
  - by apply update_record_idem.
Qed.

Lemma retry_idempotent_witness :
  let cmd := ApplyTransactionOperation "t" (mkTxOperation "s" (TxCreate "/b" (new_file "/b" 0 0))) in
  apply_master_command cmd (apply_master_command cmd master_default) =
  apply_master_command cmd master_default.
Proof. intros cmd. apply retry_idempotent. reflexivity. Defined.

(** ** Completing a file *)

Definition total_size (bs : list BlockInfo) : N := foldr (λ b n, (block_size b + n)%N) 0%N bs.

Lemma total_size_app bs1 bs2 : total_size (bs1 ++ bs2) = (total_size bs1 + total_size bs2)%N.
Proof. induction bs1 as [|b bs1 IH]; cbn; [done|]. unfold total_size in *. lia. Qed.

Lemma total_size_const (g : nat → BlockInfo → BlockInfo) (n : N) bs :
  (∀ i b, i < length bs → block_size (g i b) = n) →
  total_size (imap g bs) = (n * N.of_nat (length bs))%N.
Proof.
  revert g. induction bs as [|b bs IH]; intros g Hg; cbn; [lia|].
  rewrite Hg by (cbn; lia). fold (total_size (imap (g ∘ S) bs)). rewrite (IH (g ∘ S)); [lia|].
  intros i b' Hi. apply Hg. cbn. lia.
Qed.

(** Completing a file without per-block checksums distributes its size
    over its blocks without losing a byte: the block sizes add up to the file
    size, for any number of blocks but zero. *)
Theorem distribute_sizes_total sz bs :
  bs ≠ [] → total_size (distribute_sizes sz bs) = sz.
Proof.
  intros Hne. destruct bs as [|b0 [|b1 bs]]; [done|unfold distribute_sizes; cbn; lia|].
  destruct (exists_last (l := b0 :: b1 :: bs)) as (bs' & b & Heq); [done|].
  assert (0 < length bs') as Hlen.
  { apply (f_equal length) in Heq. rewrite length_app in Heq. cbn in Heq. lia. }
  unfold distribute_sizes. rewrite Heq. rewrite length_app. cbn [length].
  replace (length bs' + 1 - 1) with (length bs') by lia.
  rewrite imap_app, total_size_app.
  rewrite (total_size_const _ (sz / N.of_nat (length bs' + 1))%N).
  2: { intros i b' Hi. rewrite (proj2 (Nat.ltb_lt _ _) Hi). done. }
  unfold compose. simpl imap. rewrite Nat.add_0_r, Nat.ltb_irrefl. cbn -[N.mul N.div N.sub].
  assert (sz / N.of_nat (length bs' + 1) * N.of_nat (length bs') ≤ sz)%N; [|lia].
  etrans; [|apply (N.Div0.mul_div_le sz (N.of_nat (length bs' + 1)))].
  rewrite N.mul_comm. apply N.mul_le_mono_r. lia.
Qed.

Lemma distribute_sizes_total_witness :
  let b id := mkBlockInfo id 0 [] 0 0 0 0 in
  total_size (distribute_sizes 10 [b "x"; b "y"; b "z"]) = 10%N.
Proof. intros b. apply distribute_sizes_total. done. Defined.

(** ** File table invariant *)

(** Every entry of the file table carries the path it is stored under. *)
Definition files_keyed (s : MasterState) : Prop :=
  ∀ p f, files s !! p = Some f → path f = p.

(** [cmd] applies a transaction's create operation for a free path [p] whose
    metadata names another path. A participant records such an operation when
    the prepare request comes without metadata, since it fills in the default
    metadata, whose path is empty. *)
Definition misfiles (cmd : MasterCommand) (s : MasterState) : Prop :=
  ∃ id shard p md,
    cmd = ApplyTransactionOperation id (mkTxOperation shard (TxCreate p md)) ∧
    files s !! p = None ∧ path md ≠ p.

Lemma foldl_ingest_keyed (batch : list FileMetadata) (m : gmap string FileMetadata) :
  (∀ p f, m !! p = Some f → path f = p) →
  ∀ p f, foldl (λ m f, <[path f := f]> m) m batch !! p = Some f → path f = p.
Proof.
  revert m. induction batch as [|f0 batch IH]; intros m Hm; cbn; [done|].
  apply IH. intros p f [[<- <-]|[? ?]]%lookup_insert_Some; eauto.
Qed.

Lemma alter_keyed (g : FileMetadata → FileMetadata) p0 (m : gmap string FileMetadata) :
  (∀ f, path (g f) = path f) → (∀ p f, m !! p = Some f → path f = p) →
  ∀ p f, alter g p0 m !! p = Some f → path f = p.
Proof.
  intros Hg Hm p f. rewrite lookup_alter. case_decide; subst; [|apply Hm].
  intros (f' & Hf' & ->)%fmap_Some. rewrite Hg. eauto.
Qed.

Lemma complete_file_path sz e c sums f : path (complete_file sz e c sums f) = path f.
Proof. unfold complete_file. by destruct e, c, sums. Qed.

Lemma command_keeps_keyed cmd s :
  files_keyed s → ¬ misfiles cmd s → files_keyed (apply_master_command cmd s).
Proof.
  intros Hs Hc p f. unfold files_keyed in Hs.
  destruct cmd; cbn [apply_master_command update_record] in *; try apply Hs; cbn.
  - intros [[<- <-]|[? ?]]%lookup_insert_Some; [done|eauto].
  - intros [? ?]%lookup_delete_Some. eauto.
  - by apply alter_keyed.
  - unfold rename_file. destruct (files s !! source_path); cbn; [|apply Hs].
    intros [[<- <-]|[? [??]%lookup_delete_Some]]%lookup_insert_Some; [done|eauto].
  - unfold apply_tx_operation. destruct operation as [shard [q|q md]]; cbn.
    + intros [? ?]%lookup_delete_Some. eauto.
    + destruct (files s !! q) eqn:Hq; cbn; [apply Hs|].
      intros [[<- <-]|[? ?]]%lookup_insert_Some; [|eauto].
      destruct (decide (path md = q)); [done|]. destruct Hc. by exists id, shard, q, md.
  - rewrite split_files_lookup. destruct (String.leb split_key p); [done|apply Hs].
  - apply foldl_ingest_keyed, Hs.
  - apply alter_keyed; [intros; apply complete_file_path|done].
  - by apply alter_keyed.
  - by apply alter_keyed.
  - by apply alter_keyed.
Qed.

(** C40. A master command applied to a file table in which each file is stored
    under its own path leaves a table with that property, with one exception,
    which always breaks it: a transaction's create operation for a free path
    whose metadata names another path. *)
Theorem apply_master_keeps_keyed cmd s :
  files_keyed s →
  (files_keyed (apply_master_command cmd s) ↔ ¬ misfiles cmd s).
Proof.
  intros Hs. split; [|by apply command_keeps_keyed].
  intros Hk (id & shard & p & md & -> & Hp & Hne). apply Hne, (Hk p md).
  cbn. unfold apply_tx_operation. cbn. rewrite Hp. cbn. apply lookup_insert_eq.
Qed.

Definition one_file : MasterState := master_default <| files := {["/a" := new_file "/a" 0 0]} |>.

(** The command of a prepare request without metadata for [p]. *)
Definition create_without_metadata (p : string) : MasterCommand :=
  ApplyTransactionOperation "tx" (mkTxOperation "shard-1" (TxCreate p (new_file "" 0 0))).

Example create_without_metadata_misfiles :
  files (apply_master_command (create_without_metadata "/b") one_file) !! "/b" = Some (new_file "" 0 0).
Proof. by vm_compute. Qed.

Lemma apply_master_keeps_keyed_witness :
  files_keyed (apply_master_command (RenameFile "/a" "/b") one_file) ∧
  files_keyed (apply_master_command (create_without_metadata "/a") one_file) ∧
  ¬ files_keyed (apply_master_command (create_without_metadata "/b") one_file).
Proof.
  assert (Hs : files_keyed one_file).
  { intros p f Hf. cbn in Hf. by apply lookup_singleton_Some in Hf as [<- <-]. }
  split; [|split].
  - apply apply_master_keeps_keyed; [done|]. by intros (? & ? & ? & ? & ? & _).
  - apply apply_master_keeps_keyed; [done|]. intros (? & ? & ? & ? & [= <- <- <- <-] & Hf & _).
    by vm_compute in Hf.
  - rewrite apply_master_keeps_keyed by done. intros Hn. apply Hn.
    exists "tx", "shard-1", "/b", (new_file "" 0 0). by vm_compute.
Defined.
