(* ===== verification/ClusterConfig.v ===== *)
(** * Cluster configurations and quorums

    dfs/metaserver/src/simple_raft.rs: [ClusterConfiguration], the progress
    tracking of membership changes, and the quorum test [has_joint_majority]
    that elections, commits and linearizable reads share. *)

From S2P Require Import Prelude.

(** [src/dfs/metaserver/src/simple_raft.rs:110-127 ClusterConfiguration] *)
Inductive ClusterConfiguration : Type :=
  | Simple (members : gmap nat string) (version : N)
  | Joint (old_members new_members : gmap nat string) (version : N).

(** [src/dfs/metaserver/src/simple_raft.rs:131-144 all_members] *)
Definition all_members (c : ClusterConfiguration) : gmap nat string :=
  match c with
  | Simple members _ => members
  | Joint old_members new_members _ => new_members ∪ old_members
  end.

(** `acks.iter().filter(|id| members.contains_key(id)).count() > members.len() / 2`.
    [src/dfs/metaserver/src/simple_raft.rs:149-153 has_joint_majority] *)
Definition majority (members : gmap nat string) (acks : gset nat) : bool :=
  Nat.ltb (size members `div` 2) (size (filter (λ i, is_Some (members !! i)) acks)).

(** [src/dfs/metaserver/src/simple_raft.rs:147-172 has_joint_majority] *)
Definition has_joint_majority (c : ClusterConfiguration) (acks : gset nat) : bool :=
  match c with
  | Simple members _ => majority members acks
  | Joint old_members new_members _ => majority old_members acks && majority new_members acks
  end.

(** [src/dfs/metaserver/src/simple_raft.rs:175-180 version] *)
Definition config_version (c : ClusterConfiguration) : N :=
  match c with Simple _ v => v | Joint _ _ v => v end.

(** [src/dfs/metaserver/src/simple_raft.rs:185-190 ServerRole] *)
Inductive ServerRole : Type := Voting | NonVoting.

(** [src/dfs/metaserver/src/simple_raft.rs:222-229 CatchUpProgress] *)
Record CatchUpProgress : Type := mkCatchUpProgress {
  progress_match_index : nat;
  rounds_caught_up : nat;
  added_at : N;
}.

(** [src/dfs/metaserver/src/simple_raft.rs:232-238 CatchUpProgress::new] *)
Definition catch_up_new (current_time : N) : CatchUpProgress :=
  mkCatchUpProgress 0 0 current_time.

(** [src/dfs/metaserver/src/simple_raft.rs:241-243 is_caught_up] *)
Definition is_caught_up (p : CatchUpProgress) (leader_commit_index : nat) : bool :=
  Nat.leb leader_commit_index (progress_match_index p) && Nat.leb 10 (rounds_caught_up p).

(** [src/dfs/metaserver/src/simple_raft.rs:246-251 CatchUpProgress::update] *)
Definition catch_up_update (p : CatchUpProgress) (new_match_index : nat) : CatchUpProgress :=
  if Nat.ltb (progress_match_index p) new_match_index then
    mkCatchUpProgress new_match_index (S (rounds_caught_up p)) (added_at p)
  else p.

(** [src/dfs/metaserver/src/simple_raft.rs:194-218 ConfigChangeState] *)
Inductive ConfigChangeState : Type :=
  | NoChange
  | AddingServers (servers : gmap nat (string * CatchUpProgress)) (started_at : N)
  | InJointConsensus (joint_config_index : nat) (target_config : gmap nat string)
  | TransferringLeadership (target_server : nat) (servers_to_remove : list nat).

(** ** Quorums *)

(** What elections rely on: any two quorums have a common member. *)
Class QuorumSystem (quorum : gset nat → Prop) : Prop :=
  quorum_meet : ∀ a b, quorum a → quorum b → ∃ x, x ∈ a ∧ x ∈ b.

Lemma filter_members_subseteq (members : gmap nat string) (a : gset nat) :
  filter (λ i, is_Some (members !! i)) a ⊆ dom members.
Proof. intros x [Hx _]%elem_of_filter. by apply elem_of_dom. Qed.

Lemma majority_meet (members : gmap nat string) a b :
  majority members a = true → majority members b = true → ∃ x, x ∈ a ∧ x ∈ b ∧ x ∈ dom members.
Proof.
  unfold majority. rewrite !Nat.ltb_lt. intros Ha Hb.
  set (fa := filter _ a) in *. set (fb := filter _ b) in *.
  destruct (decide (fa ∩ fb = ∅)) as [Hdisj|Hne].
  - exfalso. assert (size (fa ∪ fb) ≤ size (dom members)) as Hle.
    { apply subseteq_size. apply union_subseteq. split; apply filter_members_subseteq. }
    rewrite size_union in Hle by set_solver. rewrite size_dom in Hle.
    pose proof (Nat.div_mod_eq (size members) 2). pose proof (Nat.mod_upper_bound (size members) 2).
    lia.
  - apply set_choose_L in Hne as [x [Hxa Hxb]%elem_of_intersection].
    apply elem_of_filter in Hxa as [Hm Hxa]. apply elem_of_filter in Hxb as [_ Hxb].
    exists x. split_and!; [done..|]. by apply elem_of_dom.
Qed.

#[global] Instance has_joint_majority_quorum c : QuorumSystem (λ a, has_joint_majority c a = true).
Proof.
  intros a b Ha Hb. destruct c as [m v|old new v]; simpl in *.
  - destruct (majority_meet m a b) as (x & ? & ? & _); eauto.
  - apply andb_true_iff in Ha as [Ha _], Hb as [Hb _].
    destruct (majority_meet old a b) as (x & ? & ? & _); eauto.
Qed.

(** More acknowledgements never lose a majority. *)
Lemma majority_mono members a b : a ⊆ b → majority members a = true → majority members b = true.
Proof.
  intros Hsub. unfold majority. rewrite !Nat.ltb_lt. intros Ha.
  eapply Nat.lt_le_trans; [exact Ha|]. apply subseteq_size. set_solver.
Qed.

(** A configuration the joint configuration [Joint old new _] hands over from or to. *)
Definition config_side (c : ClusterConfiguration) (old new : gmap nat string) : Prop :=
  match c with Simple m _ => m = old ∨ m = new | Joint o n _ => o = old ∧ n = new end.

(** C19. Joint consensus: every quorum of the joint configuration meets every
    quorum of the old, of the new and of the joint configuration, in a member
    of the configuration. *)
Theorem joint_quorum_meets old new v c a b :
  config_side c old new →
  has_joint_majority (Joint old new v) a = true → has_joint_majority c b = true →
  ∃ x, x ∈ a ∧ x ∈ b ∧ x ∈ dom (all_members (Joint old new v)).
Proof.
  intros Hside [Ho Hn]%andb_true_iff Hb. simpl.
  assert (majority old b = true ∨ majority new b = true) as [Hm|Hm].
  { destruct c as [m v'|o n v']; simpl in *.
    - destruct Hside as [->| ->]; auto.
    - destruct Hside as [-> ->]. apply andb_true_iff in Hb as [? _]. auto. }
  - destruct (majority_meet old a b) as (x & ? & ? & ?); [done..|]. exists x. set_solver.
  - destruct (majority_meet new a b) as (x & ? & ? & ?); [done..|]. exists x. set_solver.
Qed.

Definition three_members : gmap nat string := {[1 := "n1"; 2 := "n2"; 3 := "n3"]}.
Definition four_members : gmap nat string := {[1 := "n1"; 2 := "n2"; 3 := "n3"; 4 := "n4"]}.

Lemma joint_quorum_meets_witness :
  ∃ x, x ∈ ({[1; 2; 4]} : gset nat) ∧ x ∈ ({[2; 3]} : gset nat) ∧
       x ∈ dom (all_members (Joint three_members four_members 1)).
Proof.
  apply (joint_quorum_meets three_members four_members 1 (Simple three_members 0));
    [by left|by vm_compute|by vm_compute].
Defined.
