(* ===== verification/RaftNode.v ===== *)
(** * The Raft node: state, persistence, snapshots and log application

    dfs/metaserver/src/simple_raft.rs, [RaftNode] and the methods that do not
    talk to peers. Methods are computations of the state-and-error monad over
    [RaftNode].

    - RocksDB is the record [DB]: typed values under the keys the code uses.
      Every write consumes one element of [db_faults]; [true] makes it fail,
      an exhausted script succeeds. Reads succeed.
    - Requests spawned on the HTTP client are appended to [http_out], messages
      sent on one-shot channels to [chan_out]; a channel is its number.
    - The monotonic clock, the wall clock and the random election timeout are
      fields set by the environment before each event.
    - Code outside the repository (CRC32, JSON encoding of the application
      state, iteration order of a [HashMap]) is the class [RaftEnv]. *)

From S2P Require Import Prelude BTree Sharding MasterState AppState ClusterConfig.
From stdpp Require Import pretty.

(** What survives JSON: `#[serde(skip)]` fields come back as defaults. *)
Definition restored (a : AppState) : AppState :=
  match a with
  | AMaster m => AMaster (replicated m)
  | AConfig c => AConfig c
  end.

(** ** The environment of a node *)
Class RaftEnv : Type := {
  crc32 : string → N;
  bytes : Type;
  to_vec : AppState → option bytes;
  from_slice : bytes → option AppState;
  legacy_from_slice : bytes → option MasterState;
  from_slice_to_vec a b : to_vec a = Some b → from_slice b = Some (restored a);
  (** the order in which a [HashMap<usize, String>] is iterated *)
  members_order : gmap nat string → list (nat * string);
  members_order_perm m : members_order m ≡ₚ map_to_list m;
}.

(** ** Data *)

(** [src/dfs/metaserver/src/simple_raft.rs:50-54 Role] *)
Inductive Role : Type := Follower | Candidate | Leader.

#[global] Instance Role_eq_dec : EqDecision Role.
Proof. solve_decision. Defined.

(** [src/dfs/metaserver/src/simple_raft.rs:57-60 LogEntry] *)
Record LogEntry : Type := mkLogEntry {
  term : N;
  command : Command;
}.

(** [src/dfs/metaserver/src/simple_raft.rs:453-458 RequestVoteArgs] *)
Record RequestVoteArgs : Type := mkRequestVoteArgs {
  rv_term : N;
  rv_candidate_id : nat;
  rv_last_log_index : nat;
  rv_last_log_term : N;
}.

(** [src/dfs/metaserver/src/simple_raft.rs:461-465 RequestVoteReply] *)
Record RequestVoteReply : Type := mkRequestVoteReply {
  rvr_term : N;
  rvr_vote_granted : bool;
  rvr_peer_id : nat;
}.

(** [src/dfs/metaserver/src/simple_raft.rs:468-476 AppendEntriesArgs] *)
Record AppendEntriesArgs : Type := mkAppendEntriesArgs {
  ae_term : N;
  ae_leader_id : nat;
  ae_prev_log_index : nat;
  ae_prev_log_term : N;
  ae_entries : list LogEntry;
  ae_leader_commit : nat;
  ae_leader_address : string;
}.

(** [src/dfs/metaserver/src/simple_raft.rs:479-484 AppendEntriesReply] *)
Record AppendEntriesReply : Type := mkAppendEntriesReply {
  aer_term : N;
  aer_success : bool;
  aer_match_index : nat;
  aer_peer_id : nat;
}.

(** [src/dfs/metaserver/src/simple_raft.rs:496-500 InstallSnapshotReply] *)
Record InstallSnapshotReply : Type := mkInstallSnapshotReply {
  isr_term : N;
  isr_last_included_index : nat;
  isr_peer_id : nat;
}.

(** [src/dfs/metaserver/src/simple_raft.rs:429-432 TimeoutNowArgs] *)
Record TimeoutNowArgs : Type := mkTimeoutNowArgs {
  tn_term : N;
  tn_sender_id : nat;
}.

(** [src/dfs/metaserver/src/simple_raft.rs:435-438 TimeoutNowReply] *)
Record TimeoutNowReply : Type := mkTimeoutNowReply {
  tnr_term : N;
  tnr_success : bool;
}.

(** [src/dfs/metaserver/src/simple_raft.rs:502-508 ReadIndexRequest] *)
Record ReadIndexRequest : Type := mkReadIndexRequest {
  read_index : nat;
  read_term : N;
  read_acks : gset nat;
  majority_confirmed : bool;
  read_reply_tx : nat;
}.

Section env.
  Context {E : RaftEnv}.

(** [src/dfs/metaserver/src/simple_raft.rs:421-425 Snapshot] *)
Record Snapshot : Type := mkSnapshot {
  snap_last_included_index : nat;
  snap_last_included_term : N;
  snap_data : bytes;
}.

(** [src/dfs/metaserver/src/simple_raft.rs:487-493 InstallSnapshotArgs] *)
Record InstallSnapshotArgs : Type := mkInstallSnapshotArgs {
  is_term : N;
  is_leader_id : nat;
  is_last_included_index : nat;
  is_last_included_term : N;
  is_data : bytes;
}.

(** [src/dfs/metaserver/src/simple_raft.rs:441-450 RpcMessage] *)
Inductive RpcMessage : Type :=
  | RequestVote (a : RequestVoteArgs)
  | RequestVoteResponse (r : RequestVoteReply)
  | AppendEntries (a : AppendEntriesArgs)
  | AppendEntriesResponse (r : AppendEntriesReply)
  | InstallSnapshot (a : InstallSnapshotArgs)
  | InstallSnapshotResponse (r : InstallSnapshotReply)
  | TimeoutNow (a : TimeoutNowArgs)
  | TimeoutNowResponse (r : TimeoutNowReply).

(** [src/dfs/metaserver/src/simple_raft.rs:532-546 ClusterInfo] *)
Record ClusterInfo : Type := mkClusterInfo {
  ci_node_id : nat;
  ci_role : Role;
  ci_current_term : N;
  ci_leader_id : option nat;
  ci_leader_address : option string;
  ci_peers : list string;
  ci_commit_index : nat;
  ci_last_applied : nat;
  ci_log_len : nat;
  ci_votes_received : nat;
  ci_cluster_config : ClusterConfiguration;
  ci_config_change_state : ConfigChangeState;
  ci_is_safe_mode : bool;
}.

(** A [Result<A, B>]: [inl] is `Ok`, [inr] is `Err`. *)
Inductive ChanMessage : Type :=
  | WriteResult (r : unit + option string)
  | ReadResult (r : nat + option string)
  | LeaderInfo (address : option string)
  | ClusterInfoReply (i : ClusterInfo)
  | RpcReply (m : RpcMessage).

(** [src/dfs/metaserver/src/simple_raft.rs:510-528 Event] *)
Inductive Event : Type :=
  | EvRpc (msg : RpcMessage) (reply_tx : option nat)
  | EvClientRequest (cmd : Command) (reply_tx : nat)
  | EvGetLeaderInfo (reply_tx : nat)
  | EvGetClusterInfo (reply_tx : nat)
  | EvGetReadIndex (reply_tx : nat).

(** The keys of the node's RocksDB instance. *)
Record DB : Type := mkDB {
  db_term : option N;
  db_vote : option nat;
  db_log : gmap nat LogEntry;
  db_snapshot_meta : option (nat * N);
  db_snapshot_data : option bytes;
  db_cluster_config : option ClusterConfiguration;
  db_config_change_state : option ConfigChangeState;
  db_faults : list bool;
}.

(** [src/dfs/metaserver/src/simple_raft.rs:568-653 RaftNode] *)
Record RaftNode : Type := mkRaftNode {
  node_id : nat;
  peers : list string;
  client_address : string;
  role : Role;
  current_term : N;
  voted_for : option nat;
  log : list LogEntry;
  commit_index : nat;
  last_applied : nat;
  next_index : list nat;
  match_index : list nat;
  current_leader : option nat;
  current_leader_address : option string;
  last_included_index : nat;
  last_included_term : N;
  election_timeout : N;
  last_election_time : N;
  app_state : AppState;
  votes_received : nat;
  voters : gset nat;
  db : DB;
  pending_read_indices : list ReadIndexRequest;
  pending_replies : gmap nat nat;
  cluster_config : ClusterConfiguration;
  server_roles : gmap nat ServerRole;
  config_change_state : ConfigChangeState;
  non_voting_members : gmap nat string;
  catch_up_progress : gmap nat CatchUpProgress;
  last_committed_config_index : nat;
  monotonic_time : N;
  backup_s3_endpoint : option string;
  (* environment *)
  clock : N;
  wall_clock : N;
  random_timeout : N;
  http_out : list (string * RpcMessage);
  chan_out : list (nat * ChanMessage);
}.

Definition eta_db (d : DB) : DB :=
  mkDB (db_term d) (db_vote d) (db_log d) (db_snapshot_meta d) (db_snapshot_data d)
    (db_cluster_config d) (db_config_change_state d) (db_faults d).

Definition eta_node (n : RaftNode) : RaftNode :=
  mkRaftNode (node_id n) (peers n) (client_address n) (role n) (current_term n) (voted_for n)
    (log n) (commit_index n) (last_applied n) (next_index n) (match_index n) (current_leader n)
    (current_leader_address n) (last_included_index n) (last_included_term n) (election_timeout n)
    (last_election_time n) (app_state n) (votes_received n) (voters n) (db n)
    (pending_read_indices n) (pending_replies n) (cluster_config n) (server_roles n)
    (config_change_state n) (non_voting_members n) (catch_up_progress n)
    (last_committed_config_index n) (monotonic_time n) (backup_s3_endpoint n)
    (clock n) (wall_clock n) (random_timeout n) (http_out n) (chan_out n).

End env.

(** ** Field updates *)

#[global] Instance u_db_term {E : RaftEnv} : Upd db_term := ltac:(upd_tac (@eta_db E) (@db_term E)).
#[global] Instance u_db_vote {E : RaftEnv} : Upd db_vote := ltac:(upd_tac (@eta_db E) (@db_vote E)).
#[global] Instance u_db_log {E : RaftEnv} : Upd db_log := ltac:(upd_tac (@eta_db E) (@db_log E)).
#[global] Instance u_db_snapshot_meta {E : RaftEnv} : Upd db_snapshot_meta := ltac:(upd_tac (@eta_db E) (@db_snapshot_meta E)).
#[global] Instance u_db_snapshot_data {E : RaftEnv} : Upd db_snapshot_data := ltac:(upd_tac (@eta_db E) (@db_snapshot_data E)).
#[global] Instance u_db_cluster_config {E : RaftEnv} : Upd db_cluster_config := ltac:(upd_tac (@eta_db E) (@db_cluster_config E)).
#[global] Instance u_db_config_change_state {E : RaftEnv} : Upd db_config_change_state := ltac:(upd_tac (@eta_db E) (@db_config_change_state E)).
#[global] Instance u_db_faults {E : RaftEnv} : Upd db_faults := ltac:(upd_tac (@eta_db E) (@db_faults E)).
#[global] Instance u_peers {E : RaftEnv} : Upd peers := ltac:(upd_tac (@eta_node E) (@peers E)).
#[global] Instance u_role {E : RaftEnv} : Upd role := ltac:(upd_tac (@eta_node E) (@role E)).
#[global] Instance u_current_term {E : RaftEnv} : Upd current_term := ltac:(upd_tac (@eta_node E) (@current_term E)).
#[global] Instance u_voted_for {E : RaftEnv} : Upd voted_for := ltac:(upd_tac (@eta_node E) (@voted_for E)).
#[global] Instance u_log {E : RaftEnv} : Upd log := ltac:(upd_tac (@eta_node E) (@log E)).
#[global] Instance u_commit_index {E : RaftEnv} : Upd commit_index := ltac:(upd_tac (@eta_node E) (@commit_index E)).
#[global] Instance u_last_applied {E : RaftEnv} : Upd last_applied := ltac:(upd_tac (@eta_node E) (@last_applied E)).
#[global] Instance u_next_index {E : RaftEnv} : Upd next_index := ltac:(upd_tac (@eta_node E) (@next_index E)).
#[global] Instance u_match_index {E : RaftEnv} : Upd match_index := ltac:(upd_tac (@eta_node E) (@match_index E)).
#[global] Instance u_current_leader {E : RaftEnv} : Upd current_leader := ltac:(upd_tac (@eta_node E) (@current_leader E)).
#[global] Instance u_current_leader_address {E : RaftEnv} : Upd current_leader_address := ltac:(upd_tac (@eta_node E) (@current_leader_address E)).
#[global] Instance u_last_included_index {E : RaftEnv} : Upd last_included_index := ltac:(upd_tac (@eta_node E) (@last_included_index E)).
#[global] Instance u_last_included_term {E : RaftEnv} : Upd last_included_term := ltac:(upd_tac (@eta_node E) (@last_included_term E)).
#[global] Instance u_election_timeout {E : RaftEnv} : Upd election_timeout := ltac:(upd_tac (@eta_node E) (@election_timeout E)).
#[global] Instance u_last_election_time {E : RaftEnv} : Upd last_election_time := ltac:(upd_tac (@eta_node E) (@last_election_time E)).
#[global] Instance u_app_state {E : RaftEnv} : Upd app_state := ltac:(upd_tac (@eta_node E) (@app_state E)).
#[global] Instance u_votes_received {E : RaftEnv} : Upd votes_received := ltac:(upd_tac (@eta_node E) (@votes_received E)).
#[global] Instance u_voters {E : RaftEnv} : Upd voters := ltac:(upd_tac (@eta_node E) (@voters E)).
#[global] Instance u_db {E : RaftEnv} : Upd db := ltac:(upd_tac (@eta_node E) (@db E)).
#[global] Instance u_pending_read_indices {E : RaftEnv} : Upd pending_read_indices := ltac:(upd_tac (@eta_node E) (@pending_read_indices E)).
#[global] Instance u_pending_replies {E : RaftEnv} : Upd pending_replies := ltac:(upd_tac (@eta_node E) (@pending_replies E)).
#[global] Instance u_cluster_config {E : RaftEnv} : Upd cluster_config := ltac:(upd_tac (@eta_node E) (@cluster_config E)).
#[global] Instance u_server_roles {E : RaftEnv} : Upd server_roles := ltac:(upd_tac (@eta_node E) (@server_roles E)).
#[global] Instance u_config_change_state {E : RaftEnv} : Upd config_change_state := ltac:(upd_tac (@eta_node E) (@config_change_state E)).
#[global] Instance u_non_voting_members {E : RaftEnv} : Upd non_voting_members := ltac:(upd_tac (@eta_node E) (@non_voting_members E)).
#[global] Instance u_catch_up_progress {E : RaftEnv} : Upd catch_up_progress := ltac:(upd_tac (@eta_node E) (@catch_up_progress E)).
#[global] Instance u_monotonic_time {E : RaftEnv} : Upd monotonic_time := ltac:(upd_tac (@eta_node E) (@monotonic_time E)).
#[global] Instance u_clock {E : RaftEnv} : Upd clock := ltac:(upd_tac (@eta_node E) (@clock E)).
#[global] Instance u_wall_clock {E : RaftEnv} : Upd wall_clock := ltac:(upd_tac (@eta_node E) (@wall_clock E)).
#[global] Instance u_random_timeout {E : RaftEnv} : Upd random_timeout := ltac:(upd_tac (@eta_node E) (@random_timeout E)).
#[global] Instance u_http_out {E : RaftEnv} : Upd http_out := ltac:(upd_tac (@eta_node E) (@http_out E)).
#[global] Instance u_chan_out {E : RaftEnv} : Upd chan_out := ltac:(upd_tac (@eta_node E) (@chan_out E)).

(** ** Persistence *)

Section node.
  Context {E : RaftEnv}.

Notation RM := (M RaftNode).

(** One write to RocksDB. *)
Definition db_write (context : string) (f : DB → DB) : RM unit := λ n,
  match db_faults (db n) with
  | true :: rest => (Err context, n <| db := db n <| db_faults := rest |> |>)
  | false :: rest => (Ok tt, n <| db := f (db n <| db_faults := rest |>) |>)
  | [] => (Ok tt, n <| db := f (db n) |>)
  end.

(** [src/dfs/metaserver/src/simple_raft.rs:908-913 save_term] *)
Definition save_term : RM unit :=
  let! n := get in
  db_write "Failed to save term to DB" (λ d, d <| db_term := Some (current_term n) |>).

(** [src/dfs/metaserver/src/simple_raft.rs:915-926 save_vote] *)
Definition save_vote : RM unit :=
  let! n := get in
  match voted_for n with
  | Some vote => db_write "Failed to save vote to DB" (λ d, d <| db_vote := Some vote |>)
  | None => db_write "Failed to delete vote from DB" (λ d, d <| db_vote := None |>)
  end.

(** [src/dfs/metaserver/src/simple_raft.rs:928-935 save_log_entry] *)
Definition save_log_entry (index : nat) (entry : LogEntry) : RM unit :=
  db_write "Failed to save log entry to DB" (λ d, d <| db_log := <[index := entry]> (db_log d) |>).

(** [src/dfs/metaserver/src/simple_raft.rs:938-952 save_log_entries_batch] *)
Definition save_log_entries_batch (entries : list (nat * LogEntry)) : RM unit :=
  match entries with
  | [] => ret tt
  | _ => db_write "Failed to write log entries batch to DB"
           (λ d, d <| db_log := foldl (λ m e, <[e.1 := e.2]> m) (db_log d) entries |>)
  end.

(** [src/dfs/metaserver/src/simple_raft.rs:954-968 save_config] *)
Definition save_config : RM unit :=
  let! n := get in
  do! db_write "Failed to save cluster config"
        (λ d, d <| db_cluster_config := Some (cluster_config n) |>) in
  db_write "Failed to save config change state"
    (λ d, d <| db_config_change_state := Some (config_change_state n) |>).

(** [src/dfs/metaserver/src/simple_raft.rs:970-991 load_config] *)
Definition load_config (d : DB) : ClusterConfiguration * ConfigChangeState :=
  (default (Simple ∅ 0) (db_cluster_config d), default NoChange (db_config_change_state d)).

(** The loop of [delete_log_entries_from]; each round removes a stored entry,
    so [S (size (db_log d))] rounds reach a missing key.
    [src/dfs/metaserver/src/simple_raft.rs:1014-1029 delete_log_entries_from] *)
Fixpoint delete_log_loop (fuel index : nat) : RM unit :=
  match fuel with
  | O => panic "delete_log_entries_from: out of fuel"
  | S fuel =>
      let! n := get in
      match db_log (db n) !! index with
      | None => ret tt
      | Some _ =>
          do! db_write "Failed to delete from DB" (λ d, d <| db_log := delete index (db_log d) |>) in
          delete_log_loop fuel (S index)
      end
  end.

(** [src/dfs/metaserver/src/simple_raft.rs:1013-1031 delete_log_entries_from] *)
Definition delete_log_entries_from (start_index : nat) : RM unit :=
  let! n := get in
  delete_log_loop (S (size (db_log (db n)))) start_index.

(** `for i in from..=to { db.delete("log:i")? }`.
    [src/dfs/metaserver/src/simple_raft.rs:1068-1073 create_snapshot] *)
Definition delete_log_range (from to : nat) : RM unit :=
  for_each (seq from (S to - from)) (λ i,
    db_write "Failed to delete old log entry from DB"
      (λ d, d <| db_log := delete i (db_log d) |>)).

(** ** Indexing *)

(** [self.log[i]]: panics out of range. *)
Definition log_at (i : nat) : RM LogEntry :=
  let! n := get in
  match log n !! i with
  | Some e => ret e
  | None => panic "index out of bounds: log"
  end.

(** A [usize] subtraction; an underflow is a panic. *)
Definition usize_sub (a b : nat) : RM nat :=
  if Nat.ltb a b then panic "attempt to subtract with overflow" else ret (a - b).

(** `self.log.len() - 1 + self.last_included_index`. *)
Definition last_log_index_of (n : RaftNode) : nat := length (log n) - 1 + last_included_index n.

Definition last_log_index : RM nat :=
  let! n := get in
  let! l := usize_sub (length (log n)) 1 in
  ret (l + last_included_index n).

(** `self.current_term += 1` on [u64]; an overflow is a panic. *)
Definition incr_term : RM unit :=
  let! n := get in
  if (current_term n + 1 <? u64_mod)%N then put (n <| current_term := (current_term n + 1)%N |>)
  else panic "attempt to add with overflow".

(** Sending on a one-shot channel. *)
Definition send_chan (c : nat) (m : ChanMessage) : RM unit :=
  modify (λ n, n <| chan_out := chan_out n ++ [(c, m)] |>).

(** Spawning a request on the HTTP client. *)
Definition send_http (url : string) (m : RpcMessage) : RM unit :=
  modify (λ n, n <| http_out := http_out n ++ [(url, m)] |>).

(** ** Linearizable reads *)

Definition read_satisfied (n : RaftNode) (req : ReadIndexRequest) : bool :=
  majority_confirmed req && Nat.leb (read_index req) (last_applied n).

(** [src/dfs/metaserver/src/simple_raft.rs:993-1011 check_read_indices] *)
Definition check_read_indices : RM unit :=
  modify (λ n,
    let satisfied := List.filter (read_satisfied n) (pending_read_indices n) in
    n <| pending_read_indices :=
           List.filter (λ r, negb (read_satisfied n r)) (pending_read_indices n) |>
      <| chan_out := chan_out n ++
           ((λ r, (read_reply_tx r, ReadResult (inl (read_index r)))) <$> reverse satisfied) |>).

(** ** Snapshots *)

(** [src/dfs/metaserver/src/simple_raft.rs:1033-1097 create_snapshot] *)
Definition create_snapshot : RM unit :=
  let! n := get in
  match to_vec (app_state n) with
  | None => fail "Failed to serialize app state"
  | Some snapshot_data =>
      let snap_term :=
        if Nat.leb (last_included_index n) (last_applied n) then
          match log n !! (last_applied n - last_included_index n) with
          | Some e => term e
          | None => last_included_term n
          end
        else last_included_term n in
      do! db_write "Failed to save snapshot metadata to DB"
            (λ d, d <| db_snapshot_meta := Some (last_applied n, snap_term) |>) in
      do! db_write "Failed to save snapshot data to DB"
            (λ d, d <| db_snapshot_data := Some snapshot_data |>) in
      do! delete_log_range (S (last_included_index n)) (last_applied n) in
      do! modify (λ n, n <| last_included_term := snap_term |>) in
      let! k := usize_sub (last_applied n) (last_included_index n) in
      let new_log_start := k + 1 in
      if Nat.ltb (length (log n)) new_log_start then panic "range start index out of range"
      else
        modify (λ n, n <| log := mkLogEntry (last_included_term n) NoOp :: drop new_log_start (log n) |>
                       <| last_included_index := last_applied n |>)
  end.

(** [src/dfs/metaserver/src/simple_raft.rs:1099-1158 install_snapshot] *)
Definition install_snapshot (snapshot : Snapshot) : RM unit :=
  do! db_write "Failed to save snapshot metadata to DB" (λ d,
        d <| db_snapshot_meta :=
               Some (snap_last_included_index snapshot, snap_last_included_term snapshot) |>) in
  do! db_write "Failed to save snapshot data to DB"
        (λ d, d <| db_snapshot_data := Some (snap_data snapshot) |>) in
  do! modify (λ n,
        match from_slice (snap_data snapshot) with
        | Some st => n <| app_state := st |>
        | None =>
            match legacy_from_slice (snap_data snapshot) with
            | Some st => n <| app_state := AMaster st |>
            | None => n
            end
        end) in
  let! n := get in
  do! delete_log_range (S (last_included_index n)) (snap_last_included_index snapshot) in
  modify (λ n,
    n <| last_included_index := snap_last_included_index snapshot |>
      <| last_included_term := snap_last_included_term snapshot |>
      <| log := [mkLogEntry (snap_last_included_term snapshot) NoOp] |>
      <| commit_index := snap_last_included_index snapshot |>
      <| last_applied := snap_last_included_index snapshot |>).

(** ** Applying the log *)

(** [src/dfs/metaserver/src/simple_raft.rs:2590-2611 update_peer_tracking] *)
Definition update_peer_tracking (n : RaftNode) : RaftNode :=
  let new_peers := (filter (λ m, m.1 ≠ node_id n)
                      (members_order (all_members (cluster_config n)))).*2 in
  let new_size := length new_peers in
  let default_next := length (log n) + last_included_index n in
  n <| peers := new_peers |>
    <| next_index := resize_vec new_size default_next (next_index n) |>
    <| match_index := resize_vec new_size (last_included_index n) (match_index n) |>.

(** `Vec::remove(i)`: panics out of range. *)
Definition vec_remove {A} (i : nat) (l : list A) : option (list A) :=
  if Nat.ltb i (length l) then Some (delete i l) else None.

(** [src/dfs/metaserver/src/simple_raft.rs:2544-2566 apply_membership_command] *)
Definition remove_server_legacy (server_id : nat) : RM unit :=
  let! n := get in
  if Nat.ltb server_id (length (peers n)) then
    match vec_remove server_id (peers n), vec_remove server_id (next_index n),
          vec_remove server_id (match_index n) with
    | Some p, Some ni, Some mi =>
        put (n <| peers := p |> <| next_index := ni |> <| match_index := mi |>)
    | _, _, _ => panic "removal index out of bounds"
    end
  else ret tt.

(** [src/dfs/metaserver/src/simple_raft.rs:2513-2542 apply_membership_command] *)
Definition add_server_legacy (server_address : string) : RM unit :=
  modify (λ n,
    if existsb (λ p, bool_decide (p = server_address)) (peers n) then n
    else n <| peers := peers n ++ [server_address] |>
           <| next_index := next_index n ++ [length (log n) + last_included_index n] |>
           <| match_index := match_index n ++ [last_included_index n] |>).

(** [src/dfs/metaserver/src/simple_raft.rs:2458-2587 apply_membership_command] *)
Definition apply_membership_command (cmd : MembershipCommand) : RM unit :=
  match cmd with
  | BeginJointConsensus old_members new_members version =>
      do! modify (λ n, n <| cluster_config := Joint old_members new_members version |>) in
      do! modify update_peer_tracking in
      ignore_err save_config
  | FinalizeConfiguration new_members version =>
      do! modify (λ n, n <| cluster_config := Simple new_members version |>) in
      do! modify update_peer_tracking in
      do! modify (λ n, n <| config_change_state := NoChange |>) in
      ignore_err save_config
  | AddServer _ server_address => add_server_legacy server_address
  | RemoveServer server_id => remove_server_legacy server_id
  | AddServers _ => ret tt
  | RemoveServers _ => ret tt
  end.

(** One round of the loop of [apply_logs].
    [src/dfs/metaserver/src/simple_raft.rs:2432-2454 apply_logs] *)
Definition apply_one : RM unit :=
  do! modify (λ n, n <| last_applied := S (last_applied n) |>) in
  let! n := get in
  let! log_index := usize_sub (last_applied n) (last_included_index n) in
  do! (match log n !! log_index with
       | Some entry =>
           do! (match command entry with
                | CMembership cmd => apply_membership_command cmd
                | c => modify (λ n, n <| app_state := apply_command crc32 (wall_clock n) c (app_state n) |>)
                end) in
           check_read_indices
       | None => ret tt
       end) in
  let! n := get in
  match pending_replies n !! last_applied n with
  | Some reply_tx =>
      do! modify (λ n, n <| pending_replies := delete (last_applied n) (pending_replies n) |>) in
      send_chan reply_tx (WriteResult (inl tt))
  | None => ret tt
  end.

(** `while self.commit_index > self.last_applied`; no round changes
    [commit_index] and each adds one to [last_applied].
    [src/dfs/metaserver/src/simple_raft.rs:2431-2431 apply_logs] *)
Fixpoint apply_loop (fuel : nat) : RM unit :=
  match fuel with
  | O => ret tt
  | S fuel =>
      let! n := get in
      if Nat.ltb (last_applied n) (commit_index n) then do! apply_one in apply_loop fuel
      else ret tt
  end.

(** [src/dfs/metaserver/src/simple_raft.rs:2430-2456 apply_logs] *)
Definition apply_logs : RM unit :=
  let! n := get in
  apply_loop (commit_index n - last_applied n).

(** ** Start-up *)

(** `chars().take_while(|c| c.is_ascii_digit())`. *)
Fixpoint take_digits (s : string) : string :=
  match s with
  | String c s' =>
      if ((48 <=? N_of_ascii c) && (N_of_ascii c <=? 57))%N then String c (take_digits s') else ""
  | "" => ""
  end.

(** `str::parse::<usize>()` of a digit string: empty or too large is an error. *)
Fixpoint parse_digits (acc : N) (s : string) : N :=
  match s with
  | String c s' => parse_digits (acc * 10 + (N_of_ascii c - 48)) s'
  | "" => acc
  end.
Definition parse_usize (s : string) : option N :=
  match s with
  | "" => None
  | _ => let v := parse_digits 0 s in if (v <? u64_mod)%N then Some v else None
  end.

(** The body of the loop over the two patterns.
    [src/dfs/metaserver/src/simple_raft.rs:794-804 extract_node_id_from_address] *)
Definition extract_after (pattern address : string) : option nat :=
  match String.index 0 pattern address with
  | Some pos =>
      let start := pos + String.length pattern in
      let after_pattern := String.substring start (String.length address - start) address in
      match parse_usize (take_digits after_pattern) with
      | Some index => Some (S (N.to_nat index))
      | None => None
      end
  | None => None
  end.

(** [src/dfs/metaserver/src/simple_raft.rs:791-807 extract_node_id_from_address] *)
Definition extract_node_id_from_address (address : string) : option nat :=
  match extract_after "configserver-" address with
  | Some i => Some i
  | None => extract_after "metaserver-" address
  end.

(** The entries stored from [index] on, up to the first missing key.
    [src/dfs/metaserver/src/simple_raft.rs:876-897 load_state] *)
Fixpoint load_log (fuel index : nat) (stored : gmap nat LogEntry) : list LogEntry :=
  match fuel with
  | O => []
  | S fuel =>
      match stored !! index with
      | Some entry => entry :: load_log fuel (S index) stored
      | None => []
      end
  end.

(** [a] is the application state the node was given; the result ends with the
    one it starts from.
    [src/dfs/metaserver/src/simple_raft.rs:809-906 load_state] *)
Definition load_state (d : DB) (a : AppState)
  : N * option nat * list LogEntry * nat * N * AppState :=
  let '(last_included_index, last_included_term) := default (0, 0%N) (db_snapshot_meta d) in
  let a' :=
    match db_snapshot_meta d, db_snapshot_data d with
    | Some _, Some data =>
        match from_slice data with
        | Some st => st
        | None =>
            match legacy_from_slice data with
            | Some st => AMaster st
            | None => a
            end
        end
    | _, _ => a
    end in
  (default 0%N (db_term d), db_vote d,
   mkLogEntry last_included_term NoOp
     :: load_log (size (db_log d)) (S last_included_index) (db_log d),
   last_included_index, last_included_term, a').

(** [src/dfs/metaserver/src/simple_raft.rs:711-722 RaftNode::new] *)
Definition initial_members (id : nat) (peer_addrs : list string) (address : string)
  : gmap nat string :=
  <[id := address]>
    (foldl (λ m p, match extract_node_id_from_address p with
                   | Some i => <[i := p]> m
                   | None => m
                   end) ∅ peer_addrs).

(** The node a process starts with, given what its database holds and the
    application state it was created with.
    [src/dfs/metaserver/src/simple_raft.rs:669-782 RaftNode::new] *)
Definition raft_new (id : nat) (peer_addrs : list string) (address : string) (a : AppState)
    (backup : option string) (now wall timeout : N) (d : DB) : RaftNode :=
  let '(t, vote, lg, lii, lit, a') := load_state d a in
  let '(loaded, change) := load_config d in
  let config :=
    match loaded with
    | Simple members _ =>
        if decide (members = ∅) then Simple (initial_members id peer_addrs address) 0 else loaded
    | _ => loaded
    end in
  {| node_id := id; peers := peer_addrs; client_address := address; role := Follower;
     current_term := t; voted_for := vote; log := lg; commit_index := lii; last_applied := lii;
     next_index := []; match_index := []; current_leader := None; current_leader_address := None;
     last_included_index := lii; last_included_term := lit; election_timeout := timeout;
     last_election_time := now; app_state := a'; votes_received := 0; voters := ∅; db := d;
     pending_read_indices := []; pending_replies := ∅; cluster_config := config;
     server_roles := (λ _, Voting) <$> all_members config; config_change_state := change;
     non_voting_members := ∅; catch_up_progress := ∅; last_committed_config_index := 0;
     monotonic_time := 0; backup_s3_endpoint := backup; clock := now; wall_clock := wall;
     random_timeout := timeout; http_out := []; chan_out := [] |}.

(** The initialisation [run] performs before its loop.
    [src/dfs/metaserver/src/simple_raft.rs:1164-1165 run] *)
Definition run_init (n : RaftNode) : RaftNode :=
  n <| next_index := replicate (length (peers n)) (length (log n) + last_included_index n) |>
    <| match_index := replicate (length (peers n)) (last_included_index n) |>.

End node.

(** ** Reasoning about node methods *)

Section reads.
  Context {E : RaftEnv} (R : RaftNode → RaftNode → Prop) `{!PreOrder R}.

(** The three reads leave the state alone, so what follows starts from it. *)
Lemma kp_usize_sub_bind {B} a b (k : nat → M RaftNode B) n :
  (b ≤ a → kp R (k (a - b)) n) → kp R (bind (usize_sub a b) k) n.
Proof.
  intros H. unfold usize_sub, bind, kp in *. destruct (Nat.ltb_spec a b); [done|]. by apply H.
Qed.

Lemma kp_last_log_index_bind {B} (k : nat → M RaftNode B) n :
  (0 < length (log n) → kp R (k (last_log_index_of n)) n) → kp R (bind last_log_index k) n.
Proof.
  intros H. unfold last_log_index, usize_sub, bind, kp, get in *.
  destruct (Nat.ltb_spec (length (log n)) 1); [done|]. by apply H.
Qed.

Lemma kp_log_at_bind {B} i (k : LogEntry → M RaftNode B) n :
  (∀ e, log n !! i = Some e → kp R (k e) n) → kp R (bind (log_at i) k) n.
Proof.
  intros H. unfold log_at, bind, kp, get in *. destruct (log n !! i); [|done]. by apply H.
Qed.
End reads.

(** Persistence changes the database alone. *)
Definition db_only `{E : RaftEnv} (n n' : RaftNode) : Prop := ∃ d, n' = n <| db := d |>.

#[global] Instance db_only_preorder `{E : RaftEnv} : PreOrder db_only.
Proof.
  split.
  - intros n. exists (db n). by destruct n.
  - intros n ? ? [d ->] [d' ->]. by exists d'.
Qed.

(** [rkp] is [kp] for node methods. *)
Ltac rkp_step :=
  match goal with
  | |- kp ?R (bind (usize_sub _ _) _) _ => apply (kp_usize_sub_bind R); intros ?
  | |- kp ?R (bind last_log_index _) _ => apply (kp_last_log_index_bind R); intros ?
  | |- kp ?R (bind (log_at _) _) _ => apply (kp_log_at_bind R); intros ? ?
  | _ => kp_step
  end.
Ltac rkp := repeat (first [solve [eauto 2 with dfs nocore] | rkp_step]).

Section persistence.
  Context {E : RaftEnv}.

Lemma db_write_db_only c f n : kp db_only (db_write c f) n.
Proof. unfold kp, db_write. destruct (db_faults (db n)) as [|[] ?]; eexists; done. Qed.

Lemma usize_sub_inv a b n r n' :
  usize_sub a b n = (Ok r, n') → n' = n ∧ r = a - b ∧ b ≤ a.
Proof. unfold usize_sub. destruct (Nat.ltb_spec a b); [done|]. by intros [= <- <-]. Qed.

Lemma save_term_db_only n : kp db_only save_term n.
Proof. apply db_write_db_only. Qed.

Lemma save_vote_db_only n : kp db_only save_vote n.
Proof. unfold save_vote. rkp_step. destruct (voted_for n); apply db_write_db_only. Qed.

Lemma save_log_entry_db_only i e n : kp db_only (save_log_entry i e) n.
Proof. apply db_write_db_only. Qed.

Lemma save_log_entries_batch_db_only es n : kp db_only (save_log_entries_batch es) n.
Proof. unfold save_log_entries_batch. destruct es; [rkp|apply db_write_db_only]. Qed.

Lemma delete_log_entries_from_db_only i n : kp db_only (delete_log_entries_from i) n.
Proof.
  unfold delete_log_entries_from. rkp_step. generalize (S (size (db_log (db n)))). intros fuel.
  revert i n. induction fuel as [|fuel IH]; intros i n; simpl; rkp; apply db_write_db_only.
Qed.

Lemma delete_log_range_db_only a b n : kp db_only (delete_log_range a b) n.
Proof. unfold delete_log_range. rkp. apply db_write_db_only. Qed.

End persistence.

(** [db_inv] replaces the state after a successful write by the state before it
    with another database. *)
Ltac db_inv :=
  repeat match goal with
  | H : usize_sub _ _ _ = (Ok _, _) |- _ => apply usize_sub_inv in H as (-> & -> & ?)
  | H : ?m ?n = (Ok _, ?n') |- _ =>
      first
        [ apply (kp_ok db_only m n _ n') in H as [? ->]; [|first
            [ apply db_write_db_only | apply save_term_db_only | apply save_vote_db_only
            | apply save_log_entry_db_only | apply save_log_entries_batch_db_only
            | apply delete_log_entries_from_db_only | apply delete_log_range_db_only
            | apply (kp_ignore_err db_only), save_term_db_only
            | apply (kp_ignore_err db_only), save_vote_db_only
            | apply (kp_ignore_err db_only), save_log_entry_db_only ]] ]
  end.
