(* ===== verification/RaftRpc.v ===== *)
(** * Raft RPC handlers

    dfs/metaserver/src/simple_raft.rs: elections, replication to peers and
    [handle_rpc], one definition per message kind. *)

From S2P Require Import Prelude BTree Sharding MasterState AppState ClusterConfig RaftNode.
From stdpp Require Import pretty.

Section rpc.
  Context {E : RaftEnv}.

Notation RM := (M RaftNode).

(** `v[i] = x`: panics out of range. *)
Definition vec_set {A} (i : nat) (x : A) (l : list A) : option (list A) :=
  if Nat.ltb i (length l) then Some (<[i := x]> l) else None.

(** ** Role changes *)

(** Draining the pending client and read-index replies with a redirect.
    [src/dfs/metaserver/src/simple_raft.rs:1676-1684 step_down_to_follower] *)
Definition drain_pending (leader_hint : option string) (n : RaftNode) : RaftNode :=
  n <| chan_out := chan_out n ++
         ((λ e, (e.2, WriteResult (inr leader_hint))) <$> map_to_list (pending_replies n)) ++
         ((λ r, (read_reply_tx r, ReadResult (inr leader_hint))) <$> pending_read_indices n) |>
    <| pending_replies := ∅ |>
    <| pending_read_indices := [] |>.

(** [src/dfs/metaserver/src/simple_raft.rs:1659-1685 step_down_to_follower] *)
Definition step_down_to_follower (t : N) (leader_hint : option string) : RM unit :=
  let! n0 := get in
  let was_leader := bool_decide (role n0 = Leader) in
  do! modify (λ n, n <| role := Follower |>) in
  do! (if (current_term n0 <? t)%N then
         do! modify (λ n, n <| current_term := t |> <| voted_for := None |>) in
         do! ignore_err save_term in
         ignore_err save_vote
       else ret tt) in
  do! modify (λ n, match leader_hint with
                   | Some hint => n <| current_leader_address := Some hint |>
                   | None => n
                   end) in
  if was_leader then modify (drain_pending leader_hint) else ret tt.

(** `self.current_leader = None; self.current_leader_address = None`. *)
Definition forget_leader (n : RaftNode) : RaftNode :=
  n <| current_leader := None |> <| current_leader_address := None |>.

(** [src/dfs/metaserver/src/simple_raft.rs:1367-1408 become_leader] *)
Definition become_leader : RM unit :=
  do! modify (λ n, n <| role := Leader |> <| current_leader := Some (node_id n) |>
                     <| current_leader_address := Some (client_address n) |>) in
  let! n := get in
  let entry := mkLogEntry (current_term n) NoOp in
  do! modify (λ n, n <| log := log n ++ [entry] |>) in
  let! absolute_index := last_log_index in
  do! ignore_err (save_log_entry absolute_index entry) in
  do! modify (λ n,
        n <| next_index := replicate (length (peers n)) (length (log n) + last_included_index n) |>
          <| match_index := replicate (length (peers n)) (last_included_index n) |>) in
  let! n := get in
  if bool_decide (peers n = []) && Nat.ltb (commit_index n) absolute_index then
    do! modify (λ n, n <| commit_index := absolute_index |>) in
    apply_logs
  else ret tt.

(** What [start_election] and the [TimeoutNow] handler both do first.
    [src/dfs/metaserver/src/simple_raft.rs:1277-1287 start_election] *)
Definition candidacy : RM unit :=
  do! modify (λ n, n <| role := Candidate |>) in
  do! incr_term in
  do! save_term in
  do! modify (λ n, n <| voted_for := Some (node_id n) |>) in
  do! save_vote in
  modify (λ n, n <| votes_received := 1 |> <| voters := {[node_id n]} |>
                 <| last_election_time := clock n |>).

(** [src/dfs/metaserver/src/simple_raft.rs:1276-1365 start_election] *)
Definition start_election : RM unit :=
  do! candidacy in
  do! modify (λ n, n <| election_timeout := random_timeout n |>) in
  let! lli := last_log_index in
  let! n := get in
  let! last := log_at (length (log n) - 1) in
  let args := mkRequestVoteArgs (current_term n) (node_id n) lli (term last) in
  if Nat.eqb (size (all_members (cluster_config n))) 1 then become_leader
  else for_each (peers n) (λ peer, send_http (peer +:+ "/raft/vote") (RequestVote args)).

(** ** Replication *)

(** Voting members other than the node, then the non-voting members.
    [src/dfs/metaserver/src/simple_raft.rs:1412-1425 send_heartbeats] *)
Definition combined_peers (n : RaftNode) : list (nat * string * bool) :=
  ((λ m, (m.1, m.2, true)) <$>
     filter (λ m, m.1 ≠ node_id n) (members_order (all_members (cluster_config n)))) ++
  ((λ m, (m.1, m.2, false)) <$> members_order (non_voting_members n)).

(** The index of a peer in the tracking arrays; [None] skips the peer.
    [src/dfs/metaserver/src/simple_raft.rs:1427-1455 send_heartbeats] *)
Definition tracking_index (n : RaftNode) (peer_idx : nat) (peer : string) (is_voting : bool)
  : option nat :=
  let i :=
    if is_voting then
      Some (default peer_idx (position (λ p, bool_decide (p = peer)) (peers n)))
    else if Nat.ltb peer_idx (length (next_index n)) then Some peer_idx else None in
  match i with
  | Some i => if Nat.ltb i (length (next_index n)) then Some i else None
  | None => None
  end.

(** One peer of the heartbeat round: a snapshot when it is too far behind, else
    the entries from its next index on.
    [src/dfs/metaserver/src/simple_raft.rs:1456-1592 send_heartbeats] *)
Definition heartbeat_peer (peer_idx : nat) (p : nat * string * bool) : RM unit :=
  let '(_, peer, is_voting) := p in
  let! n := get in
  match tracking_index n peer_idx peer is_voting with
  | None => ret tt
  | Some i =>
      let ni := default 0 (next_index n !! i) in
      if Nat.leb ni (last_included_index n) then
        match to_vec (app_state n) with
        | None => ret tt
        | Some data =>
            send_http (peer +:+ "/raft/snapshot")
              (InstallSnapshot (mkInstallSnapshotArgs (current_term n) (node_id n)
                 (last_included_index n) (last_included_term n) data))
        end
      else
        let! absolute_prev_index := usize_sub ni 1 in
        if Nat.ltb absolute_prev_index (last_included_index n) then
          modify (λ n, n <| next_index := <[i := last_included_index n]> (next_index n) |>)
        else
          let prev_log_index := absolute_prev_index - last_included_index n in
          match log n !! prev_log_index with
          | None =>
              modify (λ n, n <| next_index :=
                <[i := length (log n) + last_included_index n]> (next_index n) |>)
          | Some prev =>
              let next_log_index := ni - last_included_index n in
              send_http (peer +:+ "/raft/append")
                (AppendEntries (mkAppendEntriesArgs (current_term n) (node_id n)
                   absolute_prev_index (term prev) (drop next_log_index (log n))
                   (commit_index n) (client_address n)))
          end
  end.

(** [src/dfs/metaserver/src/simple_raft.rs:1410-1592 send_heartbeats] *)
Definition send_heartbeats : RM unit :=
  let! n := get in
  for_each (imap pair (combined_peers n)) (λ ip, heartbeat_peer ip.1 ip.2).

(** ** RequestVote *)

(** Raft's election restriction.
    [src/dfs/metaserver/src/simple_raft.rs:1925-1927 handle_rpc] *)
Definition log_up_to_date (args : RequestVoteArgs) (last_term : N) (last_index : nat) : bool :=
  (last_term <? rv_last_log_term args)%N ||
  ((rv_last_log_term args =? last_term)%N && Nat.leb last_index (rv_last_log_index args)).

(** [src/dfs/metaserver/src/simple_raft.rs:1902-1967 handle_rpc] *)
Definition handle_request_vote (args : RequestVoteArgs) : RM RpcMessage :=
  let! n0 := get in
  let! vote_granted :=
    if (current_term n0 <=? rv_term args)%N then
      do! (if (current_term n0 <? rv_term args)%N then
             do! step_down_to_follower (rv_term args) None in
             modify forget_leader
           else ret tt) in
      let! last_index := last_log_index in
      let! n := get in
      let! last := log_at (length (log n) - 1) in
      if (bool_decide (voted_for n = None) || bool_decide (voted_for n = Some (rv_candidate_id args)))
         && log_up_to_date args (term last) last_index
      then
        do! modify (λ n, n <| voted_for := Some (rv_candidate_id args) |>) in
        do! save_vote in
        do! modify (λ n, n <| last_election_time := clock n |>) in
        ret true
      else ret false
    else ret false in
  let! n := get in
  ret (RequestVoteResponse (mkRequestVoteReply (current_term n) vote_granted (node_id n))).

(** [src/dfs/metaserver/src/simple_raft.rs:1968-1999 handle_rpc] *)
Definition handle_request_vote_response (reply : RequestVoteReply) : RM RpcMessage :=
  let! n := get in
  do! (if bool_decide (role n = Candidate) && (current_term n =? rvr_term reply)%N
          && rvr_vote_granted reply
       then
         do! modify (λ n, n <| votes_received := S (votes_received n) |>
                            <| voters := {[rvr_peer_id reply]} ∪ voters n |>) in
         let! n := get in
         if has_joint_majority (cluster_config n) (voters n) then become_leader else ret tt
       else if (current_term n <? rvr_term reply)%N then
         do! step_down_to_follower (rvr_term reply) None in
         modify forget_leader
       else ret tt) in
  ret (RequestVoteResponse reply).

(** ** AppendEntries *)

(** `for (i, entry) in args.entries.iter().enumerate()` when the previous entry
    is the snapshot point: conflicts are truncated and entries appended in one
    pass. The result is the batch to persist.
    [src/dfs/metaserver/src/simple_raft.rs:2041-2064 handle_rpc] *)
Fixpoint append_at_snapshot (prev i : nat) (entries : list LogEntry)
    (batch : list (nat * LogEntry)) : RM (list (nat * LogEntry)) :=
  match entries with
  | [] => ret batch
  | entry :: entries =>
      let absolute_index := prev + 1 + i in
      let! n := get in
      let! log_index := usize_sub absolute_index (last_included_index n) in
      let! batch :=
        match log n !! log_index with
        | Some e =>
            if (term e =? term entry)%N then ret batch
            else
              do! modify (λ n, n <| log := truncate log_index (log n) |>) in
              do! delete_log_entries_from absolute_index in
              do! modify (λ n, n <| log := log n ++ [entry] |>) in
              ret (batch ++ [(absolute_index, entry)])
        | None =>
            do! modify (λ n, n <| log := log n ++ [entry] |>) in
            ret (batch ++ [(absolute_index, entry)])
        end in
      append_at_snapshot prev (S i) entries batch
  end.

(** The conflict-detection loop of the normal case, with its `break`s.
    [src/dfs/metaserver/src/simple_raft.rs:2083-2102 handle_rpc] *)
Fixpoint truncate_conflict (prev i : nat) (entries : list LogEntry) : RM unit :=
  match entries with
  | [] => ret tt
  | entry :: entries =>
      let absolute_index := prev + 1 + i in
      let! n := get in
      let! log_index := usize_sub absolute_index (last_included_index n) in
      match log n !! log_index with
      | Some e =>
          if (term e =? term entry)%N then truncate_conflict prev (S i) entries
          else
            do! modify (λ n, n <| log := truncate log_index (log n) |>) in
            delete_log_entries_from absolute_index
      | None => ret tt
      end
  end.

(** The appending loop of the normal case.
    [src/dfs/metaserver/src/simple_raft.rs:2104-2114 handle_rpc] *)
Fixpoint append_missing (prev i : nat) (entries : list LogEntry)
    (batch : list (nat * LogEntry)) : RM (list (nat * LogEntry)) :=
  match entries with
  | [] => ret batch
  | entry :: entries =>
      let absolute_index := prev + 1 + i in
      let! n := get in
      let! log_index := usize_sub absolute_index (last_included_index n) in
      let! batch :=
        if Nat.leb (length (log n)) log_index then
          do! modify (λ n, n <| log := log n ++ [entry] |>) in
          ret (batch ++ [(absolute_index, entry)])
        else ret batch in
      append_missing prev (S i) entries batch
  end.

(** The three positions of [prev_log_index]; the result is [(success, match_index)].
    [src/dfs/metaserver/src/simple_raft.rs:2016-2134 handle_rpc] *)
Definition reconcile_log (args : AppendEntriesArgs) : RM (bool * nat) :=
  let! n := get in
  let prev := ae_prev_log_index args in
  if Nat.ltb prev (last_included_index n) then ret (false, last_included_index n)
  else if Nat.eqb prev (last_included_index n) then
    if (ae_prev_log_term args =? last_included_term n)%N then
      do! (match log n !! 0 with
           | Some e =>
               if (term e =? ae_prev_log_term args)%N then ret tt
               else
                 do! modify (λ n, n <| log := truncate 0 (log n) |>) in
                 delete_log_entries_from (S (last_included_index n))
           | None => ret tt
           end) in
      let! batch := append_at_snapshot prev 0 (ae_entries args) [] in
      do! save_log_entries_batch batch in
      ret (true, prev + length (ae_entries args))
    else ret (false, 0)
  else
    let prev_log_index_local := prev - last_included_index n in
    match log n !! prev_log_index_local with
    | Some e =>
        if (term e =? ae_prev_log_term args)%N then
          do! truncate_conflict prev 0 (ae_entries args) in
          let! batch := append_missing prev 0 (ae_entries args) [] in
          do! save_log_entries_batch batch in
          ret (true, prev + length (ae_entries args))
        else ret (false, last_included_index n + prev_log_index_local)
    | None => ret (false, last_included_index n)
    end.

(** [src/dfs/metaserver/src/simple_raft.rs:2000-2151 handle_rpc] *)
Definition handle_append_entries (args : AppendEntriesArgs) : RM RpcMessage :=
  let! n0 := get in
  let! r :=
    if (current_term n0 <=? ae_term args)%N then
      do! step_down_to_follower (ae_term args) (Some (ae_leader_address args)) in
      do! modify (λ n, n <| current_leader := Some (ae_leader_id args) |>
                         <| last_election_time := clock n |>) in
      let! r := reconcile_log args in
      let! n := get in
      do! (if r.1 && Nat.ltb (commit_index n) (ae_leader_commit args) then
             let! last := last_log_index in
             do! modify (λ n, n <| commit_index := Nat.min (ae_leader_commit args) last |>) in
             apply_logs
           else ret tt) in
      ret r
    else ret (false, 0) in
  let! n := get in
  ret (AppendEntriesResponse (mkAppendEntriesReply (current_term n) r.1 r.2 (node_id n))).

(** ** AppendEntries replies: commitment *)

(** `for req in self.pending_read_indices.iter_mut()`: a peer that answered in
    the current term confirms the pending reads of that term.
    [src/dfs/metaserver/src/simple_raft.rs:2183-2190 handle_rpc] *)
Definition ack_read (n : RaftNode) (peer_id : nat) (req : ReadIndexRequest) : ReadIndexRequest :=
  if (read_term req =? current_term n)%N then
    let acks := {[peer_id]} ∪ read_acks req in
    mkReadIndexRequest (read_index req) (read_term req) acks
      (has_joint_majority (cluster_config n) acks || majority_confirmed req) (read_reply_tx req)
  else req.

Definition ack_reads (peer_id : nat) (n : RaftNode) : RaftNode :=
  n <| pending_read_indices := ack_read n peer_id <$> pending_read_indices n |>.

(** `self.next_index[i] = next; self.match_index[i] = m`. *)
Definition set_progress (i next m : nat) : RM unit :=
  let! n := get in
  match vec_set i next (next_index n), vec_set i m (match_index n) with
  | Some ni, Some mi => put (n <| next_index := ni |> <| match_index := mi |>)
  | _, _ => panic "index out of bounds: next_index"
  end.

(** The position in [peers] of the address the configuration has for a server.
    [src/dfs/metaserver/src/simple_raft.rs:2155-2164 handle_rpc] *)
Definition peer_index (n : RaftNode) (peer_id : nat) : option nat :=
  match all_members (cluster_config n) !! peer_id with
  | Some addr => position (λ p, bool_decide (p = addr)) (peers n)
  | None => None
  end.

(** What the leader records about the replying peer.
    [src/dfs/metaserver/src/simple_raft.rs:2166-2224 handle_rpc] *)
Definition record_append_reply (reply : AppendEntriesReply) : RM unit :=
  let! n := get in
  match peer_index n (aer_peer_id reply) with
  | None => ret tt
  | Some peer_idx =>
      if aer_success reply then
        do! set_progress peer_idx (aer_match_index reply + 1) (aer_match_index reply) in
        do! modify (λ n, n <| catch_up_progress :=
              alter (λ p, catch_up_update p (aer_match_index reply)) (aer_peer_id reply)
                (catch_up_progress n) |>) in
        do! modify (ack_reads (aer_peer_id reply)) in
        check_read_indices
      else
        match next_index n !! peer_idx with
        | None => panic "index out of bounds: next_index"
        | Some ni =>
            if Nat.ltb (last_included_index n + 1) ni
            then put (n <| next_index := <[peer_idx := ni - 1]> (next_index n) |>)
            else ret tt
        end
  end.

(** The map from server to the last index it is known to store.
    [src/dfs/metaserver/src/simple_raft.rs:2228-2244 handle_rpc] *)
Definition server_match_indices (n : RaftNode) (absolute_index : nat) : gmap nat nat :=
  <[node_id n := absolute_index]>
    (map_imap (λ server_id addr,
       if decide (server_id = node_id n) then None
       else match position (λ p, bool_decide (p = addr)) (peers n) with
            | Some peer_idx => match_index n !! peer_idx
            | None => None
            end) (all_members (cluster_config n))).

(** The servers that store the log up to an index.
    [src/dfs/metaserver/src/simple_raft.rs:2254-2259 handle_rpc] *)
Definition index_acks (indices : gmap nat nat) (candidate_index : nat) : gset nat :=
  dom (filter (λ e, candidate_index ≤ e.2) indices).

(** The highest index a joint majority stores, else the commit index.
    [src/dfs/metaserver/src/simple_raft.rs:2247-2264 handle_rpc] *)
Definition majority_match_index (n : RaftNode) (indices : gmap nat nat) : nat :=
  let candidate_indices := reverse (merge_sort le (map_to_list indices).*2) in
  default (commit_index n)
    (List.find (λ c, has_joint_majority (cluster_config n) (index_acks indices c))
       candidate_indices).

(** [src/dfs/metaserver/src/simple_raft.rs:2226-2280 handle_rpc] *)
Definition advance_commit : RM unit :=
  let! absolute_index := last_log_index in
  let! n := get in
  let m := majority_match_index n (server_match_indices n absolute_index) in
  if Nat.ltb (commit_index n) m then
    let! log_index_relative := usize_sub m (last_included_index n) in
    match log n !! log_index_relative with
    | Some e =>
        if (term e =? current_term n)%N then
          do! modify (λ n, n <| commit_index := m |>) in
          apply_logs
        else ret tt
    | None => ret tt
    end
  else ret tt.

(** [src/dfs/metaserver/src/simple_raft.rs:2152-2292 handle_rpc] *)
Definition handle_append_entries_response (reply : AppendEntriesReply) : RM RpcMessage :=
  let! n := get in
  do! (if bool_decide (role n = Leader) && (aer_term reply =? current_term n)%N then
         do! record_append_reply reply in
         advance_commit
       else if (current_term n <? aer_term reply)%N then
         do! step_down_to_follower (aer_term reply) None in
         modify forget_leader
       else ret tt) in
  ret (AppendEntriesResponse reply).

(** ** Snapshots and leadership transfer *)

(** [src/dfs/metaserver/src/simple_raft.rs:2293-2337 handle_rpc] *)
Definition handle_install_snapshot (args : InstallSnapshotArgs) : RM RpcMessage :=
  let! n0 := get in
  do! (if (current_term n0 <=? is_term args)%N then
         do! step_down_to_follower (is_term args) None in
         do! modify (λ n, n <| current_leader := Some (is_leader_id args) |>
                            <| last_election_time := clock n |>) in
         let! n := get in
         if Nat.ltb (last_included_index n) (is_last_included_index args) then
           install_snapshot (mkSnapshot (is_last_included_index args)
             (is_last_included_term args) (is_data args))
         else ret tt
       else ret tt) in
  let! n := get in
  ret (InstallSnapshotResponse
         (mkInstallSnapshotReply (current_term n) (last_included_index n) (node_id n))).

(** `p.contains(&id.to_string())`. *)
Definition address_mentions (id : nat) (p : string) : bool :=
  bool_decide (is_Some (String.index 0 (pretty id) p)).

(** [src/dfs/metaserver/src/simple_raft.rs:2338-2381 handle_rpc] *)
Definition handle_install_snapshot_response (reply : InstallSnapshotReply) : RM RpcMessage :=
  let! n := get in
  do! (if bool_decide (role n = Leader) && (isr_term reply =? current_term n)%N then
         match position (address_mentions (isr_peer_id reply)) (peers n) with
         | Some peer_idx =>
             do! set_progress peer_idx (isr_last_included_index reply + 1)
                   (isr_last_included_index reply) in
             do! modify (ack_reads (isr_peer_id reply)) in
             check_read_indices
         | None => ret tt
         end
       else if (current_term n <? isr_term reply)%N then
         do! step_down_to_follower (isr_term reply) None in
         modify forget_leader
       else ret tt) in
  ret (InstallSnapshotResponse reply).

(** [src/dfs/metaserver/src/simple_raft.rs:2382-2417 handle_rpc] *)
Definition handle_timeout_now (args : TimeoutNowArgs) : RM RpcMessage :=
  let! n := get in
  if (tn_term args <? current_term n)%N then
    ret (TimeoutNowResponse (mkTimeoutNowReply (current_term n) false))
  else
    do! (if (current_term n <? tn_term args)%N then step_down_to_follower (tn_term args) None
         else ret tt) in
    do! candidacy in
    let! n := get in
    ret (TimeoutNowResponse (mkTimeoutNowReply (current_term n) true)).

(** [src/dfs/metaserver/src/simple_raft.rs:1900-1902 handle_rpc] *)
Definition handle_rpc (msg : RpcMessage) : RM RpcMessage :=
  match msg with
  | RequestVote args => handle_request_vote args
  | RequestVoteResponse reply => handle_request_vote_response reply
  | AppendEntries args => handle_append_entries args
  | AppendEntriesResponse reply => handle_append_entries_response reply
  | InstallSnapshot args => handle_install_snapshot args
  | InstallSnapshotResponse reply => handle_install_snapshot_response reply
  | TimeoutNow args => handle_timeout_now args
  | TimeoutNowResponse reply => ret (TimeoutNowResponse reply)
  end.

End rpc.
