(* ===== verification/RaftLoop.v ===== *)
(** * The Raft event loop and membership changes

    dfs/metaserver/src/simple_raft.rs: [tick], [handle_event],
    [handle_event_batch], and the membership-change entry points. A round of
    [run] is one tick or one batch of events. *)

From S2P Require Import Prelude BTree Sharding MasterState AppState ClusterConfig RaftNode RaftRpc.
From stdpp Require Import pretty.

Section loop.
  Context {E : RaftEnv}.

Notation RM := (M RaftNode).

(** ** Membership changes *)

(** `self.log.push(entry)` of the current term, then `save_log_entry(..)?`; the
    result is the absolute index of the new entry.
    [src/dfs/metaserver/src/simple_raft.rs:2673-2680 promote_non_voting_members] *)
Definition append_own (cmd : Command) : RM nat :=
  let! n := get in
  let entry := mkLogEntry (current_term n) cmd in
  do! modify (λ n, n <| log := log n ++ [entry] |>) in
  let! absolute_index := last_log_index in
  do! save_log_entry absolute_index entry in
  ret absolute_index.

(** [src/dfs/metaserver/src/simple_raft.rs:2640-2699 promote_non_voting_members] *)
Definition promote_non_voting_members : RM unit :=
  let! n := get in
  match config_change_state n with
  | AddingServers servers _ =>
      let servers_to_promote := fst <$> servers in
      match cluster_config n with
      | Simple old_members _ =>
          let new_members := servers_to_promote ∪ old_members in
          let version := wrap64 (config_version (cluster_config n) + 1) in
          let! joint_index :=
            append_own (CMembership (BeginJointConsensus old_members new_members version)) in
          modify (λ n, n <| config_change_state := InJointConsensus joint_index new_members |>
                         <| non_voting_members := ∅ |> <| catch_up_progress := ∅ |>)
      | Joint _ _ _ => fail "Cannot promote: already in joint consensus"
      end
  | _ => ret tt
  end.

(** [src/dfs/metaserver/src/simple_raft.rs:2613-2638 check_promote_non_voting_members] *)
Definition check_promote_non_voting_members : RM unit :=
  let! n := get in
  match config_change_state n with
  | AddingServers servers _ =>
      if forallb (λ e, is_caught_up e.2.2 (commit_index n)) (map_to_list servers)
      then promote_non_voting_members else ret tt
  | _ => ret tt
  end.

(** [src/dfs/metaserver/src/simple_raft.rs:2701-2737 check_finalize_joint_consensus] *)
Definition check_finalize_joint_consensus : RM unit :=
  let! n := get in
  match config_change_state n with
  | InJointConsensus joint_config_index target_config =>
      if Nat.leb joint_config_index (commit_index n) then
        let version := wrap64 (config_version (cluster_config n) + 1) in
        do! append_own (CMembership (FinalizeConfiguration target_config version)) in
        ret tt
      else ret tt
  | _ => ret tt
  end.

(** The wait of [initiate_leader_transfer]: [attempts] rounds of heartbeats are
    left. The node handles no event in between.
    [src/dfs/metaserver/src/simple_raft.rs:2757-2777 initiate_leader_transfer] *)
Fixpoint await_catch_up (attempts target_id target_peer_idx : nat) : RM unit :=
  let! n := get in
  let! last := last_log_index in
  match match_index n !! target_peer_idx with
  | None => panic "index out of bounds: match_index"
  | Some m =>
      if Nat.ltb m last then
        match attempts with
        | O => fail "Timeout waiting for target server to catch up"
        | S attempts => do! send_heartbeats in await_catch_up attempts target_id target_peer_idx
        end
      else ret tt
  end.

(** [src/dfs/metaserver/src/simple_raft.rs:2739-2825 initiate_leader_transfer] *)
Definition initiate_leader_transfer (target_id : nat) : RM unit :=
  let! n := get in
  match all_members (cluster_config n) !! target_id with
  | None => fail "Target server not found in cluster"
  | Some target_addr =>
      match position (λ p, bool_decide (p = target_addr)) (peers n) with
      | None => fail "Target server not in peers list"
      | Some target_peer_idx =>
          do! await_catch_up 50 target_id target_peer_idx in
          let! n := get in
          do! send_http (target_addr +:+ "/raft/timeout_now")
                (TimeoutNow (mkTimeoutNowArgs (current_term n) (node_id n))) in
          do! step_down_to_follower (current_term n) None in
          modify forget_leader
      end
  end.

(** [src/dfs/metaserver/src/simple_raft.rs:2827-2886 handle_add_servers_request] *)
Definition handle_add_servers_request (servers : gmap nat string) : RM unit :=
  let! n := get in
  if negb (bool_decide (role n = Leader)) then fail "Not the leader" else
  match config_change_state n with
  | NoChange =>
      if decide (servers = ∅) then fail "No servers to add" else
      if existsb (λ e, bool_decide (is_Some (all_members (cluster_config n) !! e.1)))
           (map_to_list servers)
      then fail "Server already exists" else
      modify (λ n,
        let progress := catch_up_new (monotonic_time n) in
        n <| config_change_state := AddingServers ((λ addr, (addr, progress)) <$> servers)
                                      (monotonic_time n) |>
          <| non_voting_members := servers ∪ non_voting_members n |>
          <| server_roles := ((λ _, NonVoting) <$> servers) ∪ server_roles n |>
          <| catch_up_progress := ((λ _, progress) <$> servers) ∪ catch_up_progress n |>
          <| next_index := next_index n ++
               replicate (size servers) (length (log n) + last_included_index n) |>
          <| match_index := match_index n ++ replicate (size servers) (last_included_index n) |>)
  | _ => fail "Configuration change already in progress"
  end.

(** [src/dfs/metaserver/src/simple_raft.rs:2945-2993 begin_remove_servers_joint_consensus] *)
Definition begin_remove_servers_joint_consensus (server_ids : list nat) : RM unit :=
  let! n := get in
  match cluster_config n with
  | Simple old_members _ =>
      let new_members := foldl (λ m i, delete i m) old_members server_ids in
      let version := wrap64 (config_version (cluster_config n) + 1) in
      let! joint_index :=
        append_own (CMembership (BeginJointConsensus old_members new_members version)) in
      modify (λ n, n <| config_change_state := InJointConsensus joint_index new_members |>)
  | Joint _ _ _ => fail "Invalid state"
  end.

(** The count of remaining servers is a [usize] difference, which wraps around
    in a release build.
    [src/dfs/metaserver/src/simple_raft.rs:2888-2943 handle_remove_servers_request] *)
Definition handle_remove_servers_request (server_ids : list nat) : RM unit :=
  let! n := get in
  if negb (bool_decide (role n = Leader)) then fail "Not the leader" else
  match config_change_state n with
  | NoChange =>
      if decide (server_ids = []) then fail "No servers to remove" else
      match cluster_config n with
      | Joint _ _ _ => fail "Cannot remove servers during joint consensus"
      | Simple current_members _ =>
          let remaining := sub64 (N.of_nat (size current_members)) (N.of_nat (length server_ids)) in
          if (remaining <? 1)%N then fail "Cannot remove all servers" else
          if decide (node_id n ∈ server_ids) then
            match List.find (λ m, negb (bool_decide (m.1 ∈ server_ids)) &&
                                  negb (Nat.eqb m.1 (node_id n))) (members_order current_members) with
            | Some target =>
                do! modify (λ n, n <| config_change_state :=
                      TransferringLeadership target.1 server_ids |>) in
                initiate_leader_transfer target.1
            | None => fail "No suitable target for leader transfer"
            end
          else begin_remove_servers_joint_consensus server_ids
      end
  | _ => fail "Configuration change already in progress"
  end.

(** ** Ticks *)

(** The upload of the snapshot just created is not part of the node's state.
    [src/dfs/metaserver/src/simple_raft.rs:1190-1274 tick] *)
Definition tick : RM unit :=
  do! modify (λ n, n <| monotonic_time := wrap64 (monotonic_time n + 1) |>) in
  let! n := get in
  do! (match role n with
       | Follower | Candidate =>
           if (election_timeout n <? clock n - last_election_time n)%N then start_election else ret tt
       | Leader =>
           do! send_heartbeats in
           do! check_promote_non_voting_members in
           check_finalize_joint_consensus
       end) in
  do! apply_logs in
  let! n := get in
  if Nat.ltb 100 (length (log n)) && Nat.ltb (last_included_index n) (last_applied n)
  then create_snapshot else ret tt.

(** ** Events *)

(** [src/dfs/metaserver/src/simple_raft.rs:1788-1838 handle_event] *)
Definition handle_client_request (cmd : Command) (reply_tx : nat) : RM unit :=
  let! n := get in
  if negb (bool_decide (role n = Leader)) then
    send_chan reply_tx (WriteResult (inr (current_leader_address n)))
  else
    let! absolute_index := append_own cmd in
    do! (let! n := get in
         if bool_decide (peers n = []) && Nat.ltb (commit_index n) absolute_index then
           do! modify (λ n, n <| commit_index := absolute_index |>) in
           apply_logs
         else ret tt) in
    do! modify (λ n, n <| pending_replies := <[absolute_index := reply_tx]> (pending_replies n) |>) in
    let! n := get in
    if bool_decide (peers n = []) then ret tt else ignore_err send_heartbeats.

(** [src/dfs/metaserver/src/simple_raft.rs:1842-1862 handle_event] *)
Definition cluster_info (n : RaftNode) : ClusterInfo := {|
  ci_node_id := node_id n; ci_role := role n; ci_current_term := current_term n;
  ci_leader_id := current_leader n; ci_leader_address := current_leader_address n;
  ci_peers := peers n; ci_commit_index := commit_index n; ci_last_applied := last_applied n;
  ci_log_len := length (log n) + last_included_index n; ci_votes_received := votes_received n;
  ci_cluster_config := cluster_config n; ci_config_change_state := config_change_state n;
  ci_is_safe_mode := is_safe_mode (app_state n) |}.

(** [src/dfs/metaserver/src/simple_raft.rs:1863-1896 handle_event] *)
Definition handle_read_index (reply_tx : nat) : RM unit :=
  let! n := get in
  if negb (bool_decide (role n = Leader)) then
    send_chan reply_tx (ReadResult (inr (current_leader_address n)))
  else
    let acks : gset nat := {[node_id n]} in
    let confirmed := has_joint_majority (cluster_config n) acks in
    do! modify (λ n, n <| pending_read_indices := pending_read_indices n ++
          [mkReadIndexRequest (commit_index n) (current_term n) acks confirmed reply_tx] |>) in
    do! (if confirmed then check_read_indices else ret tt) in
    let! n := get in
    if bool_decide (peers n = []) then ret tt else send_heartbeats.

(** [src/dfs/metaserver/src/simple_raft.rs:1780-1898 handle_event] *)
Definition handle_event (ev : Event) : RM unit :=
  match ev with
  | EvRpc msg reply_tx =>
      let! response := handle_rpc msg in
      match reply_tx with
      | Some tx => send_chan tx (RpcReply response)
      | None => ret tt
      end
  | EvClientRequest cmd reply_tx => handle_client_request cmd reply_tx
  | EvGetLeaderInfo reply_tx =>
      let! n := get in send_chan reply_tx (LeaderInfo (current_leader_address n))
  | EvGetClusterInfo reply_tx =>
      let! n := get in send_chan reply_tx (ClusterInfoReply (cluster_info n))
  | EvGetReadIndex reply_tx => handle_read_index reply_tx
  end.

(** [src/dfs/metaserver/src/simple_raft.rs:1691-1699 handle_event_batch] *)
Definition client_request (ev : Event) : option (Command * nat) :=
  match ev with EvClientRequest cmd reply_tx => Some (cmd, reply_tx) | _ => None end.

(** Appending the requests of a batch: what is persisted, and who waits where.
    [src/dfs/metaserver/src/simple_raft.rs:1722-1738 handle_event_batch] *)
Fixpoint append_batch (requests : list (Command * nat))
    (acc : list (nat * LogEntry) * list (nat * nat))
  : RM (list (nat * LogEntry) * list (nat * nat)) :=
  match requests with
  | [] => ret acc
  | (cmd, reply_tx) :: requests =>
      let! n := get in
      let entry := mkLogEntry (current_term n) cmd in
      do! modify (λ n, n <| log := log n ++ [entry] |>) in
      let! n := get in
      let! absolute_index := usize_sub (last_included_index n + length (log n)) 1 in
      append_batch requests
        (acc.1 ++ [(absolute_index, entry)], acc.2 ++ [(absolute_index, reply_tx)])
  end.

(** The leader's part of a batch.
    [src/dfs/metaserver/src/simple_raft.rs:1722-1777 handle_event_batch] *)
Definition handle_client_batch (requests : list (Command * nat)) : RM unit :=
  let! n := get in
  let pre_batch_len := length (log n) in
  let! batch := append_batch requests ([], []) in
  do! or_else (save_log_entries_batch batch.1) (λ e,
        do! modify (λ n, n <| log := truncate pre_batch_len (log n) |>) in
        do! for_each batch.2 (λ r, send_chan r.2 (WriteResult (inr None))) in
        fail e) in
  do! modify (λ n, n <| pending_replies :=
        foldl (λ m r, <[r.1 := r.2]> m) (pending_replies n) batch.2 |>) in
  let! n := get in
  do! (if bool_decide (peers n = []) then
         let! last_index := usize_sub (last_included_index n + length (log n)) 1 in
         if Nat.ltb (commit_index n) last_index then
           do! modify (λ n, n <| commit_index := last_index |>) in
           apply_logs
         else ret tt
       else ret tt) in
  send_heartbeats.

(** [src/dfs/metaserver/src/simple_raft.rs:1687-1778 handle_event_batch] *)
Definition handle_event_batch (events : list Event) : RM unit :=
  let client_requests := omap client_request events in
  let other_events := filter (λ ev, client_request ev = None) events in
  do! for_each other_events handle_event in
  match client_requests with
  | [] => ret tt
  | _ =>
      let! n := get in
      if negb (bool_decide (role n = Leader)) then
        for_each client_requests (λ r,
          send_chan r.2 (WriteResult (inr (current_leader_address n))))
      else handle_client_batch client_requests
  end.

(** What one iteration of the loop of [run] handles: the timer, or at most 256
    queued events. *)
Inductive Input : Type :=
  | Tick
  | Batch (events : list Event).

(** [src/dfs/metaserver/src/simple_raft.rs:1167-1186 run] *)
Definition run_once (i : Input) : RM unit :=
  match i with
  | Tick => ignore_err tick
  | Batch events => ignore_err (handle_event_batch (take 256 events))
  end.

End loop.
