(* ===== verification/RaftDemo.v ===== *)
(** * A concrete environment and cluster

    Inputs on which the Raft theorems are evaluated: application states stand
    for their own encoding, and three metaservers are started as the compose
    file starts them. *)

From S2P Require Import Prelude BTree Sharding MasterState AppState ClusterConfig RaftNode RaftRpc RaftLoop.

#[refine] Definition demo_env : RaftEnv := {|
  crc32 := λ _, 0%N;
  bytes := AppState;
  to_vec := λ a, Some (restored a);
  from_slice := λ b, Some b;
  legacy_from_slice := λ _, None;
  members_order := map_to_list;
|}.
Proof.
  - by intros a b [= <-].
  - done.
Defined.

Definition demo_url (i : nat) : string :=
  match i with
  | 1 => "http://metaserver-0:8080"
  | 2 => "http://metaserver-1:8080"
  | _ => "http://metaserver-2:8080"
  end.

Definition demo_peers (i : nat) : list string :=
  demo_url <$> filter (λ j, j ≠ i) [1; 2; 3].

Definition demo_state : AppState := AConfig (mkConfigState new_range ∅).
