(* ===== verification/RaftFrame.v ===== *)
(** * What elections do not see

    Most of the node's code neither votes nor changes its role: [frame] relates
    a node to one with the same election state, and every such method is
    framed. The voting configuration is the one of the command line
    ([static]): no joint-consensus entry is ever logged, and database writes
    succeed. *)

From S2P Require Import Prelude BTree Sharding MasterState AppState ClusterConfig RaftNode RaftRpc RaftLoop.

(** A command that does not change the voting configuration. *)
Definition plain_command (c : Command) : bool :=
  match c with
  | CMembership (BeginJointConsensus _ _ _) => false
  | CMembership (FinalizeConfiguration _ _) => false
  | _ => true
  end.

Definition plain (e : LogEntry) : Prop := plain_command (command e) = true.

Section election.
  Context {E : RaftEnv}.

Notation RM := (M RaftNode).

(** ** What elections see of a node *)

(** The granted votes among the answers sent on reply channels. *)
Definition granted (out : list (nat * ChanMessage)) : list (nat * RequestVoteReply) :=
  omap (λ m, match m.2 with
             | RpcReply (RequestVoteResponse r) => if rvr_vote_granted r then Some (m.1, r) else None
             | _ => None
             end) out.

Definition view (n : RaftNode) :=
  (node_id n, current_term n, voted_for n, role n, voters n, db_term (db n), db_vote (db n),
   granted (chan_out n)).

(** The voting configuration is [Simple members 0], in memory and after a
    restart, nothing in the log will change it, and database writes succeed. *)
Record static (members : gmap nat string) (n : RaftNode) : Prop := mk_static {
  st_config : cluster_config n = Simple members 0;
  st_change : config_change_state n = NoChange;
  st_log : Forall plain (log n);
  st_db_log : map_Forall (λ _, plain) (db_log (db n));
  st_db_config : db_cluster_config (db n) = None;
  st_db_change : db_config_change_state (db n) = None;
  st_faults : db_faults (db n) = [];
}.

(** [frame n n']: a static node stays static and keeps its election state. *)
Definition frame (n n' : RaftNode) : Prop :=
  ∀ members, static members n → static members n' ∧ view n' = view n.

#[global] Instance frame_preorder : PreOrder frame.
Proof.
  split; [by intros n m|]. intros a b c Hab Hbc m Ha.
  destruct (Hab m Ha) as [Hb E1]. destruct (Hbc m Hb) as [Hc E2]. split; [done|]. congruence.
Qed.

Lemma granted_app a b : granted (a ++ b) = granted a ++ granted b.
Proof. apply omap_app. Qed.

Definition not_a_vote (m : ChanMessage) : bool :=
  match m with RpcReply (RequestVoteResponse r) => negb (rvr_vote_granted r) | _ => true end.

Lemma granted_nil out : Forall (λ m, not_a_vote m.2 = true) out → granted out = [].
Proof.
  induction 1 as [|[c m] out Hm _ IH]; [done|]. unfold granted in *. simpl in *.
  destruct m as [| | | |[|r| | | | | |]]; try done. simpl in *. by destruct (rvr_vote_granted r).
Qed.

(** Frame of an update that touches neither the election state nor the
    configuration, except through the listed conditions. *)
Lemma frame_intro n n' out :
  (node_id n', current_term n', voted_for n', role n', voters n', db_term (db n'), db_vote (db n'))
    = (node_id n, current_term n, voted_for n, role n, voters n, db_term (db n), db_vote (db n)) →
  (cluster_config n', config_change_state n', db_cluster_config (db n'),
   db_config_change_state (db n'), db_faults (db n'))
    = (cluster_config n, config_change_state n, db_cluster_config (db n),
       db_config_change_state (db n), db_faults (db n)) →
  (Forall plain (log n) → map_Forall (λ _, plain) (db_log (db n)) → Forall plain (log n')) →
  (Forall plain (log n) → map_Forall (λ _, plain) (db_log (db n)) →
     map_Forall (λ _, plain) (db_log (db n'))) →
  chan_out n' = chan_out n ++ out → Forall (λ m, not_a_vote m.2 = true) out →
  frame n n'.
Proof.
  intros [= ? ? ? ? ? ? ?] [= ? ? ? ? ?] Hlog Hdb Hout Hno m [].
  split; [constructor; first [congruence | by auto]|].
  unfold view. rewrite Hout, granted_app, (granted_nil out Hno), app_nil_r. congruence.
Qed.

Lemma frame_intro0 n n' :
  (node_id n', current_term n', voted_for n', role n', voters n', db_term (db n'), db_vote (db n'))
    = (node_id n, current_term n, voted_for n, role n, voters n, db_term (db n), db_vote (db n)) →
  (cluster_config n', config_change_state n', db_cluster_config (db n'),
   db_config_change_state (db n'), db_faults (db n'))
    = (cluster_config n, config_change_state n, db_cluster_config (db n),
       db_config_change_state (db n), db_faults (db n)) →
  (log n', db_log (db n'), chan_out n') = (log n, db_log (db n), chan_out n) →
  frame n n'.
Proof.
  intros ? ? [= Hl Hd Hc]. apply (frame_intro n n' []); [done..| | | |constructor].
  - by rewrite Hl.
  - by rewrite Hd.
  - by rewrite app_nil_r.
Qed.

Ltac frame0 := intros; apply frame_intro0; reflexivity.
Ltac frame_log := intros; apply (frame_intro _ _ []);
  [reflexivity|reflexivity|simpl; intros| simpl; intros |simpl; by rewrite app_nil_r|by constructor];
  try done.

(** ** Code that elections do not see *)

Lemma kp_static {A} (m : RM A) n :
  (∀ members, static members n → kp frame m n) → kp frame m n.
Proof.
  unfold kp. intros H. destruct (m n) as [[] n']; [intros members Hst; by eapply H..|done].
Qed.

Lemma db_write_frame c f n :
  (∀ d, (db_term (f d), db_vote (f d), db_cluster_config (f d), db_config_change_state (f d),
         db_faults (f d)) =
        (db_term d, db_vote d, db_cluster_config d, db_config_change_state d, db_faults d)) →
  (map_Forall (λ _, plain) (db_log (db n)) → map_Forall (λ _, plain) (db_log (f (db n)))) →
  kp frame (db_write c f) n.
Proof.
  intros Hf Hp. apply kp_static. intros m0 Hst0. unfold kp, db_write.
  rewrite (st_faults _ _ Hst0). intros m Hst. simpl.
  destruct Hst. specialize (Hf (db n)) as [= ? ? ? ? ?].
  split; [constructor; simpl; first [congruence|by auto]|]. unfold view. simpl. congruence.
Qed.

Lemma save_log_entry_frame i e n : plain e → kp frame (save_log_entry i e) n.
Proof. intros He. apply db_write_frame; [done|]. intros H. simpl. by apply map_Forall_insert_2. Qed.

Lemma foldl_insert_plain (es : list (nat * LogEntry)) (m : gmap nat LogEntry) :
  Forall plain es.*2 → map_Forall (λ _, plain) m →
  map_Forall (λ _, plain) (foldl (λ m e, <[e.1 := e.2]> m) m es).
Proof.
  revert m. induction es as [|e es IH]; intros m Hes Hm; [done|]. inv Hes. simpl.
  apply IH; [done|]. by apply map_Forall_insert_2.
Qed.

Lemma save_log_entries_batch_frame es n :
  Forall plain es.*2 → kp frame (save_log_entries_batch es) n.
Proof.
  intros Hes. unfold save_log_entries_batch. destruct es as [|e es]; [kp_step|].
  apply db_write_frame; [done|]. intros H. by apply foldl_insert_plain.
Qed.

Lemma delete_log_write_frame c i n :
  kp frame (db_write c (λ d, d <| db_log := delete i (db_log d) |>)) n.
Proof. apply db_write_frame; [done|]. intros H. simpl. by apply map_Forall_delete. Qed.

#[local] Hint Extern 1 (not_a_vote _ = true) => reflexivity : dfs.
#[local] Hint Resolve save_log_entry_frame save_log_entries_batch_frame delete_log_write_frame : dfs.

Lemma delete_log_loop_frame fuel i n : kp frame (delete_log_loop fuel i) n.
Proof.
  revert i n. induction fuel as [|fuel IH]; intros i n; simpl; rkp.
Qed.
#[local] Hint Resolve delete_log_loop_frame : dfs.
Lemma delete_log_entries_from_frame i n : kp frame (delete_log_entries_from i) n.
Proof. unfold delete_log_entries_from. rkp. Qed.
Lemma delete_log_range_frame a b n : kp frame (delete_log_range a b) n.
Proof. unfold delete_log_range. rkp. Qed.
#[local] Hint Resolve delete_log_entries_from_frame delete_log_range_frame : dfs.

Lemma check_read_indices_frame n : kp frame check_read_indices n.
Proof.
  apply kp_modify. eapply frame_intro; [reflexivity..|auto|auto|reflexivity|].
  rewrite Forall_fmap. by apply Forall_true.
Qed.

Lemma send_chan_frame c m n : not_a_vote m = true → kp frame (send_chan c m) n.
Proof.
  intros Hm. apply kp_modify. eapply frame_intro; [reflexivity..|auto|auto|reflexivity|].
  by repeat constructor.
Qed.

Lemma drain_pending_frame h n : frame n (drain_pending h n).
Proof.
  eapply frame_intro; [reflexivity..|auto|auto|reflexivity|].
  rewrite Forall_app, !Forall_fmap. split; by apply Forall_true.
Qed.

Lemma send_http_frame u m n : kp frame (send_http u m) n.
Proof. apply kp_modify. frame0. Qed.

Lemma create_snapshot_frame n : kp frame create_snapshot n.
Proof.
  unfold create_snapshot. rkp; try (by apply db_write_frame); [frame0|].
  frame_log. constructor; [done|]. by apply Forall_drop.
Qed.

Lemma install_snapshot_frame sn n : kp frame (install_snapshot sn) n.
Proof.
  unfold install_snapshot. rkp; try (by apply db_write_frame).
  - destruct (from_slice _); [frame0|]. destruct (legacy_from_slice _); [frame0|done].
  - frame_log. by repeat constructor.
Qed.
#[local] Hint Resolve check_read_indices_frame send_chan_frame send_http_frame
  create_snapshot_frame install_snapshot_frame drain_pending_frame : dfs.

Lemma apply_membership_command_frame cmd n :
  plain_command (CMembership cmd) = true → kp frame (apply_membership_command cmd) n.
Proof.
  intros Hp. destruct cmd; simpl in *; try done; try kp_step.
  - unfold add_server_legacy. apply kp_modify. case_if; [done|frame0].
  - unfold remove_server_legacy. rkp; frame0.
Qed.

Lemma apply_one_frame n : kp frame apply_one n.
Proof.
  unfold apply_one. rkp_step; [apply kp_modify; frame0|]. do 3 rkp_step; [|rkp; frame0].
  apply kp_static. intros members Hst. rkp_step; [|rkp].
  assert (plain l) as Hl.
  { eapply Forall_lookup_1; [apply (st_log members), Hst|done]. }
  rkp_step; [|rkp]. unfold plain in Hl. rkp_step; try (rkp_step; frame0).
  apply apply_membership_command_frame. congruence.
Qed.

Lemma apply_logs_frame n : kp frame apply_logs n.
Proof.
  apply kp_get_bind. generalize (commit_index n - last_applied n). intros fuel.
  revert n. induction fuel as [|fuel IH]; intros n; simpl; rkp; apply apply_one_frame.
Qed.
#[local] Hint Resolve apply_logs_frame : dfs.

Lemma set_progress_frame i a b n : kp frame (set_progress i a b) n.
Proof. unfold set_progress. rkp. frame0. Qed.
#[local] Hint Resolve set_progress_frame : dfs.

Lemma record_append_reply_frame r n : kp frame (record_append_reply r) n.
Proof. unfold record_append_reply. rkp; frame0. Qed.

Lemma advance_commit_frame n : kp frame advance_commit n.
Proof. unfold advance_commit. rkp; frame0. Qed.

Lemma heartbeat_peer_frame i p n : kp frame (heartbeat_peer i p) n.
Proof. unfold heartbeat_peer. destruct p as [[? ?] ?]. rkp; frame0. Qed.
#[local] Hint Resolve record_append_reply_frame advance_commit_frame heartbeat_peer_frame : dfs.

Lemma send_heartbeats_frame n : kp frame send_heartbeats n.
Proof. unfold send_heartbeats. rkp. Qed.
#[local] Hint Resolve send_heartbeats_frame : dfs.

Lemma push_frame e n : plain e → kp frame (modify (λ n, n <| log := log n ++ [e] |>)) n.
Proof.
  intros He. rkp_step. frame_log. by apply Forall_app; split; [|repeat constructor].
Qed.

Lemma truncate_frame i n : kp frame (modify (λ n, n <| log := truncate i (log n) |>)) n.
Proof. rkp_step. frame_log. by apply Forall_take. Qed.
#[local] Hint Resolve push_frame truncate_frame : dfs.

Lemma append_own_frame cmd n : plain_command cmd = true → kp frame (append_own cmd) n.
Proof. intros Hc. unfold append_own. rkp. Qed.

(** The two loops that collect the batch to persist collect plain entries. *)
Lemma append_at_snapshot_frame prev i es batch n :
  Forall plain es → kp frame (append_at_snapshot prev i es batch) n.
Proof.
  revert i batch n. induction es as [|e es IH]; intros i batch n Hes; simpl; [rkp|].
  inv Hes. rkp.
Qed.

Lemma append_at_snapshot_batch prev i es batch n b n' :
  Forall plain es → Forall plain batch.*2 →
  append_at_snapshot prev i es batch n = (Ok b, n') → Forall plain b.*2.
Proof.
  revert i batch n. induction es as [|e es IH]; intros i batch n Hes Hb; simpl; intros H.
  { by inv_ok. }
  inv Hes. inv_ok; eapply IH; [done| |done|done| |done|done| |done]; try done.
  all: rewrite fmap_app, Forall_app; by repeat constructor.
Qed.

Lemma truncate_conflict_frame prev i es n : kp frame (truncate_conflict prev i es) n.
Proof. revert i n. induction es as [|e es IH]; intros i n; simpl; rkp. Qed.

Lemma append_missing_frame prev i es batch n :
  Forall plain es → kp frame (append_missing prev i es batch) n.
Proof.
  revert i batch n. induction es as [|e es IH]; intros i batch n Hes; simpl; [rkp|].
  inv Hes. rkp.
Qed.

Lemma append_missing_batch prev i es batch n b n' :
  Forall plain es → Forall plain batch.*2 →
  append_missing prev i es batch n = (Ok b, n') → Forall plain b.*2.
Proof.
  revert i batch n. induction es as [|e es IH]; intros i batch n Hes Hb; simpl; intros H.
  { by inv_ok. }
  inv Hes. inv_ok; eapply IH; [done| |done|done| |done]; try done.
  rewrite fmap_app, Forall_app; by repeat constructor.
Qed.
#[local] Hint Resolve append_at_snapshot_frame truncate_conflict_frame append_missing_frame : dfs.

Lemma reconcile_log_frame args n :
  Forall plain (ae_entries args) → kp frame (reconcile_log args) n.
Proof.
  intros He. unfold reconcile_log. rkp; apply save_log_entries_batch_frame.
  - by eapply append_at_snapshot_batch in H0.
  - by eapply append_missing_batch in H0.
Qed.

Lemma check_promote_frame n : kp frame check_promote_non_voting_members n.
Proof.
  apply kp_static. intros m Hst. unfold check_promote_non_voting_members. rkp_step.
  rewrite (st_change _ _ Hst). rkp.
Qed.

Lemma check_finalize_frame n : kp frame check_finalize_joint_consensus n.
Proof.
  apply kp_static. intros m Hst. unfold check_finalize_joint_consensus. rkp_step.
  rewrite (st_change _ _ Hst). rkp.
Qed.

Lemma append_batch_frame reqs acc n :
  Forall (λ r, plain_command r.1 = true) reqs → kp frame (append_batch reqs acc) n.
Proof.
  revert acc n. induction reqs as [|[c tx] reqs IH]; intros acc n Hr; simpl; [rkp|].
  inv Hr. rkp.
Qed.

Lemma append_batch_batch reqs acc n b n' :
  Forall (λ r, plain_command r.1 = true) reqs → Forall plain acc.1.*2 →
  append_batch reqs acc n = (Ok b, n') → Forall plain b.1.*2.
Proof.
  revert acc n. induction reqs as [|[c tx] reqs IH]; intros acc n Hr Ha; simpl; intros H.
  { by inv_ok. }
  inv Hr. inv_ok; eapply IH; [done| |done]. simpl.
  rewrite fmap_app, Forall_app; by repeat constructor.
Qed.
#[local] Hint Resolve reconcile_log_frame append_batch_frame check_promote_frame check_finalize_frame
  append_own_frame : dfs.

Lemma handle_client_batch_frame reqs n :
  Forall (λ r, plain_command r.1 = true) reqs → kp frame (handle_client_batch reqs) n.
Proof.
  intros Hr. unfold handle_client_batch. rkp; try frame0.
  apply save_log_entries_batch_frame. by eapply append_batch_batch in H.
Qed.

Lemma handle_client_request_frame cmd tx n :
  plain_command cmd = true → kp frame (handle_client_request cmd tx) n.
Proof. intros Hc. unfold handle_client_request. rkp; frame0. Qed.

Lemma handle_read_index_frame tx n : kp frame (handle_read_index tx) n.
Proof. unfold handle_read_index. rkp; frame0. Qed.

End election.

#[export] Hint Extern 1 (not_a_vote _ = true) => reflexivity : dfs.
#[export] Hint Resolve check_read_indices_frame send_chan_frame send_http_frame
  create_snapshot_frame install_snapshot_frame drain_pending_frame apply_logs_frame
  record_append_reply_frame advance_commit_frame send_heartbeats_frame push_frame
  save_log_entry_frame set_progress_frame reconcile_log_frame check_promote_frame
  check_finalize_frame handle_client_batch_frame handle_client_request_frame
  handle_read_index_frame : dfs.

Ltac frame0 := intros; apply frame_intro0; reflexivity.

(** Evaluating code whose database writes succeed. *)
Ltac run_db Hf :=
  unfold kp, bind, modify, put, ret, ignore_err, incr_term, save_term, save_vote, db_write, get;
  cbn; repeat (rewrite Hf; cbn).
