(* ===== verification/RaftElection.v ===== *)
(** * Election safety

    At most one leader is elected in a term, for a cluster whose membership is
    the one its command lines give, whose database writes succeed, and whose
    nodes may crash and restart between events. The network may lose, delay,
    reorder and duplicate messages; AppendEntries, InstallSnapshot, TimeoutNow
    and client requests are arbitrary. *)

From S2P Require Import Prelude BTree Sharding MasterState AppState ClusterConfig RaftNode RaftRpc RaftLoop RaftDemo RaftFrame.

Section election.
  Context {E : RaftEnv}.
  (** The node a reply channel leads to. *)
  Context (requester : nat → nat).

Notation RM := (M RaftNode).

(** ** Ballots: who voted for whom in which term *)

Definition ballots : Type := nat → N → nat → Prop.

Definition functional (B : ballots) : Prop := ∀ p t c c', B p t c → B p t c' → c = c'.

(** [B'] extends [B] with ballots of [p] only. *)
Definition extends (p : nat) (B B' : ballots) : Prop :=
  (∀ q t c, B q t c → B' q t c) ∧ (∀ q t c, q ≠ p → B' q t c → B q t c).

Record node_inv (members : gmap nat string) (B : ballots) (n : RaftNode) : Prop := mk_node_inv {
  ni_static : static members n;
  ni_db_term : default 0%N (db_term (db n)) = current_term n;
  ni_db_vote : db_vote (db n) = voted_for n;
  ni_cast c : voted_for n = Some c → B (node_id n) (current_term n) c;
  ni_past t c : B (node_id n) t c → (t < current_term n)%N ∨ t = current_term n ∧ voted_for n = Some c;
  ni_voters v : role n ≠ Follower → v ∈ voters n → B v (current_term n) (node_id n);
  ni_leader : role n = Leader → majority members (voters n) = true;
  ni_granted tx r : (tx, r) ∈ granted (chan_out n) → B (rvr_peer_id r) (rvr_term r) (requester tx);
}.

(** [evolves members B0 n n']: whatever ballots beyond [B0] have been cast, the
    node keeps its invariant by casting ballots of its own. *)
Definition evolves (members : gmap nat string) (B0 : ballots) (n n' : RaftNode) : Prop :=
  ∀ B, (∀ q t c, B0 q t c → B q t c) → functional B → node_inv members B n →
  ∃ B', functional B' ∧ extends (node_id n) B B' ∧ node_inv members B' n' ∧ node_id n' = node_id n.

#[global] Instance evolves_preorder members B0 : PreOrder (evolves members B0).
Proof.
  split.
  - intros n B _ Hf Hn. exists B. split_and!; [done| |done|done]. by split.
  - intros a b c Hab Hbc B H0 Hf Ha. destruct (Hab B H0 Hf Ha) as (B1 & Hf1 & [He1 He1'] & Hb & Eb).
    destruct (Hbc B1) as (B2 & Hf2 & [He2 He2'] & Hc & Ec); [naive_solver|done|done|].
    rewrite Eb in He2'. exists B2. split_and!; [done| |done|congruence]. split; naive_solver.
Qed.

Lemma view_inv members B n n' :
  view n' = view n → static members n' → node_inv members B n → node_inv members B n'.
Proof.
  intros [= E1 E2 E3 E4 E5 E6 E7 E8] Hst [].
  constructor; rewrite ?E1, ?E2, ?E3, ?E4, ?E5, ?E6, ?E7, ?E8; auto.
Qed.

(** [steady members n n']: the node keeps its invariant without a ballot. *)
Definition steady (members : gmap nat string) (n n' : RaftNode) : Prop :=
  ∀ B, node_inv members B n → node_inv members B n' ∧ node_id n' = node_id n.

#[global] Instance steady_preorder members : PreOrder (steady members).
Proof.
  split; [by intros n B|]. intros a b c Hab Hbc B Ha. destruct (Hab B Ha) as [Hb ?].
  destruct (Hbc B Hb). split; [done|congruence].
Qed.

Lemma steady_evolves members B0 n n' : steady members n n' → evolves members B0 n n'.
Proof. intros Hs B _ Hf Hn. exists B. destruct (Hs B Hn). split_and!; [done|by split|done..]. Qed.

Lemma kp_steady_evolves {A} members B0 (m : RM A) n : kp (steady members) m n → kp (evolves members B0) m n.
Proof. unfold kp. destruct (m n) as [[] ?]; [apply steady_evolves..|done]. Qed.

Lemma frame_steady members n n' : frame n n' → steady members n n'.
Proof.
  intros Hfr B Hn. destruct (Hfr members (ni_static _ _ _ Hn)) as [Hst Hv].
  split; [by eapply view_inv|]. by injection Hv.
Qed.

Lemma kp_frame_steady {A} members (m : RM A) n : kp frame m n → kp (steady members) m n.
Proof. unfold kp. destruct (m n) as [[] ?]; [apply frame_steady..|done]. Qed.

Lemma frame_evolves members B0 n n' : frame n n' → evolves members B0 n n'.
Proof. intros Hfr. by apply steady_evolves, frame_steady. Qed.

Lemma kp_frame_evolves {A} members B0 (m : RM A) n : kp frame m n → kp (evolves members B0) m n.
Proof. unfold kp. destruct (m n) as [[] ?]; [apply frame_evolves..|done]. Qed.

Lemma kp_steady_inv {A} members (m : RM A) n :
  (∀ B, node_inv members B n → kp (steady members) m n) → kp (steady members) m n.
Proof. unfold kp. intros H. destruct (m n) as [[] n']; [intros B ?; by eapply H..|done]. Qed.

(** What a method may assume of the node it starts from. *)
Lemma kp_inv {A} members B0 (m : RM A) n :
  (∀ B, (∀ q t c, B0 q t c → B q t c) → node_inv members B n → kp (evolves members B0) m n) →
  kp (evolves members B0) m n.
Proof.
  unfold kp. intros H. destruct (m n) as [[] n']; [intros B ? ? ?; by eapply H..|done].
Qed.

(** ** Voting *)

Lemma db_write_ok c f n :
  db_faults (db n) = [] → db_write c f n = (Ok tt, n <| db := f (db n) |>).
Proof. unfold db_write. by intros ->. Qed.

(** [B] with the ballot of [p] for [c] in term [t]. *)
Definition cast (B : ballots) (p : nat) (t : N) (c : nat) : ballots :=
  λ q u d, B q u d ∨ (q = p ∧ u = t ∧ d = c).

Lemma cast_extends B p t c : extends p B (cast B p t c).
Proof. split; [by left|]. by intros q u d Hq [?|[? _]]. Qed.

Lemma cast_functional B p t c :
  functional B → (∀ c', B p t c' → c' = c) → functional (cast B p t c).
Proof. unfold functional, cast. intros Hf Hc q u d d' [?|(->&->&->)] [?|(?&?&?)]; simplify_eq; eauto using eq_sym. Qed.

Lemma static_upd members n n' :
  (cluster_config n', config_change_state n', log n', db_log (db n'), db_cluster_config (db n'),
   db_config_change_state (db n'), db_faults (db n')) =
  (cluster_config n, config_change_state n, log n, db_log (db n), db_cluster_config (db n),
   db_config_change_state (db n), db_faults (db n)) →
  static members n → static members n'.
Proof. intros [= E1 E2 E3 E4 E5 E6 E7] []. by constructor; rewrite ?E1, ?E2, ?E3, ?E4, ?E5, ?E6, ?E7. Qed.

(** Adopting a higher term as a follower forgets the vote, on disk too. *)
Lemma adopt_term_steady members t n :
  role n = Follower → (current_term n < t)%N →
  kp (steady members)
    (do! modify (λ n, n <| current_term := t |> <| voted_for := None |>) in
     do! ignore_err save_term in ignore_err save_vote) n.
Proof.
  intros Hrole Ht. apply kp_steady_inv. intros B1 Hn1.
  pose proof (st_faults _ _ (ni_static _ _ _ Hn1)) as Hf. run_db Hf.
  intros B Hn. split; [|done]. constructor; simpl; try done.
  - by eapply static_upd, Hn.
  - intros t' c [?|[-> ?]]%(ni_past _ _ _ Hn); left; lia.
  - by rewrite Hrole.
  - apply Hn.
Qed.

(** Voting for a candidate when the vote of the term is free or already his. *)
Definition with_vote (c : nat) (n : RaftNode) : RaftNode :=
  n <| voted_for := Some c |> <| db := db n <| db_vote := Some c |> |> <| last_election_time := clock n |>.

Lemma vote_run c n :
  db_faults (db n) = [] →
  (do! modify (λ n, n <| voted_for := Some c |>) in
   do! save_vote in
   do! modify (λ n, n <| last_election_time := clock n |>) in ret true) n = (Ok true, with_vote c n).
Proof. intros Hf. run_db Hf. done. Qed.

Lemma vote_inv members B c n :
  voted_for n = None ∨ voted_for n = Some c → functional B → node_inv members B n →
  let B' := cast B (node_id n) (current_term n) c in functional B' ∧ node_inv members B' (with_vote c n).
Proof.
  intros Hv HB Hn. assert (∀ c', B (node_id n) (current_term n) c' → c' = c) as Hmine.
  { intros c' [?|[_ ?]]%(ni_past _ _ _ Hn); [lia|naive_solver]. }
  split; [by apply cast_functional|]. constructor; simpl; try done.
  - by eapply static_upd, Hn.
  - apply Hn.
  - intros ? [= <-]. by right.
  - intros t' c' [[?|[-> ?]]%(ni_past _ _ _ Hn)|(_ & -> & ->)]; naive_solver.
  - intros v Hr Hin. left. by apply (ni_voters _ _ _ Hn).
  - apply Hn.
  - intros tx r Hr. left. by apply (ni_granted _ _ _ Hn).
Qed.

Lemma vote_evolves members B0 c n :
  voted_for n = None ∨ voted_for n = Some c →
  kp (evolves members B0)
    (do! modify (λ n, n <| voted_for := Some c |>) in
     do! save_vote in
     do! modify (λ n, n <| last_election_time := clock n |>) in ret true) n.
Proof.
  intros Hv. apply kp_inv. intros B1 _ Hn1. unfold kp. rewrite vote_run by apply (ni_static _ _ _ Hn1).
  intros B _ HB Hn. destruct (vote_inv members B c n Hv HB Hn). eexists. split_and!; [done|apply cast_extends|done|done].
Qed.

(** Standing for election: a new term, and the node's own vote. *)
Definition stood (n : RaftNode) : RaftNode :=
  n <| role := Candidate |> <| current_term := (current_term n + 1)%N |> <| voted_for := Some (node_id n) |>
    <| db := db n <| db_term := Some (current_term n + 1)%N |> <| db_vote := Some (node_id n) |> |>
    <| votes_received := 1 |> <| voters := {[node_id n]} |> <| last_election_time := clock n |>.

Lemma candidacy_run n :
  db_faults (db n) = [] → (current_term n + 1 < u64_mod)%N → candidacy n = (Ok tt, stood n).
Proof.
  intros Hf Ht%N.ltb_lt. unfold candidacy. run_db Hf. rewrite Ht. cbn. rewrite Hf. cbn. rewrite Hf. done.
Qed.

Lemma stood_inv members B n :
  functional B → node_inv members B n →
  let B' := cast B (node_id n) (current_term n + 1) (node_id n) in functional B' ∧ node_inv members B' (stood n).
Proof.
  intros HB Hn. assert (∀ c, ¬ B (node_id n) (current_term n + 1)%N c) as Hnew.
  { intros c [?|[? _]]%(ni_past _ _ _ Hn); lia. }
  split; [apply cast_functional; naive_solver|]. constructor; simpl; try done.
  - by eapply static_upd, Hn.
  - intros ? [= <-]. by right.
  - intros t c [[?|[-> ?]]%(ni_past _ _ _ Hn)|(_ & -> & ->)]; [left; lia..|auto].
  - intros v _ ->%elem_of_singleton. by right.
  - intros tx r Hr. left. by apply (ni_granted _ _ _ Hn).
Qed.

(** A candidacy succeeds, or the term counter overflows. *)
Lemma candidacy_cases n :
  db_faults (db n) = [] → candidacy n = (Ok tt, stood n) ∨ ∃ w n', candidacy n = (Panic w, n').
Proof.
  intros Hf. destruct (N.ltb_spec (current_term n + 1) u64_mod) as [?|Ht%N.ltb_ge]; [left; by apply candidacy_run|right].
  unfold candidacy. run_db Hf. rewrite Ht. eauto.
Qed.

Lemma candidacy_evolves members B0 n : kp (evolves members B0) candidacy n.
Proof.
  apply kp_inv. intros B1 _ Hn1. unfold kp.
  destruct (candidacy_cases n) as [->|(w & n' & ->)]; [apply (ni_static _ _ _ Hn1)| |done].
  intros B _ HB Hn. destruct (stood_inv members B n HB Hn). eexists. split_and!; [done|apply cast_extends|done|done].
Qed.

#[local] Hint Extern 5 (kp (evolves _ _) _ _) =>
  apply kp_frame_evolves; solve [eauto 2 with dfs nocore] : dfs.
#[local] Hint Extern 1 (plain _) => reflexivity : dfs.
#[local] Hint Extern 5 (kp (steady _) _ _) =>
  apply kp_frame_steady; solve [eauto 2 with dfs nocore] : dfs.
#[local] Hint Resolve candidacy_evolves vote_evolves : dfs.

Ltac frame_upd := apply frame_evolves; frame0.

Lemma role_follower_steady members n : steady members n (n <| role := Follower |>).
Proof.
  intros B Hn. split; [|done]. constructor; simpl; try done; try apply Hn. by eapply static_upd, Hn.
Qed.

Lemma step_down_steady members t h n : kp (steady members) (step_down_to_follower t h) n.
Proof.
  unfold step_down_to_follower. rkp_step. cbv zeta.
  rkp_step; [rkp_step; apply role_follower_steady|]. injection H as _ <-.
  rkp_step.
  { rkp_step; [|rkp]. apply adopt_term_steady; [done|]. by apply N.ltb_lt. }
  rkp_step; [rkp_step; destruct h; [apply frame_steady; frame0|done]|].
  rkp. by apply frame_steady, drain_pending_frame.
Qed.

Lemma step_down_evolves members B0 t h n : kp (evolves members B0) (step_down_to_follower t h) n.
Proof. apply kp_steady_evolves, step_down_steady. Qed.
#[local] Hint Resolve step_down_evolves : dfs.

(** Taking office with a majority of the configured members. *)
Definition lead (n : RaftNode) : RaftNode :=
  n <| role := Leader |> <| current_leader := Some (node_id n) |> <| current_leader_address := Some (client_address n) |>.

Lemma lead_steady members n : role n = Candidate → majority members (voters n) = true → steady members n (lead n).
Proof.
  intros Hr Hmaj B Hn. split; [|done]. constructor; simpl; try done; try apply Hn; [by eapply static_upd, Hn|].
  intros v _. apply (ni_voters _ _ _ Hn). by rewrite Hr.
Qed.

Lemma become_leader_evolves members B0 n :
  role n = Candidate → majority members (voters n) = true →
  kp (evolves members B0) become_leader n.
Proof.
  intros Hr Hmaj. unfold become_leader. rkp_step.
  { rkp_step. by apply steady_evolves, lead_steady. }
  rkp; frame_upd.
Qed.

Lemma single_majority (members : gmap nat string) i :
  is_Some (members !! i) → size members = 1 → majority members {[i]} = true.
Proof.
  intros Hi Hs. unfold majority. rewrite Hs. apply Nat.ltb_lt.
  replace (filter (λ j, is_Some (members !! j)) {[i]}) with ({[i]} : gset nat).
  - rewrite size_singleton. simpl. lia.
  - clear requester. apply set_eq. intros j. rewrite elem_of_filter. set_solver.
Qed.

(** The state of a node that stands for election. *)
Lemma candidacy_ok n n' :
  candidacy n = (Ok tt, n') →
  role n' = Candidate ∧ voters n' = {[node_id n']} ∧ cluster_config n' = cluster_config n ∧
  node_id n' = node_id n.
Proof.
  unfold candidacy. intros H. inv_ok. unfold incr_term in Hrun. inv_ok. by db_inv.
Qed.

Lemma start_election_evolves members B0 n :
  is_Some (members !! node_id n) → kp (evolves members B0) start_election n.
Proof.
  intros Hself. apply kp_inv. intros B _ Hn. unfold start_election.
  rkp_step; [rkp|]. destruct a. destruct (candidacy_ok _ _ H) as (Hr & Hv & Hc & Hid).
  rewrite (st_config _ _ (ni_static _ _ _ Hn)) in Hc.
  rkp_step; [rkp_step; frame_upd|]. injection H0 as _ <-.
  do 4 rkp_step; [|rkp].
  apply become_leader_evolves; [done|]. simpl in *. rewrite Hv, Hid.
  apply single_majority; [done|]. rewrite Hc in Hif. by apply Nat.eqb_eq.
Qed.
#[local] Hint Resolve start_election_evolves : dfs.

Lemma handle_request_vote_evolves members B0 args n :
  kp (evolves members B0) (handle_request_vote args) n.
Proof.
  unfold handle_request_vote. do 2 rkp_step; [|rkp]. rkp_step; [|rkp].
  rkp_step; [rkp; frame_upd|]. do 4 rkp_step; [|rkp].
  apply vote_evolves. apply andb_true_iff in Hif0 as [Hv _].
  apply orb_true_iff in Hv as [?%bool_decide_eq_true|?%bool_decide_eq_true]; auto.
Qed.

(** Counting a granted vote. *)
Definition count_vote (v : nat) (n : RaftNode) : RaftNode :=
  n <| votes_received := S (votes_received n) |> <| voters := {[v]} ∪ voters n |>.

Lemma count_vote_inv members (B : ballots) v n :
  role n = Candidate → B v (current_term n) (node_id n) → node_inv members B n → node_inv members B (count_vote v n).
Proof.
  intros Hr Hg Hn. constructor; simpl; try done; try apply Hn.
  - by eapply static_upd, Hn.
  - intros u _ [->%elem_of_singleton|Hv]%elem_of_union; [done|]. apply (ni_voters _ _ _ Hn); [by rewrite Hr|done].
  - by rewrite Hr.
Qed.

Lemma count_vote_evolves members (B0 : ballots) r n :
  role n = Candidate → current_term n = rvr_term r → B0 (rvr_peer_id r) (rvr_term r) (node_id n) →
  evolves members B0 n (count_vote (rvr_peer_id r) n).
Proof.
  intros Hr Ht Hg B H0 HB Hn. exists B. split_and!; [done|by split| |done]. apply count_vote_inv; [done| |done]. rewrite Ht. by apply H0.
Qed.

Lemma handle_request_vote_response_evolves members (B0 : ballots) r n :
  (rvr_vote_granted r = true → B0 (rvr_peer_id r) (rvr_term r) (node_id n)) →
  kp (evolves members B0) (handle_request_vote_response r) n.
Proof.
  intros Hg. apply kp_inv. intros B1 _ Hn1. unfold handle_request_vote_response.
  rkp_step. rkp_step; [|rkp]. rkp_step.
  - apply andb_true_iff in Hif as [[Hr%bool_decide_eq_true Ht%N.eqb_eq]%andb_true_iff Hgr].
    rkp_step; [rkp_step; apply count_vote_evolves; auto|].
    injection H as _ <-. do 2 rkp_step; [|rkp]. apply become_leader_evolves; [done|].
    simpl in Hif. by rewrite (st_config _ _ (ni_static _ _ _ Hn1)) in Hif.
  - rkp. frame_upd.
Qed.

Lemma handle_append_entries_evolves members B0 args n :
  Forall plain (ae_entries args) → kp (evolves members B0) (handle_append_entries args) n.
Proof. intros He. unfold handle_append_entries. rkp; frame_upd. Qed.

Lemma handle_append_entries_response_evolves members B0 r n :
  kp (evolves members B0) (handle_append_entries_response r) n.
Proof. unfold handle_append_entries_response. rkp; frame_upd. Qed.

Lemma handle_install_snapshot_evolves members B0 args n :
  kp (evolves members B0) (handle_install_snapshot args) n.
Proof. unfold handle_install_snapshot. rkp; frame_upd. Qed.

Lemma handle_install_snapshot_response_evolves members B0 r n :
  kp (evolves members B0) (handle_install_snapshot_response r) n.
Proof. unfold handle_install_snapshot_response. rkp; frame_upd. Qed.

Lemma handle_timeout_now_evolves members B0 args n :
  kp (evolves members B0) (handle_timeout_now args) n.
Proof. unfold handle_timeout_now. rkp. Qed.
#[local] Hint Resolve handle_append_entries_evolves handle_append_entries_response_evolves
  handle_install_snapshot_evolves handle_install_snapshot_response_evolves
  handle_timeout_now_evolves handle_request_vote_evolves handle_request_vote_response_evolves : dfs.

Lemma tick_evolves members B0 n :
  is_Some (members !! node_id n) → kp (evolves members B0) tick n.
Proof.
  intros Hself. unfold tick. rkp_step; [rkp_step; frame_upd|]. injection H as _ <-.
  rkp.
Qed.

(** ** Events *)

(** What the network and the clients may hand to node [i] when the granted votes
    in [B0] have been sent: a vote request comes from its candidate, a granted
    vote was sent to the node by its voter, and nobody logs a
    joint-consensus command. *)
Definition event_ok (B0 : ballots) (i : nat) (ev : Event) : Prop :=
  match ev with
  | EvRpc (RequestVote args) (Some tx) => requester tx = rv_candidate_id args
  | EvRpc (RequestVoteResponse r) reply_tx =>
      reply_tx = None ∧ (rvr_vote_granted r = true → B0 (rvr_peer_id r) (rvr_term r) i)
  | EvRpc (AppendEntries args) _ => Forall plain (ae_entries args)
  | EvClientRequest cmd _ => plain_command cmd = true
  | _ => True
  end.

Lemma handle_rpc_evolves members B0 msg tx n :
  event_ok B0 (node_id n) (EvRpc msg tx) → kp (evolves members B0) (handle_rpc msg) n.
Proof.
  destruct msg; simpl; intros Hok; try rkp. destruct Hok as [_ ?]. rkp.
Qed.

(** A granted vote names its voter, the voter's term and the voter's choice. *)
Lemma request_vote_reply args n r n' :
  handle_request_vote args n = (Ok (RequestVoteResponse r), n') →
  rvr_peer_id r = node_id n' ∧ rvr_term r = current_term n' ∧
  (rvr_vote_granted r = true → voted_for n' = Some (rv_candidate_id args)).
Proof.
  unfold handle_request_vote. intros H. inv_ok; db_inv; done.
Qed.

Lemma request_vote_reply_kind args n m n' :
  handle_request_vote args n = (Ok m, n') → ∃ r, m = RequestVoteResponse r.
Proof. unfold handle_request_vote. intros H. inv_ok; eauto. Qed.

Lemma other_reply_kind msg n m n' :
  handle_rpc msg n = (Ok m, n') →
  match msg with
  | RequestVote _ | RequestVoteResponse _ => True
  | _ => not_a_vote (RpcReply m) = true
  end.
Proof.
  destruct msg; simpl; try done; intros H;
    unfold handle_append_entries, handle_append_entries_response, handle_install_snapshot,
      handle_install_snapshot_response, handle_timeout_now in H; inv_ok; done.
Qed.

(** Answering a vote request discloses the ballot the node has cast. *)
Lemma send_vote_steady members tx r n :
  rvr_peer_id r = node_id n → rvr_term r = current_term n →
  (rvr_vote_granted r = true → voted_for n = Some (requester tx)) →
  kp (steady members) (send_chan tx (RpcReply (RequestVoteResponse r))) n.
Proof.
  intros Hp Ht Hg. apply kp_modify. intros B Hn. split; [|done].
  constructor; simpl; try done; try apply Hn; [by eapply static_upd, Hn|].
  intros tx' r'. rewrite granted_app, elem_of_app. intros [?|Hin]; [by apply (ni_granted _ _ _ Hn)|].
  unfold granted in Hin. simpl in Hin. destruct (rvr_vote_granted r) eqn:Eg; [|set_solver].
  apply list_elem_of_singleton in Hin as [= -> ->]. rewrite Hp, Ht. apply (ni_cast _ _ _ Hn). auto.
Qed.

Lemma handle_event_evolves members B0 ev n :
  event_ok B0 (node_id n) ev → kp (evolves members B0) (handle_event ev) n.
Proof.
  intros Hok. destruct ev as [msg tx|cmd tx|tx|tx|tx]; simpl; try (by rkp).
  rkp_step; [by eapply handle_rpc_evolves|]. destruct tx as [tx|]; [|rkp].
  pose proof (other_reply_kind _ _ _ _ H) as Hk. destruct msg; try (by rkp).
  - simpl in *. destruct (request_vote_reply_kind _ _ _ _ H) as [r ->].
    apply request_vote_reply in H as (? & ? & ?). apply kp_steady_evolves, send_vote_steady; [done..|].
    by rewrite Hok.
  - by destruct Hok.
Qed.

(** ** Restart *)

(** How a process is started. *)
Record Cli : Type := mkCli {
  cli_peers : list string;
  cli_address : string;
  cli_state : AppState;
  cli_backup : option string;
}.

Definition cli_members (cli : Cli) (i : nat) : gmap nat string :=
  initial_members i (cli_peers cli) (cli_address cli).

Definition restart (cli : Cli) (now wall timeout : N) (i : nat) (d : DB) : RaftNode :=
  run_init (raft_new i (cli_peers cli) (cli_address cli) (cli_state cli) (cli_backup cli)
    now wall timeout d).

Lemma load_log_plain fuel i (m : gmap nat LogEntry) :
  map_Forall (λ _, plain) m → Forall plain (load_log fuel i m).
Proof.
  intros Hm. revert i. induction fuel as [|fuel IH]; intros i; simpl; [constructor|].
  destruct (m !! i) eqn:Hi; constructor; [by eapply Hm|done].
Qed.

(** A node restarted from its database has the term and the vote it had. *)
Lemma restart_inv cli now wall timeout B n :
  node_inv (cli_members cli (node_id n)) B n →
  node_inv (cli_members cli (node_id n)) B (restart cli now wall timeout (node_id n) (db n)).
Proof.
  intros [[? ? ? Hlog Hcfg Hchg ?] Hdt Hdv Hc Hp _ _ _].
  unfold restart, run_init, raft_new, load_state, load_config. rewrite Hcfg, Hchg.
  destruct (default (0, 0%N) (db_snapshot_meta (db n))) as [lii lit]. simpl.
  constructor; simpl; try done.
  - constructor; simpl; try done. constructor; [done|by apply load_log_plain].
  - rewrite Hdt, Hdv. auto.
  - rewrite Hdt, Hdv. auto.
  - intros ? ? []%not_elem_of_nil.
Qed.

(** ** One round of a node's loop *)

Definition input_ok (B0 : ballots) (i : nat) (inp : Input) : Prop :=
  match inp with Tick => True | Batch events => Forall (event_ok B0 i) events end.

(** The loop over a batch, whose events were all sent before it started. *)
Lemma events_evolve members B0 i evs n :
  node_id n = i → Forall (event_ok B0 i) evs →
  kp (evolves members B0) (for_each evs handle_event) n.
Proof.
  revert n. induction evs as [|ev evs IH]; intros n Hid Hok; simpl; [rkp|]. inv Hok.
  unfold kp, bind.
  pose proof (handle_event_evolves members B0 ev n ltac:(done)) as Hev. unfold kp in Hev.
  destruct (handle_event ev n) as [[[]|e|w] n1] eqn:Hrun; [|done..].
  destruct (for_each evs handle_event n1) as [o n2] eqn:Hrest.
  assert (node_id n1 = node_id n → kp (evolves members B0) (for_each evs handle_event) n1) as Hk.
  { intros Hn1. by apply IH. }
  unfold kp in Hk. rewrite Hrest in Hk.
  assert (∀ x : RaftNode, (node_id n1 = node_id n → evolves members B0 n1 x) → evolves members B0 n x).
  { intros x Hx B H0 Hf Hn. destruct (Hev B H0 Hf Hn) as (B1 & ? & ? & ? & Hid1).
    assert (evolves members B0 n x) as Hall by (etrans; [exact Hev|by apply Hx]).
    by apply Hall. }
  destruct o; auto.
Qed.

Lemma client_requests_ok B0 i evs :
  Forall (event_ok B0 i) evs → Forall (λ r, plain_command r.1 = true) (omap client_request evs).
Proof.
  induction 1 as [|ev evs Hev _ IH]; [constructor|]. destruct ev; simpl in *; try done. by constructor.
Qed.

Lemma handle_event_batch_evolves members B0 evs n :
  Forall (event_ok B0 (node_id n)) evs → kp (evolves members B0) (handle_event_batch evs) n.
Proof.
  intros Hok. unfold handle_event_batch. rkp_step.
  - eapply events_evolve; [done|]. apply Forall_forall. intros ev [_ ?]%list_elem_of_filter.
    by eapply Forall_forall in Hok.
  - apply kp_frame_evolves. destruct (omap client_request evs) as [|r rs] eqn:Hreq; [rkp|].
    do 2 rkp_step; [rkp|]. apply handle_client_batch_frame. rewrite <- Hreq.
    by eapply client_requests_ok.
Qed.

Lemma run_once_evolves members B0 inp n :
  is_Some (members !! node_id n) → input_ok B0 (node_id n) inp →
  kp (evolves members B0) (run_once inp) n.
Proof.
  intros Hself Hok. destruct inp as [|evs]; unfold run_once; rkp_step; [by apply tick_evolves|].
  apply handle_event_batch_evolves. by apply Forall_take.
Qed.

(** ** The cluster *)

(** The nodes, and the granted votes sent so far with their recipients. *)
Record Net : Type := mkNet {
  net_nodes : gmap nat RaftNode;
  net_votes : list (nat * RequestVoteReply);
}.

Definition sent (s : Net) : ballots := λ p t c,
  ∃ r, (c, r) ∈ net_votes s ∧ rvr_peer_id r = p ∧ rvr_term r = t.

Definition votes_of (n : RaftNode) : list (nat * RequestVoteReply) :=
  (λ m, (requester m.1, m.2)) <$> granted (chan_out n).

Definition at_time (now wall timeout : N) (n : RaftNode) : RaftNode :=
  n <| clock := now |> <| wall_clock := wall |> <| random_timeout := timeout |>.

Context (cluster : gmap nat Cli).

(** A node handles a tick or a batch, or crashes and restarts from its database.
    A round that panics leaves the node without a step other than a restart. *)
Inductive net_step : Net → Net → Prop :=
  | step_round s i n inp now wall timeout n' :
      net_nodes s !! i = Some n → input_ok (sent s) i inp →
      run_once inp (at_time now wall timeout n) = (Ok tt, n') →
      net_step s (mkNet (<[i := n']> (net_nodes s)) (net_votes s ++ votes_of n'))
  | step_restart s i n cli now wall timeout :
      net_nodes s !! i = Some n → cluster !! i = Some cli →
      net_step s (mkNet (<[i := restart cli now wall timeout i (db n)]> (net_nodes s)) (net_votes s)).

Definition empty_db : DB := mkDB None None ∅ None None None None [].

(** Every node freshly started on an empty database. *)
Definition net_init (s : Net) : Prop :=
  net_votes s = [] ∧
  map_Forall (λ i n, ∃ cli now wall timeout,
    cluster !! i = Some cli ∧ n = restart cli now wall timeout i empty_db) (net_nodes s).

(** Every command line names the same set of servers. *)
Definition well_configured : Prop :=
  map_Forall (λ i cli, dom (cli_members cli i) = dom cluster) cluster.

Definition is_leader (s : Net) (c : nat) (t : N) : Prop :=
  ∃ n, net_nodes s !! c = Some n ∧ role n = Leader ∧ current_term n = t.

(** *** Quorums of the cluster *)

Definition cluster_quorum (a : gset nat) : Prop :=
  ∃ i cli, cluster !! i = Some cli ∧ majority (cli_members cli i) a = true.

Lemma majority_dom (m m' : gmap nat string) a :
  dom m = dom m' → majority m a = majority m' a.
Proof.
  intros Hd. unfold majority. rewrite <- !size_dom, Hd. f_equal. f_equal.
  apply set_eq. intros x. by rewrite !elem_of_filter, <- !elem_of_dom, Hd.
Qed.

Lemma cluster_quorum_meets : well_configured → QuorumSystem cluster_quorum.
Proof.
  intros Hw a b (i & ci & Hi & Ha) (j & cj & Hj & Hb).
  rewrite (majority_dom _ (cli_members ci i)) in Hb; [|by rewrite (Hw _ _ Hi), (Hw _ _ Hj)].
  destruct (majority_meet _ _ _ Ha Hb) as (x & ? & ? & _); eauto.
Qed.

(** Candidate [c] has the ballots of a quorum in term [t]. *)
Definition elected (quorum : gset nat → Prop) (B : ballots) (c : nat) (t : N) : Prop :=
  ∃ Q, quorum Q ∧ ∀ v, v ∈ Q → B v t c.

Lemma elected_unique quorum `{!QuorumSystem quorum} B c c' t :
  functional B → elected quorum B c t → elected quorum B c' t → c = c'.
Proof.
  intros Hf (Q & HQ & Hb) (Q' & HQ' & Hb'). destruct (quorum_meet Q Q') as (x & ? & ?); [done..|].
  eapply Hf; eauto.
Qed.

(** *** The invariant of the cluster *)

Definition net_inv (B : ballots) (s : Net) : Prop :=
  functional B ∧ (∀ p t c, sent s p t c → B p t c) ∧
  map_Forall (λ i n, node_id n = i ∧
    ∃ cli, cluster !! i = Some cli ∧ node_inv (cli_members cli i) B n) (net_nodes s).

Lemma net_inv_leader B s c t : net_inv B s → is_leader s c t → elected cluster_quorum B c t.
Proof.
  intros (_ & _ & Hn) (n & Hc & Hr & <-). destruct (Hn _ _ Hc) as (<- & cli & Hcli & Hinv).
  exists (voters n). split.
  - exists (node_id n), cli. split; [done|]. by apply (ni_leader _ _ _ Hinv).
  - intros v. apply (ni_voters _ _ _ Hinv). by rewrite Hr.
Qed.

(** Ballots of other nodes do not disturb a node. *)
Lemma node_inv_extends members B B' p n :
  extends p B B' → node_id n ≠ p → node_inv members B n → node_inv members B' n.
Proof. intros [He He'] Hp []. constructor; auto. Qed.

Lemma at_time_inv members B now wall timeout n :
  node_inv members B n → node_inv members B (at_time now wall timeout n).
Proof. intros Hn. apply (view_inv members B n); [done| |done]. by eapply static_upd, Hn. Qed.

Lemma cli_members_self cli i : is_Some (cli_members cli i !! i).
Proof. unfold cli_members, initial_members. rewrite lookup_insert_eq. eauto. Qed.

Lemma votes_of_sent members B n c r :
  node_inv members B n → (c, r) ∈ votes_of n → B (rvr_peer_id r) (rvr_term r) c.
Proof.
  intros Hn. unfold votes_of. rewrite list_elem_of_fmap. intros ([tx r'] & [= -> ->] & Hin).
  by apply (ni_granted _ _ _ Hn).
Qed.

(** Replacing one node by another that meets its invariant under more ballots. *)
Lemma net_inv_insert B B' s i n' votes cli :
  net_inv B s → functional B' → extends i B B' → cluster !! i = Some cli →
  node_id n' = i → node_inv (cli_members cli i) B' n' →
  (∀ c r, (c, r) ∈ votes → B' (rvr_peer_id r) (rvr_term r) c) →
  net_inv B' (mkNet (<[i := n']> (net_nodes s)) (net_votes s ++ votes)).
Proof.
  intros (_ & Hs & Hn) Hf He Hcli Hid Hinv Hv. split_and!; [done| |].
  - intros p t c (r & Hin & <- & <-). simpl in Hin. apply elem_of_app in Hin as [Hin|Hin]; [|auto].
    apply He, Hs. by exists r.
  - simpl. intros j n [[<- <-]|[Hne Hj]]%lookup_insert_Some; [eauto|].
    destruct (Hn _ _ Hj) as (Hj' & cli' & ? & ?). split; [done|]. exists cli'. split; [done|].
    by eapply node_inv_extends; [|rewrite Hj'|].
Qed.

Lemma net_inv_step B s s' :
  net_inv B s → net_step s s' → ∃ B', (∀ p t c, B p t c → B' p t c) ∧ net_inv B' s'.
Proof.
  intros Hinv Hstep. pose proof Hinv as (Hf & Hs & Hn). destruct Hstep as
    [s i n inp now wall timeout n' Hi Hok Hrun|s i n cli now wall timeout Hi Hcli].
  - destruct (Hn _ _ Hi) as (Hid & cli & Hcli & Hni).
    assert (evolves (cli_members cli i) (sent s) (at_time now wall timeout n) n') as Hev.
    { eapply kp_ok; [|exact Hrun]. apply run_once_evolves; simpl; rewrite Hid; [|done].
      apply cli_members_self. }
    destruct (Hev B Hs Hf (at_time_inv _ _ _ _ _ _ Hni)) as (B' & Hf' & He & Hni' & Hid').
    simpl in *. rewrite Hid in *. exists B'. split; [apply He|].
    eapply net_inv_insert; [done..| |]; [done|]. intros c r. by eapply votes_of_sent.
  - destruct (Hn _ _ Hi) as (<- & cli' & Hcli' & Hni). simplify_eq.
    exists B. split; [done|]. rewrite <- (app_nil_r (net_votes s)).
    eapply net_inv_insert; [done|done|by split|done| | |set_solver].
    + unfold restart, run_init, raft_new, load_state, load_config.
      by destruct (default (0, 0%N) (db_snapshot_meta (db n))).
    + by apply restart_inv.
Qed.

Lemma net_inv_steps B s s' :
  net_inv B s → rtc net_step s s' → ∃ B', (∀ p t c, B p t c → B' p t c) ∧ net_inv B' s'.
Proof.
  intros Hinv Hsteps. revert B Hinv. induction Hsteps as [s|s s1 s2 Hstep _ IH]; intros B Hinv; [eauto|].
  destruct (net_inv_step _ _ _ Hinv Hstep) as (B1 & ? & Hinv1).
  destruct (IH _ Hinv1) as (B2 & ? & ?). exists B2. split; [|done]. auto.
Qed.

Lemma net_inv_init s : net_init s → net_inv (λ _ _ _, False) s.
Proof.
  intros [Hv Hn]. split_and!; [by intros ????|by intros p t c (r & Hin & _); rewrite Hv in Hin; set_solver|].
  intros i n (cli & now & wall & timeout & Hcli & ->)%Hn. split; [done|]. exists cli. split; [done|].
  by repeat (constructor; simpl); try set_solver.
Qed.


End election.

(** ** A failed write of the term *)

Section lost_term.
  Context {E : RaftEnv}.

(** When the write of the new term fails while the write of the vote
    succeeds, the failure is only logged: a node that grants its vote in term
    [t] and restarts grants another vote in the same term to another
    candidate. *)
Theorem lost_term_votes_twice cli i now wall timeout t c1 c2 :
  (0 < t)%N →
  let fresh := restart cli now wall timeout i (empty_db <| db_faults := [true] |>) in
  let vote c := handle_request_vote (mkRequestVoteArgs t c 0 0) in
  let first := vote c1 fresh in
  let second := vote c2 (restart cli now wall timeout i (db first.2)) in
  first.1 = Ok (RequestVoteResponse (mkRequestVoteReply t true i)) ∧
  second.1 = Ok (RequestVoteResponse (mkRequestVoteReply t true i)).
Proof.
  intros Ht. destruct t as [|t]; [lia|]. by split; vm_compute.
Qed.

End lost_term.

(** ** An election of three metaservers *)

Module Demo.
#[local] Existing Instance demo_env.

Definition cli (i : nat) : Cli := mkCli (demo_peers i) "metaserver:50051" demo_state None.
Definition cluster : gmap nat Cli := {[1 := cli 1; 2 := cli 2; 3 := cli 3]}.

(** Channel [c] leads to node [c]. *)
Definition requester (c : nat) : nat := c.

Definition start : Net := mkNet (map_imap (λ i c, Some (restart c 0 0 1500 i empty_db)) cluster) [].

(** One round of node [i] at time [now]. *)
Definition round (i : nat) (now : N) (inp : Input) (s : Net) : Net :=
  match net_nodes s !! i with
  | Some n =>
      match run_once inp (at_time now 0 1500 n) with
      | (Ok _, n') => mkNet (<[i := n']> (net_nodes s)) (net_votes s ++ votes_of requester n')
      | _ => s
      end
  | None => s
  end.

Lemma round_step i now inp s :
  input_ok requester (sent s) i inp →
  bool_decide (is_Some (net_nodes s !! i)) = true →
  match net_nodes s !! i with
  | Some n => is_ok (run_once inp (at_time now 0 1500 n)).1
  | None => false
  end = true →
  net_step requester cluster s (round i now inp s).
Proof.
  intros Hok _ Hrun. unfold round. destruct (net_nodes s !! i) as [n|] eqn:Hi; [|done].
  destruct (run_once inp (at_time now 0 1500 n)) as [[[]| |] n'] eqn:Hr; [|done..].
  by eapply step_round.
Qed.

(** Node 1 times out, node 2 votes for it, and it takes office in term 1. *)
Definition vote_request : Event := EvRpc (RequestVote (mkRequestVoteArgs 1 1 0 0)) (Some 1).
Definition vote_reply : Event := EvRpc (RequestVoteResponse (mkRequestVoteReply 1 true 2)) None.

Definition candidate : Net := round 1 2000 Tick start.
Definition voted : Net := round 2 2000 (Batch [vote_request]) candidate.
Definition elected1 : Net := round 1 2010 (Batch [vote_reply]) voted.
(** Later node 1 sends another heartbeat. *)
Definition later : Net := round 1 2100 Tick elected1.

Lemma start_to_elected : rtc (net_step requester cluster) start elected1.
Proof.
  eapply rtc_l; [apply (round_step 1 2000 Tick); by vm_compute|].
  eapply rtc_l; [apply (round_step 2 2000 (Batch [vote_request])); [by repeat constructor|by vm_compute..]|].
  eapply rtc_l; [apply (round_step 1 2010 (Batch [vote_reply])); [|by vm_compute..]|done].
  repeat constructor. intros _. exists (mkRequestVoteReply 1 true 2). split; [|done].
  vm_compute. by left.
Qed.

Lemma start_init : net_init cluster start.
Proof.
  split; [done|]. intros i n. unfold start. simpl net_nodes. rewrite map_lookup_imap.
  intros (c & Hc & [= <-])%bind_Some. by exists c, 0%N, 0%N, 1500%N.
Qed.

Definition leads (s : Net) (c : nat) (t : N) : bool :=
  match net_nodes s !! c with
  | Some n => bool_decide (role n = Leader) && (current_term n =? t)%N
  | None => false
  end.

Lemma leads_spec s c t : leads s c t = true → is_leader s c t.
Proof.
  unfold leads. destruct (net_nodes s !! c) as [n|] eqn:Hc; [|done].
  intros [?%bool_decide_eq_true ?%N.eqb_eq]%andb_true_iff. by exists n.
Qed.

Lemma configured : well_configured cluster.
Proof.
  intros i c Hi. unfold cluster in *.
  apply lookup_insert_Some in Hi as [[<- <-]|[_ Hi]]; [by apply (bool_decide_unpack _); vm_compute|].
  apply lookup_insert_Some in Hi as [[<- <-]|[_ Hi]]; [by apply (bool_decide_unpack _); vm_compute|].
  apply lookup_singleton_Some in Hi as [<- <-]. by apply (bool_decide_unpack _); vm_compute.
Qed.

End Demo.

Lemma lost_term_votes_twice_witness :
  let fresh := restart (Demo.cli 1) 0 0 1500 1 ((@empty_db demo_env) <| db_faults := [true] |>) in
  let vote c := handle_request_vote (mkRequestVoteArgs 5 c 0 0) in
  let first := vote 2 fresh in
  let second := vote 3 (restart (Demo.cli 1) 0 0 1500 1 (db first.2)) in
  first.1 = Ok (RequestVoteResponse (mkRequestVoteReply 5 true 1)) ∧
  second.1 = Ok (RequestVoteResponse (mkRequestVoteReply 5 true 1)).
Proof. apply (lost_term_votes_twice (E := demo_env) (Demo.cli 1) 1 0 0 1500 5 2 3). lia. Defined.

