(* ===== verification/RaftLog.v ===== *)
(** * Log reconciliation and durability

    The loops of the AppendEntries handler are compared with a reference
    function on lists, [merge]; and the log on disk is shown to mirror the log
    in memory, so that a restarted node has the log it had. *)

From S2P Require Import Prelude BTree Sharding MasterState AppState ClusterConfig RaftNode RaftRpc RaftLoop RaftDemo RaftFrame RaftElection.

(** ** The reference: merging a leader's entries into a log *)

(** The part of [l] before its first entry that conflicts with [es]. *)
Fixpoint trunc (l es : list LogEntry) : list LogEntry :=
  match l, es with
  | x :: l', e :: es' => if (term x =? term e)%N then x :: trunc l' es' else []
  | _, _ => l
  end.

(** [es] replaces everything from the first conflict on; entries that already
    agree with [es], and a tail beyond it, stay. *)
Fixpoint merge (l es : list LogEntry) {struct es} : list LogEntry :=
  match es with
  | [] => l
  | e :: es' =>
      match l with
      | [] => es
      | x :: l' => if (term x =? term e)%N then x :: merge l' es' else es
      end
  end.

Lemma merge_trunc l es : merge l es = trunc l es ++ drop (length (trunc l es)) es.
Proof.
  revert es. induction l as [|x l IH]; intros [|e es]; simpl; rewrite ?app_nil_r; try done.
  case_if; simpl; [|done]. by rewrite IH.
Qed.

Lemma trunc_take l es : ∃ k, trunc l es = take k l.
Proof.
  revert es. induction l as [|x l IH]; intros [|e es]; simpl.
  - by exists 0.
  - by exists 0.
  - exists (S (length l)). simpl. by rewrite firstn_all.
  - case_if; [|by exists 0]. destruct (IH es) as [k ->]. by exists (S k).
Qed.

(** Delivering the same entries again changes nothing. *)
Lemma merge_idemp l es : merge (merge l es) es = merge l es.
Proof.
  revert l. induction es as [|e es IH]; intros l; simpl; [done|].
  assert (merge es es = es) as Hes.
  { clear. induction es as [|e es IH]; simpl; [done|]. by rewrite N.eqb_refl, IH. }
  destruct l as [|x l]; simpl; [by rewrite N.eqb_refl, Hes|].
  destruct (term x =? term e)%N eqn:Hx; simpl; rewrite ?Hx, ?N.eqb_refl; f_equal; [apply IH|done].
Qed.

(** Entries the log already has are not truncated, however old the message. *)
Lemma merge_prefix l es : (∀ i x e, l !! i = Some x → es !! i = Some e → term x = term e) →
  length es ≤ length l → merge l es = l.
Proof.
  revert l. induction es as [|e es IH]; intros [|x l] Hag Hlen; simpl in *; try done; [lia|].
  rewrite (Hag 0 x e), N.eqb_refl by done. f_equal. apply IH; [|lia].
  intros i. apply (Hag (S i)).
Qed.

(** The entries of [es] with their absolute indices from [i] on. *)
Definition indexed (i : nat) (es : list LogEntry) : list (nat * LogEntry) :=
  imap (λ k e, (i + k, e)) es.

Lemma indexed_cons i e es : indexed i (e :: es) = (i, e) :: indexed (S i) es.
Proof.
  unfold indexed. simpl. rewrite Nat.add_0_r. f_equal. apply imap_ext. intros k x _. simpl. f_equal. lia.
Qed.

(** ** The log on disk *)

(** [m] stores the entries of [lg] after its first, under their absolute indices,
    and nothing else from [lii] on. *)
Definition mirror (m : gmap nat LogEntry) (lii : nat) (lg : list LogEntry) : Prop :=
  ∀ i, lii < i → m !! i = lg !! (i - lii).

Definition save_all (m : gmap nat LogEntry) (batch : list (nat * LogEntry)) : gmap nat LogEntry :=
  foldl (λ m e, <[e.1 := e.2]> m) m batch.

Lemma mirror_push m lii lg e :
  0 < length lg → mirror m lii lg → mirror (<[lii + length lg := e]> m) lii (lg ++ [e]).
Proof.
  intros Hlen Hm i Hi. destruct (decide (i = lii + length lg)) as [->|Hne].
  - rewrite lookup_insert_eq. replace (lii + length lg - lii) with (length lg) by lia.
    by rewrite lookup_app_r, Nat.sub_diag.
  - rewrite lookup_insert_ne, Hm by done. destruct (decide (i - lii < length lg)).
    + by rewrite lookup_app_l.
    + rewrite !lookup_ge_None_2; [done|rewrite length_app; simpl; lia|lia].
Qed.

Lemma mirror_batch m lii lg es :
  0 < length lg → mirror m lii lg →
  mirror (save_all m (indexed (lii + length lg) es)) lii (lg ++ es).
Proof.
  revert m lg. induction es as [|e es IH]; intros m lg Hlen Hm; [by rewrite app_nil_r|].
  rewrite indexed_cons. simpl.
  replace (lg ++ e :: es) with ((lg ++ [e]) ++ es) by by rewrite <- app_assoc.
  replace (S (lii + length lg)) with (lii + length (lg ++ [e])) by (rewrite length_app; simpl; lia).
  apply IH; [rewrite length_app; simpl; lia|by apply mirror_push].
Qed.

Lemma mirror_truncate m m' lii lg k :
  mirror m lii lg → 0 < k → k ≤ length lg → (∀ j, j < lii + k → m' !! j = m !! j) →
  (∀ j, lii + k ≤ j → m' !! j = None) → mirror m' lii (take k lg).
Proof.
  intros Hm Hk Hlen Hlow Hhigh i Hi. destruct (decide (i < lii + k)).
  - rewrite Hlow, Hm by done. by rewrite lookup_take_lt by lia.
  - rewrite Hhigh, lookup_take_ge by lia. done.
Qed.

Section log.
  Context {E : RaftEnv}.

Notation RM := (M RaftNode).

Lemma db_write_run c f n :
  db_faults (db n) = [] → db_write c f n = (Ok tt, n <| db := f (db n) |>).
Proof. unfold db_write. by intros ->. Qed.

(** Deleting the tail of a contiguous store terminates, and removes it all. *)
Lemma delete_log_loop_run fuel i n :
  db_faults (db n) = [] → size (db_log (db n)) < fuel →
  (∀ j, i ≤ j → is_Some (db_log (db n) !! S j) → is_Some (db_log (db n) !! j)) →
  ∃ m, delete_log_loop fuel i n = (Ok tt, n <| db := db n <| db_log := m |> |>) ∧
       (∀ j, j < i → m !! j = db_log (db n) !! j) ∧ (∀ j, i ≤ j → m !! j = None).
Proof.
  revert i n. induction fuel as [|fuel IH]; intros i n Hf Hsz Hc; [lia|]. simpl. unfold bind at 1, get at 1.
  destruct (db_log (db n) !! i) eqn:Hi.
  - rewrite (bind_ok _ _ _ _ _ (db_write_run _ _ _ Hf)).
    destruct (IH (S i) (n <| db := db n <| db_log := delete i (db_log (db n)) |> |>))
      as (m & Hrun & Hlow & Hhigh); simpl in *.
    + done.
    + rewrite map_size_delete_Some by eauto.
      pose proof (map_size_ne_0_lookup_2 (db_log (db n)) i ltac:(eauto)). lia.
    + intros j Hj. rewrite !lookup_delete_ne by lia. apply Hc. lia.
    + exists m. split; [exact Hrun|]. split.
      * intros j Hj. rewrite Hlow by lia. by rewrite lookup_delete_ne by lia.
      * intros j Hj. destruct (decide (j = i)) as [->|]; [|apply Hhigh; lia].
        rewrite Hlow by lia. by rewrite lookup_delete_eq.
  - exists (db_log (db n)). split_and!; [by destruct n as [? ? ? ? ? ? ? ? ? ? ? ? ? ? ? ? ? ? ? ? []]|done|].
    intros j Hj. induction Hj as [|j Hj IHj]; [done|].
    destruct (db_log (db n) !! S j) eqn:HS; [|done].
    destruct (Hc j Hj) as [? ?]; [by rewrite HS|congruence].
Qed.

(** [n] with another log, in memory and on disk. *)
Definition with_log (lg : list LogEntry) (m : gmap nat LogEntry) (n : RaftNode) : RaftNode :=
  n <| log := lg |> <| db := db n <| db_log := m |> |>.

Lemma with_log_id n : with_log (log n) (db_log (db n)) n = n.
Proof. by destruct n as [? ? ? ? ? ? ? ? ? ? ? ? ? ? ? ? ? ? ? ? []]. Qed.

Lemma bind_usize_sub {B} a b (f : nat → RM B) n : b ≤ a → bind (usize_sub a b) f n = f (a - b) n.
Proof. unfold bind, usize_sub. intros. by destruct (Nat.ltb_spec a b); [lia|]. Qed.

Lemma bind_last_log_index {B} (f : nat → RM B) n :
  0 < length (log n) → bind last_log_index f n = f (last_log_index_of n) n.
Proof.
  unfold bind, last_log_index, usize_sub, get. unfold bind. intros.
  by destruct (Nat.ltb_spec (length (log n)) 1); [lia|].
Qed.

Lemma delete_tail_run i n lg :
  db_faults (db n) = [] → mirror (db_log (db n)) (last_included_index n) lg →
  last_included_index n < i →
  ∃ m, delete_log_entries_from i n = (Ok tt, with_log (log n) m n) ∧
       (∀ j, j < i → m !! j = db_log (db n) !! j) ∧ (∀ j, i ≤ j → m !! j = None).
Proof.
  intros Hf Hm Hi. unfold delete_log_entries_from, bind, get.
  destruct (delete_log_loop_run (S (size (db_log (db n)))) i n) as (m & Hrun & ?); [done|lia| |].
  - intros j Hj. rewrite !Hm by lia. rewrite !lookup_lt_is_Some. lia.
  - exists m. rewrite Hrun. split; [|done]. by destruct n.
Qed.

(** Truncating a log at a conflict, on disk too. *)
Lemma truncate_run k n :
  db_faults (db n) = [] → mirror (db_log (db n)) (last_included_index n) (log n) →
  0 < k → k ≤ length (log n) →
  ∃ m, (do! modify (λ n, n <| log := truncate k (log n) |>) in
        delete_log_entries_from (last_included_index n + k)) n = (Ok tt, with_log (take k (log n)) m n) ∧
       mirror m (last_included_index n) (take k (log n)).
Proof.
  intros Hf Hm Hk Hlen.
  destruct (delete_tail_run (last_included_index n + k) (n <| log := take k (log n) |>) (log n))
    as (m & Hrun & Hlow & Hhigh); [done|done|simpl; lia|].
  exists m. unfold bind, modify, truncate. split; [exact Hrun|].
  by eapply mirror_truncate.
Qed.

Lemma truncate_conflict_run prev i es n :
  db_faults (db n) = [] → mirror (db_log (db n)) (last_included_index n) (log n) →
  last_included_index n ≤ prev →
  let k := prev + 1 + i - last_included_index n in
  let lg := take k (log n) ++ trunc (drop k (log n)) es in
  k ≤ length (log n) →
  ∃ m, truncate_conflict prev i es n = (Ok tt, with_log lg m n) ∧ mirror m (last_included_index n) lg.
Proof.
  intros Hf Hm Hprev. revert i. induction es as [|e es IH]; intros i k lg Hk;
    assert (k = prev + 1 + i - last_included_index n) as Hkd by done.
  { exists (db_log (db n)). subst lg. replace (trunc (drop k (log n)) []) with (drop k (log n))
      by by destruct (drop k (log n)).
    rewrite take_drop. simpl. by rewrite with_log_id. }
  simpl truncate_conflict. unfold bind at 1, get at 1.
  rewrite bind_usize_sub by lia. fold k. subst lg.
  destruct (log n !! k) as [x|] eqn:Hx.
  - rewrite (drop_S (log n) x k Hx). simpl trunc. destruct (term x =? term e)%N.
    + specialize (IH (S i)). simpl in IH. replace (prev + 1 + S i - last_included_index n) with (S k) in IH by lia.
      destruct IH as (m & Hrun & Hmir); [by apply lookup_lt_Some in Hx|].
      exists m. rewrite (take_S_r _ _ _ Hx), <- app_assoc in *. done.
    + destruct (truncate_run k n Hf Hm) as (m & Hrun & Hmir); [lia|done|].
      replace (last_included_index n + k) with (prev + 1 + i) in Hrun by lia.
      exists m. by rewrite app_nil_r.
  - apply lookup_ge_None_1 in Hx. exists (db_log (db n)).
    rewrite drop_ge, take_ge, app_nil_r by lia. simpl. by rewrite with_log_id.
Qed.

Lemma append_missing_run prev i es batch n :
  last_included_index n ≤ prev → prev + 1 + i - last_included_index n ≤ length (log n) →
  let new := drop (length (log n) - (prev + 1 + i - last_included_index n)) es in
  append_missing prev i es batch n =
    (Ok (batch ++ indexed (last_included_index n + length (log n)) new), n <| log := log n ++ new |>).
Proof.
  intros Hprev. revert i batch n Hprev. induction es as [|e es IH]; intros i batch n Hprev Hk; simpl.
  { rewrite drop_nil, !app_nil_r. by destruct n. }
  unfold bind at 1, get at 1. rewrite bind_usize_sub by lia.
  destruct (Nat.leb_spec (length (log n)) (prev + 1 + i - last_included_index n)) as [Hge|Hlt].
  - replace (length (log n) - _) with 0 by lia. unfold bind, modify, ret. rewrite drop_0.
    rewrite IH; simpl; [|done|rewrite length_app; simpl; lia].
    rewrite length_app. simpl.
    replace (length (log n) + 1 - _) with 0 by lia. rewrite drop_0, indexed_cons, <- !app_assoc.
    simpl. do 4 f_equal; [|f_equal]; f_equal; lia.
  - unfold bind, ret. rewrite IH by (simpl; lia). simpl.
    replace (length (log n) - (prev + 1 + i - last_included_index n))
      with (S (length (log n) - (prev + 1 + S i - last_included_index n))) by lia. done.
Qed.

(** Once the log ends where the next entry goes, every entry is appended. *)
Lemma append_at_snapshot_push prev i es batch n :
  last_included_index n ≤ prev → prev + 1 + i - last_included_index n = length (log n) →
  append_at_snapshot prev i es batch n =
    (Ok (batch ++ indexed (last_included_index n + length (log n)) es), n <| log := log n ++ es |>).
Proof.
  revert i batch n. induction es as [|e es IH]; intros i batch n Hprev Hk; simpl.
  { rewrite !app_nil_r. by destruct n. }
  unfold bind at 1, get at 1. rewrite bind_usize_sub by lia.
  rewrite lookup_ge_None_2 by lia. unfold bind, modify, ret.
  rewrite IH; simpl; [|done|rewrite length_app; simpl; lia].
  rewrite indexed_cons, <- !app_assoc, length_app. simpl. do 4 f_equal; [|f_equal]; f_equal; lia.
Qed.

(** The pass over a message at the snapshot point leaves the merged log, the disk
    truncated at the conflict, and the rest of the entries to save. *)
Lemma append_at_snapshot_run prev i es n :
  db_faults (db n) = [] → mirror (db_log (db n)) (last_included_index n) (log n) →
  last_included_index n ≤ prev →
  let k := prev + 1 + i - last_included_index n in
  let lg := take k (log n) ++ trunc (drop k (log n)) es in
  let new := drop (length lg - k) es in
  k ≤ length (log n) →
  ∃ m, append_at_snapshot prev i es [] n =
         (Ok (indexed (last_included_index n + length lg) new), with_log (lg ++ new) m n) ∧
       mirror m (last_included_index n) lg.
Proof.
  intros Hf Hm Hprev. revert i. induction es as [|e es IH]; intros i k lg new Hk;
    assert (k = prev + 1 + i - last_included_index n) as Hkd by done.
  { exists (db_log (db n)). subst new lg. rewrite drop_nil, app_nil_r.
    replace (trunc (drop k (log n)) []) with (drop k (log n)) by by destruct (drop k (log n)).
    rewrite take_drop. simpl. by rewrite with_log_id. }
  simpl append_at_snapshot. unfold bind at 1, get at 1. rewrite bind_usize_sub by lia. fold k.
  subst new lg. destruct (log n !! k) as [x|] eqn:Hx.
  - rewrite (drop_S (log n) x k Hx). simpl trunc. destruct (term x =? term e)%N.
    + specialize (IH (S i)). simpl in IH. replace (prev + 1 + S i - last_included_index n) with (S k) in IH by lia.
      destruct IH as (m & Hrun & Hmir); [by apply lookup_lt_Some in Hx|].
      exists m. rewrite (take_S_r _ _ _ Hx), <- app_assoc in *. unfold bind, ret. simpl app in *.
      set (lg := take k (log n) ++ x :: trunc (drop (S k) (log n)) es) in *.
      replace (length lg - k) with (S (length lg - S k)).
      { simpl drop. split; [|exact Hmir]. rewrite Hrun. subst lg. by rewrite <- app_assoc. }
      assert (length lg = k + S (length (trunc (drop (S k) (log n)) es))); [|lia].
      subst lg. rewrite length_app, length_take_le by done. done.
    + destruct (truncate_run k n Hf Hm) as (m & Hrun & Hmir); [lia|done|].
      replace (last_included_index n + k) with (prev + 1 + i) in Hrun by lia.
      exists m. rewrite app_nil_r, length_take_le, Nat.sub_diag, drop_0 by done. split; [|done].
      unfold bind, modify in Hrun |- *. rewrite Hrun. unfold ret.
      rewrite append_at_snapshot_push; simpl; rewrite ?length_app, ?length_take_le by done; simpl; [|done|lia].
      rewrite indexed_cons, <- app_assoc. simpl. do 3 f_equal; [f_equal; lia|].
      f_equal. lia.
  - apply lookup_ge_None_1 in Hx. exists (db_log (db n)).
    rewrite drop_ge, take_ge by lia. simpl trunc. rewrite app_nil_r.
    replace (length (log n) - k) with 0 by lia. rewrite drop_0. split; [|done].
    unfold bind, modify, ret. rewrite append_at_snapshot_push; simpl; rewrite ?length_app; simpl; [|done|lia].
    rewrite indexed_cons, <- app_assoc. simpl. unfold with_log.
    f_equal; [do 2 f_equal; [f_equal; lia|f_equal; lia]|].
    destruct n as [? ? ? ? ? ? ? ? ? ? ? ? ? ? ? ? ? ? ? ? []]. done.
Qed.

Lemma save_batch_run batch n :
  db_faults (db n) = [] →
  save_log_entries_batch batch n =
    (Ok tt, with_log (log n) (save_all (db_log (db n)) batch) n).
Proof.
  intros Hf. destruct batch as [|b batch]; simpl; [by rewrite with_log_id|].
  rewrite db_write_run by done. by destruct n.
Qed.

Lemma merge_split k l es :
  k ≤ length l →
  let lg := take k l ++ trunc (drop k l) es in
  lg ++ drop (length lg - k) es = take k l ++ merge (drop k l) es.
Proof.
  intros Hk lg. subst lg. rewrite merge_trunc, length_app, length_take_le, <- app_assoc by done.
  by replace (k + length (trunc (drop k l) es) - k) with (length (trunc (drop k l) es)) by lia.
Qed.

(** The log starts with a dummy entry of the snapshot's term. *)
Definition head_ok (n : RaftNode) : Prop := term <$> log n !! 0 = Some (last_included_term n).

(** The node has an entry of term [t] at absolute index [i]. *)
Definition has_entry (n : RaftNode) (i : nat) (t : N) : bool :=
  Nat.leb (last_included_index n) i &&
  match log n !! (i - last_included_index n) with Some e => (term e =? t)%N | None => false end.

(** The log a consistent AppendEntries message leaves. *)
Definition merged (n : RaftNode) (prev : nat) (es : list LogEntry) : list LogEntry :=
  let k := prev + 1 - last_included_index n in
  take k (log n) ++ merge (drop k (log n)) es.

(** Saving what the loops have appended makes the disk mirror the merged log. *)
Lemma save_appended k es lg new m n :
  lg = take k (log n) ++ trunc (drop k (log n)) es → new = drop (length lg - k) es →
  db_faults (db n) = [] → 0 < k → k ≤ length (log n) → mirror m (last_included_index n) lg →
  ∃ m', save_log_entries_batch (indexed (last_included_index n + length lg) new)
          (with_log (lg ++ new) m n) =
        (Ok tt, with_log (take k (log n) ++ merge (drop k (log n)) es) m' n) ∧
        mirror m' (last_included_index n) (take k (log n) ++ merge (drop k (log n)) es).
Proof.
  intros Hlg Hnew Hf Hk Hlen Hm.
  assert (lg ++ new = take k (log n) ++ merge (drop k (log n)) es) as Hall
    by (subst; by apply merge_split).
  eexists. rewrite save_batch_run by done. simpl. rewrite Hall. split; [done|].
  rewrite <- Hall. apply mirror_batch; [|done].
  subst lg. rewrite length_app, length_take_le by done. lia.
Qed.

Lemma snapshot_branch prev es n :
  db_faults (db n) = [] → mirror (db_log (db n)) (last_included_index n) (log n) →
  last_included_index n ≤ prev → prev - last_included_index n < length (log n) →
  ∃ m, (let! batch := append_at_snapshot prev 0 es [] in
        do! save_log_entries_batch batch in ret (true, prev + length es)) n =
       (Ok (true, prev + length es), with_log (merged n prev es) m n) ∧
       mirror m (last_included_index n) (merged n prev es).
Proof.
  intros Hf Hm Hge Hlen. set (k := prev + 1 - last_included_index n).
  destruct (append_at_snapshot_run prev 0 es n) as (m & Hrun & Hmir); [done|done|lia|lia|].
  simpl in Hrun, Hmir. replace (prev + 1 + 0 - last_included_index n) with k in * by lia.
  rewrite (bind_ok _ _ _ _ _ Hrun).
  edestruct (save_appended k) as (m' & Hsave & Hmir'); [done|done|done|lia|lia|exact Hmir|].
  rewrite (bind_ok _ _ _ _ _ Hsave). by eexists.
Qed.

Lemma normal_branch prev es n :
  db_faults (db n) = [] → mirror (db_log (db n)) (last_included_index n) (log n) →
  last_included_index n ≤ prev → prev - last_included_index n < length (log n) →
  ∃ m, (do! truncate_conflict prev 0 es in
        let! batch := append_missing prev 0 es [] in
        do! save_log_entries_batch batch in ret (true, prev + length es)) n =
       (Ok (true, prev + length es), with_log (merged n prev es) m n) ∧
       mirror m (last_included_index n) (merged n prev es).
Proof.
  intros Hf Hm Hge Hlen. set (k := prev + 1 - last_included_index n).
  destruct (truncate_conflict_run prev 0 es n) as (m & Hrun & Hmir); [done|done|lia|lia|].
  simpl in Hrun, Hmir. replace (prev + 1 + 0 - last_included_index n) with k in * by lia.
  set (lg := take k (log n) ++ trunc (drop k (log n)) es) in *.
  assert (k ≤ length lg). { unfold lg. rewrite length_app, length_take_le by lia. lia. }
  rewrite (bind_ok _ _ _ _ _ Hrun).
  pose proof (append_missing_run prev 0 es [] (with_log lg m n)) as Happ. simpl in Happ.
  replace (prev + 1 + 0 - last_included_index n) with k in Happ by lia.
  rewrite (bind_ok _ _ _ _ _ (Happ ltac:(lia) ltac:(lia))).
  edestruct (save_appended k es lg) as (m' & Hsave & Hmir'); [done|done|done|lia|lia|exact Hmir|].
  change (with_log lg m n <| log := lg ++ drop (length lg - k) es |>)
    with (with_log (lg ++ drop (length lg - k) es) m n).
  rewrite (bind_ok _ _ _ _ _ Hsave). by eexists.
Qed.

Lemma reconcile_log_run args n :
  db_faults (db n) = [] → head_ok n →
  mirror (db_log (db n)) (last_included_index n) (log n) →
  let ok := has_entry n (ae_prev_log_index args) (ae_prev_log_term args) in
  let lg := if ok then merged n (ae_prev_log_index args) (ae_entries args) else log n in
  ∃ m i, reconcile_log args n = (Ok (ok, i), with_log lg m n) ∧
         mirror m (last_included_index n) lg ∧
         (ok = true → i = ae_prev_log_index args + length (ae_entries args)).
Proof.
  intros Hf Hhd Hm. unfold has_entry, reconcile_log, head_ok in *.
  set (prev := ae_prev_log_index args). set (es := ae_entries args). unfold bind at 1, get at 1.
  assert (∀ i, ∃ m i', (Ok (false, i), n) = (Ok (false, i'), with_log (log n) m n) ∧
    mirror m (last_included_index n) (log n) ∧ (false = true → i' = prev + length es)) as Hno.
  { intros i. exists (db_log (db n)), i. by rewrite with_log_id. }
  destruct (Nat.ltb_spec prev (last_included_index n)) as [Hlt|Hge].
  { destruct (Nat.leb_spec (last_included_index n) prev); [lia|]. apply Hno. }
  destruct (Nat.leb_spec (last_included_index n) prev) as [_|]; [|lia]. simpl andb.
  destruct (Nat.eqb_spec prev (last_included_index n)) as [Heq|Hne].
  - replace (prev - last_included_index n) with 0 by lia.
    destruct (log n !! 0) as [e|] eqn:He; [|done]. injection Hhd as ->.
    rewrite (N.eqb_sym (ae_prev_log_term args)).
    destruct (last_included_term n =? ae_prev_log_term args)%N; [|apply Hno].
    apply lookup_lt_Some in He.
    destruct (snapshot_branch prev es n) as (m & Hrun & Hmir); [done|done|lia|lia|]. eauto.
  - destruct (log n !! (prev - last_included_index n)) as [e|] eqn:He; [|apply Hno].
    destruct (term e =? ae_prev_log_term args)%N; [|apply Hno]. apply lookup_lt_Some in He.
    destruct (normal_branch prev es n) as (m & Hrun & Hmir); [done|done|lia|lia|]. eauto.
Qed.

(** C6. AppendEntries: the handler's loops, at the snapshot point and after it,
    accept a message exactly when the log has the preceding entry, and then
    leave the reference merge of the leader's entries into the log, in memory
    and on disk; otherwise the log is untouched. *)
Theorem append_entries_reconciles args n :
  db_faults (db n) = [] → head_ok n →
  mirror (db_log (db n)) (last_included_index n) (log n) →
  let ok := has_entry n (ae_prev_log_index args) (ae_prev_log_term args) in
  let lg := if ok then merged n (ae_prev_log_index args) (ae_entries args) else log n in
  ∃ m i, reconcile_log args n = (Ok (ok, i), with_log lg m n) ∧
         mirror m (last_included_index n) lg ∧
         (ok = true → i = ae_prev_log_index args + length (ae_entries args)).
Proof. apply reconcile_log_run. Qed.

End log.

(** A follower with three applied entries. *)
Definition demo_entries : list LogEntry := replicate 3 (mkLogEntry 1 NoOp).

Definition demo_follower : @RaftNode demo_env :=
  let d := (@empty_db demo_env) <| db_term := Some 1%N |>
             <| db_log := save_all ∅ (indexed 1 demo_entries) |> in
  restart (Demo.cli 2) 0 0 1500 2 d <| commit_index := 3 |> <| last_applied := 3 |>.

Lemma demo_follower_mirror : mirror (db_log (db demo_follower)) 0 (log demo_follower).
Proof.
  apply (mirror_batch ∅ 0 [mkLogEntry 0 NoOp] demo_entries); [simpl; lia|].
  intros [|[|i]] Hi; [lia| |]; done.
Qed.

(** Entries of term 2 replace the last two entries of the follower. *)
Lemma append_entries_reconciles_witness :
  ∃ m i, reconcile_log (mkAppendEntriesArgs 2 1 1 1 [mkLogEntry 2 NoOp] 0 "") demo_follower =
         (Ok (true, i), with_log [mkLogEntry 0 NoOp; mkLogEntry 1 NoOp; mkLogEntry 2 NoOp] m demo_follower).
Proof.
  destruct (append_entries_reconciles (E := demo_env)
    (mkAppendEntriesArgs 2 1 1 1 [mkLogEntry 2 NoOp] 0 "") demo_follower) as (m & i & Hrun & _);
    [by vm_compute|by vm_compute|apply demo_follower_mirror|].
  exists m, i. exact Hrun.
Defined.
