(* ===== verification/RaftDurable.v ===== *)
(** * Durability

    While database writes succeed and no snapshot is installed, what a node
    would find on disk after a crash is exactly the term, the vote and the log
    it has in memory. *)

From S2P Require Import Prelude BTree Sharding MasterState AppState ClusterConfig RaftNode RaftRpc RaftLoop RaftDemo RaftFrame RaftElection RaftLog.

Section durable.
  Context {E : RaftEnv}.

Notation RM := (M RaftNode).

Record durable (n : RaftNode) : Prop := mk_durable {
  du_faults : db_faults (db n) = [];
  du_term : default 0%N (db_term (db n)) = current_term n;
  du_vote : db_vote (db n) = voted_for n;
  du_meta : default (0, 0%N) (db_snapshot_meta (db n)) = (last_included_index n, last_included_term n);
  du_head : log n !! 0 = Some (mkLogEntry (last_included_term n) NoOp);
  du_mirror : mirror (db_log (db n)) (last_included_index n) (log n);
}.

(** ** Code that does not touch the durable state *)

Definition hard_state (n : RaftNode) :=
  (current_term n, voted_for n, log n, last_included_index n, last_included_term n,
   db_term (db n), db_vote (db n), db_snapshot_meta (db n), db_log (db n)).

Definition lframe (n n' : RaftNode) : Prop :=
  db_faults (db n) = [] → db_faults (db n') = [] ∧ hard_state n' = hard_state n.

#[global] Instance lframe_preorder : PreOrder lframe.
Proof.
  split; [by intros n|]. intros a b c Hab Hbc Ha. destruct (Hab Ha) as [Hb E1].
  destruct (Hbc Hb) as [Hc E2]. split; [done|]. congruence.
Qed.

Definition keeps_durable (n n' : RaftNode) : Prop := durable n → durable n'.

#[global] Instance keeps_durable_preorder : PreOrder keeps_durable.
Proof. split; unfold keeps_durable; [by intros n|]. intros a b c; auto. Qed.

Lemma lframe_durable n n' : lframe n n' → keeps_durable n n'.
Proof.
  intros Hl [Hf Ht Hv Hm Hh Hmir]. destruct (Hl Hf) as [Hf' [= E1 E2 E3 E4 E5 E6 E7 E8 E9]].
  constructor; rewrite ?E1, ?E2, ?E3, ?E4, ?E5, ?E6, ?E7, ?E8, ?E9; done.
Qed.

Lemma kp_lframe {A} (m : RM A) n : kp lframe m n → kp keeps_durable m n.
Proof. unfold kp. destruct (m n) as [[] ?]; [apply lframe_durable..|done]. Qed.

Ltac lf0 := intros ?; by split.

Lemma db_write_lframe c f n :
  (db_faults (f (db n)), db_term (f (db n)), db_vote (f (db n)), db_snapshot_meta (f (db n)), db_log (f (db n))) =
  (db_faults (db n), db_term (db n), db_vote (db n), db_snapshot_meta (db n), db_log (db n)) →
  kp lframe (db_write c f) n.
Proof.
  intros [= E1 E2 E3 E4 E5]. unfold kp, db_write. destruct (db_faults (db n)) as [|[] ?] eqn:Hf; intros Hf'; try congruence.
  split; simpl; [congruence|]. unfold hard_state. simpl. congruence.
Qed.

Lemma check_read_indices_lframe n : kp lframe check_read_indices n.
Proof. apply kp_modify. lf0. Qed.
Lemma send_chan_lframe c m n : kp lframe (send_chan c m) n.
Proof. apply kp_modify. lf0. Qed.
Lemma send_http_lframe u m n : kp lframe (send_http u m) n.
Proof. apply kp_modify. lf0. Qed.
#[local] Hint Resolve check_read_indices_lframe send_chan_lframe send_http_lframe : dfs.

Lemma save_config_lframe n : kp lframe save_config n.
Proof. unfold save_config. rkp; by apply db_write_lframe. Qed.
#[local] Hint Resolve save_config_lframe : dfs.

Lemma apply_membership_command_lframe cmd n : kp lframe (apply_membership_command cmd) n.
Proof.
  destruct cmd; simpl; unfold remove_server_legacy, add_server_legacy; rkp; try lf0.
  case_if; lf0.
Qed.
#[local] Hint Resolve apply_membership_command_lframe : dfs.

Lemma apply_one_lframe n : kp lframe apply_one n.
Proof. unfold apply_one. rkp; lf0. Qed.
#[local] Hint Resolve apply_one_lframe : dfs.

Lemma apply_logs_lframe n : kp lframe apply_logs n.
Proof.
  apply kp_get_bind. generalize (commit_index n - last_applied n). intros fuel.
  revert n. induction fuel as [|fuel IH]; intros n; simpl; rkp.
Qed.
#[local] Hint Resolve apply_logs_lframe : dfs.

Lemma set_progress_lframe i a b n : kp lframe (set_progress i a b) n.
Proof. unfold set_progress. rkp. lf0. Qed.
#[local] Hint Resolve set_progress_lframe : dfs.

Lemma record_append_reply_lframe r n : kp lframe (record_append_reply r) n.
Proof. unfold record_append_reply. rkp; lf0. Qed.
Lemma advance_commit_lframe n : kp lframe advance_commit n.
Proof. unfold advance_commit. rkp; lf0. Qed.
Lemma heartbeat_peer_lframe i p n : kp lframe (heartbeat_peer i p) n.
Proof. unfold heartbeat_peer. destruct p as [[? ?] ?]. rkp; lf0. Qed.
#[local] Hint Resolve record_append_reply_lframe advance_commit_lframe heartbeat_peer_lframe : dfs.
Lemma send_heartbeats_lframe n : kp lframe send_heartbeats n.
Proof. unfold send_heartbeats. rkp. Qed.
Lemma handle_read_index_lframe tx n : kp lframe (handle_read_index tx) n.
Proof. unfold handle_read_index. rkp; try lf0. apply send_heartbeats_lframe. Qed.
#[local] Hint Resolve send_heartbeats_lframe handle_read_index_lframe : dfs.

(** ** Terms and votes *)

Lemma kp_durable {A} (m : RM A) n : (durable n → kp keeps_durable m n) → kp keeps_durable m n.
Proof. unfold kp. intros H. destruct (m n) as [[] ?]; [intros Hd; by apply H..|done]. Qed.

#[local] Hint Extern 5 (kp keeps_durable _ _) =>
  apply kp_lframe; solve [eauto 2 with dfs nocore] : dfs.

Ltac lframe_upd := apply lframe_durable; lf0.

Lemma adopt_term_durable t n :
  kp keeps_durable
    (do! modify (λ n, n <| current_term := t |> <| voted_for := None |>) in
     do! ignore_err save_term in ignore_err save_vote) n.
Proof.
  apply kp_durable. intros [Hf Ht Hv Hm Hh Hmir]. run_db Hf. intros _. by constructor.
Qed.

Lemma vote_durable c n :
  kp keeps_durable
    (do! modify (λ n, n <| voted_for := Some c |>) in
     do! save_vote in
     do! modify (λ n, n <| last_election_time := clock n |>) in ret true) n.
Proof.
  apply kp_durable. intros [Hf Ht Hv Hm Hh Hmir]. run_db Hf. intros _. by constructor.
Qed.

Lemma candidacy_durable n : kp keeps_durable candidacy n.
Proof.
  apply kp_durable. intros [Hf Ht Hv Hm Hh Hmir]. unfold candidacy. run_db Hf.
  case_if; cbn; [|done]. rewrite Hf. cbn. rewrite Hf. cbn. intros _. by constructor.
Qed.

Lemma step_down_durable t h n : kp keeps_durable (step_down_to_follower t h) n.
Proof.
  unfold step_down_to_follower. rkp_step. cbv zeta. rkp_step; [rkp_step; lframe_upd|].
  rkp_step; [rkp_step; [apply adopt_term_durable|rkp]|].
  rkp_step; [rkp_step; destruct h; [lframe_upd|done]|]. rkp. lframe_upd.
Qed.
#[local] Hint Resolve candidacy_durable step_down_durable vote_durable : dfs.

(** ** Appending *)

Lemma durable_nonempty n : durable n → 0 < length (log n).
Proof. intros Hd. by eapply lookup_lt_Some, du_head. Qed.

Lemma with_log_durable n lg m :
  durable n → lg !! 0 = log n !! 0 → mirror m (last_included_index n) lg → durable (with_log lg m n).
Proof. intros [] Hhd Hm. constructor; simpl; try done. congruence. Qed.

(** Pushing an entry and saving it under its index, then the rest. *)
Lemma push_run {A} e (save : nat → RM unit) (k : nat → RM A) n :
  (∀ i n, db_faults (db n) = [] → save i n = save_log_entry i e n) →
  db_faults (db n) = [] → 0 < length (log n) →
  let i := last_included_index n + length (log n) in
  (do! modify (λ n, n <| log := log n ++ [e] |>) in
   let! i := last_log_index in do! save i in k i) n =
  k i (with_log (log n ++ [e]) (<[i := e]> (db_log (db n))) n).
Proof.
  intros Hsave Hf Hne i. unfold bind at 1, modify. rewrite bind_last_log_index by (simpl; rewrite length_app; lia).
  replace (last_log_index_of _) with i
    by (unfold last_log_index_of; simpl; rewrite length_app; simpl; lia).
  rewrite (bind_ok (save i) _ _ tt (with_log (log n ++ [e]) (<[i := e]> (db_log (db n))) n)); [done|].
  rewrite Hsave by done. unfold save_log_entry. by rewrite db_write_run.
Qed.

Lemma push_durable e n :
  durable n → durable (with_log (log n ++ [e]) (<[last_included_index n + length (log n) := e]> (db_log (db n))) n).
Proof.
  intros Hd. pose proof (durable_nonempty n Hd). apply with_log_durable; [done|by rewrite lookup_app_l|].
  apply mirror_push; [done|apply Hd].
Qed.

Lemma push_save_durable {A} e (save : nat → RM unit) (k : nat → RM A) n :
  (∀ i n, db_faults (db n) = [] → save i n = save_log_entry i e n) →
  (∀ i n', kp keeps_durable (k i) n') →
  kp keeps_durable
    (do! modify (λ n, n <| log := log n ++ [e] |>) in
     let! i := last_log_index in do! save i in k i) n.
Proof.
  intros Hsave Hk. apply kp_durable. intros Hd. pose proof (push_durable e n Hd) as Hd'.
  unfold kp. rewrite (push_run e save k n Hsave) by (done || apply Hd || by apply durable_nonempty). cbv zeta.
  match goal with |- match k ?i ?n1 with _ => _ end => specialize (Hk i n1); unfold kp in Hk; destruct (k i n1) as [[] ?] end;
    [intros _; by apply Hk..|done].
Qed.

Lemma append_own_durable cmd n : kp keeps_durable (append_own cmd) n.
Proof. unfold append_own. rkp_step. cbv zeta. apply push_save_durable; [done|]. intros. rkp. Qed.
#[local] Hint Resolve append_own_durable : dfs.

Lemma become_leader_durable n : kp keeps_durable become_leader n.
Proof.
  unfold become_leader. rkp_step; [rkp_step; lframe_upd|]. rkp_step. cbv zeta.
  apply (push_save_durable _ (λ i, ignore_err (save_log_entry i _))).
  - intros i n' Hf. unfold ignore_err, save_log_entry. by rewrite db_write_run.
  - intros. rkp; lframe_upd.
Qed.
#[local] Hint Resolve become_leader_durable : dfs.

Lemma start_election_durable n : kp keeps_durable start_election n.
Proof. unfold start_election. rkp. lframe_upd. Qed.
#[local] Hint Resolve start_election_durable : dfs.

(** ** Snapshots *)

Lemma delete_range_run a b n :
  db_faults (db n) = [] →
  ∃ m, delete_log_range a b n = (Ok tt, with_log (log n) m n) ∧
       ∀ i, b < i → m !! i = db_log (db n) !! i.
Proof.
  intros Hf. unfold delete_log_range. assert (∀ i, i ∈ seq a (S b - a) → i ≤ b) as Hin.
  { intros i Hi%elem_of_seq. lia. }
  revert Hf Hin. generalize (seq a (S b - a)). intros l. revert n.
  induction l as [|i l IH]; intros n Hf Hin.
  { exists (db_log (db n)). simpl. by rewrite with_log_id. }
  simpl. rewrite (bind_ok _ _ _ _ _ (db_write_run _ _ n Hf)).
  destruct (IH (n <| db := db n <| db_log := delete i (db_log (db n)) |> |>)) as (m & Hrun & Hm);
    [done|set_solver|].
  exists m. split; [rewrite Hrun; by destruct n|]. intros j Hj. rewrite Hm by done. simpl.
  rewrite lookup_delete_ne; [done|]. specialize (Hin i). set_solver by lia.
Qed.

Lemma mirror_snapshot m m' lii la lg e :
  mirror m lii lg → lii ≤ la → (∀ i, la < i → m' !! i = m !! i) →
  mirror m' la (e :: drop (la - lii + 1) lg).
Proof.
  intros Hm Hla Hm' i Hi. rewrite Hm', Hm by lia.
  replace (i - la) with (S (i - la - 1)) by lia. simpl. rewrite lookup_drop. f_equal. lia.
Qed.

Lemma create_snapshot_durable n : kp keeps_durable create_snapshot n.
Proof.
  apply kp_durable. intros [Hf Ht Hv Hm Hh Hmir]. unfold create_snapshot. rkp_step.
  destruct (to_vec (app_state n)) as [data|]; [|rkp]. cbv zeta.
  match goal with |- context [if Nat.leb ?a ?b then ?x else ?y] =>
    generalize (if Nat.leb a b then x else y) end.
  intros st. unfold kp. rewrite (bind_ok _ _ _ _ _ (db_write_run _ _ n Hf)).
  erewrite bind_ok; [|by apply db_write_run].
  edestruct (delete_range_run (S (last_included_index n)) (last_applied n)) as (m & Hrun & Hm');
    [|rewrite (bind_ok _ _ _ _ _ Hrun)]; [done|].
  unfold bind at 1, modify at 1. unfold bind, usize_sub.
  destruct (Nat.ltb_spec (last_applied n) (last_included_index n)) as [|Hla]; [done|]. unfold ret.
  case_if; [done|]. intros _. constructor; simpl; try done.
  by apply mirror_snapshot with (m := db_log (db n)).
Qed.
#[local] Hint Resolve create_snapshot_durable : dfs.

(** ** Handlers *)

Lemma reconcile_log_durable args n : kp keeps_durable (reconcile_log args) n.
Proof.
  apply kp_durable. intros Hd. pose proof (durable_nonempty n Hd) as Hne.
  destruct (reconcile_log_run args n) as (m & i & Hrun & Hm & _); [apply Hd| |apply Hd|].
  { unfold head_ok. by rewrite (du_head n Hd). }
  unfold kp. rewrite Hrun. intros _. apply with_log_durable; [done| |done].
  case_if; [|done]. unfold merged. unfold has_entry in Hif.
  apply andb_true_iff in Hif as [Hle%Nat.leb_le _].
  rewrite lookup_app_l by (rewrite length_take; lia). by rewrite lookup_take_lt by lia.
Qed.
#[local] Hint Resolve reconcile_log_durable : dfs.

Lemma handle_append_entries_durable args n : kp keeps_durable (handle_append_entries args) n.
Proof. unfold handle_append_entries. rkp; lframe_upd. Qed.

Lemma handle_request_vote_durable args n : kp keeps_durable (handle_request_vote args) n.
Proof. unfold handle_request_vote. rkp; lframe_upd. Qed.

Lemma handle_request_vote_response_durable r n :
  kp keeps_durable (handle_request_vote_response r) n.
Proof. unfold handle_request_vote_response. rkp; lframe_upd. Qed.

Lemma handle_append_entries_response_durable r n :
  kp keeps_durable (handle_append_entries_response r) n.
Proof. unfold handle_append_entries_response. rkp; lframe_upd. Qed.

Lemma handle_install_snapshot_response_durable r n :
  kp keeps_durable (handle_install_snapshot_response r) n.
Proof. unfold handle_install_snapshot_response. rkp; lframe_upd. Qed.

Lemma handle_timeout_now_durable args n : kp keeps_durable (handle_timeout_now args) n.
Proof. unfold handle_timeout_now. rkp. Qed.
#[local] Hint Resolve handle_append_entries_durable handle_request_vote_durable
  handle_request_vote_response_durable handle_append_entries_response_durable
  handle_install_snapshot_response_durable handle_timeout_now_durable : dfs.

Definition not_snapshot (ev : Event) : Prop :=
  match ev with EvRpc (InstallSnapshot _) _ => False | _ => True end.

Lemma handle_client_request_durable cmd tx n : kp keeps_durable (handle_client_request cmd tx) n.
Proof. unfold handle_client_request. rkp; lframe_upd. Qed.
#[local] Hint Resolve handle_client_request_durable : dfs.

Lemma handle_event_durable ev n : not_snapshot ev → kp keeps_durable (handle_event ev) n.
Proof.
  intros Hev. destruct ev as [msg tx|cmd tx|tx|tx|tx]; simpl; try (by rkp).
  destruct msg; try done; simpl; rkp.
Qed.

(** *** Client batches *)

Definition batch_entries (n : RaftNode) (reqs : list (Command * nat)) : list LogEntry :=
  (λ r, mkLogEntry (current_term n) r.1) <$> reqs.

Lemma append_batch_run reqs acc n :
  0 < length (log n) →
  ∃ w, append_batch reqs acc n =
    (Ok (acc.1 ++ indexed (last_included_index n + length (log n)) (batch_entries n reqs), w),
     n <| log := log n ++ batch_entries n reqs |>).
Proof.
  revert acc n. induction reqs as [|[cmd tx] reqs IH]; intros acc n Hne; simpl.
  { exists acc.2. rewrite !app_nil_r. by destruct acc, n. }
  unfold bind at 1, get at 1, bind at 1, modify, bind at 1, get at 1.
  rewrite bind_usize_sub by (simpl; rewrite length_app; simpl; lia).
  edestruct IH as (w & Hrun); [|exists w; rewrite Hrun]; simpl; rewrite length_app; simpl; [lia|].
  rewrite indexed_cons, <- !app_assoc. simpl.
  f_equal. do 4 f_equal; [f_equal; lia|]. f_equal. lia.
Qed.

Lemma handle_client_batch_durable reqs n : kp keeps_durable (handle_client_batch reqs) n.
Proof.
  apply kp_durable. intros Hd. pose proof (durable_nonempty n Hd) as Hne.
  unfold handle_client_batch. rkp_step. cbv zeta.
  destruct (append_batch_run reqs ([], []) n Hne) as (w & Hrun). simpl in Hrun.
  set (es := batch_entries n reqs) in *.
  pose (m := save_all (db_log (db n)) (indexed (last_included_index n + length (log n)) es)).
  assert (durable (with_log (log n ++ es) m n)) as Hd'.
  { apply with_log_durable; [done|by rewrite lookup_app_l|]. apply mirror_batch; [done|apply Hd]. }
  unfold kp. rewrite (bind_ok _ _ _ _ _ Hrun). erewrite bind_ok; last first.
  { unfold or_else. simpl. rewrite save_batch_run by apply Hd. done. }
  match goal with |- match ?k ?n' with _ => _ end =>
    assert (kp keeps_durable k n') as Hk by (rkp; lframe_upd); unfold kp in Hk;
    destruct (k n') as [[] ?] end; [intros _; by apply Hk..|done].
Qed.

Definition input_not_snapshot (inp : Input) : Prop :=
  match inp with Tick => True | Batch evs => Forall not_snapshot evs end.

Lemma check_promote_durable n : kp keeps_durable check_promote_non_voting_members n.
Proof. unfold check_promote_non_voting_members, promote_non_voting_members. rkp. lframe_upd. Qed.
Lemma check_finalize_durable n : kp keeps_durable check_finalize_joint_consensus n.
Proof. unfold check_finalize_joint_consensus. rkp. Qed.
#[local] Hint Resolve check_promote_durable check_finalize_durable handle_client_batch_durable : dfs.

Lemma tick_durable n : kp keeps_durable tick n.
Proof. unfold tick. rkp. lframe_upd. Qed.

Lemma run_once_durable inp n : input_not_snapshot inp → kp keeps_durable (run_once inp) n.
Proof.
  intros Hin. destruct inp as [|evs]; simpl; rkp_step; [apply tick_durable|].
  unfold handle_event_batch. rkp.
  apply handle_event_durable. apply list_elem_of_filter in H as [_ H].
  eapply Forall_forall; [|exact H]. by apply Forall_take.
Qed.

(** ** Restart *)

Lemma load_log_mirror fuel i m lii lg :
  mirror m lii lg → lii < i → length lg - (i - lii) ≤ fuel →
  load_log fuel i m = drop (i - lii) lg.
Proof.
  intros Hm. revert i. induction fuel as [|fuel IH]; intros i Hi Hlen; simpl.
  { by rewrite drop_ge by lia. }
  rewrite Hm by done. destruct (lg !! (i - lii)) as [e|] eqn:He.
  - rewrite (drop_S _ _ _ He), IH by lia. do 2 f_equal. lia.
  - apply lookup_ge_None in He. by rewrite drop_ge.
Qed.

Lemma mirror_size m lii lg : mirror m lii lg → length lg - 1 ≤ size m.
Proof.
  intros Hm. rewrite <- size_dom. transitivity (size (set_seq (C := gset nat) (S lii) (length lg - 1))).
  { by rewrite size_set_seq. }
  apply subseteq_size. intros i Hi%elem_of_set_seq. apply elem_of_dom.
  rewrite Hm by lia. apply lookup_lt_is_Some. lia.
Qed.

(** A node that restarts from its database has what it had in memory. *)
Lemma restart_same cli now wall timeout n :
  durable n → let r := restart cli now wall timeout (node_id n) (db n) in
  current_term r = current_term n ∧ voted_for r = voted_for n ∧ log r = log n ∧
  last_included_index r = last_included_index n ∧ last_included_term r = last_included_term n.
Proof.
  intros [Hf Ht Hv Hm Hh Hmir]. unfold restart, run_init, raft_new, load_state. rewrite Hm.
  destruct (load_config (db n)). simpl. split_and!; try done.
  rewrite (load_log_mirror _ _ _ (last_included_index n) (log n)); [|done|lia|].
  - replace (S _ - _) with 1 by lia. revert Hh. destruct (log n); [done|]. by intros [= ->].
  - pose proof (mirror_size _ _ _ Hmir). lia.
Qed.

Lemma restart_frame cli now wall timeout n :
  let r := restart cli now wall timeout (node_id n) (db n) in
  node_id r = node_id n ∧ db r = db n ∧ role r = Follower ∧ peers r = cli_peers cli ∧ http_out r = [] ∧ chan_out r = [] ∧
  commit_index r = last_included_index r ∧ last_applied r = last_included_index r.
Proof.
  unfold restart, run_init, raft_new, load_state. destruct (default (0, 0%N) (db_snapshot_meta (db n))), (load_config (db n)). done.
Qed.

Lemma restart_durable cli now wall timeout n : durable n → durable (restart cli now wall timeout (node_id n) (db n)).
Proof.
  intros Hd. destruct (restart_same cli now wall timeout n Hd) as (Et & Ev & El & Ei & Eit).
  destruct (restart_frame cli now wall timeout n) as (_ & Edb & _). destruct Hd. by constructor; rewrite ?Et, ?Ev, ?El, ?Ei, ?Eit, ?Edb.
Qed.

(** C16. Durability: after any sequence of ticks and event batches that installs
    no snapshot, a node that crashes and restarts from its database has the
    term, the vote, the log and the snapshot point it had in memory. *)
Theorem restart_recovers inputs cli n n' :
  durable n → Forall input_not_snapshot inputs →
  for_each inputs run_once n = (Ok tt, n') →
  ∀ now wall timeout,
  let r := restart cli now wall timeout (node_id n') (db n') in
  current_term r = current_term n' ∧ voted_for r = voted_for n' ∧ log r = log n' ∧
  last_included_index r = last_included_index n' ∧ last_included_term r = last_included_term n'.
Proof.
  intros Hd Hin Hrun now wall timeout. apply restart_same.
  refine (kp_ok keeps_durable _ _ _ _ _ Hrun Hd). rkp_step. apply run_once_durable.
  by eapply Forall_forall in Hin.
Qed.

Lemma fresh_durable cli now wall timeout i : durable (restart cli now wall timeout i empty_db).
Proof. constructor; try done. intros j Hj. simpl. by destruct j as [|[|j]]; [lia| |]. Qed.

(** ** Installing a snapshot *)

Lemma install_snapshot_run sn n :
  db_faults (db n) = [] →
  ∃ n', install_snapshot sn n = (Ok tt, n') ∧
    log n' = [mkLogEntry (snap_last_included_term sn) NoOp] ∧
    commit_index n' = snap_last_included_index sn ∧
    last_included_index n' = snap_last_included_index sn ∧
    last_included_term n' = snap_last_included_term sn ∧
    db_snapshot_meta (db n') = Some (snap_last_included_index sn, snap_last_included_term sn) ∧
    ∀ i, snap_last_included_index sn < i → db_log (db n') !! i = db_log (db n) !! i.
Proof.
  intros Hf. unfold install_snapshot. rewrite (bind_ok _ _ _ _ _ (db_write_run _ _ n Hf)).
  erewrite bind_ok; [|by apply db_write_run]. unfold bind at 1, modify at 1, bind at 1, get at 1.
  match goal with |- context [bind (delete_log_range ?a ?b) _ ?n0] =>
    destruct (delete_range_run a b n0) as (m & Hrun & Hm);
      [|rewrite (bind_ok _ _ _ _ _ Hrun)] end.
  { by repeat case_match. }
  eexists. split; [done|]. simpl. split_and!; [done..| |].
  - by repeat case_match.
  - intros i Hi. rewrite Hm by done. by repeat case_match.
Qed.

Lemma step_down_same n :
  role n = Follower → step_down_to_follower (current_term n) None n = (Ok tt, n).
Proof.
  intros Hr. unfold step_down_to_follower, bind, get, modify, ret. rewrite Hr, N.ltb_irrefl.
  destruct n. simpl in *. by subst.
Qed.

(** A snapshot that is older than the follower's log, though newer than its
    last snapshot, empties the log in memory and moves the commit index back
    to the snapshot, while the entries after it stay on disk: a restart brings
    back the entries the running node has lost. *)
Theorem snapshot_discards_log args cli n e :
  db_faults (db n) = [] → role n = Follower → is_term args = current_term n →
  last_included_index n < is_last_included_index args →
  is_last_included_index args < commit_index n →
  db_log (db n) !! S (is_last_included_index args) = Some e →
  let r := handle_install_snapshot args n in
  is_ok r.1 = true ∧ length (log r.2) = 1 ∧ commit_index r.2 < commit_index n ∧
  ∀ now wall timeout,
    log (restart cli now wall timeout (node_id n) (db r.2)) !! 1 = Some e.
Proof.
  intros Hf Hrole Hterm Hlii Hci He r.
  set (n1 := n <| current_leader := Some (is_leader_id args) |> <| last_election_time := clock n |>).
  set (sn := mkSnapshot (is_last_included_index args) (is_last_included_term args) (is_data args)).
  destruct (install_snapshot_run sn n1) as (n2 & Hrun & Hlog & Hcom & Hl & Ht & Hmeta & Hdb); [done|].
  assert (r = (Ok (InstallSnapshotResponse
    (mkInstallSnapshotReply (current_term n2) (last_included_index n2) (node_id n2))), n2)) as ->.
  { subst r. unfold handle_install_snapshot. unfold bind at 1, get at 1. rewrite Hterm, N.leb_refl.
    erewrite bind_ok; [done|]. rewrite (bind_ok _ _ _ _ _ (step_down_same n Hrole)).
    unfold bind, modify, get. fold n1 sn.
    destruct (Nat.ltb_spec (last_included_index n1) (is_last_included_index args)) as [_|Hbad]; [exact Hrun|].
    simpl in Hbad. lia. }
  simpl in *. rewrite Hlog, Hcom. split_and!; [done..|]. intros now wall timeout.
  unfold restart, run_init, raft_new, load_state. rewrite Hmeta. destruct (load_config (db n2)). simpl.
  rewrite <- (Hdb (S (is_last_included_index args))) in He by lia.
  destruct (size (db_log (db n2))) eqn:Hsz.
  - apply map_size_empty_inv in Hsz. rewrite Hsz in He. set_solver.
  - simpl. by rewrite He.
Qed.

End durable.

(** A fresh node whose election timeout has passed. *)
Definition demo_start : @RaftNode demo_env :=
  at_time 2000 0 1500 (restart (Demo.cli 1) 0 0 1500 1 empty_db).

Lemma demo_start_durable : durable demo_start.
Proof.
  apply (lframe_durable (restart (Demo.cli 1) 0 0 1500 1 empty_db)); [by split|apply fresh_durable].
Qed.

Lemma demo_tick_ok : is_ok (for_each [Tick] run_once demo_start).1 = true.
Proof. by vm_compute. Qed.

Lemma restart_recovers_witness :
  let n' := (for_each [Tick] run_once demo_start).2 in
  let r := restart (Demo.cli 1) 9 9 1500 (node_id n') (db n') in
  current_term r = current_term n' ∧ voted_for r = voted_for n' ∧ log r = log n'.
Proof.
  intros n' r.
  destruct (restart_recovers (E := demo_env) [Tick] (Demo.cli 1) demo_start n'
    demo_start_durable (proj2 (Forall_singleton input_not_snapshot Tick) I)
    (is_ok_run (for_each [Tick] run_once) demo_start demo_tick_ok) 9 9 1500) as (Ht & Hv & Hl & _).
  exact (conj Ht (conj Hv Hl)).
Defined.

(** The follower receives a snapshot of the first of its three entries. *)
Lemma snapshot_discards_log_witness :
  let r := handle_install_snapshot (@mkInstallSnapshotArgs demo_env 1 1 1 1 demo_state) demo_follower in
  length (log r.2) = 1 ∧ commit_index r.2 < 3 ∧
  log (restart (Demo.cli 2) 9 9 1500 2 (db r.2)) !! 1 = Some (mkLogEntry 1 NoOp).
Proof.
  destruct (snapshot_discards_log (E := demo_env) (@mkInstallSnapshotArgs demo_env 1 1 1 1 demo_state)
    (Demo.cli 2) demo_follower (mkLogEntry 1 NoOp)) as (_ & H1 & H2 & H3);
    [by vm_compute|by vm_compute|by vm_compute|by vm_compute; lia|by vm_compute; lia|by vm_compute|].
  split; [exact H1|]. split; [exact H2|]. apply H3.
Defined.
