(* ===== verification/RaftSafety.v ===== *)
(** * Well-formed nodes do not panic

    [node_ok] is what keeps the index arithmetic of a node within bounds; every
    round that does not panic preserves it, whatever writes fail, as long as no
    message truncates a committed entry; and no round panics that has room in the
    term counter. *)

From S2P Require Import Prelude BTree Sharding MasterState AppState ClusterConfig RaftNode RaftRpc RaftLoop RaftDemo RaftFrame RaftElection RaftLog RaftDurable.

Section safety.
  Context {E : RaftEnv} (room : Prop).

Notation np := (Prelude.np room).
Notation RM := (M RaftNode).

Record node_ok (n : RaftNode) : Prop := mk_node_ok {
  ok_head : head_ok n;
  ok_applied : last_included_index n ≤ last_applied n ≤ commit_index n;
  ok_commit : commit_index n ≤ last_log_index_of n;
  ok_next : length (peers n) ≤ length (next_index n);
  ok_match : length (match_index n) = length (next_index n);
}.

Lemma node_ok_nonempty n : node_ok n → 0 < length (log n).
Proof.
  intros [H _ _ _ _]. unfold head_ok in H. apply fmap_Some in H as (e & He & _).
  by apply lookup_lt_Some in He.
Qed.

(** The part of a node the invariant is about. *)
Definition indices (n : RaftNode) :=
  (log n, last_included_index n, last_included_term n, last_applied n, commit_index n,
   length (peers n), length (next_index n), length (match_index n)).

Lemma indices_ok n n' : indices n' = indices n → node_ok n → node_ok n'.
Proof.
  intros [= E1 E2 E3 E4 E5 E6 E7 E8] []. constructor;
    unfold head_ok, last_log_index_of in *; congruence.
Qed.

Lemma np_usize_sub_bind {B} a b (k : nat → RM B) n :
  b ≤ a → np node_ok (k (a - b)) n → np node_ok (bind (usize_sub a b) k) n.
Proof. intros. unfold Prelude.np. by rewrite bind_usize_sub. Qed.

Lemma np_last_log_index_bind {B} (k : nat → RM B) n :
  0 < length (log n) → np node_ok (k (last_log_index_of n)) n → np node_ok (bind last_log_index k) n.
Proof. intros. unfold Prelude.np. by rewrite bind_last_log_index. Qed.

Lemma np_log_at_bind {B} i (k : LogEntry → RM B) n :
  i < length (log n) → (∀ e, log n !! i = Some e → np node_ok (k e) n) → np node_ok (bind (log_at i) k) n.
Proof.
  intros [e He]%lookup_lt_is_Some Hk. unfold Prelude.np, log_at, bind, get in *. rewrite He. by apply Hk.
Qed.

Ltac idx :=
  match goal with H : node_ok ?n |- _ => apply (indices_ok n); [reflexivity|exact H] end.

(** ** Persistence *)

Lemma np_db_only {A} (m : RM A) n :
  kp db_only m n → no_panic (m n).1 → node_ok n → np node_ok m n.
Proof.
  unfold kp, Prelude.np. intros Hk Hp Hn. split; [done|]. destruct (m n) as [[a|e|w] n']; simpl in *; [..|done];
    destruct Hk as [d ->]; intros _; by apply (indices_ok n).
Qed.

Lemma db_write_np c f n : node_ok n → np node_ok (db_write c f) n.
Proof.
  apply np_db_only; [apply db_write_db_only|]. unfold db_write. by destruct (db_faults (db n)) as [|[] ?].
Qed.
Lemma save_term_np n : node_ok n → np node_ok save_term n.
Proof. apply db_write_np. Qed.
Lemma save_vote_np n : node_ok n → np node_ok save_vote n.
Proof. intros. unfold save_vote. np_step. np_step; by apply db_write_np. Qed.
Lemma save_log_entry_np i e n : node_ok n → np node_ok (save_log_entry i e) n.
Proof. apply db_write_np. Qed.
Lemma save_batch_np es n : node_ok n → np node_ok (save_log_entries_batch es) n.
Proof. intros. unfold save_log_entries_batch. np_step; [by np_step|by apply db_write_np]. Qed.
Lemma save_config_np n : node_ok n → np node_ok save_config n.
Proof. intros. unfold save_config. np_step. np_step; [by apply db_write_np|]. by apply db_write_np. Qed.
Lemma delete_range_np a b n : node_ok n → np node_ok (delete_log_range a b) n.
Proof. intros. unfold delete_log_range. np_step; [done|]. by apply db_write_np. Qed.

(** The deletion loop has rounds enough, whichever deletion fails. *)
Lemma delete_log_loop_no_panic fuel i n :
  size (db_log (db n)) < fuel → no_panic (delete_log_loop fuel i n).1.
Proof.
  revert i n. induction fuel as [|fuel IH]; intros i n Hsz; [lia|]. simpl. unfold bind at 1, get at 1.
  destruct (db_log (db n) !! i) eqn:Hi; [|done]. unfold bind, db_write.
  assert (size (delete i (db_log (db n))) < fuel).
  { rewrite map_size_delete_Some by eauto.
    pose proof (map_size_ne_0_lookup_2 (db_log (db n)) i ltac:(eauto)). lia. }
  destruct (db_faults (db n)) as [|[] ?]; [by apply IH|done|by apply IH].
Qed.

Lemma delete_from_np i n : node_ok n → np node_ok (delete_log_entries_from i) n.
Proof.
  apply np_db_only; [apply delete_log_entries_from_db_only|].
  unfold delete_log_entries_from, bind, get. apply delete_log_loop_no_panic. lia.
Qed.

Lemma check_read_indices_np n : node_ok n → np node_ok check_read_indices n.
Proof. intros. apply np_modify. idx. Qed.
Lemma send_chan_np c m n : node_ok n → np node_ok (send_chan c m) n.
Proof. intros. apply np_modify. idx. Qed.
Lemma send_http_np u m n : node_ok n → np node_ok (send_http u m) n.
Proof. intros. apply np_modify. idx. Qed.

#[local] Hint Resolve db_write_np save_term_np save_vote_np save_log_entry_np save_batch_np save_config_np
  delete_range_np delete_from_np check_read_indices_np send_chan_np send_http_np : dfs.
#[local] Hint Immediate node_ok_nonempty : dfs.

Ltac rnp_step :=
  match goal with
  | H : node_ok ?n |- node_ok ?n => exact H
  | |- np _ (bind (usize_sub _ _) _) _ => apply np_usize_sub_bind
  | H : node_ok ?n |- np _ (bind last_log_index _) ?n =>
      apply np_last_log_index_bind; [exact (node_ok_nonempty n H)|]
  | H : node_ok ?n |- np _ (bind (log_at (length (log ?n) - 1)) _) ?n =>
      apply np_log_at_bind; [pose proof (node_ok_nonempty n H); lia|intros ? ?]
  | _ => np_step
  end.
Ltac rnp := repeat (first [solve [eauto 2 with dfs nocore] | rnp_step]).

(** ** Applying the log *)

Lemma update_peer_tracking_ok n : node_ok n → node_ok (update_peer_tracking n).
Proof.
  intros []. constructor; simpl; try done; [by rewrite length_resize_vec|by rewrite !length_resize_vec].
Qed.

Lemma length_vec_remove {A} i (l l' : list A) :
  vec_remove i l = Some l' → length l = S (length l').
Proof.
  unfold vec_remove. destruct (Nat.ltb_spec i (length l)) as [Hi|]; [|done]. intros [= <-].
  rewrite length_delete by by apply lookup_lt_is_Some. lia.
Qed.

Lemma vec_remove_Some {A} i (l : list A) : i < length l → is_Some (vec_remove i l).
Proof. unfold vec_remove. intros. destruct (Nat.ltb_spec i (length l)); [eauto|lia]. Qed.

Lemma remove_server_legacy_np i n : node_ok n → np node_ok (remove_server_legacy i) n.
Proof.
  intros Hn. unfold remove_server_legacy. rnp_step. rnp_step; [|rnp].
  apply Nat.ltb_lt in Hif. destruct Hn as [H1 H2 H3 H4 H5].
  destruct (vec_remove_Some i (peers n)) as [p Hp]; [done|].
  destruct (vec_remove_Some i (next_index n)) as [ni Hni]; [lia|].
  destruct (vec_remove_Some i (match_index n)) as [mi Hmi]; [lia|]. rewrite Hp, Hni, Hmi.
  apply length_vec_remove in Hp, Hni, Hmi. np_step. constructor; simpl; try done; lia.
Qed.

Lemma add_server_legacy_np a n : node_ok n → np node_ok (add_server_legacy a) n.
Proof.
  intros Hn. unfold add_server_legacy. np_step. case_if; [done|]. destruct Hn.
  constructor; simpl; try done; rewrite !length_app; simpl; lia.
Qed.
#[local] Hint Resolve remove_server_legacy_np add_server_legacy_np : dfs.

Lemma apply_membership_command_np cmd n : node_ok n → np node_ok (apply_membership_command cmd) n.
Proof.
  intros Hn. destruct cmd; simpl; rnp; try idx; by apply update_peer_tracking_ok.
Qed.
#[local] Hint Resolve apply_membership_command_np : dfs.

Lemma apply_one_np n : node_ok n → last_applied n < commit_index n → np node_ok apply_one n.
Proof.
  intros Hn Hlt. unfold apply_one. rnp_step.
  { rnp_step. destruct Hn. constructor; simpl; try done; lia. }
  do 2 rnp_step; [apply H0|]. rnp; idx.
Qed.

Lemma apply_loop_np fuel n : node_ok n → np node_ok (apply_loop fuel) n.
Proof.
  revert n. induction fuel as [|fuel IH]; intros n Hn; simpl; rnp.
  apply apply_one_np; [done|]. by apply Nat.ltb_lt.
Qed.

Lemma apply_logs_np n : node_ok n → np node_ok apply_logs n.
Proof. intros. apply np_get_bind. by apply apply_loop_np. Qed.
#[local] Hint Resolve apply_logs_np : dfs.

(** ** Snapshots *)

Lemma create_snapshot_np n : node_ok n → np node_ok create_snapshot n.
Proof.
  intros Hn. unfold create_snapshot. rnp_step. rnp_step; [|rnp]. cbv zeta.
  match goal with |- context [if Nat.leb ?a ?b then ?x else ?y] =>
    generalize (if Nat.leb a b then x else y) end.
  intros st. pose proof (node_ok_nonempty n Hn) as Hne. pose proof Hn as [H1 H2 H3 H4 H5].
  do 3 (rnp_step; [by eauto 2 with dfs nocore|db_inv]).
  unfold last_log_index_of in H3. eapply np_run.
  { unfold bind at 1, modify at 1. rewrite bind_usize_sub by lia.
    destruct (Nat.ltb_spec (length (log n)) (last_applied n - last_included_index n + 1)); [lia|done]. }
  constructor; unfold head_ok, last_log_index_of; simpl; rewrite ?length_drop; [done|lia..].
Qed.

Lemma install_snapshot_np sn n : node_ok n → np node_ok (install_snapshot sn) n.
Proof.
  intros Hn. unfold install_snapshot. rnp.
  - repeat case_match; idx.
  - repeat match goal with H : node_ok _ |- _ => destruct H end.
    by constructor; unfold head_ok, last_log_index_of; simpl.
Qed.
#[local] Hint Resolve create_snapshot_np install_snapshot_np : dfs.

(** ** Roles *)

Lemma step_down_np t h n : node_ok n → np node_ok (step_down_to_follower t h) n.
Proof.
  intros Hn. unfold step_down_to_follower. rnp; try idx. destruct h; [idx|done].
Qed.
#[local] Hint Resolve step_down_np : dfs.

Lemma push_ok e n : node_ok n → node_ok (n <| log := log n ++ [e] |>).
Proof.
  intros Hn. pose proof (node_ok_nonempty n Hn). destruct Hn as [H1 H2 H3 H4 H5].
  unfold head_ok, last_log_index_of in *. constructor; unfold head_ok, last_log_index_of; simpl; try done.
  - by rewrite lookup_app_l.
  - rewrite length_app. simpl. lia.
Qed.

(** Moving the commit index forward within the log. *)
Lemma commit_ok i n :
  node_ok n → commit_index n ≤ i → i ≤ last_log_index_of n → node_ok (n <| commit_index := i |>).
Proof. intros [H1 H2 H3 H4 H5] ? ?. constructor; simpl; try done. lia. Qed.

Lemma tracking_ok n :
  node_ok n →
  node_ok (n <| next_index := replicate (length (peers n)) (length (log n) + last_included_index n) |>
             <| match_index := replicate (length (peers n)) (last_included_index n) |>).
Proof. intros []. by constructor; simpl; rewrite ?length_replicate. Qed.

Lemma become_leader_np n : node_ok n → np node_ok become_leader n.
Proof.
  intros Hn. unfold become_leader. rnp_step; [rnp_step; idx|]. rnp_step. cbv zeta.
  rnp_step; [rnp_step; by apply push_ok|]. rnp_step.
  assert (∀ s, kp db_only (ignore_err (save_log_entry (last_log_index_of s'0)
    (mkLogEntry (current_term s') NoOp))) s) as Hdb.
  { intros s. rkp_step. apply save_log_entry_db_only. }
  rnp_step; [rnp|]. eapply (kp_ok db_only) in H3 as [d ->]; [|done].
  rnp_step; [rnp_step; by apply tracking_ok|]. injection H3 as _ <-. rnp.
  apply andb_true_iff in Hif as [_ Hlt%Nat.ltb_lt]. simpl in *. apply commit_ok; [done|simpl; lia|done].
Qed.
#[local] Hint Resolve become_leader_np : dfs.

Lemma candidacy_np n :
  (room → current_term n + 1 < u64_mod)%N → node_ok n → np node_ok candidacy n.
Proof.
  intros Ht Hn. unfold candidacy. rnp_step; [rnp_step; idx|]. injection H as _ <-.
  rnp_step.
  { unfold incr_term. rnp_step. simpl current_term. destruct (N.ltb_spec (current_term n + 1) u64_mod); [rnp_step; idx|].
    split; [|done]. intros Hroom. specialize (Ht Hroom). lia. }
  rnp; idx.
Qed.
#[local] Hint Resolve candidacy_np : dfs.

Lemma start_election_np n :
  (room → current_term n + 1 < u64_mod)%N → node_ok n → np node_ok start_election n.
Proof. intros Ht Hn. unfold start_election. rnp. idx. Qed.

(** ** Replication *)

Lemma heartbeat_peer_np i p n : node_ok n → np node_ok (heartbeat_peer i p) n.
Proof.
  intros Hn. unfold heartbeat_peer. destruct p as [[? ?] ?]. rnp.
  - apply Nat.leb_gt in Hif. lia.
  - destruct Hn. constructor; simpl; try done; by rewrite length_insert.
  - destruct Hn. constructor; simpl; try done; by rewrite length_insert.
Qed.
#[local] Hint Resolve heartbeat_peer_np : dfs.

Lemma send_heartbeats_np n : node_ok n → np node_ok send_heartbeats n.
Proof. intros Hn. unfold send_heartbeats. rnp. Qed.
#[local] Hint Resolve send_heartbeats_np : dfs.

Lemma vec_set_Some {A} i (x : A) l : i < length l → vec_set i x l = Some (<[i := x]> l).
Proof. unfold vec_set. intros. by destruct (Nat.ltb_spec i (length l)); [|lia]. Qed.

Lemma set_progress_np i a b n :
  i < length (peers n) → node_ok n → np node_ok (set_progress i a b) n.
Proof.
  intros Hi [H1 H2 H3 H4 H5]. unfold set_progress. rnp_step. rewrite !vec_set_Some by lia. rnp_step.
  constructor; simpl; rewrite ?length_insert; done.
Qed.

Lemma record_append_reply_np r n : node_ok n → np node_ok (record_append_reply r) n.
Proof.
  intros Hn. unfold record_append_reply. rnp_step. rnp_step; [|rnp].
  assert (n0 < length (peers n)) as Hi.
  { unfold peer_index in Hm. case_match; [|done]. by eapply position_lt. }
  rnp_step.
  - rnp_step; [by apply set_progress_np|]. rnp; idx.
  - rnp_step.
    + rnp. destruct Hn. constructor; simpl; try done; by rewrite length_insert.
    + apply lookup_ge_None in Hm0. destruct Hn. lia.
Qed.
#[local] Hint Resolve record_append_reply_np : dfs.

Lemma advance_commit_np n : node_ok n → np node_ok advance_commit n.
Proof.
  intros Hn. unfold advance_commit. rnp_step. rnp_step. cbv zeta. rnp_step; [|rnp].
  apply Nat.ltb_lt in Hif. pose proof (ok_applied n Hn).
  rnp_step; [lia|]. rnp. apply commit_ok; [done|lia|].
  apply lookup_lt_Some in Hm. unfold last_log_index_of at 2. lia.
Qed.
#[local] Hint Resolve advance_commit_np : dfs.

(** ** AppendEntries *)

(** The entries from position [i] of a message agree with the committed part of
    the log: what Raft's Leader Completeness promises of a real leader. *)
Definition safe_from (prev i : nat) (es : list LogEntry) (n : RaftNode) : Prop :=
  ∀ j e x, es !! j = Some e → prev + 1 + i + j ≤ commit_index n →
    log n !! (prev + 1 + i + j - last_included_index n) = Some x → term x = term e.

Definition append_safe (args : AppendEntriesArgs) (n : RaftNode) : Prop :=
  safe_from (ae_prev_log_index args) 0 (ae_entries args) n.

Lemma safe_from_cons prev i e es n : safe_from prev i (e :: es) n → safe_from prev (S i) es n.
Proof.
  intros H j e' x Hj Hc Hx. apply (H (S j) e' x); [done| |];
    by replace (prev + 1 + i + S j) with (prev + 1 + S i + j) by lia.
Qed.

(** Truncating above the commit index. *)
Lemma truncate_ok k n :
  node_ok n → commit_index n < k + last_included_index n → node_ok (n <| log := truncate k (log n) |>).
Proof.
  intros Hn Hk. pose proof (node_ok_nonempty n Hn). destruct Hn as [H1 H2 H3 H4 H5].
  unfold truncate. constructor; unfold head_ok, last_log_index_of in *; simpl; try done.
  - rewrite lookup_take_lt by lia. done.
  - rewrite length_take. lia.
Qed.

Lemma safe_from_truncate prev i es k n :
  safe_from prev i es n → safe_from prev i es (n <| log := truncate k (log n) |>).
Proof.
  intros H j e x Hj Hc Hx. apply (H j e x); [done|done|]. simpl in Hx. unfold truncate in Hx.
  by apply lookup_take_Some in Hx as [? _].
Qed.

Lemma safe_from_push prev i es e n :
  node_ok n → safe_from prev i es n → safe_from prev i es (n <| log := log n ++ [e] |>).
Proof.
  intros Hn H j e' x Hj Hc Hx. apply (H j e' x); [done|done|]. simpl in *.
  pose proof (ok_commit n Hn). pose proof (node_ok_nonempty n Hn). unfold last_log_index_of in *.
  rewrite lookup_app_l in Hx by lia. done.
Qed.

Lemma conflict_above_commit prev i e es n x :
  safe_from prev i (e :: es) n → last_included_index n ≤ prev →
  log n !! (prev + 1 + i - last_included_index n) = Some x → (term x =? term e)%N = false →
  commit_index n < prev + 1 + i - last_included_index n + last_included_index n.
Proof.
  intros Hs Hp Hx Hne%N.eqb_neq. destruct (decide (commit_index n < prev + 1 + i)); [lia|].
  exfalso. apply Hne, (Hs 0 e x); [done|lia|]. by rewrite Nat.add_0_r.
Qed.

Lemma truncate_conflict_np prev i es n :
  last_included_index n ≤ prev → safe_from prev i es n → node_ok n →
  np node_ok (truncate_conflict prev i es) n.
Proof.
  intros Hp. revert i. induction es as [|e es IH]; intros i Hs Hn; simpl; [rnp|].
  rnp_step. rnp_step; [lia|]. rnp_step; [|rnp]. rnp_step; [by eapply IH; [eapply safe_from_cons|]|].
  rnp. apply truncate_ok; [done|]. by eapply conflict_above_commit.
Qed.

Lemma truncate_conflict_lii prev i es n a n' :
  truncate_conflict prev i es n = (Ok a, n') → last_included_index n' = last_included_index n.
Proof.
  revert i. induction es as [|e es IH]; intros i H; simpl in H; inv_ok; db_inv; try done.
  by eapply IH.
Qed.

Lemma append_missing_np prev i es batch n :
  last_included_index n ≤ prev → node_ok n → np node_ok (append_missing prev i es batch) n.
Proof.
  revert i batch n. induction es as [|e es IH]; intros i batch n Hp Hn; simpl; [rnp|].
  rnp_step. rnp_step; [lia|]. rnp_step.
  - rnp. by apply push_ok.
  - apply IH; [|done]. by case_if; inv_ok.
Qed.

Lemma append_at_snapshot_np prev i es batch n :
  last_included_index n ≤ prev → safe_from prev i es n → node_ok n →
  np node_ok (append_at_snapshot prev i es batch) n.
Proof.
  revert i batch n. induction es as [|e es IH]; intros i batch n Hp Hs Hn; simpl; [rnp|].
  rnp_step. rnp_step; [lia|]. rnp_step.
  - rnp_step; [rnp_step; [rnp|]|].
    + rnp; [apply truncate_ok; [done|by eapply conflict_above_commit]|by apply push_ok].
    + rnp. by apply push_ok.
  - apply safe_from_cons in Hs as Hs'. destruct (log n !! _) as [x|] eqn:Hx; [case_if|].
    + inv_ok. by apply IH.
    + pose proof (conflict_above_commit _ _ _ _ _ _ Hs Hp Hx Hif) as Hc. inv_ok. db_inv.
      apply IH; [done| |done]. apply safe_from_push; [|by apply safe_from_truncate].
      apply (indices_ok (n <| log := truncate (prev + 1 + i - last_included_index n) (log n) |>)); [done|].
      by apply truncate_ok.
    + inv_ok. apply IH; [done| |done]. by apply safe_from_push.
Qed.

Lemma reconcile_log_np args n :
  (last_included_index n ≤ ae_prev_log_index args → append_safe args n) → node_ok n → np node_ok (reconcile_log args) n.
Proof.
  intros Hs Hn. unfold reconcile_log. do 2 rnp_step; [rnp|]. apply Nat.ltb_ge in Hif. specialize (Hs Hif).
  rnp_step; [rnp_step; [|rnp]|].
  - rnp_step.
    { pose proof (ok_head n Hn) as Hh. unfold head_ok in Hh. rnp_step; [|rnp]. injection Hh as Hh.
      rewrite Hh in *. rewrite N.eqb_sym, Hif1. rnp. }
    assert (s' = n) as ->.
    { pose proof (ok_head n Hn) as Hh. unfold head_ok in Hh. destruct (log n !! 0); [|by inv_ok].
      injection Hh as Hh. rewrite Hh, N.eqb_sym, Hif1 in H. by inv_ok. }
    rnp_step; [by apply append_at_snapshot_np|]. rnp.
  - rnp_step; [|rnp]. rnp_step; [|rnp]. rnp_step; [by apply truncate_conflict_np|].
    apply truncate_conflict_lii in H as Hl.
    rnp_step; [apply append_missing_np; [by rewrite Hl|done]|]. rnp.
Qed.

(** What stepping down leaves. *)
Lemma step_down_inv t h n a n' :
  step_down_to_follower t h n = (Ok a, n') →
  log n' = log n ∧ last_included_index n' = last_included_index n ∧
  commit_index n' = commit_index n ∧ current_term n' = N.max (current_term n) t.
Proof.
  unfold step_down_to_follower. intros H. inv_ok; db_inv; destruct h; simpl; split_and!; try done;
    try apply N.ltb_lt in Hif0; try apply N.ltb_ge in Hif0; lia.
Qed.

Lemma append_safe_same args n n' :
  log n' = log n → last_included_index n' = last_included_index n →
  commit_index n' = commit_index n → append_safe args n → append_safe args n'.
Proof. intros E1 E2 E3 H j e x. rewrite E1, E2, E3. apply H. Qed.

Lemma handle_append_entries_np args n :
  ((current_term n ≤ ae_term args)%N → last_included_index n ≤ ae_prev_log_index args → append_safe args n) →
  node_ok n → np node_ok (handle_append_entries args) n.
Proof.
  intros Hs Hn. unfold handle_append_entries. rnp_step. rnp_step; [|rnp]. rnp_step; [|rnp].
  apply N.leb_le in Hif. specialize (Hs Hif). rnp_step; [rnp|]. apply step_down_inv in H as (E1 & E2 & E3 & _).
  rnp_step; [rnp_step; idx|]. injection H as _ <-.
  rnp_step; [apply reconcile_log_np; [|done]; intros Hp; eapply append_safe_same; [..|apply Hs]; try done; simpl in Hp; lia|].
  rnp_step. rnp_step; [|rnp]. rnp_step; [|rnp]. apply andb_true_iff in Hif0 as [_ Hlt%Nat.ltb_lt].
  rnp_step. rnp_step; [|rnp]. rnp_step. apply commit_ok; [done| |lia].
  pose proof (ok_commit _ H2). lia.
Qed.

Lemma handle_request_vote_np args n : node_ok n → np node_ok (handle_request_vote args) n.
Proof. intros Hn. unfold handle_request_vote. rnp; idx. Qed.

Lemma handle_request_vote_response_np r n : node_ok n → np node_ok (handle_request_vote_response r) n.
Proof. intros Hn. unfold handle_request_vote_response. rnp; idx. Qed.

Lemma handle_append_entries_response_np r n :
  node_ok n → np node_ok (handle_append_entries_response r) n.
Proof. intros Hn. unfold handle_append_entries_response. rnp; idx. Qed.

Lemma handle_install_snapshot_np args n : node_ok n → np node_ok (handle_install_snapshot args) n.
Proof. intros Hn. unfold handle_install_snapshot. rnp; idx. Qed.

Lemma handle_install_snapshot_response_np r n :
  node_ok n → np node_ok (handle_install_snapshot_response r) n.
Proof.
  intros Hn. unfold handle_install_snapshot_response. do 2 rnp_step; [|rnp].
  rnp_step; [|rnp; idx]. rnp_step; [|rnp]. rnp_step; [apply set_progress_np; [by eapply position_lt|done]|].
  rnp. idx.
Qed.

(** The term counter is a [u64]. *)
Definition term_room (t : N) : Prop := (t + 1 < u64_mod)%N.

Lemma handle_timeout_now_np args n :
  (room → term_room (N.max (current_term n) (tn_term args))) → node_ok n → np node_ok (handle_timeout_now args) n.
Proof.
  unfold term_room. intros Ht Hn. unfold handle_timeout_now. do 2 rnp_step; [rnp|].
  rnp_step; [rnp|]. rnp_step; [|rnp]. apply candidacy_np; [|done]. intros Hroom. specialize (Ht Hroom).
  case_if; [apply step_down_inv in H as (_ & _ & _ & ->); done|]. inv_ok. lia.
Qed.
#[local] Hint Resolve handle_append_entries_np handle_request_vote_np handle_request_vote_response_np
  handle_append_entries_response_np handle_install_snapshot_np handle_install_snapshot_response_np
  handle_timeout_now_np : dfs.

(** ** Rounds *)

(** AppendEntries that the node does not refuse for their term, nor because they
    start before its snapshot, agree with what it has committed. *)
Definition event_safe (n : RaftNode) (ev : Event) : Prop :=
  match ev with
  | EvRpc (AppendEntries args) _ =>
      (current_term n ≤ ae_term args)%N → last_included_index n ≤ ae_prev_log_index args → append_safe args n
  | _ => True
  end.

(** An election the event starts has room in the term counter. *)
Definition event_room (n : RaftNode) (ev : Event) : Prop :=
  match ev with EvRpc (TimeoutNow args) _ => term_room (N.max (current_term n) (tn_term args)) | _ => True end.

Lemma append_own_np cmd n : node_ok n → np node_ok (append_own cmd) n.
Proof. intros Hn. unfold append_own. rnp. by apply push_ok. Qed.
#[local] Hint Resolve append_own_np : dfs.

Lemma handle_read_index_np tx n : node_ok n → np node_ok (handle_read_index tx) n.
Proof. intros Hn. unfold handle_read_index. rnp; idx. Qed.

(** The index an append of the node's own returns is that of its last entry. *)
Lemma append_own_inv cmd n i n' :
  append_own cmd n = (Ok i, n') → node_ok n → i = last_log_index_of n'.
Proof.
  unfold append_own. intros H Hn. inv_ok. unfold last_log_index in Hrun. inv_ok. by db_inv.
Qed.

Lemma handle_client_request_np cmd tx n : node_ok n → np node_ok (handle_client_request cmd tx) n.
Proof.
  intros Hn. unfold handle_client_request. rnp_step. rnp_step; [rnp|]. rnp_step; [rnp|].
  apply append_own_inv in H as ->; [|done]. rnp; try idx. apply andb_true_iff in Hif0 as [_ ?%Nat.ltb_lt].
  apply commit_ok; [done|lia|done].
Qed.
#[local] Hint Resolve handle_read_index_np handle_client_request_np : dfs.

Lemma handle_event_np ev n :
  event_safe n ev → (room → event_room n ev) → node_ok n → np node_ok (handle_event ev) n.
Proof.
  intros Hs Ht Hn. destruct ev as [msg tx|cmd tx|tx|tx|tx]; simpl; rnp; destruct msg; simpl in *; rnp.
Qed.

Lemma append_batch_np reqs acc n : node_ok n → np node_ok (append_batch reqs acc) n.
Proof.
  revert acc n. induction reqs as [|[cmd tx] reqs IH]; intros acc n Hn; simpl; [rnp|].
  rnp_step. cbv zeta. rnp_step; [rnp_step; by apply push_ok|]. rnp_step.
  pose proof (node_ok_nonempty _ H0). rnp_step; [lia|]. by apply IH.
Qed.

(** A failed write of the batch takes the new entries back. *)
Lemma rollback_np reqs n s' e (waiting : list (nat * nat)) :
  node_ok n → s' = n <| log := log n ++ batch_entries n reqs |> →
  ∀ s'', (∃ d, s'' = s' <| db := d |>) →
  np node_ok (do! modify (λ m, m <| log := truncate (length (log n)) (log m) |>) in
     do! for_each waiting (λ r, send_chan r.2 (WriteResult (inr None))) in fail (A := unit) e) s''.
Proof.
  intros Hn -> s'' [d ->]. rnp_step; [rnp_step|rnp].
  apply (indices_ok n); [|done]. unfold indices, truncate. simpl. by rewrite take_app_length.
Qed.

Lemma handle_client_batch_np reqs n : node_ok n → np node_ok (handle_client_batch reqs) n.
Proof.
  intros Hn. pose proof (node_ok_nonempty n Hn) as Hne. unfold handle_client_batch. rnp_step. cbv zeta.
  rnp_step; [by apply append_batch_np|].
  destruct (append_batch_run reqs ([], []) n Hne) as (w & Hrun). rewrite Hrun in H. injection H as <- <-.
  rnp_step; [rnp_step; [rnp|]|].
  - eapply rollback_np; [done|done|].
    pose proof (save_log_entries_batch_db_only (indexed (last_included_index n + length (log n))
      (batch_entries n reqs)) (n <| log := log n ++ batch_entries n reqs |>)) as Hdb.
    simpl in *. unfold kp in Hdb. by rewrite H in Hdb.
  - rnp; try idx.
    + pose proof (node_ok_nonempty _ H3). lia.
    + apply Nat.ltb_lt in Hif0. apply commit_ok; [done|lia|].
      pose proof (node_ok_nonempty _ H3). unfold last_log_index_of. lia.
Qed.

(** Every event of a list meets [C] when its turn comes. *)
Fixpoint each_in_turn (C : RaftNode → Event → Prop) (evs : list Event) (n : RaftNode) : Prop :=
  match evs with
  | [] => True
  | ev :: evs =>
      C n ev ∧
      match handle_event ev n with (Ok _, n') => each_in_turn C evs n' | _ => True end
  end.

Definition input_events (inp : Input) : list Event :=
  match inp with Tick => [] | Batch evs => filter (λ ev, client_request ev = None) (take 256 evs) end.

(** No message a round is given makes the node change what it has committed. *)
Definition input_safe (n : RaftNode) (inp : Input) : Prop := each_in_turn event_safe (input_events inp) n.

(** The elections a round may start have room in the term counter. *)
Definition input_room (n : RaftNode) (inp : Input) : Prop :=
  each_in_turn event_room (input_events inp) n ∧ (inp = Tick → term_room (current_term n)).

Lemma events_np evs n :
  each_in_turn event_safe evs n → (room → each_in_turn event_room evs n) → node_ok n →
  np node_ok (for_each evs handle_event) n.
Proof.
  revert n. induction evs as [|ev evs IH]; intros n Hs Ht Hn; simpl; [rnp|]. destruct Hs as [Hev Hs].
  rnp_step; [apply handle_event_np; [done|by intros []%Ht|done]|]. rewrite H in Hs.
  apply IH; [done| |done]. intros [_ Ht']%Ht. by rewrite H in Ht'.
Qed.

Lemma check_promote_np n : node_ok n → np node_ok check_promote_non_voting_members n.
Proof.
  intros Hn. unfold check_promote_non_voting_members, promote_non_voting_members. rnp. idx.
Qed.
Lemma check_finalize_np n : node_ok n → np node_ok check_finalize_joint_consensus n.
Proof. intros Hn. unfold check_finalize_joint_consensus. rnp. Qed.
#[local] Hint Resolve check_promote_np check_finalize_np handle_client_batch_np events_np
  start_election_np : dfs.

Lemma tick_np n : (room → term_room (current_term n)) → node_ok n → np node_ok tick n.
Proof.
  intros Ht Hn. unfold tick. rnp_step; [rnp_step; idx|]. injection H as _ <-. rnp_step. rnp.
Qed.

Lemma run_once_np inp n :
  input_safe n inp → (room → input_room n inp) → node_ok n → np node_ok (run_once inp) n.
Proof.
  intros Hs Ht Hn. destruct inp as [|evs]; simpl; rnp_step.
  - apply tick_np; [|done]. intros [_ Hroom]%Ht. by apply Hroom.
  - unfold handle_event_batch. rnp_step; [|rnp]. apply events_np; [done|by intros []%Ht|done].
Qed.

End safety.

Section rounds.
  Context {E : RaftEnv}.

(** A round of a well-formed node that does not panic leaves it well-formed. *)
Lemma round_keeps_ok inp n n' :
  node_ok n → input_safe n inp → run_once inp n = (Ok tt, n') → node_ok n'.
Proof.
  intros Hn Hs Hrun. destruct (run_once_np False inp n Hs ltac:(done) Hn) as [_ Hok]. rewrite Hrun in Hok. by apply Hok.
Qed.

Lemma round_runs inp n :
  node_ok n → input_safe n inp → input_room n inp → (run_once inp n).1 = Ok tt ∧ node_ok (run_once inp n).2.
Proof.
  intros Hn Hs Ht. destruct (run_once_np True inp n Hs (λ _, Ht) Hn) as [Hp Ho]. specialize (Hp I). split; [|by apply Ho].
  destruct inp; simpl in *; unfold ignore_err in *; by repeat case_match.
Qed.

(** C17. A round of a well-formed node does not panic, whichever database writes
    fail, and leaves the node well-formed: its indices stay ordered
    (snapshot <= applied <= committed <= last entry), its log keeps its dummy
    head, and every peer has its tracking entries. Conditions: AppendEntries that
    the node does not refuse for their term or for starting before its snapshot
    agree with its log on the entries it has committed when their turn comes, and
    an election the round starts does not exceed the 64 bits of the term. *)
Theorem round_no_panic inp n :
  node_ok n → input_safe n inp → input_room n inp →
  (run_once inp n).1 = Ok tt ∧ node_ok (run_once inp n).2.
Proof. apply round_runs. Qed.

Lemma fresh_ok cli now wall timeout i : node_ok (restart cli now wall timeout i empty_db).
Proof. by constructor; simpl; rewrite ?length_replicate. Qed.

End rounds.

Lemma round_no_panic_witness :
  node_ok (run_once Tick (at_time 2000 0 1500 (@restart demo_env (Demo.cli 1) 0 0 1500 1 empty_db))).2.
Proof.
  apply (round_no_panic (E := demo_env)).
  - apply (indices_ok (@restart demo_env (Demo.cli 1) 0 0 1500 1 empty_db)); [done|apply fresh_ok].
  - done.
  - by split; [|vm_compute].
Defined.
