(* ===== verification/RaftCommit.v ===== *)
(** * Commitment and application

    The leader commits the highest index a joint majority stores, and only at
    an entry of its own term; a node applies exactly the committed entries, in
    order. *)

From S2P Require Import Prelude BTree Sharding MasterState AppState ClusterConfig RaftNode RaftRpc RaftLoop RaftDemo RaftFrame RaftElection RaftLog RaftDurable RaftSafety.

Section commit.
  Context {E : RaftEnv}.

Notation RM := (M RaftNode).

(** ** Applying committed entries *)

(** The effect of one committed entry on the application state. *)
Definition apply_entry (wall : N) (a : AppState) (e : LogEntry) : AppState :=
  match command e with
  | CMembership _ => a
  | c => apply_command crc32 wall c a
  end.

(** What applying does not touch. *)
Definition applying (n n' : RaftNode) : Prop :=
  (commit_index n', last_applied n', app_state n', wall_clock n', log n', last_included_index n') =
  (commit_index n, last_applied n, app_state n, wall_clock n, log n, last_included_index n).

#[local] Instance applying_preorder : PreOrder applying.
Proof. unfold applying. split; [by intros n|]. intros a b c. congruence. Qed.

Lemma db_only_applying {A} (m : RM A) n : kp db_only m n → kp applying m n.
Proof. unfold kp. destruct (m n) as [[] ?]; [by intros [d ->]..|done]. Qed.

Lemma membership_applying cmd n : kp applying (apply_membership_command cmd) n.
Proof.
  destruct cmd; simpl; unfold remove_server_legacy, add_server_legacy, save_config; rkp; try done;
    try (apply db_only_applying, db_write_db_only). by case_if.
Qed.

(** One round applies the next entry. *)
Lemma apply_one_inv n n' e :
  apply_one n = (Ok tt, n') →
  log n !! (S (last_applied n) - last_included_index n) = Some e →
  (commit_index n', last_applied n', wall_clock n', log n', last_included_index n') =
  (commit_index n, S (last_applied n), wall_clock n, log n, last_included_index n) ∧
  app_state n' = apply_entry (wall_clock n) (app_state n) e.
Proof.
  unfold apply_one, check_read_indices, send_chan. intros H He.
  unfold bind at 1, modify at 1, bind at 1, get at 1 in H.
  apply bind_ok_inv in H as (i & s & Hi & H). apply usize_sub_inv in Hi as (-> & -> & Hle). simpl in H.
  rewrite He in H. unfold apply_entry. destruct (command e) eqn:Hc; inv_ok; try done.
  all: pose proof (kp_ok applying _ _ _ _ (membership_applying _ _) Hrun0) as [= E1 E2 E3 E4 E5 E6];
    simpl in *; split; congruence.
Qed.

Lemma apply_one_ne n : ne apply_one n.
Proof.
  unfold apply_one, usize_sub, check_read_indices, send_chan, apply_membership_command,
    remove_server_legacy, add_server_legacy. repeat ne_step.
Qed.

(** The committed entries that are not applied yet. *)
Definition to_apply (n : RaftNode) : list LogEntry :=
  take (commit_index n - last_applied n) (drop (S (last_applied n) - last_included_index n) (log n)).

Lemma apply_logs_run n :
  node_ok n →
  ∃ n', apply_logs n = (Ok tt, n') ∧
    last_applied n' = commit_index n ∧ commit_index n' = commit_index n ∧
    app_state n' = foldl (apply_entry (wall_clock n)) (app_state n) (to_apply n).
Proof.
  intros Hn. unfold apply_logs, to_apply, bind, get.
  remember (commit_index n - last_applied n) as fuel eqn:Hfuel.
  revert n Hn Hfuel. induction fuel as [|fuel IH]; intros n Hn Hfuel.
  { exists n. pose proof (ok_applied n Hn). split_and!; [done|lia|done|done]. }
  pose proof (ok_applied n Hn) as Ha. pose proof (ok_commit n Hn) as Hc.
  pose proof (node_ok_nonempty n Hn). unfold last_log_index_of in Hc.
  destruct (lookup_lt_is_Some_2 (log n) (S (last_applied n) - last_included_index n)) as [e He]; [lia|].
  simpl. unfold bind at 1, get at 1. destruct (Nat.ltb_spec (last_applied n) (commit_index n)); [|lia].
  destruct (apply_one_np True n Hn) as [Hp Hn']; [done|]. specialize (Hp I). specialize (Hn' Hp).
  assert (∃ n1, apply_one n = (Ok tt, n1)) as [n1 H1].
  { pose proof (apply_one_ne n) as Hne. unfold ne in Hne.
    destruct (apply_one n) as [[[]|err|w] n1] eqn:Hr; [eauto|by destruct (Hne err n1)|done]. }
  rewrite (bind_ok _ _ _ _ _ H1). rewrite H1 in Hn'. simpl in Hn'.
  destruct (apply_one_inv _ _ _ H1 He) as [[= E1 E2 E3 E4 E5] E6].
  destruct (IH n1 Hn') as (n2 & Hrun & Hla & Hci & Happ); [rewrite E1, E2; lia|].
  exists n2. rewrite (drop_S _ _ _ He). simpl. rewrite E1, E2, E3, E4, E5, E6 in *.
  split_and!; [done..|]. rewrite Happ. do 3 f_equal. lia.
Qed.

(** C18. [apply_logs] terminates, and applies exactly the committed entries after
    the last applied one, each once and in log order: the application state is
    the fold of the state machine over them. *)
Theorem apply_logs_applies_committed n :
  node_ok n →
  ∃ n', apply_logs n = (Ok tt, n') ∧
    last_applied n' = commit_index n ∧ commit_index n' = commit_index n ∧
    app_state n' = foldl (apply_entry (wall_clock n)) (app_state n) (to_apply n).
Proof. apply apply_logs_run. Qed.

(** ** The highest index of a majority *)

Lemma find_app {A} (f : A → bool) l l' :
  List.find f (l ++ l') = match List.find f l with Some x => Some x | None => List.find f l' end.
Proof. induction l as [|x l IH]; simpl; [done|]. by destruct (f x). Qed.

(** The first hit of a descending scan is the greatest. *)
Lemma find_reverse_greatest (f : nat → bool) l c :
  StronglySorted le l → c ∈ l → f c = true →
  ∃ m, List.find f (reverse l) = Some m ∧ c ≤ m ∧ f m = true.
Proof.
  induction 1 as [|x l Hs IH Hx]; [by intros ?%not_elem_of_nil|].
  rewrite reverse_cons, find_app. intros Hin Hf.
  destruct (List.find f (reverse l)) as [m|] eqn:Hm.
  - exists m. apply find_Some_elem in Hm as [Hml Hfm]. rewrite elem_of_reverse in Hml.
    split_and!; [done| |done]. apply elem_of_cons in Hin as [->|Hin].
    + by eapply Forall_forall in Hx.
    + destruct (IH Hin Hf) as (m' & [= <-] & ? & _). done.
  - apply elem_of_cons in Hin as [->|Hin].
    + exists x. simpl. by rewrite Hf.
    + by destruct (IH Hin Hf) as (m' & ? & _).
Qed.

Lemma elem_of_index_acks (indices : gmap nat nat) j v :
  v ∈ index_acks indices j ↔ ∃ i, indices !! v = Some i ∧ j ≤ i.
Proof.
  unfold index_acks. rewrite elem_of_dom. unfold is_Some. setoid_rewrite map_lookup_filter_Some. simpl.
  naive_solver.
Qed.

(** Of the stored indices, the least that reaches [j] has the acknowledgements of [j]. *)
Lemma index_acks_candidate (indices : gmap nat nat) j :
  index_acks indices j ≠ ∅ →
  ∃ c, c ∈ (map_to_list indices).*2 ∧ j ≤ c ∧ index_acks indices c = index_acks indices j.
Proof.
  intros [v Hv]%set_choose_L.
  set (X := list_to_set (C := gset nat) (filter (λ i, j ≤ i) (map_to_list indices).*2)).
  assert (∀ u i, indices !! u = Some i → j ≤ i → i ∈ X) as HX.
  { intros u i Hu Hi. apply elem_of_list_to_set, list_elem_of_filter. split; [done|].
    apply list_elem_of_fmap. exists (u, i). split; [done|]. by apply elem_of_map_to_list. }
  apply elem_of_index_acks in Hv as (iv & Hv & Hiv).
  destruct (minimal_exists_elem_of_L le X) as (c & Hc & Hmin); [set_solver|].
  pose proof Hc as Hc'. apply elem_of_list_to_set, list_elem_of_filter in Hc' as [Hjc Hin].
  exists c. split_and!; [done..|]. apply set_eq. intros u. rewrite !elem_of_index_acks. split.
  - intros (i & ? & ?). exists i. split; [done|lia].
  - intros (i & Hu & Hi). exists i. split; [done|].
    destruct (decide (c ≤ i)); [done|]. specialize (Hmin i (HX _ _ Hu Hi)). simpl in Hmin. lia.
Qed.

Lemma majority_nonempty c : has_joint_majority c ∅ = false.
Proof.
  assert (∀ m, majority m ∅ = false) as H.
  { intros m. unfold majority. apply Nat.ltb_ge.
    assert (filter (λ i, is_Some (m !! i)) (∅ : gset nat) = ∅) as -> by set_solver.
    rewrite size_empty. lia. }
  destruct c; simpl; by rewrite H.
Qed.

(** The index the leader computes is stored by a joint majority, and is the
    highest such index. *)
Lemma majority_match_index_highest n indices j :
  has_joint_majority (cluster_config n) (index_acks indices j) = true →
  j ≤ majority_match_index n indices ∧
  has_joint_majority (cluster_config n) (index_acks indices (majority_match_index n indices)) = true.
Proof.
  intros Hj. destruct (index_acks_candidate indices j) as (c & Hc & Hjc & Hacks).
  { intros H0. rewrite H0, majority_nonempty in Hj. done. }
  unfold majority_match_index.
  destruct (find_reverse_greatest
    (λ i, has_joint_majority (cluster_config n) (index_acks indices i))
    (merge_sort le (map_to_list indices).*2) c) as (m & -> & Hcm & Hm).
  - apply (StronglySorted_merge_sort le).
  - by rewrite merge_sort_Permutation.
  - by rewrite Hacks.
  - simpl. split; [lia|done].
Qed.

Lemma majority_match_index_default n indices :
  majority_match_index n indices = commit_index n ∨
  has_joint_majority (cluster_config n) (index_acks indices (majority_match_index n indices)) = true.
Proof.
  unfold majority_match_index. destruct (List.find _ _) as [m|] eqn:Hm; [right|by left].
  by apply find_Some_elem in Hm as [_ ?].
Qed.

(** Leader commitment: when the leader advances its commit index, the new
    index is stored by a joint majority of the configuration, no higher index
    is, its entry has the leader's current term, and everything up to it is
    applied. When it does not advance, every index a joint majority stores is
    committed already or the highest such entry is from an earlier term. *)
Theorem leader_commits_current_term n :
  node_ok n →
  let stored := server_match_indices n (last_log_index_of n) in
  let quorum i := has_joint_majority (cluster_config n) (index_acks stored i) in
  let m := majority_match_index n stored in
  ∃ n', advance_commit n = (Ok tt, n') ∧
    (commit_index n' ≠ commit_index n →
       commit_index n < commit_index n' ∧ quorum (commit_index n') = true ∧
       (∀ j, quorum j = true → j ≤ commit_index n') ∧
       (∃ e, log n !! (commit_index n' - last_included_index n) = Some e ∧ term e = current_term n) ∧
       last_applied n' = commit_index n') ∧
    (commit_index n' = commit_index n →
       ∀ j, quorum j = true → j ≤ commit_index n ∨
         ∀ e, log n !! (m - last_included_index n) = Some e → term e ≠ current_term n).
Proof.
  intros Hn stored quorum m. unfold advance_commit.
  rewrite bind_last_log_index by by apply node_ok_nonempty. unfold bind at 1, get at 1.
  fold stored m. pose proof (ok_applied n Hn) as Ha.
  assert (∀ j, quorum j = true → j ≤ m) as Hhigh by (intros j Hj; by apply majority_match_index_highest).
  destruct (Nat.ltb_spec (commit_index n) m) as [Hlt|Hge].
  2: { exists n. split_and!; [done|done|]. intros _ j Hj. left. specialize (Hhigh j Hj). lia. }
  assert (quorum m = true) as Hq.
  { destruct (majority_match_index_default n stored) as [Hd|Hd]; [|done]. fold m in Hd. lia. }
  rewrite bind_usize_sub by lia.
  destruct (log n !! (m - last_included_index n)) as [e|] eqn:He.
  2: { exists n. split_and!; [done|done|]. intros _ j Hj. right. congruence. }
  destruct (N.eqb_spec (term e) (current_term n)) as [Ht|Ht].
  2: { exists n. split_and!; [done|done|]. intros _ j Hj. right. congruence. }
  destruct (apply_logs_run (n <| commit_index := m |>)) as (n' & Hrun & Hla & Hci & _).
  { apply commit_ok; [done|lia|]. apply lookup_lt_Some in He. unfold last_log_index_of. lia. }
  exists n'. simpl in *. unfold bind, modify. rewrite Hrun, Hci. split_and!; [done| |lia].
  intros _. split_and!; [done..|by eauto|by rewrite Hla].
Qed.

End commit.

(** A follower that learns that its three entries are committed. *)
Definition demo_lagging : @RaftNode demo_env := demo_follower <| last_applied := 0 |>.

Lemma demo_lagging_ok : node_ok demo_lagging.
Proof. constructor; vm_compute; (done || lia). Qed.

Lemma apply_logs_applies_committed_witness :
  ∃ n', apply_logs demo_lagging = (Ok tt, n') ∧ last_applied n' = 3.
Proof.
  destruct (apply_logs_applies_committed (E := demo_env) demo_lagging) as (n' & Hrun & Hla & _);
    [apply demo_lagging_ok|]. exists n'. split; [exact Hrun|exact Hla].
Defined.

(** The leader of term 1 learns that one of its two peers stores its first entry. *)
Definition demo_leader : @RaftNode demo_env :=
  restart (Demo.cli 1) 0 0 1500 1 empty_db
    <| role := Leader |> <| current_term := 1%N |>
    <| log := [mkLogEntry 0 NoOp; mkLogEntry 1 NoOp] |> <| match_index := [1; 0] |>.

Lemma demo_leader_ok : node_ok demo_leader.
Proof. constructor; vm_compute; (done || lia). Qed.

Lemma leader_commits_current_term_witness :
  ∃ n', advance_commit demo_leader = (Ok tt, n') ∧ commit_index n' = 1 ∧ last_applied n' = 1.
Proof.
  destruct (leader_commits_current_term (E := demo_env) demo_leader) as (n' & Hrun & Hc & _);
    [apply demo_leader_ok|]. exists n'.
  assert (commit_index n' = 1) as Hci.
  { transitivity (commit_index (advance_commit demo_leader).2); [by rewrite Hrun|by vm_compute]. }
  split; [exact Hrun|]. split; [exact Hci|]. rewrite Hci in Hc.
  destruct Hc as (_ & _ & _ & _ & Hla); [by vm_compute|]. exact Hla.
Defined.
