(* ===== verification/RaftMatching.v ===== *)
(** * Logs that grow from the logs of the leaders

    The lists behind Raft's log matching and leader completeness: logs every
    prefix of which is a prefix of some leader's log, what AppendEntries does to
    them, and the log of a node together with its compacted part. *)

From S2P Require Import Prelude BTree Sharding MasterState AppState ClusterConfig RaftNode RaftRpc RaftLoop RaftDemo RaftFrame RaftElection RaftLog RaftDurable.

(** [G t] is the longest log the leader of term [t] has had. *)
Definition consistent (G : N → list LogEntry) (l : list LogEntry) : Prop :=
  ∀ k e, l !! k = Some e → take (S k) l `prefix_of` G (term e).

(** Terms do not decrease along the log. *)
Definition ordered (l : list LogEntry) : Prop :=
  ∀ i j x y, i ≤ j → l !! i = Some x → l !! j = Some y → (term x ≤ term y)%N.

Lemma consistent_mono (G G' : N → list LogEntry) l : (∀ t, G t `prefix_of` G' t) → consistent G l → consistent G' l.
Proof. intros HG Hl k e Hk. etrans; [by apply Hl|apply HG]. Qed.

Lemma consistent_prefix G l l' : l' `prefix_of` l → consistent G l → consistent G l'.
Proof.
  intros [r ->] Hl k e Hk. pose proof (lookup_lt_Some _ _ _ Hk). specialize (Hl k e).
  rewrite lookup_app_l, take_app_le in Hl by lia. by apply Hl.
Qed.

Lemma consistent_app G l es t :
  consistent G l → G t = l ++ es → Forall (λ e, term e = t) es → consistent G (l ++ es).
Proof.
  intros Hl HG Hes k x Hk. apply lookup_app_Some in Hk as [Hk|[Hge Hk]].
  - pose proof (lookup_lt_Some _ _ _ Hk). rewrite take_app_le by lia. by apply Hl.
  - rewrite (Forall_lookup_1 _ _ _ _ Hes Hk), HG. apply prefix_take.
Qed.

(** A consistent log is a prefix of the log of the leader its last entry is from. *)
Lemma consistent_last G l e : consistent G l → last l = Some e → l `prefix_of` G (term e).
Proof.
  intros Hl Hlast. rewrite last_lookup in Hlast. pose proof (lookup_lt_Some _ _ _ Hlast). specialize (Hl _ _ Hlast).
  by rewrite take_ge in Hl by lia.
Qed.

Lemma consistent_Forall (P : LogEntry → Prop) G l : consistent G l → (∀ t, Forall P (G t)) → Forall P l.
Proof.
  intros Hl HP. destruct (last l) as [e|] eqn:Hlast; [|by apply last_None in Hlast as ->].
  destruct (consistent_last _ _ _ Hl Hlast) as [r Hr]. specialize (HP (term e)). rewrite Hr in HP. by apply Forall_app in HP as [? _].
Qed.

Lemma ordered_prefix l l' : l' `prefix_of` l → ordered l → ordered l'.
Proof. intros Hp Hl i j x y Hij Hx Hy. eapply Hl; [exact Hij|by eapply prefix_lookup_Some|by eapply prefix_lookup_Some]. Qed.

Lemma consistent_ordered G l : consistent G l → (∀ t, ordered (G t)) → ordered l.
Proof.
  intros Hl HG. destruct (last l) as [e|] eqn:Hlast; [|apply last_None in Hlast as ->; by intros i j x y _ ?].
  eapply ordered_prefix; [by eapply consistent_last|apply HG].
Qed.

Lemma ordered_app l es t : ordered l → Forall (λ e, (term e ≤ t)%N) l → Forall (λ e, term e = t) es → ordered (l ++ es).
Proof.
  intros Hl Ht Hes i j x y Hij Hx Hy. apply lookup_app_Some in Hy as [Hy|[Hge Hy]].
  - apply lookup_lt_Some in Hy as Hlt. rewrite lookup_app_l in Hx by lia. by apply (Hl i j).
  - pose proof (Forall_lookup_1 _ _ _ _ Hes Hy) as Hyt. cbn in Hyt. rewrite Hyt. apply lookup_app_Some in Hx as [Hx|[_ Hx]].
    + by apply (Forall_lookup_1 _ _ _ _ Ht Hx).
    + by rewrite (Forall_lookup_1 _ _ _ _ Hes Hx).
Qed.

(** An entry determines the log up to it. *)
Lemma consistent_agree G l1 l2 k e1 e2 :
  consistent G l1 → consistent G l2 → l1 !! k = Some e1 → l2 !! k = Some e2 → term e1 = term e2 → take (S k) l1 = take (S k) l2.
Proof.
  intros H1 H2 Hk1 Hk2 Ht. pose proof (H1 _ _ Hk1) as Hp1. pose proof (H2 _ _ Hk2) as Hp2. rewrite <- Ht in Hp2.
  apply lookup_lt_Some in Hk1, Hk2. destruct Hp1 as [r1 E1], Hp2 as [r2 E2].
  rewrite E1 in E2. apply app_inj_1 in E2 as [? _]; [done|]. rewrite !length_take. lia.
Qed.

(** ** Merging *)

Lemma merge_of_prefix l es : es `prefix_of` l → merge l es = l.
Proof. intros [r ->]. induction es as [|e es IH]; cbn; [done|]. by rewrite N.eqb_refl, IH. Qed.

(** Merging one consistent log into another gives one of the two. *)
Lemma merge_cases G a l es :
  consistent G (a ++ l) → consistent G (a ++ es) → (merge l es = l ∧ es `prefix_of` l) ∨ merge l es = es.
Proof.
  revert a l. induction es as [|e es IH]; intros a l Hl Hes; [left; split; [done|apply prefix_nil]|]. destruct l as [|x l]; [by right|]. cbn.
  destruct (term x =? term e)%N eqn:Ht; [|by right]. apply N.eqb_eq in Ht.
  assert (take (S (length a)) (a ++ x :: l) = take (S (length a)) (a ++ e :: es)) as Hag.
  { eapply consistent_agree; [done|done|by apply list_lookup_middle|by apply list_lookup_middle|done]. }
  assert (x = e) as <-.
  { assert (take (S (length a)) (a ++ x :: l) !! length a = Some x) as Hx by (rewrite lookup_take_lt by lia; by apply list_lookup_middle).
    rewrite Hag, lookup_take_lt, list_lookup_middle in Hx by lia. congruence. }
  destruct (IH (a ++ [x]) l) as [[-> ?] | ->]; rewrite <- ?app_assoc; auto. left. split; [done|by apply prefix_cons].
Qed.

Section reconcile.
  Context (G : N → list LogEntry) (l l0 : list LogEntry) (p : nat) (x y : LogEntry).
  Context (Hl : consistent G l) (Hl0 : consistent G l0) (Hx : l !! p = Some x) (Hy : l0 !! p = Some y) (Hxy : term x = term y).

(** [l] after the message that carries [l0] from index [S p] on. *)
Definition reconciled : list LogEntry := take (S p) l ++ merge (drop (S p) l) (drop (S p) l0).

Lemma reconciled_agree : take (S p) l = take (S p) l0.
Proof. by eapply consistent_agree. Qed.

Lemma reconciled_cases : (reconciled = l ∧ l0 `prefix_of` l) ∨ reconciled = l0.
Proof.
  unfold reconciled. pose proof reconciled_agree as Hag. pose proof Hl as H1. pose proof Hl0 as H2.
  rewrite <- (take_drop (S p) l) in H1. rewrite <- (take_drop (S p) l0), <- Hag in H2.
  destruct (merge_cases _ _ _ _ H1 H2) as [[-> Hp] | ->]; [left|right; by rewrite Hag, take_drop].
  rewrite take_drop. split; [done|]. rewrite <- (take_drop (S p) l), <- (take_drop (S p) l0), <- Hag. by apply prefix_app.
Qed.

Lemma reconciled_consistent : consistent G reconciled.
Proof. destruct reconciled_cases as [[-> _] | ->]; done. Qed.

(** The log has all that was sent. *)
Lemma reconciled_takes : l0 `prefix_of` reconciled.
Proof. by destruct reconciled_cases as [[-> ?] | ->]. Qed.

(** And it keeps what it shares with the log of the sender's leader. *)
Lemma reconciled_keeps (g q : list LogEntry) :
  l0 `prefix_of` g → q `prefix_of` g → q `prefix_of` l → q `prefix_of` reconciled.
Proof.
  intros H0 Hg Hq. destruct (prefix_weak_total _ _ _ H0 Hg) as [Hp|Hp].
  - assert (l0 `prefix_of` l) as [r Hr] by by transitivity q. pose proof reconciled_agree as Hag.
    enough (reconciled = l) as -> by done. unfold reconciled. rewrite merge_of_prefix; [by rewrite take_drop|].
    rewrite Hr. rewrite drop_app_le by (apply lookup_lt_Some in Hy; lia). by eexists.
  - transitivity l0; [done|apply reconciled_takes].
Qed.
End reconcile.

(** ** The election restriction *)

(** The log of leader [t] up to index [k] is a part of [l]. *)
Definition has (G : N → list LogEntry) (t : N) (k : nat) (l : list LogEntry) : Prop := take (S k) (G t) `prefix_of` l.

(** The entry of leader [t] at index [k] is from its own term. *)
Definition own (G : N → list LogEntry) (t : N) (k : nat) : Prop := ∃ e, G t !! k = Some e ∧ term e = t.

Lemma own_lt G t k : own G t k → k < length (G t).
Proof. intros (e & He & _). by apply lookup_lt_Some in He. Qed.

Lemma has_same (G G' : N → list LogEntry) t k l : G t `prefix_of` G' t → k < length (G t) → has G t k l ↔ has G' t k l.
Proof. intros [r Hr] Hk. unfold has. rewrite Hr, take_app_le by lia. done. Qed.

Lemma own_same (G G' : N → list LogEntry) t k : G t `prefix_of` G' t → k < length (G t) → own G t k ↔ own G' t k.
Proof. intros [r Hr] Hk. unfold own. by rewrite Hr, lookup_app_l by lia. Qed.

Lemma has_mono G t k l l' : l `prefix_of` l' → has G t k l → has G t k l'.
Proof. unfold has. intros Hp Hh. by transitivity l. Qed.

(** A candidate whose log is at least as up to date as the log of a voter has
    what the voter has of an earlier leader's log, when the leaders in between
    have it too. *)
Lemma up_to_date_has G (V L : list LogEntry) xv xl t k :
  (∀ u, ordered (G u)) → Forall (λ e, (term e ≤ t)%N) (G t) →
  consistent G V → consistent G L → last V = Some xv → last L = Some xl →
  (term xv < term xl)%N ∨ term xl = term xv ∧ length V ≤ length L →
  own G t k → has G t k V → ((t < term xl)%N → has G t k (G (term xl))) → has G t k L.
Proof.
  intros Hord Ht HV HL HlV HlL Hup (e & He & Het) HhV Hbetween. unfold has in *.
  pose proof (lookup_lt_Some _ _ _ He) as Hk.
  assert (V !! k = Some e) as HVk. { eapply prefix_lookup_Some; [|exact HhV]. by rewrite lookup_take_lt by lia. }
  pose proof (lookup_lt_Some _ _ _ HVk) as HkV.
  assert (t ≤ term xv)%N as Htv.
  { rewrite <- Het. rewrite last_lookup in HlV. eapply (consistent_ordered G V HV Hord); [|exact HVk|exact HlV]. lia. }
  pose proof (consistent_last _ _ _ HL HlL) as HpL. destruct (decide (term xl = t)) as [Heq|Hne].
  - assert (length V ≤ length L) as Hlen by (destruct Hup as [|[_ ?]]; [lia|done]). rewrite Heq in HpL.
    destruct (prefix_weak_total _ _ _ HpL (prefix_take (G t) (S k))) as [Hp|]; [|done].
    assert (length L = S k) as HLk by (pose proof (prefix_length _ _ Hp); rewrite length_take in *; lia).
    destruct Hp as [r Hr]. assert (length r = 0) as ->%nil_length_inv by (apply (f_equal length) in Hr; rewrite length_app, length_take in Hr; lia).
    rewrite app_nil_r in Hr. by rewrite Hr.
  - assert (t < term xl)%N as Htl by (destruct Hup as [|[? _]]; lia).
    destruct (prefix_weak_total _ _ _ HpL (Hbetween Htl)) as [Hp|]; [|done]. exfalso.
    assert (xl ∈ G t) as Hin.
    { rewrite last_lookup in HlL. eapply prefix_lookup_Some in HlL; [|exact Hp]. apply list_elem_of_lookup_2 in HlL.
      by apply elem_of_take in HlL as (i & ? & _); eapply list_elem_of_lookup_2. }
    pose proof (proj1 (Forall_forall _ _) Ht xl Hin) as Hle. cbn in Hle. lia.
Qed.

Section views.
  Context {E : RaftEnv}.

(** ** The log of a node and its compacted part *)

(** [full] is the log of the node with the entries that it has compacted. *)
Record views (full : list LogEntry) (n : RaftNode) : Prop := {
  vw_point : ∃ e, full !! last_included_index n = Some e ∧ term e = last_included_term n;
  vw_log : log n = mkLogEntry (last_included_term n) NoOp :: drop (S (last_included_index n)) full;
}.

Lemma views_term full n i :
  views full n → last_included_index n ≤ i → term <$> log n !! (i - last_included_index n) = term <$> full !! i.
Proof.
  intros [(e & He & Ht) Hlog] Hi. rewrite Hlog. destruct (i - last_included_index n) as [|j] eqn:Hj.
  - replace i with (last_included_index n) by lia. rewrite He. cbn. by rewrite Ht.
  - change (term <$> drop (S (last_included_index n)) full !! j = term <$> full !! i). rewrite lookup_drop. do 2 f_equal. lia.
Qed.

Lemma views_entry full n i :
  views full n → last_included_index n < i → log n !! (i - last_included_index n) = full !! i.
Proof.
  intros [_ Hlog] Hi. rewrite Hlog. destruct (i - last_included_index n) as [|j] eqn:Hj; [lia|].
  change (drop (S (last_included_index n)) full !! j = full !! i). rewrite lookup_drop. f_equal. lia.
Qed.

Lemma views_drop full n i : views full n → last_included_index n < i → drop (i - last_included_index n) (log n) = drop i full.
Proof.
  intros [_ Hlog] Hi. rewrite Hlog. destruct (i - last_included_index n) as [|j] eqn:Hj; [lia|].
  change (drop j (drop (S (last_included_index n)) full) = drop i full). rewrite drop_drop. f_equal. lia.
Qed.

Lemma views_has_entry full n i t :
  views full n → has_entry n i t = true → last_included_index n ≤ i ∧ ∃ e, full !! i = Some e ∧ term e = t.
Proof.
  intros Hv [Hi%Nat.leb_le Ht]%andb_true_iff. split; [done|]. pose proof (views_term _ _ _ Hv Hi) as Hw.
  destruct (log n !! _) as [e|]; [|done]. apply N.eqb_eq in Ht. destruct (full !! i) as [x|]; [|done]. cbn in Hw. exists x. split; [done|congruence].
Qed.

Lemma views_merged full n prev es m :
  views full n → last_included_index n ≤ prev → prev < length full →
  views (take (S prev) full ++ merge (drop (S prev) full) es) (with_log (merged n prev es) m n).
Proof.
  intros Hv Hle Hlt. pose proof Hv as [(e & He & Ht) Hlog]. split; cbn.
  - exists e. rewrite lookup_app_l by (rewrite length_take; lia). by rewrite lookup_take_lt by lia.
  - unfold merged. replace (prev + 1 - last_included_index n) with (S prev - last_included_index n) by lia.
    rewrite (views_drop full n (S prev)) by (done || lia). rewrite Hlog.
    replace (S prev - last_included_index n) with (S (prev - last_included_index n)) by lia. 
    rewrite firstn_cons. cbn [app]. f_equal.
    rewrite drop_app_le by (rewrite length_take; lia). f_equal. rewrite firstn_skipn_comm. do 2 f_equal. lia.
Qed.

Lemma views_push full n n' es :
  views full n → log n' = log n ++ es → last_included_index n' = last_included_index n → last_included_term n' = last_included_term n →
  views (full ++ es) n'.
Proof.
  intros [(e & He & Ht) Hlog] Hl Hi Hit. pose proof (lookup_lt_Some _ _ _ He). split; rewrite ?Hi, ?Hit.
  - exists e. by rewrite lookup_app_l.
  - rewrite Hl, Hlog. cbn [app]. f_equal. by rewrite drop_app_le by lia.
Qed.

Lemma views_same full n n' :
  (log n', last_included_index n', last_included_term n') = (log n, last_included_index n, last_included_term n) → views full n → views full n'.
Proof. intros [= E1 E2 E3] [Hp Hl]. split; by rewrite ?E1, ?E2, ?E3. Qed.

(** The last entry of the compacted log stands for the last entry of the log. *)
Lemma views_last full n :
  views full n → ∃ e x, log n !! (length (log n) - 1) = Some e ∧ last full = Some x ∧ term x = term e ∧ last_log_index_of n = length full - 1.
Proof.
  intros Hv. pose proof Hv as [(e & He & Ht) Hlog]. pose proof (lookup_lt_Some _ _ _ He) as Hlt.
  assert (length (log n) = S (length full - S (last_included_index n))) as Hlen by (rewrite Hlog; cbn; by rewrite length_drop).
  destruct (lookup_lt_is_Some_2 (log n) (length (log n) - 1)) as [y Hy]; [lia|].
  destruct (lookup_lt_is_Some_2 full (length full - 1)) as [x Hx]; [lia|]. exists y, x. rewrite last_lookup.
  replace (pred (length full)) with (length full - 1) by lia. split_and!; [done|done| |unfold last_log_index_of; lia].
  pose proof (views_term full n (length full - 1) Hv ltac:(lia)) as Hw.
  replace (length full - 1 - last_included_index n) with (length (log n) - 1) in Hw by lia. rewrite Hy, Hx in Hw. by injection Hw.
Qed.

End views.
