(* ===== verification/RaftGhost.v ===== *)
(** * The invariant behind leader completeness

    Ghost state of a cluster: the ballots, the log of the leader of every term,
    the log every candidate stood with, and what every node has accepted from
    which leader. The invariant of the ghost state, and of a node under it;
    what each kind of step of a node does to them. *)

From S2P Require Import Prelude BTree Sharding MasterState AppState ClusterConfig RaftNode RaftRpc RaftLoop RaftDemo RaftFrame RaftElection RaftLog RaftDurable RaftMatching.

(** A command that is not about membership. *)
Definition data_command (c : Command) : bool := match c with CMembership _ => false | _ => true end.

Definition data (e : LogEntry) : Prop := data_command (command e) = true.

Lemma data_plain_command c : data_command c = true → plain_command c = true.
Proof. by destruct c. Qed.

Lemma data_plain e : data e → plain e.
Proof. apply data_plain_command. Qed.

Section ghost.
  Context {E : RaftEnv} (requester : nat → nat) (cluster : gmap nat Cli).

Notation RM := (M RaftNode).
Notation quorum := (cluster_quorum cluster).

(** ** Ghost state *)

Record ghost : Type := mkGhost {
  gB : ballots;
  gG : N → list LogEntry;         (* the longest log of the leader of a term *)
  gLed : nat → N → Prop;
  gT : nat → N;                   (* the term of a node *)
  gA : nat → N → nat → Prop;      (* what a node has accepted of a leader's log *)
  gC : nat → N → list LogEntry;   (* the log a candidate stood with *)
}.

(** Index [k] of leader [t] may be, or become, accepted by a quorum. *)
Definition possible (g : ghost) (t : N) (k : nat) : Prop :=
  ∃ Q, quorum Q ∧ ∀ q, q ∈ Q → (gT g q ≤ t)%N ∨ gA g q t k.

Definition committed (g : ghost) (t : N) (k : nat) : Prop :=
  own (gG g) t k ∧ ∃ Q, quorum Q ∧ ∀ q, q ∈ Q → gA g q t k.

Lemma committed_possible g t k : committed g t k → possible g t k.
Proof. intros (_ & Q & HQ & Hq). exists Q. auto. Qed.

Record global (g : ghost) : Prop := {
  gl_functional : functional (gB g);
  gl_led c t : gLed g c t → elected quorum (gB g) c t;
  gl_origin t : gG g t = [] ∨ t = 0%N ∨ ∃ c, gLed g c t;
  gl_consistent t : consistent (gG g) (gG g t);
  gl_ordered t : ordered (gG g t);
  gl_terms t : Forall (λ e, (term e ≤ t)%N) (gG g t);
  gl_data t : Forall data (gG g t);
  gl_voted q t c : gB g q t c → (t ≤ gT g q)%N ∧ (t ≤ gT g c)%N;
  gl_acked q t k : gA g q t k → k < length (gG g t) ∧ (t ≤ gT g q)%N;
  gl_down q t j k : gA g q t k → j ≤ k → gA g q t j;
  gl_stood c t : consistent (gG g) (gC g c t) ∧ Forall (λ e, (term e < t)%N) (gC g c t);
  gl_complete t t' k : (t < t')%N → own (gG g) t k → possible g t k → gG g t' ≠ [] → has (gG g) t k (gG g t');
  gl_votes v t' c t k : gB g v t' c → (t < t')%N → gA g v t k → own (gG g) t k → possible g t k → has (gG g) t k (gC g c t');
}.

(** What node [p] may do to the ghost state. *)
Record grows (p : nat) (g g' : ghost) : Prop := {
  gr_ballots : extends p (gB g) (gB g');
  gr_logs t : gG g t `prefix_of` gG g' t;
  gr_led c t : gLed g c t → gLed g' c t;
  gr_others c t : c ≠ p → gLed g' c t → gLed g c t;
  gr_own t : gG g' t = gG g t ∨ gLed g' p t;
  gr_term q : (gT g q ≤ gT g' q)%N;
  gr_term_other q : q ≠ p → gT g' q = gT g q;
  gr_ack q t k : gA g q t k → gA g' q t k;
  gr_new q t k : gA g' q t k → gA g q t k ∨ q = p ∧ (gT g p ≤ t)%N;
  gr_stood c t : gC g' c t = gC g c t ∨ c = p ∧ (gT g p < t)%N;
}.

Lemma grows_refl p g : grows p g g.
Proof. split; auto; try reflexivity. by split. Qed.

Lemma grows_trans p g1 g2 g3 : grows p g1 g2 → grows p g2 g3 → grows p g1 g3.
Proof.
  intros [[Hb1 Hb1'] HG1 HL1 Ho1 Hw1 Ht1 Hto1 Ha1 Hn1 Hs1] [[Hb2 Hb2'] HG2 HL2 Ho2 Hw2 Ht2 Hto2 Ha2 Hn2 Hs2]. split; auto.
  - split; auto.
  - intros t. etrans; [apply HG1|apply HG2].
  - intros t. destruct (Hw2 t) as [->|]; [|by right]. destruct (Hw1 t); auto.
  - intros q. etrans; [apply Ht1|apply Ht2].
  - intros q Hq. rewrite Hto2, Hto1; done.
  - intros q t k Hq. destruct (Hn2 q t k Hq) as [Hq2|[? ?]]; [auto|]. right. split; [done|]. etrans; [apply Ht1|done].
  - intros c t. destruct (Hs2 c t) as [->|[? ?]]; [auto|]. right. split; [done|]. eapply N.le_lt_trans; [apply Ht1|done].
Qed.

(** What may be committed later could be before. *)
Lemma possible_before p g g' t k : grows p g g' → possible g' t k → possible g t k.
Proof.
  intros Hgr (Q & HQ & Hq). exists Q. split; [done|]. intros q Hin. destruct (Hq q Hin) as [?|Ha].
  - left. etrans; [by apply Hgr|done].
  - destruct (gr_new _ _ _ Hgr _ _ _ Ha) as [?|[-> ?]]; auto.
Qed.

Lemma committed_mono p g g' t k : grows p g g' → committed g t k → committed g' t k.
Proof.
  intros Hgr (Ho & Q & HQ & Hq). split.
  - by apply (own_same (gG g)); [apply Hgr|by apply own_lt|].
  - exists Q. split; [done|]. intros q Hin. by apply Hgr, Hq.
Qed.

Lemma elected_extends p (quo : gset nat → Prop) B B' c t : extends p B B' → elected quo B c t → elected quo B' c t.
Proof. intros [He _] (Q & HQ & Hq). exists Q. split; [done|]. intros v Hv. by apply He, Hq. Qed.

(** ** Messages *)

(** [l] is known to be committed up to index [ci], by leaders up to term [t]. *)
Definition commit_ok (g : ghost) (l : list LogEntry) (t : N) (ci : nat) : Prop :=
  ci = 0 ∨ ∃ u k, committed g u k ∧ (u ≤ t)%N ∧ ci ≤ k ∧ take (S ci) (gG g u) `prefix_of` l.

(** An AppendEntries message is a part of the log of the leader of its term. *)
Definition append_ok (g : ghost) (a : AppendEntriesArgs) : Prop :=
  ∃ l e, l `prefix_of` gG g (ae_term a) ∧ l !! ae_prev_log_index a = Some e ∧ term e = ae_prev_log_term a ∧
    ae_entries a = drop (S (ae_prev_log_index a)) l ∧ commit_ok g l (ae_term a) (ae_leader_commit a).

(** A vote request describes the log its candidate stood with. *)
Definition vote_request_ok (g : ghost) (a : RequestVoteArgs) : Prop :=
  let l := gC g (rv_candidate_id a) (rv_term a) in
  (rv_term a ≤ gT g (rv_candidate_id a))%N ∧
  ∃ e, last l = Some e ∧ term e = rv_last_log_term a ∧ rv_last_log_index a = length l - 1.

(** A positive reply is about what the node has accepted. *)
Definition append_reply_ok (g : ghost) (r : AppendEntriesReply) : Prop :=
  aer_success r = true → gA g (aer_peer_id r) (aer_term r) (aer_match_index r).

Definition message_ok (g : ghost) (m : RpcMessage) : Prop :=
  match m with
  | AppendEntries a => append_ok g a
  | RequestVote a => vote_request_ok g a
  | AppendEntriesResponse r => append_reply_ok g r
  | _ => True
  end.

Definition answer_ok (g : ghost) (m : ChanMessage) : Prop :=
  match m with RpcReply m => message_ok g m | _ => True end.

Lemma commit_ok_mono p g g' l l' t t' ci ci' :
  grows p g g' → l `prefix_of` l' → (t ≤ t')%N → ci' ≤ ci → commit_ok g l t ci → commit_ok g' l' t' ci'.
Proof.
  intros Hgr Hl Ht Hci [->|(u & k & Hc & Hu & Hk & Hp)]; [left; lia|]. right. exists u, k.
  split_and!; [by eapply committed_mono|lia|lia|]. transitivity l; [|done]. transitivity (take (S ci) (gG g u)); [|done].
  assert (k < length (gG g u)) by (by apply own_lt, Hc). destruct (gr_logs _ _ _ Hgr u) as [r ->]. rewrite take_app_le by lia.
  replace (S ci') with (S ci' `min` S ci) by lia. rewrite <- take_take. apply prefix_take.
Qed.

(** The committed part of a log is a part of the log of any leader it is known from or later. *)
Lemma commit_ok_leader g l t ci :
  global g → commit_ok g l t ci → gG g t ≠ [] → ci = 0 ∨ take (S ci) l `prefix_of` gG g t ∧ ci < length l.
Proof.
  intros Hg [->|(u & k & Hc & Hu & Hk & Hp)] Hne; [by left|right].
  assert (k < length (gG g u)) as Hlt by (by apply own_lt, Hc).
  assert (length (take (S ci) (gG g u)) = S ci) as Hlen by (rewrite length_take; lia).
  pose proof (prefix_length _ _ Hp) as Hle. rewrite Hlen in Hle. split; [|lia].
  destruct Hp as [r Hr]. rewrite Hr, take_app_le, take_ge by lia.
  assert (take (S ci) (gG g u) `prefix_of` take (S k) (gG g u)) as Hsub.
  { replace (S ci) with (S ci `min` S k) by lia. rewrite <- take_take. apply prefix_take. }
  destruct (decide (u = t)) as [->|Hne']; [apply prefix_take|]. transitivity (take (S k) (gG g u)); [done|].
  apply Hg; [lia|apply Hc|by apply committed_possible|done].
Qed.

Lemma message_ok_mono p g g' m : grows p g g' → message_ok g m → message_ok g' m.
Proof.
  intros Hgr. destruct m as [a| |a|r| | | |]; cbn; try done.
  - intros (Hle & e & He & Ht & Hi). unfold vote_request_ok. destruct (gr_stood _ _ _ Hgr (rv_candidate_id a) (rv_term a)) as [->|[Hc Hlt]].
    + split; [etrans; [done|by apply Hgr]|]. eauto.
    + rewrite Hc in Hle. lia.
  - intros (l & e & Hl & He & Ht & Hes & Hc). exists l, e. split_and!; try done.
    + etrans; [done|apply Hgr].
    + eapply commit_ok_mono; done.
  - intros Hr Hs. by apply Hgr, Hr.
Qed.

Lemma answer_ok_mono p g g' m : grows p g g' → answer_ok g m → answer_ok g' m.
Proof. intros Hgr. destruct m; cbn; try done. by eapply message_ok_mono. Qed.

(** ** A node *)

Record log_ok (g : ghost) (n : RaftNode) (full : list LogEntry) : Prop := {
  lo_views : views full n;
  lo_consistent : consistent (gG g) full;
  lo_terms : Forall (λ e, (term e ≤ current_term n)%N) full;
  lo_leader : role n = Leader → gG g (current_term n) = full ∧ ∀ k, k < length full → gA g (node_id n) (current_term n) k;
  lo_candidate : role n = Candidate → gC g (node_id n) (current_term n) = full;
  lo_acked t k : gA g (node_id n) t k → own (gG g) t k → possible g t k → has (gG g) t k full;
  lo_commit : commit_ok g full (current_term n) (commit_index n);
}.

(** What a leader believes its peers to have accepted. *)
Definition match_ok (members : gmap nat string) (g : ghost) (n : RaftNode) : Prop :=
  ∀ j addr p m, j ≠ node_id n → members !! j = Some addr →
    position (λ x, bool_decide (x = addr)) (peers n) = Some p → match_index n !! p = Some m →
    m ≤ commit_index n ∨ gA g j (current_term n) m.

Record log_inv (cli : Cli) (g : ghost) (n : RaftNode) : Prop := {
  li_node : node_inv requester (cli_members cli (node_id n)) (gB g) n;
  li_cli : cluster !! node_id n = Some cli;
  li_durable : durable n;
  li_term : gT g (node_id n) = current_term n;
  li_log : ∃ full, log_ok g n full;
  li_leader : role n = Leader → gLed g (node_id n) (current_term n) ∧ match_ok (cli_members cli (node_id n)) g n;
  li_candidate : role n = Candidate → ¬ gLed g (node_id n) (current_term n);
  li_led t : gLed g (node_id n) t → (t ≤ current_term n)%N;
  li_office : role n ≠ Follower → (0 < current_term n)%N;
  li_applied : last_included_index n ≤ last_applied n ≤ commit_index n;
  li_peers : peers n = cli_peers cli;
  li_http : Forall (λ m, message_ok g m.2) (http_out n);
  li_chan : Forall (λ m, answer_ok g m.2) (chan_out n);
}.

Lemma li_config cli g n : log_inv cli g n → cluster_config n = Simple (cli_members cli (node_id n)) 0.
Proof. intros Hn. apply (st_config _ _ (ni_static _ _ _ _ (li_node _ _ _ Hn))). Qed.

Lemma li_faults cli g n : log_inv cli g n → db_faults (db n) = [] ∧ 0 < length (log n).
Proof. intros Hn. pose proof (li_durable _ _ _ Hn) as Hd. split; [apply Hd|by apply durable_nonempty]. Qed.

Lemma messages_mono p g g' (out : list (string * RpcMessage)) :
  grows p g g' → Forall (λ m, message_ok g m.2) out → Forall (λ m, message_ok g' m.2) out.
Proof. intros Hgr Ho. eapply Forall_impl; [done|]. intros m. by eapply message_ok_mono. Qed.

Lemma answers_mono p g g' (out : list (nat * ChanMessage)) :
  grows p g g' → Forall (λ m, answer_ok g m.2) out → Forall (λ m, answer_ok g' m.2) out.
Proof. intros Hgr Ho. eapply Forall_impl; [done|]. intros m. by eapply answer_ok_mono. Qed.

Lemma acked_before p g g' q l :
  global g → grows p g g' → q ≠ p →
  (∀ t k, gA g q t k → own (gG g) t k → possible g t k → has (gG g) t k l) →
  ∀ t k, gA g' q t k → own (gG g') t k → possible g' t k → has (gG g') t k l.
Proof.
  intros Hg Hgr Hne Hl t k Ha Ho Hp. destruct (gr_new _ _ _ Hgr _ _ _ Ha) as [Ha0|[? _]]; [|done].
  destruct (gl_acked g Hg _ _ _ Ha0) as [Hk _]. apply (has_same (gG g)); [apply Hgr|done|].
  apply Hl; [done| |by eapply possible_before]. by apply (own_same (gG g) (gG g')); [apply Hgr|..].
Qed.

(** What one node does keeps the invariant of another. *)
Lemma log_inv_other cli g g' p n :
  QuorumSystem quorum → global g → global g' → grows p g g' → node_id n ≠ p → log_inv cli g n → log_inv cli g' n.
Proof.
  intros HQ Hg Hg' Hgr Hne []. destruct li_log0 as (full & []). split; try done.
  - eapply node_inv_extends; [apply Hgr|done|done].
  - by rewrite (gr_term_other _ _ _ Hgr).
  - exists full. split; try done.
    + eapply consistent_mono; [apply Hgr|done].
    + intros Hr. destruct (lo_leader0 Hr) as [HG Hacks]. split; [|intros k Hk; by apply Hgr, Hacks].
      destruct (gr_own _ _ _ Hgr (current_term n)) as [->|Hled]; [done|]. destruct Hne.
      eapply (elected_unique quorum (gB g')); [apply Hg'|eapply gl_led; [done|apply Hgr; by apply li_leader0]|by apply Hg'].
    + intros Hr. destruct (gr_stood _ _ _ Hgr (node_id n) (current_term n)) as [->|[? _]]; [auto|done].
    + apply (acked_before p g); done.
    + eapply commit_ok_mono; done.
  - intros Hr. destruct (li_leader0 Hr) as [Hl Hm]. split; [by apply Hgr|]. intros j addr i m Hj Ha Hi Hmi.
    destruct (Hm j addr i m Hj Ha Hi Hmi); [by left|right; by apply Hgr].
  - intros Hr Hled. eapply li_candidate0; [done|]. by eapply gr_others.
  - intros t Hled. apply li_led0. by eapply gr_others.
  - by eapply messages_mono.
  - by eapply answers_mono.
Qed.

(** ** Steps of the ghost state *)

(** Node [p] reaches term [t]. *)
Definition raise (p : nat) (t : N) (g : ghost) : ghost :=
  mkGhost (gB g) (gG g) (gLed g) (λ q, if decide (q = p) then t else gT g q) (gA g) (gC g).

Lemma raise_grows p t g : (gT g p ≤ t)%N → grows p g (raise p t g).
Proof.
  intros Ht. split; cbn; auto; [by split| |].
  - intros q. case_decide as Hq; [by rewrite Hq|done].
  - intros q Hq. by rewrite decide_False.
Qed.

Lemma raise_global p t g : (gT g p ≤ t)%N → global g → global (raise p t g).
Proof.
  intros Ht Hg. pose proof (raise_grows p t g Ht) as Hgr. destruct Hg. split; cbn; auto.
  - intros q u c Hq. destruct (gl_voted0 q u c Hq) as [? ?].
    split; (etrans; [|apply (gr_term _ _ _ Hgr)]); done.
  - intros q u k Hq. destruct (gl_acked0 q u k Hq) as [? ?]. split; [done|]. etrans; [done|]. apply (gr_term _ _ _ Hgr).
  - intros u u' k Hu Ho Hp. apply (possible_before _ _ _ _ _ Hgr) in Hp. by apply gl_complete0.
  - intros v u' c u k Hv Hu Ha Ho Hp. apply (possible_before _ _ _ _ _ Hgr) in Hp. by eapply gl_votes0.
Qed.

(** Node [p] votes for [c] in its term. *)
Definition with_ballot (p c : nat) (g : ghost) : ghost :=
  mkGhost (cast (gB g) p (gT g p) c) (gG g) (gLed g) (gT g) (gA g) (gC g).

Lemma ballot_grows p c g : grows p g (with_ballot p c g).
Proof. split; cbn; auto; try reflexivity. apply cast_extends. Qed.

Lemma ballot_global p c g :
  global g → functional (cast (gB g) p (gT g p) c) → (gT g p ≤ gT g c)%N →
  (∀ t k, (t < gT g p)%N → gA g p t k → own (gG g) t k → possible g t k → has (gG g) t k (gC g c (gT g p))) →
  global (with_ballot p c g).
Proof.
  intros Hg Hf Hc Hjust. pose proof (ballot_grows p c g) as Hgr. destruct Hg. split; cbn; auto.
  - intros d t Hd. eapply elected_extends; [apply Hgr|auto].
  - intros q t d [?|(-> & -> & ->)]; [eauto|done].
  - intros v t' d t k [?|(-> & -> & ->)]; [by eauto|]. intros ? ? ? Hp. by apply Hjust.
Qed.

(** Node [p] is about to stand in term [t] with log [l]. *)
Definition with_stand (p : nat) (t : N) (l : list LogEntry) (g : ghost) : ghost :=
  mkGhost (gB g) (gG g) (gLed g) (gT g) (gA g) (λ c u, if decide (c = p ∧ u = t) then l else gC g c u).

Lemma stand_grows p t l g : (gT g p < t)%N → grows p g (with_stand p t l g).
Proof.
  intros Ht. split; cbn; auto; try reflexivity; [by split|]. intros c u. case_decide as Hc; [|by left].
  destruct Hc as [-> ->]. by right.
Qed.

Lemma stand_global p t l g :
  global g → (gT g p < t)%N → consistent (gG g) l → Forall (λ e, (term e < t)%N) l → global (with_stand p t l g).
Proof.
  intros [] Ht Hl Hterms. split; cbn; auto.
  - intros c u. case_decide as Hc; [|auto]. by destruct Hc as [_ ->].
  - intros v t' c u k Hv. case_decide as Hc; [|by apply (gl_votes0 v t' c u k)]. destruct Hc as [-> ->].
    apply gl_voted0 in Hv as [_ ?]. lia.
Qed.

(** Node [p] accepts the log of the leader of its term up to length [m]. *)
Definition with_ack (p m : nat) (g : ghost) : ghost :=
  mkGhost (gB g) (gG g) (gLed g) (gT g) (λ q t k, gA g q t k ∨ q = p ∧ t = gT g p ∧ k < m) (gC g).

Lemma ack_grows p m g : grows p g (with_ack p m g).
Proof. split; cbn; auto; try reflexivity; [by split|]. intros q t k [?|(-> & -> & _)]; auto. Qed.

Lemma ack_global p m g : global g → m ≤ length (gG g (gT g p)) → global (with_ack p m g).
Proof.
  intros Hg Hm. pose proof (ack_grows p m g) as Hgr. destruct Hg. split; cbn; auto.
  - intros q t k [?|(-> & -> & ?)]; [auto|]. split; [lia|done].
  - intros q t j k [?|(-> & -> & ?)] Hj; [left; eauto|]. right. split_and!; [done..|lia].
  - intros t t' k Ht Ho Hp. apply (possible_before _ _ _ _ _ Hgr) in Hp. by apply gl_complete0.
  - intros v t' c t k Hv Ht [Ha|(-> & -> & _)] Ho Hp.
    + apply (possible_before _ _ _ _ _ Hgr) in Hp. by eapply gl_votes0.
    + apply gl_voted0 in Hv as [? _]. lia.
Qed.

(** The log of node [p], the leader of its term, becomes [l]. *)
Definition set_log (G : N → list LogEntry) (t : N) (l : list LogEntry) : N → list LogEntry :=
  λ u, if decide (u = t) then l else G u.

Definition with_lead (p : nat) (l : list LogEntry) (g : ghost) : ghost :=
  mkGhost (gB g) (set_log (gG g) (gT g p) l) (λ c t, gLed g c t ∨ c = p ∧ t = gT g p) (gT g) (gA g) (gC g).

Lemma set_log_eq G t l : set_log G t l t = l.
Proof. unfold set_log. by rewrite decide_True. Qed.

Lemma set_log_grows G t l u : G t `prefix_of` l → G u `prefix_of` set_log G t l u.
Proof. intros Hp. unfold set_log. by case_decide as Hu; [rewrite Hu|]. Qed.

Lemma lead_grows p l g : gG g (gT g p) `prefix_of` l → grows p g (with_lead p l g).
Proof.
  intros Hp. split; cbn; auto; try reflexivity; [by split| | |].
  - intros t. by apply set_log_grows.
  - intros c t Hc [?|[? _]]; done.
  - intros t. unfold set_log. case_decide as Ht; [right|by left]. auto.
Qed.

(** What a later leader's electors have not accepted cannot be committed. *)
Lemma later_not_possible g t t' k :
  QuorumSystem quorum → global g → (t < t')%N → gG g t' ≠ [] → possible g t k → k < length (gG g t).
Proof.
  intros HQ Hg Ht Hne (Q & HQ1 & Hq). destruct (gl_origin g Hg t') as [?|[?|[c Hled]]]; [done|lia|].
  destruct (gl_led g Hg c t' Hled) as (Q' & HQ2 & Hv). destruct (quorum_meet Q Q' HQ1 HQ2) as (q & Hin & Hin').
  destruct (gl_voted g Hg _ _ _ (Hv q Hin')) as [Hqt _]. destruct (Hq q Hin) as [?|Ha]; [lia|]. by apply (gl_acked g Hg) in Ha as [? _].
Qed.

Lemma lead_global p full es g :
  QuorumSystem quorum → global g → let t := gT g p in
  elected quorum (gB g) p t → gG g t `prefix_of` full ++ es →
  consistent (gG g) full → Forall (λ e, (term e ≤ t)%N) full → Forall (λ e, term e = t) es → Forall data es →
  (∀ u k, (u < t)%N → own (gG g) u k → possible g u k → has (gG g) u k full) →
  global (with_lead p (full ++ es) g).
Proof.
  intros HQ Hg t Hel Hpre Hc Hle Hes Hdata Hcomp. pose proof (lead_grows p (full ++ es) g Hpre) as Hgr. fold t in Hgr.
  assert (∀ u, gG g u `prefix_of` set_log (gG g) t (full ++ es) u) as Hmono by apply Hgr.
  assert (∀ u k l, k < length (gG g u) → own (set_log (gG g) t (full ++ es)) u k →
    (own (gG g) u k → has (gG g) u k l) → has (set_log (gG g) t (full ++ es)) u k l) as Hold.
  { intros u k l Hk Ho Hh. apply (has_same (gG g)); [auto|done|]. apply Hh. by apply (own_same (gG g) (set_log (gG g) t (full ++ es))). }
  assert (Forall data full) as Hdf by (eapply consistent_Forall; [done|apply Hg]).
  assert (ordered full) as Hof by (eapply consistent_ordered; [done|apply Hg]).
  split; cbn; fold t; try apply Hg.
  - intros c u [?|[-> ->]]; [by apply Hg|done].
  - intros u. unfold set_log. case_decide as Hu; [right; right; exists p; auto|]. destruct (gl_origin g Hg u) as [|[|[c ?]]]; eauto.
  - intros u. unfold set_log at 2. case_decide as Hu; [|eapply consistent_mono; [apply Hmono|apply Hg]].
    eapply consistent_app; [by eapply consistent_mono|by rewrite set_log_eq|done].
  - intros u. unfold set_log. case_decide as Hu; [by eapply ordered_app|apply Hg].
  - intros u. unfold set_log. case_decide as Hu; [rewrite Hu|apply Hg]. apply Forall_app. split; [done|].
    eapply Forall_impl; [exact Hes|]. cbn. intros e ->. done.
  - intros u. unfold set_log. case_decide as Hu; [by apply Forall_app|apply Hg].
  - intros q u k Ha. apply (gl_acked g Hg) in Ha as [? ?]. split; [|done]. pose proof (prefix_length _ _ (Hmono u)). lia.
  - intros c u. destruct (gl_stood g Hg c u). split; [by eapply consistent_mono|done].
  - intros u u' k Hu Ho Hp Hne. apply (possible_before _ _ _ _ _ Hgr) in Hp.
    unfold set_log at 2. unfold set_log in Hne. case_decide as Hu'.
    + rewrite Hu' in Hu. eapply has_mono; [by eexists|].
      assert (own (gG g) u k) as Ho' by (unfold own, set_log in Ho; by rewrite decide_False in Ho by lia).
      apply Hold; [by apply own_lt|done|auto].
    + apply Hold; [by eapply later_not_possible|done|]. intros Ho'. by apply Hg.
  - intros v u' c u k Hv Hu Ha Ho Hp. apply (possible_before _ _ _ _ _ Hgr) in Hp.
    apply Hold; [by apply (gl_acked g Hg) in Ha as [? _]|done|]. intros Ho'. by eapply gl_votes.
Qed.

End ghost.
