(* ===== verification/RaftSteps.v ===== *)
(** * What the steps of a node do to logs

    Every method of a node is made of a few kinds of steps: steps that neither
    logs nor messages see, changes of term, votes, candidacies, appended
    entries, accepted entries, commits and messages. Each keeps the invariant
    of [RaftGhost]. *)

From S2P Require Import Prelude BTree Sharding MasterState AppState ClusterConfig RaftNode RaftRpc RaftLoop RaftDemo RaftFrame RaftElection RaftLog RaftDurable RaftSafety RaftCommit RaftMatching RaftGhost.

Section steps.
  Context {E : RaftEnv} (requester : nat → nat) (cluster : gmap nat Cli).

Notation RM := (M RaftNode).
Notation quorum := (cluster_quorum cluster).
Notation log_inv := (log_inv requester cluster).
Notation global := (global cluster).
Notation possible := (possible cluster).

(** ** Steps that the logs do not see *)

Definition not_rpc (m : ChanMessage) : Prop := match m with RpcReply _ => False | _ => True end.

Definition says (n n' : RaftNode) : Prop :=
  ∃ out, chan_out n' = chan_out n ++ out ∧ Forall (λ m, not_rpc m.2) out.

#[global] Instance says_preorder : PreOrder says.
Proof.
  split; [intros n; exists []; by rewrite app_nil_r|]. intros a b c (o1 & E1 & H1) (o2 & E2 & H2).
  exists (o1 ++ o2). rewrite E2, E1, app_assoc. split; [done|]. by apply Forall_app.
Qed.

Definition book (n : RaftNode) :=
  (log n, last_included_index n, last_included_term n, http_out n, node_id n, role n, current_term n,
   peers n, commit_index n, last_applied n, match_index n).

Definition bframe (n n' : RaftNode) : Prop := book n' = book n ∧ says n n'.

#[global] Instance bframe_preorder : PreOrder bframe.
Proof. split; [by intros n|]. intros a b c [Hab ?] [Hbc ?]. split; [congruence|by etrans]. Qed.

Lemma bframe_intro n n' : book n' = book n → chan_out n' = chan_out n → bframe n n'.
Proof. intros Hb Hc. split; [done|]. exists []. by rewrite app_nil_r. Qed.

Ltac silent := apply bframe_intro; reflexivity.

Lemma db_only_bframe n n' : db_only n n' → bframe n n'.
Proof. intros [d ->]. silent. Qed.

Lemma kp_db_bframe {A} (m : RM A) n : kp db_only m n → kp bframe m n.
Proof. unfold kp. destruct (m n) as [[] ?]; [apply db_only_bframe..|done]. Qed.

Lemma check_read_indices_bframe n : kp bframe check_read_indices n.
Proof. apply kp_modify. split; [done|]. eexists. split; [done|]. apply Forall_fmap, Forall_true. done. Qed.

Lemma send_chan_bframe c m n : not_rpc m → kp bframe (send_chan c m) n.
Proof. intros Hm. apply kp_modify. split; [done|]. exists [(c, m)]. split; [done|]. by constructor. Qed.

Lemma drain_pending_bframe h n : bframe n (drain_pending h n).
Proof.
  split; [done|]. eexists. split; [done|]. apply Forall_app. split; apply Forall_fmap, Forall_true; done.
Qed.

Lemma save_term_bframe n : kp bframe save_term n.
Proof. apply kp_db_bframe, save_term_db_only. Qed.
Lemma save_vote_bframe n : kp bframe save_vote n.
Proof. apply kp_db_bframe, save_vote_db_only. Qed.
#[local] Hint Resolve check_read_indices_bframe send_chan_bframe save_term_bframe save_vote_bframe : dfs.
#[local] Hint Extern 1 (not_rpc _) => exact I : dfs.

(** Steps after which the node has the same log, up to compaction, and is not
    newly a candidate or a leader. *)
Record calm (n n' : RaftNode) : Prop := {
  cm_views full : views full n → views full n';
  cm_http : http_out n' = http_out n;
  cm_chan : says n n';
  cm_same : (node_id n', peers n', commit_index n') = (node_id n, peers n, commit_index n);
  cm_applied : last_included_index n ≤ last_applied n ≤ commit_index n → last_included_index n' ≤ last_applied n' ≤ commit_index n';
  cm_term : (current_term n ≤ current_term n')%N;
  cm_leader : role n' = Leader → role n = Leader ∧ current_term n' = current_term n ∧ match_index n' = match_index n;
  cm_candidate : role n' = Candidate → role n = Candidate ∧ current_term n' = current_term n;
}.

#[global] Instance calm_preorder : PreOrder calm.
Proof.
  split; [intros n; split; auto; try reflexivity|]. intros a b c [] []. split; auto; try (by etrans); try congruence.
  - intros Hr. destruct (cm_leader1 Hr) as (Hb & ? & ?). destruct (cm_leader0 Hb) as (? & ? & ?). split_and!; congruence.
  - intros Hr. destruct (cm_candidate1 Hr) as [Hb ?]. destruct (cm_candidate0 Hb) as [? ?]. split; congruence.
Qed.

Lemma bframe_calm n n' : bframe n n' → calm n n'.
Proof.
  intros [[= E1 E2 E3 E4 E5 E6 E7 E8 E9 E10 E11] Hs]. split; rewrite ?E4, ?E5, ?E6, ?E7, ?E8, ?E9, ?E11; auto; try reflexivity.
  - intros full. apply views_same. congruence.
  - by rewrite E2, E10.
Qed.

Lemma kp_bframe_calm {A} (m : RM A) n : kp bframe m n → kp calm m n.
Proof. unfold kp. destruct (m n) as [[] ?]; [apply bframe_calm..|done]. Qed.

#[local] Hint Extern 5 (kp calm _ _) => apply kp_bframe_calm; solve [eauto 2 with dfs nocore] : dfs.

(** A change of role or term, or of what has been applied. *)
Lemma calm_upd n n' :
  (log n', last_included_index n', last_included_term n', http_out n', node_id n', peers n', commit_index n', chan_out n') =
  (log n, last_included_index n, last_included_term n, http_out n, node_id n, peers n, commit_index n, chan_out n) →
  (last_applied n ≤ commit_index n → last_applied n ≤ last_applied n' ≤ commit_index n) →
  (current_term n ≤ current_term n')%N →
  (role n' = Leader → role n = Leader ∧ current_term n' = current_term n ∧ match_index n' = match_index n) →
  (role n' = Candidate → role n = Candidate ∧ current_term n' = current_term n) → calm n n'.
Proof.
  intros [= E1 E2 E3 E4 E5 E6 E7 E8] Ha Ht Hl Hc. split; try done; try congruence.
  - intros full. apply views_same. congruence.
  - exists []. by rewrite app_nil_r.
  - rewrite E2, E7. lia.
Qed.

Lemma step_down_calm t h n : kp calm (step_down_to_follower t h) n.
Proof.
  unfold step_down_to_follower. rkp_step. cbv zeta.
  rkp_step; [rkp_step; apply calm_upd; simpl; done || lia|]. injection H as _ <-.
  rkp_step.
  { rkp_step; [|rkp]. rkp_step; [rkp_step|rkp]. apply N.ltb_lt in Hif. apply calm_upd; simpl; done || lia. }
  rkp_step; [rkp_step; apply bframe_calm; destruct h; silent|]. rkp. apply bframe_calm, drain_pending_bframe.
Qed.

(** *** Applying committed data commands *)

Lemma apply_one_calm n : Forall data (log n) → last_applied n < commit_index n → kp calm apply_one n.
Proof.
  intros Hd Hlt. unfold apply_one. rkp_step; [rkp_step; apply calm_upd; simpl; done || lia|]. injection H as _ <-.
  do 2 rkp_step. rkp_step.
  - destruct (log _ !! _) as [e|] eqn:He; [|rkp]. rkp_step; [|rkp].
    assert (data e) as Hde by by eapply Forall_lookup_1. unfold data in Hde.
    destruct (command e); try done; rkp; apply bframe_calm; silent.
  - rkp; apply bframe_calm; silent.
Qed.

(** The log stays the same meanwhile. *)
Lemma apply_one_log n : kp (λ n n', log n' = log n ∧ commit_index n' = commit_index n) apply_one n.
Proof.
  assert (PreOrder (λ n n' : RaftNode, log n' = log n ∧ commit_index n' = commit_index n)).
  { split; [done|]. intros a b c [? ?] [? ?]. split; congruence. }
  unfold apply_one, check_read_indices, send_chan, apply_membership_command, remove_server_legacy, add_server_legacy, save_config.
  rkp; try done; try (by case_if); unfold kp, db_write; by destruct (db_faults _) as [|[] ?].
Qed.

Lemma apply_logs_calm n : Forall data (log n) → kp calm apply_logs n.
Proof.
  intros Hd. apply kp_get_bind. generalize (commit_index n - last_applied n). intros fuel.
  revert n Hd. induction fuel as [|fuel IH]; intros n Hd; simpl; [rkp|]. do 2 rkp_step; [|rkp]. apply Nat.ltb_lt in Hif.
  rkp_step; [by apply apply_one_calm|]. apply IH. pose proof (apply_one_log n) as Hl. unfold kp in Hl. rewrite H in Hl.
  destruct Hl as [-> _]. done.
Qed.

(** ** The relation *)

(** The granted votes and the messages that have been sent. *)
Record pool : Type := mkPool {
  po_votes : ballots;
  po_messages : RpcMessage → Prop;
}.

Definition pool_ok (g : ghost) (P : pool) : Prop :=
  (∀ q t c, po_votes P q t c → gB g q t c) ∧ (∀ m, po_messages P m → message_ok cluster g m).

Lemma pool_ok_mono p g g' P : grows p g g' → pool_ok g P → pool_ok g' P.
Proof. intros Hgr [Hv Hm]. split; [intros q t c Hq; by apply Hgr, Hv|]. intros m Hin. eapply message_ok_mono; eauto. Qed.

(** [logs cli P n n']: whatever else the cluster does, when the messages of [P]
    have been sent, the node keeps the invariant. *)
Definition logs (cli : Cli) (P : pool) (n n' : RaftNode) : Prop :=
  ∀ g, global g → pool_ok g P → log_inv cli g n →
  ∃ g', global g' ∧ grows (node_id n) g g' ∧ log_inv cli g' n' ∧ node_id n' = node_id n.

#[global] Instance logs_preorder cli P : PreOrder (logs cli P).
Proof.
  split.
  - intros n g Hg _ Hn. exists g. split_and!; [done|apply grows_refl|done|done].
  - intros a b c Hab Hbc g Hg HP Ha. destruct (Hab g Hg HP Ha) as (g1 & Hg1 & Hgr1 & Hb & Eb).
    destruct (Hbc g1 Hg1) as (g2 & Hg2 & Hgr2 & Hc & Ec); [by eapply pool_ok_mono|done|].
    exists g2. rewrite Eb in Hgr2. split_and!; [done|by eapply grows_trans|done|congruence].
Qed.

Lemma kp_logs_inv {A} cli P (m : RM A) n :
  (∀ g, global g → pool_ok g P → log_inv cli g n → kp (logs cli P) m n) → kp (logs cli P) m n.
Proof. unfold kp. intros H. destruct (m n) as [[] n']; [intros g ? ? ?; by eapply H..|done]. Qed.

Lemma li_data cli g n : global g → log_inv cli g n → Forall data (log n).
Proof.
  intros Hg Hn. destruct (li_log _ _ _ _ _ Hn) as (full & Hl). rewrite (vw_log _ _ (lo_views _ _ _ _ Hl)). constructor; [done|].
  apply Forall_drop. eapply consistent_Forall; [apply Hl|apply Hg].
Qed.

(** Answers that are not replies to messages. *)
Lemma says_ok g n n' :
  says n n' → Forall (λ m, answer_ok cluster g m.2) (chan_out n) → Forall (λ m, answer_ok cluster g m.2) (chan_out n').
Proof.
  intros (out & -> & Ho) Hc. apply Forall_app. split; [done|]. eapply Forall_impl; [exact Ho|]. intros [c m]. by destruct m.
Qed.

(** ** Calm steps *)

Lemma calm_logs cli P n n' :
  steady requester (cli_members cli (node_id n)) n n' → keeps_durable n n' → calm n n' → logs cli P n n'.
Proof.
  intros Hst Hdu [] g Hg _ []. injection cm_same0 as Eid Epeers Eci. destruct li_log as (full & []).
  assert (gT g (node_id n) ≤ current_term n')%N as Hle by (rewrite li_term; done).
  pose proof (raise_grows _ _ _ Hle) as Hgr. set (g' := raise _ _ _) in Hgr. exists g'.
  split_and!; [by apply raise_global|done| |done]. split; rewrite ?Eid, ?Eci, ?Epeers; try done.
  - by apply Hst.
  - auto.
  - cbn. by rewrite decide_True.
  - exists full. split; rewrite ?Eid, ?Eci; auto.
    + eapply Forall_impl; [exact lo_terms|]. intros e He. cbn in He. lia.
    + intros Hr. destruct (cm_leader0 Hr) as (Hr' & -> & _). auto.
    + intros Hr. destruct (cm_candidate0 Hr) as (Hr' & ->). auto.
    + intros t k Ha Ho Hp. apply lo_acked; [done|done|]. by eapply possible_before.
    + eapply commit_ok_mono; [exact Hgr|done|exact cm_term0|done|done].
  - intros Hr. destruct (cm_leader0 Hr) as (Hr' & Et & Em). destruct (li_leader Hr') as [Hled Hm].
    unfold match_ok. rewrite Eid, Et, Em, Epeers, Eci. done.
  - intros Hr. destruct (cm_candidate0 Hr) as (Hr' & ->). auto.
  - intros t Ht. etrans; [by apply li_led|done].
  - intros Hr. destruct (role n') eqn:Er; [done| |].
    + destruct (cm_candidate0 eq_refl) as (Hr' & ->). apply li_office. by rewrite Hr'.
    + destruct (cm_leader0 eq_refl) as (Hr' & -> & _). apply li_office. by rewrite Hr'.
  - rewrite <- Eci. auto.
  - rewrite cm_http0. by eapply messages_mono.
  - eapply says_ok; [done|]. by eapply answers_mono.
Qed.

Lemma kp_calm_logs {A} cli P (m : RM A) n :
  kp (steady requester (cli_members cli (node_id n))) m n → kp keeps_durable m n → kp calm m n → kp (logs cli P) m n.
Proof. unfold kp. destruct (m n) as [[] ?]; [apply calm_logs..|done]. Qed.

(** Code that elections, the disk and the logs do not see. *)
Lemma kp_quiet_logs {A} cli P (m : RM A) n : kp frame m n → kp lframe m n → kp bframe m n → kp (logs cli P) m n.
Proof. intros Hf Hl Hb. apply kp_calm_logs; [by apply kp_frame_steady|by apply kp_lframe|by apply kp_bframe_calm]. Qed.

Lemma step_down_logs cli P t h n : kp (logs cli P) (step_down_to_follower t h) n.
Proof. apply kp_calm_logs; [apply step_down_steady|apply step_down_durable|apply step_down_calm]. Qed.

Lemma apply_logs_logs cli P n : kp (logs cli P) apply_logs n.
Proof.
  apply kp_logs_inv. intros g Hg _ Hn.
  apply kp_calm_logs; [apply kp_frame_steady, apply_logs_frame|apply kp_lframe, apply_logs_lframe|].
  apply apply_logs_calm. by eapply li_data.
Qed.

Lemma create_snapshot_calm n : db_faults (db n) = [] → kp calm create_snapshot n.
Proof.
  intros Hf. unfold create_snapshot. rkp_step. destruct (to_vec (app_state n)) as [data|]; [|rkp]. cbv zeta.
  match goal with |- context [if Nat.leb ?a ?b then ?x else ?y] => set (st := if Nat.leb a b then x else y) end.
  unfold kp. rewrite (bind_ok _ _ _ _ _ (db_write_run _ _ n Hf)). erewrite bind_ok; [|by apply db_write_run].
  edestruct (delete_range_run (S (last_included_index n)) (last_applied n)) as (m & Hrun & _); [|rewrite (bind_ok _ _ _ _ _ Hrun)]; [done|].
  unfold bind at 1, modify at 1. unfold bind, usize_sub.
  destruct (Nat.ltb_spec (last_applied n) (last_included_index n)) as [|Hla]; [done|]. unfold ret.
  destruct (Nat.ltb_spec (length (log n)) (last_applied n - last_included_index n + 1)) as [|Hlen]; [done|].
  split; simpl; try done; [|exists []; by rewrite app_nil_r|lia]. intros full Hv.
  pose proof (views_term full n (last_applied n) Hv Hla) as Ht.
  destruct (lookup_lt_is_Some_2 (log n) (last_applied n - last_included_index n)) as [e He]; [lia|]. rewrite He in Ht.
  assert (st = term e) as Hst. { unfold st. destruct (Nat.leb_spec (last_included_index n) (last_applied n)); [by rewrite He|lia]. }
  destruct (full !! last_applied n) as [x|] eqn:Hx; [|done]. injection Ht as Ht. split; cbn.
  - exists x. split; [done|congruence].
  - f_equal. replace (last_applied n - last_included_index n + 1) with (S (last_applied n) - last_included_index n) by lia.
    apply views_drop; [done|lia].
Qed.

Lemma create_snapshot_logs cli P n : kp (logs cli P) create_snapshot n.
Proof.
  apply kp_logs_inv. intros g _ _ [Hf _]%li_faults.
  apply kp_calm_logs; [apply kp_frame_steady, create_snapshot_frame|apply create_snapshot_durable|by apply create_snapshot_calm].
Qed.

(** ** Votes *)

(** The election restriction protects what the voter has accepted. *)
Lemma vote_just cli g n args e :
  global g → log_inv cli g n → vote_request_ok g args → current_term n = rv_term args →
  log n !! (length (log n) - 1) = Some e → log_up_to_date args (term e) (last_log_index_of n) = true →
  ∀ t k, (t < current_term n)%N → gA g (node_id n) t k → own (gG g) t k → possible g t k →
  has (gG g) t k (gC g (rv_candidate_id args) (current_term n)).
Proof.
  intros Hg Hn (_ & xl & Hxl & Hxt & Hlen) Ht He Hup t k Hlt Ha Ho Hp. rewrite Ht in *.
  destruct (li_log _ _ _ _ _ Hn) as (full & []). destruct (gl_stood _ g Hg (rv_candidate_id args) (rv_term args)) as [HcL _].
  set (L := gC g (rv_candidate_id args) (rv_term args)) in *.
  destruct (views_last full n lo_views) as (e' & xv & He' & Hxv & Hvt & Hlli). rewrite He in He'. injection He' as <-.
  assert (0 < length L) by (destruct L; [done|cbn; lia]). assert (0 < length full) by (destruct full; [done|cbn; lia]).
  apply (up_to_date_has _ full L xv xl); try done; [apply Hg|apply Hg| |by apply lo_acked|].
  - apply orb_true_iff in Hup as [?%N.ltb_lt|[?%N.eqb_eq ?%Nat.leb_le]%andb_true_iff]; [left; congruence|right; split; [congruence|lia]].
  - intros Hlt'. apply (gl_complete _ g Hg); [done|done|done|]. intros Hnil. pose proof (consistent_last _ _ _ HcL Hxl) as Hpre. rewrite Hnil in Hpre.
    apply prefix_nil_inv in Hpre. by rewrite Hpre in Hxl.
Qed.

Lemma vote_logs cli P args n e :
  po_messages P (RequestVote args) → current_term n = rv_term args →
  voted_for n = None ∨ voted_for n = Some (rv_candidate_id args) →
  log n !! (length (log n) - 1) = Some e → log_up_to_date args (term e) (last_log_index_of n) = true →
  kp (logs cli P)
    (do! modify (λ n, n <| voted_for := Some (rv_candidate_id args) |>) in
     do! save_vote in
     do! modify (λ n, n <| last_election_time := clock n |>) in ret true) n.
Proof.
  intros HP Ht Hv He Hup. apply kp_logs_inv. intros g0 _ _ [Hf _]%li_faults.
  pose proof (vote_durable (rv_candidate_id args) n) as Hd. unfold kp in Hd |- *. rewrite vote_run in * by done.
  intros g Hg [_ Hmsg] Hn. specialize (Hmsg _ HP). pose proof (vote_just _ _ _ _ _ Hg Hn Hmsg Ht He Hup) as Hjust.
  destruct (vote_inv requester _ _ _ _ Hv (gl_functional _ _ Hg) (li_node _ _ _ _ _ Hn)) as [Hfun Hnode].
  pose proof (ballot_grows (node_id n) (rv_candidate_id args) g) as Hgr.
  destruct Hn. rewrite <- li_term in Hjust, Hfun, Hnode.
  exists (with_ballot (node_id n) (rv_candidate_id args) g). split_and!; [|done| |done].
  - apply ballot_global; try done. rewrite li_term, Ht. apply Hmsg.
  - split; try done; [by apply Hd|]. destruct li_log as (full & []). exists full. split; try done. by apply (views_same _ n).
Qed.

(** ** Candidacies *)

Lemma candidacy_logs cli P n : kp (logs cli P) candidacy n.
Proof.
  apply kp_logs_inv. intros g0 _ _ [Hf _]%li_faults. pose proof (candidacy_durable n) as Hd. unfold kp in *.
  destruct (candidacy_cases n Hf) as [Hrun|(w & n' & Hrun)]; rewrite Hrun in *; [|done].
  intros g Hg _ Hn. destruct (li_log _ _ _ _ _ Hn) as (full & []). destruct Hn.
  set (t := (current_term n + 1)%N). assert (gT g (node_id n) < t)%N as Ht by (unfold t; lia).
  set (g1 := with_stand (node_id n) t full g). set (g2 := raise (node_id n) t g1). set (g3 := with_ballot (node_id n) (node_id n) g2).
  assert (gT g1 (node_id n) ≤ t)%N as Ht1 by (cbn; lia). assert (gT g2 (node_id n) = t) as Et by (cbn; by rewrite decide_True).
  assert (grows (node_id n) g g2) as Hgr2 by (eapply grows_trans; [by apply stand_grows|by apply raise_grows]).
  assert (grows (node_id n) g g3) as Hgr by (eapply grows_trans; [done|apply ballot_grows]).
  assert (global g1) as Hg1.
  { apply stand_global; [done|done|done|]. eapply Forall_impl; [exact lo_terms|]. cbn. intros e He. unfold t. lia. }
  assert (global g2) as Hg2 by by apply raise_global.
  destruct (stood_inv requester _ _ n (gl_functional _ _ Hg) li_node) as [Hfun Hnode].
  assert (∀ u k, gA g (node_id n) u k → own (gG g) u k → possible g2 u k → has (gG g) u k full) as Hacked.
  { intros u k Ha Ho Hp. apply lo_acked; [done|done|]. by eapply possible_before. }
  exists g3. split_and!; [|done| |done].
  - apply ballot_global; [done|by rewrite Et|done|]. intros u k _ Ha Ho Hp. rewrite Et. cbn. rewrite decide_True by done. auto.
  - split; cbn; try done; [by rewrite decide_True by done|by apply Hd| | | |lia| |].
    + exists full. split; cbn; try done; [by apply (views_same _ n)|..].
      * eapply Forall_impl; [exact lo_terms|]. cbn. intros e He. lia.
      * intros _. by rewrite decide_True.
      * refine (commit_ok_mono _ _ _ _ _ _ _ _ _ _ Hgr _ _ _ lo_commit); [done|lia|done].
    + intros _ Hled. apply li_led in Hled. lia.
    + intros u Hled. apply li_led in Hled. lia.
    + by eapply messages_mono.
    + by eapply answers_mono.
Qed.

(** ** Messages *)

(** A step that changes nothing but what has been sent. *)
Lemma send_step cli g n n' :
  bframe n (n' <| http_out := http_out n |> <| chan_out := chan_out n |>) →
  node_inv requester (cli_members cli (node_id n)) (gB g) n' → durable n' →
  Forall (λ m, message_ok cluster g m.2) (http_out n') → Forall (λ m, answer_ok cluster g m.2) (chan_out n') →
  log_inv cli g n → log_inv cli g n'.
Proof.
  intros [[= E1 E2 E3 E4 E5 E6 E7 E8 E9 E10] _] Hnode Hd Hh Hc []. cbn in *. split; rewrite ?E2, ?E4, ?E5, ?E6, ?E7, ?E8, ?E9; try done.
  - destruct li_log as (full & []). exists full. split; rewrite ?E4, ?E5, ?E6, ?E8; try done. apply (views_same _ n); [|done]. congruence.
  - intros Hr. destruct (li_leader Hr) as [? Hm]. split; [done|]. unfold match_ok in *. by rewrite E4, E6, E7, E8, E10.
Qed.

Lemma send_logs cli P u m n :
  (∀ g, global g → log_inv cli g n → message_ok cluster g m) → kp (logs cli P) (send_http u m) n.
Proof.
  intros Hm. pose proof (send_http_frame u m n) as Hf. pose proof (send_http_lframe u m n) as Hl. unfold kp, send_http, modify in *.
  intros g Hg _ Hn. exists g. split_and!; [done|apply grows_refl| |done]. apply (send_step cli g n); try done; [silent|..].
  - apply (frame_steady requester (cli_members cli (node_id n)) _ _ Hf), (li_node _ _ _ _ _ Hn).
  - apply (lframe_durable _ _ Hl), (li_durable _ _ _ _ _ Hn).
  - apply Forall_app. split; [apply (li_http _ _ _ _ _ Hn)|]. constructor; [by apply Hm|done].
  - apply (li_chan _ _ _ _ _ Hn).
Qed.

(** Answering a message. *)
Lemma reply_logs cli g tx m n :
  kp (steady requester (cli_members cli (node_id n))) (send_chan tx (RpcReply m)) n →
  message_ok cluster g m → log_inv cli g n → log_inv cli g (n <| chan_out := chan_out n ++ [(tx, RpcReply m)] |>).
Proof.
  intros Hst Hm Hn. pose proof (send_chan_lframe tx (RpcReply m) n) as Hl. unfold kp, send_chan, modify in *.
  apply (send_step cli g n); try done; [silent|..].
  - apply (Hst (gB g)), (li_node _ _ _ _ _ Hn).
  - apply (lframe_durable _ _ Hl), (li_durable _ _ _ _ _ Hn).
  - apply (li_http _ _ _ _ _ Hn).
  - apply Forall_app. split; [apply (li_chan _ _ _ _ _ Hn)|]. by constructor.
Qed.

(** The entries a leader sends are a part of its log. *)
Lemma entries_sent_ok cli g n ni e addr :
  global g → log_inv cli g n → role n = Leader → last_included_index n < ni → log n !! (ni - 1 - last_included_index n) = Some e →
  append_ok cluster g (mkAppendEntriesArgs (current_term n) (node_id n) (ni - 1) (term e)
    (drop (ni - last_included_index n) (log n)) (commit_index n) addr).
Proof.
  intros Hg Hn Hr Hni He. destruct (li_log _ _ _ _ _ Hn) as (full & []). destruct (lo_leader Hr) as [HG _].
  pose proof (views_term full n (ni - 1) lo_views ltac:(lia)) as Ht. rewrite He in Ht.
  destruct (full !! (ni - 1)) as [x|] eqn:Hx; [|done]. injection Ht as Ht. exists full, x. cbn. rewrite HG. split_and!; try done.
  rewrite (views_drop full) by done. f_equal. lia.
Qed.

(** A candidate describes its log. *)
Lemma vote_request_sent_ok cli g n e :
  log_inv cli g n → role n = Candidate → log n !! (length (log n) - 1) = Some e →
  vote_request_ok g (mkRequestVoteArgs (current_term n) (node_id n) (last_log_index_of n) (term e)).
Proof.
  intros Hn Hr He. destruct (li_log _ _ _ _ _ Hn) as (full & []). destruct (views_last full n lo_views) as (e' & x & He' & Hx & Ht & Hi).
  rewrite He in He'. injection He' as <-. split; cbn; [by rewrite (li_term _ _ _ _ _ Hn)|]. rewrite lo_candidate by done.
  exists x. done.
Qed.

(** ** Appending to the log of a leader *)

Record appended (n n' : RaftNode) (es : list LogEntry) : Prop := {
  ap_log : log n' = log n ++ es;
  ap_same : (last_included_index n', last_included_term n', http_out n', chan_out n', node_id n', current_term n',
             peers n', commit_index n', last_applied n') =
            (last_included_index n, last_included_term n, http_out n, chan_out n, node_id n, current_term n,
             peers n, commit_index n, last_applied n);
  ap_role : role n' = Leader;
  ap_terms : Forall (λ e, term e = current_term n) es;
  ap_data : Forall data es;
  ap_match : role n = Leader ∧ match_index n' = match_index n ∨
             ∀ p m, match_index n' !! p = Some m → m = last_included_index n;
}.

(** A candidate with a quorum is the first to lead its term. *)
Lemma office_empty g n full cli :
  QuorumSystem quorum → global g → log_inv cli g n → log_ok cluster g n full → role n = Candidate →
  elected quorum (gB g) (node_id n) (current_term n) →
  gG g (current_term n) = [] ∧
  ∀ u k, (u < current_term n)%N → own (gG g) u k → possible g u k → has (gG g) u k full.
Proof.
  intros HQ Hg Hn Hl Hr Hel. split.
  - destruct (gl_origin _ g Hg (current_term n)) as [|[Ht|[c Hled]]]; [done| |].
    + pose proof (li_office _ _ _ _ _ Hn) as Ho. rewrite Hr in Ho. specialize (Ho ltac:(done)). lia.
    + destruct (li_candidate _ _ _ _ _ Hn Hr).
      by rewrite <- (elected_unique quorum (gB g) c (node_id n) (current_term n) (gl_functional _ _ Hg) (gl_led _ _ Hg _ _ Hled) Hel).
  - intros u k Hu Ho Hp. pose proof Hp as (Q & HQ1 & Hq). destruct Hel as (Q' & HQ2 & Hv).
    destruct (quorum_meet Q Q' HQ1 HQ2) as (q & Hin & Hin'). destruct (gl_voted _ g Hg _ _ _ (Hv q Hin')) as [Hqt _].
    destruct (Hq q Hin) as [?|Ha]; [lia|]. rewrite <- (lo_candidate _ _ _ _ Hl Hr). eapply (gl_votes _ g Hg q); eauto.
Qed.

(** What a node that may append has: the log of its term is empty or its own, and
    it has all that may be committed. *)
Lemma append_ready cli g n full :
  QuorumSystem quorum → global g → log_inv cli g n → log_ok cluster g n full → role n ≠ Follower →
  elected quorum (gB g) (node_id n) (current_term n) →
  (gG g (current_term n) = [] ∨ gG g (current_term n) = full) ∧
  ∀ u k, (u < current_term n)%N → own (gG g) u k → possible g u k → has (gG g) u k full.
Proof.
  intros HQ Hg Hn Hl Hr Hel. destruct (role n) eqn:Er; [done| |].
  - destruct (office_empty g n full cli) as [? ?]; auto.
  - destruct (lo_leader _ _ _ _ Hl Er) as [HG _]. split; [by right|]. intros u k Hu Ho Hp. rewrite <- HG.
    apply (gl_complete _ g Hg); [done|done|done|]. rewrite HG. destruct (vw_point _ _ (lo_views _ _ _ _ Hl)) as (e & He & _).
    intros Hnil. by rewrite Hnil in He.
Qed.

Lemma leader_elected cli g n :
  cluster !! node_id n = Some cli → node_inv requester (cli_members cli (node_id n)) (gB g) n → role n = Leader →
  elected quorum (gB g) (node_id n) (current_term n).
Proof.
  intros Hcli Hn Hr. exists (voters n). split; [exists (node_id n), cli; split; [done|by apply (ni_leader _ _ _ _ Hn)]|].
  intros v Hin. apply (ni_voters _ _ _ _ Hn); [by rewrite Hr|done].
Qed.

(** The ghost state after the append. *)
Definition appends (p : nat) (l : list LogEntry) (g : ghost) : ghost := with_ack p (length l) (with_lead p l g).

Lemma appends_ok cli g n full es :
  QuorumSystem quorum → global g → log_inv cli g n → log_ok cluster g n full → role n ≠ Follower →
  elected quorum (gB g) (node_id n) (current_term n) → Forall (λ e, term e = current_term n) es → Forall data es →
  global (appends (node_id n) (full ++ es) g) ∧ grows (node_id n) g (appends (node_id n) (full ++ es) g).
Proof.
  intros HQ Hg Hn Hl Hr Hel Hes Hdata. destruct (append_ready cli g n full) as [HG Hcomp]; try done.
  rewrite <- (li_term _ _ _ _ _ Hn) in *.
  assert (gG g (gT g (node_id n)) `prefix_of` full ++ es) as Hpre by (destruct HG as [-> | ->]; [apply prefix_nil|by eexists]).
  split; [|eapply grows_trans; [by apply lead_grows|apply ack_grows]]. apply ack_global; [|cbn; by rewrite set_log_eq].
  apply lead_global; try done; [apply Hl|]. rewrite (li_term _ _ _ _ _ Hn). apply Hl.
Qed.

Lemma appends_log_ok cli g n n' full es :
  global g → log_inv cli g n → log_ok cluster g n full → appended n n' es →
  grows (node_id n) g (appends (node_id n) (full ++ es) g) → log_ok cluster (appends (node_id n) (full ++ es) g) n' (full ++ es).
Proof.
  intros Hg Hn [] [Hlog [= E1 E2 E3 E4 E5 E6 E7 E8 E9] Hrole Hes _ _] Hgr. pose proof (li_term _ _ _ _ _ Hn) as Ht.
  split; rewrite ?E5, ?E6, ?E8.
  - by eapply views_push.
  - cbn. apply (consistent_app _ _ _ (current_term n)); [|by rewrite Ht, set_log_eq|done]. eapply consistent_mono; [apply Hgr|done].
  - apply Forall_app. split; [done|]. eapply Forall_impl; [exact Hes|]. cbn. by intros e ->.
  - intros _. cbn. rewrite Ht, set_log_eq. split; [done|]. intros k Hk. right. done.
  - by rewrite Hrole.
  - intros t k [Ha|(_ & Et & Hk)] Ho Hp.
    + destruct (gl_acked _ g Hg _ _ _ Ha) as [Hk _]. eapply has_mono; [by eexists|].
      apply (has_same (gG g)); [apply (gr_logs _ _ _ Hgr)|done|]. apply lo_acked; [done| |by eapply possible_before].
      apply (own_same (gG g) (gG (appends (node_id n) (full ++ es) g))); [apply (gr_logs _ _ _ Hgr)|done|done].
    + unfold has. cbn in Et |- *. rewrite Et, set_log_eq. apply prefix_take.
  - refine (commit_ok_mono _ _ _ _ _ _ _ _ _ _ Hgr _ _ _ lo_commit); [by eexists|done|done].
Qed.

Lemma append_logs cli P n n' es :
  QuorumSystem quorum → steady requester (cli_members cli (node_id n)) n n' → keeps_durable n n' → appended n n' es →
  role n ≠ Follower → logs cli P n n'.
Proof.
  intros HQ Hst Hdu Hap Hr g Hg _ Hn. destruct (li_log _ _ _ _ _ Hn) as (full & Hl).
  destruct (Hst _ (li_node _ _ _ _ _ Hn)) as [Hnode _]. pose proof Hap as [Hlog [= E1 E2 E3 E4 E5 E6 E7 E8 E9] Hrole Hes Hdata Hmatch].
  assert (elected quorum (gB g) (node_id n) (current_term n)) as Hel.
  { rewrite <- E5, <- E6. eapply leader_elected; [rewrite E5; apply Hn|by rewrite E5|done]. }
  destruct (appends_ok cli g n full es) as [Hg' Hgr]; try done.
  pose proof (appends_log_ok cli g n n' full es Hg Hn Hl Hap Hgr) as Hl'.
  exists (appends (node_id n) (full ++ es) g). split_and!; [done|done| |done]. destruct Hn.
  split; rewrite ?E1, ?E3, ?E4, ?E5, ?E6, ?E7, ?E8, ?E9; try done; [by apply Hdu|by eexists| |by rewrite Hrole| | | |].
  - intros _. split; [right; by rewrite li_term|]. intros j addr p m. rewrite E5, E6, E7, E8. intros Hj Ha Hp Hm.
    destruct Hmatch as [[Hr' Em]|Hlow]; [|left; rewrite (Hlow p m Hm); lia]. rewrite Em in Hm.
    destruct (li_leader Hr') as [_ Hmo]. destruct (Hmo j addr p m Hj Ha Hp Hm); [by left|right; by left].
  - intros t [?|[_ ->]]; [auto|]. by rewrite li_term.
  - intros _. by apply li_office.
  - by eapply messages_mono.
  - by eapply answers_mono.
Qed.

(** ** Accepting entries *)

Lemma commit_ok_keep g l l' t ci : commit_ok cluster g l t ci → take (S ci) l `prefix_of` l' → commit_ok cluster g l' t ci.
Proof.
  intros [->|(u & k & Hc & Hu & Hk & Hp)] Hl; [by left|]. right. exists u, k. split_and!; try done. etrans; [|exact Hl].
  assert (k < length (gG g u)) by (by apply own_lt, Hc). destruct Hp as [r ->].
  rewrite take_app_le by (rewrite length_take; lia). by rewrite take_take, Nat.min_id.
Qed.

(** The log after a message, and why it keeps what matters. *)
Lemma accept_log_ok cli g n args l0 y full x lg m :
  global g → log_inv cli g n → log_ok cluster g n full → role n = Follower → current_term n = ae_term args →
  l0 `prefix_of` gG g (ae_term args) → l0 !! ae_prev_log_index args = Some y → full !! ae_prev_log_index args = Some x → term x = term y →
  let full' := reconciled full l0 (ae_prev_log_index args) in
  views full' (with_log lg m n) → log_ok cluster (with_ack (node_id n) (length l0) g) (with_log lg m n) full' ∧ l0 `prefix_of` full'.
Proof.
  intros Hg Hn [] Hr Ht Hl0 Hy Hx Hxy full' Hv. pose proof (ack_grows (node_id n) (length l0) g) as Hgr. set (g' := with_ack _ _ _) in *.
  pose proof (consistent_prefix _ _ _ Hl0 (gl_consistent _ _ Hg _)) as Hc0. pose proof (li_term _ _ _ _ _ Hn) as HT. rewrite Ht in *.
  assert (gG g (ae_term args) ≠ []) as Hne. { intros Hnil. rewrite Hnil in Hl0. apply prefix_nil_inv in Hl0. by rewrite Hl0 in Hy. }
  pose proof (reconciled_takes (gG g) full l0 _ x y lo_consistent Hc0 Hx Hy Hxy) as Htakes. fold full' in Htakes.
  assert (∀ q, q `prefix_of` gG g (ae_term args) → q `prefix_of` full → q `prefix_of` full') as Hkeeps.
  { intros q Hq Hqf. by apply (reconciled_keeps (gG g) full l0 _ x y lo_consistent Hc0 Hx Hy Hxy (gG g (ae_term args))). }
  assert (role (with_log lg m n) = Follower) as Hr1 by done. split; [|done]. split; rewrite ?Hr1; try done.
  - by apply (reconciled_consistent (gG g) full l0 _ x y).
  - change (Forall (λ e, (term e ≤ current_term n)%N) full'). rewrite Ht.
    destruct (reconciled_cases (gG g) full l0 _ x y lo_consistent Hc0 Hx Hy Hxy) as [[Er _]|Er]; unfold full'; rewrite Er; [done|].
    destruct Hl0 as [r Hrest]. pose proof (gl_terms _ _ Hg (ae_term args)) as Hterms. rewrite Hrest in Hterms. by apply Forall_app in Hterms as [? _].
  - intros t k Ha Ho Hp. apply (possible_before _ _ _ _ _ _ Hgr) in Hp. destruct Ha as [Ha|(_ & Et & Hk)].
    + apply Hkeeps; [|by apply lo_acked]. destruct (gl_acked _ g Hg _ _ _ Ha) as [_ Htt]. change (node_id (with_log lg m n)) with (node_id n) in Htt. rewrite HT in Htt.
      destruct (decide (t = ae_term args)) as [->|Hne']; [apply prefix_take|]. apply (gl_complete _ g Hg); [lia|done|done|done].
    + unfold has. cbn. rewrite Et, HT. etrans; [|exact Htakes]. destruct Hl0 as [r ->]. rewrite take_app_le by lia. apply prefix_take.
  - change (commit_ok cluster g' full' (current_term n) (commit_index n)). rewrite Ht.
    refine (commit_ok_mono _ _ g g' full' full' (ae_term args) (ae_term args) (commit_index n) (commit_index n) Hgr _ _ _ _); try done.
    destruct (commit_ok_leader _ g full _ _ Hg lo_commit) as [Hz|[Hp _]]; [done|by left|].
    eapply commit_ok_keep; [exact lo_commit|]. apply Hkeeps; [done|apply prefix_take].
Qed.

(** A follower's log is replaced. *)
Lemma relog_inv cli g g' n lg m full' :
  grows (node_id n) g g' → gT g' = gT g → gLed g' = gLed g → role n = Follower → node_inv requester (cli_members cli (node_id n)) (gB g') (with_log lg m n) →
  durable (with_log lg m n) → log_ok cluster g' (with_log lg m n) full' → log_inv cli g n → log_inv cli g' (with_log lg m n).
Proof.
  intros Hgr HgT HgL Hr Hnode Hd Hl []. split; cbn; rewrite ?HgT, ?HgL, ?Hr; try done; [by eexists|by eapply messages_mono|by eapply answers_mono].
Qed.

(** ** Commits *)

Lemma set_commit_inv cli g n full c :
  log_inv cli g n → log_ok cluster g n full → commit_ok cluster g full (current_term n) c → commit_index n ≤ c →
  log_inv cli g (n <| commit_index := c |>).
Proof.
  intros Hn Hl Hc Hle. assert (frame n (n <| commit_index := c |>)) as Hfr by frame0.
  destruct (frame_steady requester (cli_members cli (node_id n)) _ _ Hfr _ (li_node _ _ _ _ _ Hn)) as [Hnode _]. destruct Hn. split; cbn; try done.
  - apply (lframe_durable n); [by intros ?|done].
  - exists full. destruct Hl. split; try done. by apply (views_same _ n).
  - intros Hr. destruct (li_leader Hr) as [? Hm]. split; [done|]. intros j addr p m Hj Ha Hp Hmi.
    destruct (Hm j addr p m Hj Ha Hp Hmi); [left; cbn; lia|by right].
  - lia.
Qed.

(** A commit that is justified by the invariant. *)
Lemma commit_logs cli P n c :
  (∀ g full, global g → log_inv cli g n → log_ok cluster g n full → commit_ok cluster g full (current_term n) c) → commit_index n ≤ c →
  logs cli P n (n <| commit_index := c |>).
Proof.
  intros Hc Hle g Hg _ Hn. destruct (li_log _ _ _ _ _ Hn) as (full & Hl). exists g. split_and!; [done|apply grows_refl| |done].
  eapply set_commit_inv; eauto.
Qed.

(** [logs] with something about the ghost state that holds from then on. *)
Definition logs_fact (cli : Cli) (P : pool) (F : ghost → Prop) (n n' : RaftNode) : Prop :=
  ∀ g, global g → pool_ok g P → log_inv cli g n →
  ∃ g', global g' ∧ grows (node_id n) g g' ∧ log_inv cli g' n' ∧ node_id n' = node_id n ∧ F g'.

Lemma logs_fact_logs cli P F n n' : logs_fact cli P F n n' → logs cli P n n'.
Proof. intros H g Hg HP Hn. destruct (H g Hg HP Hn) as (g' & ? & ? & ? & ? & _). eauto. Qed.

Lemma logs_fact_l cli P F n n1 n' : logs cli P n n1 → logs_fact cli P F n1 n' → logs_fact cli P F n n'.
Proof.
  intros H1 H2 g Hg HP Hn. destruct (H1 g Hg HP Hn) as (g1 & Hg1 & Hgr1 & Hn1 & E1).
  destruct (H2 g1 Hg1) as (g2 & Hg2 & Hgr2 & Hn2 & E2 & HF); [by eapply pool_ok_mono|done|].
  exists g2. rewrite E1 in Hgr2. split_and!; [done|by eapply grows_trans|done|congruence|done].
Qed.

Lemma logs_fact_r cli P (F : ghost → Prop) n n1 n' :
  (∀ p g g', grows p g g' → F g → F g') → logs_fact cli P F n n1 → logs cli P n1 n' → logs_fact cli P F n n'.
Proof.
  intros HF H1 H2 g Hg HP Hn. destruct (H1 g Hg HP Hn) as (g1 & Hg1 & Hgr1 & Hn1 & E1 & HF1).
  destruct (H2 g1 Hg1) as (g2 & Hg2 & Hgr2 & Hn2 & E2); [by eapply pool_ok_mono|done|].
  exists g2. split_and!; [done| |done|congruence|by eapply HF]. rewrite E1 in Hgr2. by eapply grows_trans.
Qed.

(** Accepting the entries of a message, and its commit index. *)
Lemma accept_logs cli P args n m n' :
  po_messages P (AppendEntries args) → role n = Follower → current_term n = ae_term args →
  has_entry n (ae_prev_log_index args) (ae_prev_log_term args) = true →
  let n1 := with_log (merged n (ae_prev_log_index args) (ae_entries args)) m n in
  steady requester (cli_members cli (node_id n)) n n1 → keeps_durable n n1 →
  n' = n1 ∨ commit_index n < ae_leader_commit args ∧ n' = n1 <| commit_index := Nat.min (ae_leader_commit args) (last_log_index_of n1) |> →
  logs_fact cli P (λ g, gA g (node_id n) (current_term n) (ae_prev_log_index args + length (ae_entries args))) n n'.
Proof.
  intros HP Hr Ht Hhas n1 Hst Hdu Hn' g Hg [_ Hmsg] Hn. destruct (Hmsg _ HP) as (l0 & y & Hl0 & Hy & Hyt & Hes & Hlc).
  destruct (li_log _ _ _ _ _ Hn) as (full & Hl). pose proof (lo_views _ _ _ _ Hl) as Hv.
  destruct (views_has_entry full n _ _ Hv Hhas) as (Hle & x & Hx & Hxt). pose proof (lookup_lt_Some _ _ _ Hy) as Hlt.
  pose proof (views_merged full n _ (ae_entries args) m Hv Hle (lookup_lt_Some _ _ _ Hx)) as Hv1. fold n1 in Hv1. rewrite Hes in Hv1 at 1.
  destruct (accept_log_ok cli g n args l0 y full x _ m Hg Hn Hl Hr Ht Hl0 Hy Hx ltac:(congruence) Hv1) as [Hl1 Htakes]. fold n1 in Hl1.
  set (g' := with_ack (node_id n) (length l0) g) in *. pose proof (ack_grows (node_id n) (length l0) g : grows _ g g') as Hgr.
  assert (length l0 = S (ae_prev_log_index args + length (ae_entries args))) as Hlen by (rewrite Hes, length_drop; lia).
  pose proof (li_term _ _ _ _ _ Hn) as HT. destruct (Hst _ (li_node _ _ _ _ _ Hn)) as [Hnode _].
  assert (log_inv cli g' n1) as Hn1.
  { eapply relog_inv; [exact Hgr|done|done|done|done|by apply Hdu, (li_durable _ _ _ _ _ Hn)|exact Hl1|done]. }
  assert (global g') as Hg' by (apply ack_global; [done|rewrite HT, Ht; by apply prefix_length]).
  assert (commit_ok cluster g' (reconciled full l0 (ae_prev_log_index args)) (current_term n1) (ae_leader_commit args)) as Hlc'.
  { refine (commit_ok_mono _ _ g g' _ _ _ _ _ _ Hgr Htakes _ _ Hlc); [by rewrite <- Ht|done]. }
  exists g'. split_and!; [done|done| |by destruct Hn' as [-> |[_ ->]]|right; split_and!; [done|done|lia]].
  destruct Hn' as [->|[Hci ->]]; [done|]. destruct (views_last _ _ (lo_views _ _ _ _ Hl1)) as (_ & _ & _ & _ & _ & Hlli).
  destruct (commit_ok_leader _ g' _ _ _ Hg' Hlc') as [?|[_ Hlt']]; [| lia|].
  { change (gG g (current_term n) ≠ []). rewrite Ht. intros Hnil. rewrite Hnil in Hl0. apply prefix_nil_inv in Hl0. by rewrite Hl0 in Hy. }
  rewrite Nat.min_l by lia. eapply set_commit_inv; [done|done|done|cbn; lia].
Qed.

(** *** The leader's commits *)

(** Every index of a leader's log that a quorum is known to have is accepted by it. *)
Lemma stored_acked cli g n full q i k :
  global g → log_inv cli g n → log_ok cluster g n full → role n = Leader → commit_index n < k → k ≤ i →
  server_match_indices n (last_log_index_of n) !! q = Some i → gA g q (current_term n) k.
Proof.
  intros Hg Hn Hl Hr Hk Hi Hq. destruct (lo_leader _ _ _ _ Hl Hr) as [_ Hself]. destruct (li_leader _ _ _ _ _ Hn Hr) as [_ Hm].
  destruct (views_last _ _ (lo_views _ _ _ _ Hl)) as (_ & x & _ & Hx & _ & Hlli).
  unfold server_match_indices in Hq. apply lookup_insert_Some in Hq as [[<- <-]|[Hne Hq]].
  - apply Hself. assert (length full ≠ 0) by (destruct full; done). lia.
  - rewrite map_lookup_imap, (li_config _ _ _ _ _ Hn) in Hq. cbn [all_members] in Hq.
    destruct (cli_members cli (node_id n) !! q) as [addr|] eqn:Ha; [|done]. cbn in Hq. rewrite decide_False in Hq by done.
    destruct (position _ (peers n)) as [p|] eqn:Hp; [|done].
    destruct (Hm q addr p i) as [?|Hack]; [done|done|done|done|lia|]. by eapply gl_down.
Qed.

Lemma quorum_commit_ok cli g n full k e :
  global g → log_inv cli g n → log_ok cluster g n full → role n = Leader → commit_index n < k →
  has_joint_majority (cluster_config n) (index_acks (server_match_indices n (last_log_index_of n)) k) = true →
  log n !! (k - last_included_index n) = Some e → term e = current_term n → commit_ok cluster g full (current_term n) k.
Proof.
  intros Hg Hn Hl Hr Hk Hmaj He Het. destruct (lo_leader _ _ _ _ Hl Hr) as [HG _]. pose proof (li_applied _ _ _ _ _ Hn) as Happ.
  right. exists (current_term n), k. rewrite HG. split_and!; [|done|done|apply prefix_take]. split.
  - unfold own. rewrite HG. pose proof (views_term full n k (lo_views _ _ _ _ Hl) ltac:(lia)) as Ht. rewrite He in Ht.
    destruct (full !! k) as [x|]; [|done]. injection Ht as Ht. exists x. split; [done|congruence].
  - rewrite (li_config _ _ _ _ _ Hn) in Hmaj. eexists. split; [exists (node_id n), cli; split; [apply Hn|exact Hmaj]|].
    intros q (i & Hq & Hi)%elem_of_index_acks. by eapply stored_acked.
Qed.

(** A leader without peers is a quorum. *)
Lemma alone_commit_ok cli g n full e :
  global g → log_inv cli g n → log_ok cluster g n full → role n = Leader → peers n = [] →
  log n !! (length (log n) - 1) = Some e → term e = current_term n → commit_ok cluster g full (current_term n) (last_log_index_of n).
Proof.
  intros Hg Hn Hl Hr Hp He Het. destruct (lo_leader _ _ _ _ Hl Hr) as [HG Hself].
  destruct (views_last _ _ (lo_views _ _ _ _ Hl)) as (e' & x & He' & Hx & Hxt & Hlli). rewrite He in He'. injection He' as <-.
  assert (length full ≠ 0) by (destruct full; done). right. exists (current_term n), (last_log_index_of n). rewrite HG, Hlli.
  split_and!; [|done|done|apply prefix_take]. split.
  - exists x. rewrite HG. split; [|congruence]. rewrite last_lookup in Hx. by replace (length full - 1) with (pred (length full)) by lia.
  - exists {[node_id n]}. split; [|intros q ->%elem_of_singleton; apply Hself; lia].
    exists (node_id n), cli. split; [apply Hn|]. rewrite (li_peers _ _ _ _ _ Hn) in Hp. unfold cli_members, initial_members. rewrite Hp. cbn.
    apply single_majority; [by rewrite lookup_insert_eq; eexists|]. by rewrite insert_empty, map_size_singleton.
Qed.

(** *** What the leader records of a reply *)

Lemma members_address cli i j addr : cli_members cli i !! j = Some addr → j ≠ i → extract_node_id_from_address addr = Some j.
Proof.
  unfold cli_members, initial_members. intros Hj Hne. rewrite lookup_insert_ne in Hj by done. revert Hj. generalize (cli_peers cli). intros ps.
  assert (∀ m : gmap nat string, (m !! j = Some addr → extract_node_id_from_address addr = Some j) →
    foldl (λ m p, match extract_node_id_from_address p with Some i => <[i := p]> m | None => m end) m ps !! j = Some addr →
    extract_node_id_from_address addr = Some j) as Hgen; [|by apply Hgen].
  induction ps as [|p ps IH]; intros m Hm; cbn; [done|]. apply IH. destruct (extract_node_id_from_address p) as [k|] eqn:Hp; [|done].
  intros [[<- <-]|[_ ?]]%lookup_insert_Some; auto.
Qed.

Lemma progress_logs cli P r n p ni :
  cli_address cli ∉ cli_peers cli → po_messages P (AppendEntriesResponse r) → aer_success r = true → aer_term r = current_term n →
  peer_index n (aer_peer_id r) = Some p →
  logs cli P n (n <| next_index := ni |> <| match_index := <[p := aer_match_index r]> (match_index n) |>).
Proof.
  intros Hself HP Hs Ht Hp g Hg [_ Hmsg] Hn. specialize (Hmsg _ HP Hs). exists g. split_and!; [done|apply grows_refl| |done].
  set (n' := n <| next_index := _ |> <| match_index := _ |>). assert (frame n n') as Hfr by frame0.
  destruct (frame_steady requester (cli_members cli (node_id n)) _ _ Hfr _ (li_node _ _ _ _ _ Hn)) as [Hnode _].
  unfold peer_index in Hp. rewrite (li_config _ _ _ _ _ Hn), (li_peers _ _ _ _ _ Hn) in Hp. cbn [all_members] in Hp.
  destruct (cli_members cli (node_id n) !! aer_peer_id r) as [addr|] eqn:Ha; [|done].
  apply position_Some in Hp as (a & Hpa & ->%bool_decide_eq_true).
  assert (aer_peer_id r ≠ node_id n) as Hne.
  { intros Heq. rewrite Heq in Ha. unfold cli_members, initial_members in Ha. rewrite lookup_insert_eq in Ha. injection Ha as <-.
    by apply Hself, list_elem_of_lookup_2 with p. }
  destruct Hn. split; cbn; try done.
  - apply (lframe_durable n); [by intros ?|done].
  - destruct li_log as (full & []). exists full. split; try done. by apply (views_same _ n).
  - intros Hr. destruct (li_leader Hr) as [? Hm]. split; [done|]. intros j addr' p' m Hj Ha' Hp' Hmi. cbn in Hmi.
    destruct (decide (p' = p)) as [->|Hpne]; [|rewrite list_lookup_insert_ne in Hmi by done; by eapply Hm].
    apply list_lookup_insert_Some in Hmi as [(_ & <- & _)|[? _]]; [|done]. right. cbn. rewrite <- Ht.
    cbn in Hp'. rewrite li_peers in Hp'. apply position_Some in Hp' as (a' & Hpa' & ->%bool_decide_eq_true). rewrite Hpa in Hpa'. injection Hpa' as <-.
    assert (Some j = Some (aer_peer_id r)) as [= ->]; [|done].
    rewrite <- (members_address _ _ _ _ Ha Hne). symmetry. by apply (members_address cli (node_id n)).
Qed.

End steps.
