(* ===== verification/RaftComplete.v ===== *)
(** * Leader completeness and state machine safety *)

From S2P Require Import Prelude BTree Sharding MasterState AppState ClusterConfig RaftNode RaftRpc RaftLoop RaftDemo RaftFrame RaftElection RaftLog RaftDurable RaftSafety RaftCommit RaftMatching RaftGhost RaftSteps.

Section complete.
  Context {E : RaftEnv} (requester : nat → nat) (cluster : gmap nat Cli).
  Context `{!QuorumSystem (cluster_quorum cluster)}.

Notation RM := (M RaftNode).
Notation quorum := (cluster_quorum cluster).
Notation log_inv := (log_inv requester cluster).
Notation global := (global cluster).
Notation logs := (logs requester cluster).

#[local] Hint Resolve check_read_indices_lframe send_chan_lframe save_config_lframe : dfs.
#[local] Hint Resolve check_read_indices_bframe send_chan_bframe save_term_bframe save_vote_bframe : dfs.
#[local] Hint Extern 1 (not_rpc _) => exact I : dfs.
#[local] Hint Extern 1 (plain _) => reflexivity : dfs.
#[local] Hint Extern 5 (kp (logs _ _) _ _) => apply kp_quiet_logs; solve [eauto 2 with dfs nocore] : dfs.
#[local] Hint Resolve step_down_logs candidacy_logs create_snapshot_logs apply_logs_logs : dfs.

Ltac quiet_upd :=
  apply calm_logs; [apply frame_steady; frame0|apply lframe_durable; intros ?; by split|apply bframe_calm, bframe_intro; reflexivity].

(** What follows a step that is taken for granted. *)
Lemma kp_after {A} (R : RaftNode → RaftNode → Prop) `{!PreOrder R} (m m' : RM A) n n1 : m n = m' n1 → R n n1 → kp R m' n1 → kp R m n.
Proof. unfold kp. intros -> HR. destruct (m' n1) as [[] ?]; [intros; by etrans..|done]. Qed.

(** ** Replication *)

Lemma heartbeat_peer_logs cli P i p n : role n = Leader → kp (logs cli P) (heartbeat_peer i p) n.
Proof.
  intros Hr. unfold heartbeat_peer. destruct p as [[? ?] ?]. rkp_step. destruct (tracking_index _ _ _ _) as [j|]; [|rkp]. rkp_step.
  { destruct (to_vec (app_state n)); [|rkp]. by apply send_logs. }
  rkp_step. rkp_step; [rkp_step; quiet_upd|]. destruct (log n !! _) as [e|] eqn:He; [|rkp_step; quiet_upd].
  apply send_logs. intros g Hg Hn. apply Nat.leb_gt in Hif. by eapply entries_sent_ok; [..|lia|].
Qed.

(** Code that leaves the node in office. *)
Definition same_role (n n' : RaftNode) : Prop := role n' = role n.

#[local] Instance same_role_preorder : PreOrder same_role.
Proof. unfold same_role. split; [done|]. intros a b c. congruence. Qed.

Lemma kp_role {A} (m : RM A) n a n' : kp same_role m n → m n = (Ok a, n') → role n = Leader → role n' = Leader.
Proof. intros Hk Hrun <-. by apply (kp_ok _ _ _ _ _ Hk Hrun). Qed.

Lemma heartbeat_peer_role i p n : kp same_role (heartbeat_peer i p) n.
Proof. unfold heartbeat_peer, send_http. destruct p as [[? ?] ?]. by rkp. Qed.

Lemma apply_one_role n : kp same_role apply_one n.
Proof.
  unfold apply_one, check_read_indices, send_chan, apply_membership_command, remove_server_legacy, add_server_legacy, save_config.
  rkp; try done; try (by case_if); unfold kp, db_write; by destruct (db_faults _) as [|[] ?].
Qed.

Lemma apply_logs_role n : kp same_role apply_logs n.
Proof.
  apply kp_get_bind. generalize (commit_index n - last_applied n). intros fuel. revert n.
  induction fuel as [|fuel IH]; intros n; simpl; [rkp|]. do 2 rkp_step; [|rkp]. rkp_step; [apply apply_one_role|apply IH].
Qed.

Lemma record_append_reply_role r n : kp same_role (record_append_reply r) n.
Proof. unfold record_append_reply, set_progress, check_read_indices. by rkp. Qed.
#[local] Hint Resolve apply_logs_role record_append_reply_role : dfs.

Lemma send_heartbeats_logs cli P n : role n = Leader → kp (logs cli P) send_heartbeats n.
Proof.
  intros Hr. unfold send_heartbeats. rkp_step. generalize (imap pair (combined_peers n)). intros l. revert n Hr.
  induction l as [|[i p] l IH]; intros n Hr; cbn; [reflexivity|]. rkp_step; [by apply heartbeat_peer_logs|].
  apply IH. by apply (kp_role _ _ _ _ (heartbeat_peer_role i p n) H).
Qed.

(** ** Appending *)

(** The node with an entry appended in memory and on disk. *)
Definition pushed (e : LogEntry) (n : RaftNode) : RaftNode :=
  with_log (log n ++ [e]) (<[last_included_index n + length (log n) := e]> (db_log (db n))) n.

Lemma pushed_frame e n : plain e → 0 < length (log n) → frame n (pushed e n).
Proof.
  intros He Hne members Hst. assert (db_faults (db n) = []) as Hf by apply Hst.
  pose proof (push_run e (λ i, save_log_entry i e) (λ i, ret tt) n (λ _ _ _, eq_refl) Hf Hne) as Hrun.
  assert (kp frame (do! modify (λ n, n <| log := log n ++ [e] |>) in
     let! i := last_log_index in do! save_log_entry i e in ret tt) n) as Hk by rkp.
  unfold kp in Hk. rewrite Hrun in Hk. by apply Hk.
Qed.

Lemma pushed_last e n :
  log (pushed e n) !! (length (log (pushed e n)) - 1) = Some e ∧ last_log_index_of (pushed e n) = last_included_index n + length (log n).
Proof.
  unfold last_log_index_of. cbn. rewrite length_app. cbn. split; [|lia].
  by rewrite Nat.add_sub, lookup_app_r, Nat.sub_diag by lia.
Qed.

Lemma append_own_run cmd n :
  db_faults (db n) = [] → 0 < length (log n) →
  append_own cmd n = (Ok (last_log_index_of (pushed (mkLogEntry (current_term n) cmd) n)), pushed (mkLogEntry (current_term n) cmd) n).
Proof.
  intros Hf Hne. unfold append_own, bind at 1, get at 1. cbv zeta.
  rewrite (push_run (mkLogEntry (current_term n) cmd) _ _ n (λ _ _ _, eq_refl) Hf Hne). by rewrite (proj2 (pushed_last _ n)).
Qed.

Lemma pushed_logs cli P cmd n :
  role n = Leader → data_command cmd = true → 0 < length (log n) → logs cli P n (pushed (mkLogEntry (current_term n) cmd) n).
Proof.
  intros Hr Hd Hne. apply (append_logs _ _ _ _ _ _ [mkLogEntry (current_term n) cmd]); [done| | | |by rewrite Hr].
  - apply frame_steady, pushed_frame; [by apply data_plain_command|done].
  - intros Hdu. by apply push_durable.
  - split; cbn; auto; by repeat constructor.
Qed.

(** A leader without peers commits what it appends. *)
Lemma alone_commit_logs cli P n e :
  role n = Leader → peers n = [] → log n !! (length (log n) - 1) = Some e → term e = current_term n → commit_index n < last_log_index_of n →
  logs cli P n (n <| commit_index := last_log_index_of n |>).
Proof. intros Hr Hp He Ht Hlt. apply commit_logs; [|lia]. intros g full Hg Hn Hl. by eapply alone_commit_ok. Qed.

Lemma alone_apply_logs cli P n e i :
  role n = Leader → i = last_log_index_of n → log n !! (length (log n) - 1) = Some e → term e = current_term n →
  kp (logs cli P) (if bool_decide (peers n = []) && Nat.ltb (commit_index n) i then
    do! modify (λ n, n <| commit_index := i |>) in apply_logs else ret tt) n.
Proof.
  intros Hr -> He Ht. rkp_step; [|rkp]. apply andb_true_iff in Hif as [Hp%bool_decide_eq_true Hlt%Nat.ltb_lt].
  rkp_step; [rkp_step; by eapply alone_commit_logs|rkp].
Qed.

Lemma handle_client_request_logs cli P cmd tx n :
  data_command cmd = true → kp (logs cli P) (handle_client_request cmd tx) n.
Proof.
  intros Hd. apply kp_logs_inv. intros g _ _ [Hf Hne]%li_faults. unfold handle_client_request. do 2 rkp_step; [rkp|].
  apply negb_false_iff, bool_decide_eq_true in Hif. set (e := mkLogEntry (current_term n) cmd).
  eapply (kp_after _ _ _ n (pushed e n)); [apply bind_ok, append_own_run; done|by apply pushed_logs|].
  rkp_step. { rkp_step. apply (alone_apply_logs _ _ _ e); [done|done|apply pushed_last|done]. }
  assert (role s' = Leader) as Hr'. { eapply kp_role; [|exact H|exact Hif]. by rkp. }
  rkp_step; [rkp_step; quiet_upd|]. injection H0 as _ <-. do 2 rkp_step; [rkp|]. rkp_step. by apply send_heartbeats_logs.
Qed.

(** *** Client batches *)

(** The node with the entries of a batch appended in memory and on disk. *)
Definition batched (reqs : list (Command * nat)) (n : RaftNode) : RaftNode :=
  let es := batch_entries n reqs in
  with_log (log n ++ es) (save_all (db_log (db n)) (indexed (last_included_index n + length (log n)) es)) n.

Lemma batched_frame reqs n :
  Forall (λ r, plain_command r.1 = true) reqs → 0 < length (log n) → frame n (batched reqs n).
Proof.
  intros Hp Hne members Hst. assert (db_faults (db n) = []) as Hf by apply Hst.
  assert (kp frame (let! batch := append_batch reqs ([], []) in save_log_entries_batch batch.1) n) as Hk.
  { rkp_step; [by apply append_batch_frame|]. apply save_log_entries_batch_frame. by eapply append_batch_batch in H. }
  destruct (append_batch_run reqs ([], []) n Hne) as (w & Hrun). unfold kp in Hk. rewrite (bind_ok _ _ _ _ _ Hrun) in Hk.
  cbn [fst] in Hk. rewrite save_batch_run in Hk by done. by apply Hk.
Qed.

Lemma batched_logs cli P reqs n :
  role n = Leader → Forall (λ r, data_command r.1 = true) reqs → 0 < length (log n) → logs cli P n (batched reqs n).
Proof.
  intros Hr Hd Hne. apply (append_logs _ _ _ _ _ _ (batch_entries n reqs)); [done| | | |by rewrite Hr].
  - apply frame_steady, batched_frame; [|done]. eapply Forall_impl; [exact Hd|]. intros r. apply data_plain_command.
  - intros Hdu. apply with_log_durable; [done|by rewrite lookup_app_l|]. apply mirror_batch; [done|apply Hdu].
  - split; cbn; auto; apply Forall_fmap; [by apply Forall_true|]. eapply Forall_impl; [exact Hd|]. done.
Qed.

Lemma batched_last reqs n :
  reqs ≠ [] → ∃ e, log (batched reqs n) !! (length (log (batched reqs n)) - 1) = Some e ∧ term e = current_term n.
Proof.
  intros Hne. unfold batched, batch_entries. cbn. destruct (exists_last Hne) as (rs & r & ->). rewrite fmap_app, app_assoc. cbn.
  exists (mkLogEntry (current_term n) r.1). split; [|done]. rewrite length_app. cbn. by rewrite Nat.add_sub, lookup_app_r, Nat.sub_diag by lia.
Qed.

Lemma handle_client_batch_logs cli P reqs n :
  role n = Leader → reqs ≠ [] → Forall (λ r, data_command r.1 = true) reqs → kp (logs cli P) (handle_client_batch reqs) n.
Proof.
  intros Hr Hreqs Hd. apply kp_logs_inv. intros g _ _ [Hf Hne]%li_faults. unfold handle_client_batch. rkp_step. cbv zeta.
  destruct (append_batch_run reqs ([], []) n Hne) as (w & Hrun). cbn in Hrun. destruct (batched_last reqs n Hreqs) as (e & He & Het).
  eapply (kp_after _ _ _ n (batched reqs n)); [|by apply batched_logs|].
  { rewrite (bind_ok _ _ _ _ _ Hrun). erewrite bind_ok; [reflexivity|]. unfold or_else. cbn. by rewrite save_batch_run. }
  rkp_step; [rkp_step; quiet_upd|]. injection H as _ <-. rkp_step. set (n1 := batched reqs n <| pending_replies := _ |>).
  rkp_step.
  { rkp_step; [|rkp]. rkp_step. apply bool_decide_eq_true in Hif. rkp_step; [|rkp].
    rkp_step; [rkp_step|rkp]. apply Nat.ltb_lt in Hif0.
    assert (0 < length (log n1)) by (cbn; rewrite length_app; lia).
    assert (last_included_index n1 + length (log n1) - 1 = last_log_index_of n1) as -> by (unfold last_log_index_of; lia).
    eapply alone_commit_logs; [done|done|exact He|done|]. unfold last_log_index_of. lia. }
  apply send_heartbeats_logs. eapply kp_role; [|exact H|exact Hr]. by rkp.
Qed.

(** *** Taking office *)

Definition in_office (n : RaftNode) : RaftNode :=
  pushed (mkLogEntry (current_term n) NoOp) (lead n)
    <| next_index := replicate (length (peers n)) (length (log n ++ [mkLogEntry (current_term n) NoOp]) + last_included_index n) |>
    <| match_index := replicate (length (peers n)) (last_included_index n) |>.

Lemma become_leader_run n :
  db_faults (db n) = [] → 0 < length (log n) →
  become_leader n =
    (let! n' := get in
     if bool_decide (peers n' = []) && Nat.ltb (commit_index n') (last_included_index n + length (log n)) then
       do! modify (λ n', n' <| commit_index := last_included_index n + length (log n) |>) in apply_logs
     else ret tt) (in_office n).
Proof.
  intros Hf Hne. unfold become_leader. unfold bind at 1, modify at 1. unfold bind at 1, get at 1. cbv zeta.
  set (e := mkLogEntry _ NoOp). fold (lead n).
  assert (∀ i n, db_faults (db n) = [] → ignore_err (save_log_entry i e) n = save_log_entry i e n) as Hsave.
  { intros i n' Hf'. unfold ignore_err, save_log_entry. by rewrite db_write_run. }
  rewrite (push_run e (λ i, ignore_err (save_log_entry i e)) _ (lead n) Hsave Hf Hne). cbv zeta.
  unfold bind at 1, modify at 1. reflexivity.
Qed.

Lemma become_leader_logs cli P n :
  role n = Candidate → majority (cli_members cli (node_id n)) (voters n) = true → kp (logs cli P) become_leader n.
Proof.
  intros Hr Hmaj. apply kp_logs_inv. intros g _ _ [Hf Hne]%li_faults. set (e := mkLogEntry (current_term n) NoOp).
  eapply (kp_after _ _ _ n (in_office n)); [by apply become_leader_run| |].
  - apply (append_logs _ _ _ _ _ _ [e]); [done| | | |by rewrite Hr].
    + etrans; [by apply lead_steady|]. etrans; [by apply frame_steady, (pushed_frame e (lead n))|]. apply frame_steady. frame0.
    + intros Hd. apply (lframe_durable (pushed e (lead n))); [by intros ?|]. apply push_durable. apply (lframe_durable n); [by intros ?|done].
    + split; cbn; auto; try (by repeat constructor). right. intros p m Hm. by apply lookup_replicate in Hm as [-> _].
  - rkp_step. apply (alone_apply_logs _ _ _ e); [done| |apply (pushed_last e (lead n))|done].
    symmetry. exact (proj2 (pushed_last e (lead n))).
Qed.

(** A candidate asks every peer for its vote. *)
Lemma request_votes_logs cli P (url : string → string) ps n e :
  role n = Candidate → log n !! (length (log n) - 1) = Some e →
  kp (logs cli P) (for_each ps (λ peer, send_http (url peer)
    (RequestVote (mkRequestVoteArgs (current_term n) (node_id n) (last_log_index_of n) (term e))))) n.
Proof.
  intros Hr He. set (args := mkRequestVoteArgs _ _ _ _).
  enough (∀ o, kp (logs cli P) (for_each ps (λ peer, send_http (url peer) (RequestVote args))) (n <| http_out := o |>)) as Hall.
  { specialize (Hall (http_out n)). by destruct n. }
  induction ps as [|p ps IH]; intros o; cbn; [reflexivity|]. rkp_step.
  - apply send_logs. intros g Hg Hn. exact (vote_request_sent_ok _ _ cli g _ e Hn Hr He).
  - injection H as _ <-. apply (IH (o ++ _)).
Qed.

Lemma start_election_logs cli P n : kp (logs cli P) start_election n.
Proof.
  apply kp_logs_inv. intros g _ _ Hn. unfold start_election. rkp_step; [rkp|]. destruct a.
  destruct (candidacy_ok _ _ H) as (Hr & Hv & Hc & Hid). rewrite (li_config _ _ _ _ _ Hn) in Hc.
  rkp_step; [rkp_step; quiet_upd|]. injection H0 as _ <-. do 4 rkp_step; [|].
  - apply become_leader_logs; [done|]. cbn [node_id voters]. simpl in *. rewrite Hv, Hid.
    apply single_majority; [apply cli_members_self|]. rewrite Hc in Hif. by apply Nat.eqb_eq.
  - by apply (request_votes_logs _ _ (λ peer, peer +:+ "/raft/vote")).
Qed.

#[local] Hint Resolve start_election_logs : dfs.

(** ** Elections *)

Lemma step_down_ok t h n n' :
  step_down_to_follower t h n = (Ok tt, n') →
  role n' = Follower ∧ current_term n' = N.max (current_term n) t ∧ node_id n' = node_id n ∧ cluster_config n' = cluster_config n.
Proof.
  unfold step_down_to_follower. intros H.
  inv_ok; db_inv; (destruct h; cbn; split_and!; try done;
    match goal with
    | H : (_ <? _)%N = true |- _ => apply N.ltb_lt in H; lia
    | H : (_ <? _)%N = false |- _ => apply N.ltb_ge in H; lia
    end).
Qed.

Lemma handle_request_vote_logs cli P args n : po_messages P (RequestVote args) → kp (logs cli P) (handle_request_vote args) n.
Proof.
  intros HP. unfold handle_request_vote. do 2 rkp_step; [|rkp]. rkp_step; [|rkp]. apply N.leb_le in Hif. rkp_step; [rkp; quiet_upd|].
  assert (current_term s' = rv_term args) as Ht.
  { destruct (N.ltb_spec (current_term n) (rv_term args)) as [Hlt|Hge].
    - inv_ok. match goal with H : step_down_to_follower _ _ _ = (Ok ?a, _) |- _ => destruct a; apply step_down_ok in H as (_ & E1 & _) end.
      cbn. rewrite E1. lia.
    - inv_ok. lia. }
  do 4 rkp_step; [|rkp]. apply andb_true_iff in Hif0 as [Hv Hup]. apply (vote_logs _ _ _ _ args _ e); try done.
  apply orb_true_iff in Hv as [?%bool_decide_eq_true|?%bool_decide_eq_true]; auto.
Qed.

Lemma count_vote_logs cli P v n :
  role n = Candidate → (∀ g, pool_ok cluster g P → gB g v (current_term n) (node_id n)) → logs cli P n (count_vote v n).
Proof.
  intros Hr Hv g Hg HP Hn. exists g. split_and!; [done|apply grows_refl| |done]. specialize (Hv g HP).
  apply (send_step _ _ cli g n); try done; [by apply bframe_intro| | |apply (li_http _ _ _ _ _ Hn)|apply (li_chan _ _ _ _ _ Hn)].
  - apply count_vote_inv; [done|done|apply (li_node _ _ _ _ _ Hn)].
  - apply (lframe_durable n); [by intros ?|apply (li_durable _ _ _ _ _ Hn)].
Qed.

Lemma handle_request_vote_response_logs cli P r n :
  (rvr_vote_granted r = true → po_votes P (rvr_peer_id r) (rvr_term r) (node_id n)) →
  kp (logs cli P) (handle_request_vote_response r) n.
Proof.
  intros Hg. apply kp_logs_inv. intros g1 _ _ Hn1. unfold handle_request_vote_response.
  rkp_step. rkp_step; [|rkp]. rkp_step.
  - apply andb_true_iff in Hif as [[Hr%bool_decide_eq_true Ht%N.eqb_eq]%andb_true_iff Hgr].
    rkp_step; [rkp_step; apply count_vote_logs; [done|]; intros g [Hv _]; rewrite Ht; by apply Hv, Hg|].
    injection H as _ <-. do 2 rkp_step; [|rkp]. apply become_leader_logs; [done|].
    simpl in Hif. by rewrite (li_config _ _ _ _ _ Hn1) in Hif.
  - rkp. quiet_upd.
Qed.

(** ** AppendEntries *)

(** [kp] for code whose result is about the ghost state. *)
Definition kpf {A} (cli : Cli) (P : pool) (F : A → RaftNode → ghost → Prop) (m : RM A) (n : RaftNode) : Prop :=
  match m n with
  | (Ok a, n') => logs_fact requester cluster cli P (F a n') n n'
  | (Err _, n') => logs cli P n n'
  | (Panic _, _) => True
  end.

Lemma kpf_kp {A} cli P F (m : RM A) n : kpf cli P F m n → kp (logs cli P) m n.
Proof. unfold kpf, kp. destruct (m n) as [[] ?]; [apply logs_fact_logs|done|done]. Qed.

Lemma kpf_pre {A B} cli P F (m : RM A) (k : A → RM B) n :
  kp (logs cli P) m n → (∀ a n1, m n = (Ok a, n1) → kpf cli P F (k a) n1) → kpf cli P F (bind m k) n.
Proof.
  unfold kpf, kp, bind. destruct (m n) as [[a|e|w] n1]; [|done|done]. intros Hm Hk. specialize (Hk a n1 eq_refl).
  destruct (k a n1) as [[b|e|w] n2]; [by eapply logs_fact_l|by etrans|done].
Qed.

Lemma kpf_after {A} cli P (F0 : ghost → Prop) F (m m' : RM A) n n1 :
  m n = m' n1 → (∀ p g g', grows p g g' → F0 g → F0 g') → logs_fact requester cluster cli P F0 n n1 → kp (logs cli P) m' n1 →
  (∀ a n', m' n1 = (Ok a, n') → ∀ g, F0 g → F a n' g) → kpf cli P F m n.
Proof.
  unfold kpf, kp. intros -> HF0 Hn1 Hk HF. destruct (m' n1) as [[a|e|w] n2]; [| |done].
  - intros g Hg HP Hn. destruct (logs_fact_r _ _ _ _ _ _ _ _ HF0 Hn1 Hk g Hg HP Hn) as (g' & ? & ? & ? & ? & ?).
    exists g'. split_and!; try done. by apply HF.
  - etrans; [by eapply logs_fact_logs|done].
Qed.

Lemma kpf_get {A} cli P F (k : RaftNode → RM A) n : kpf cli P F (k n) n → kpf cli P F (bind get k) n.
Proof. done. Qed.

Lemma kpf_ret {A} cli P (F : A → RaftNode → ghost → Prop) a n : (∀ g, pool_ok cluster g P → F a n g) → kpf cli P F (ret a) n.
Proof. intros HF g Hg HP Hn. exists g. split_and!; try done; [apply grows_refl|auto]. Qed.

(** A result that the messages sent so far justify. *)
Lemma kpf_of_kp {A} cli P (F : A → RaftNode → ghost → Prop) (m : RM A) n :
  kp (logs cli P) m n → (∀ a n' g, m n = (Ok a, n') → pool_ok cluster g P → F a n' g) → kpf cli P F m n.
Proof.
  unfold kpf, kp. destruct (m n) as [[a|e|w] n']; [|done|done]. intros Hk HF g Hg HP Hn.
  destruct (Hk g Hg HP Hn) as (g' & Hg' & Hgr & Hn' & Eid). exists g'. split_and!; try done. apply HF; [done|]. by eapply pool_ok_mono.
Qed.

Lemma kpf_inv {A} cli P F (m : RM A) n :
  (∀ g, global g → pool_ok cluster g P → log_inv cli g n → kpf cli P F m n) → kpf cli P F m n.
Proof. unfold kpf. intros H. destruct (m n) as [[] n']; [intros g ? ? ?; by eapply H..|done]. Qed.

Lemma logs_true cli P n n' : logs cli P n n' → logs_fact requester cluster cli P (λ _, True) n n'.
Proof. intros H g Hg HP Hn. destruct (H g Hg HP Hn) as (g' & ? & ? & ? & ?). exists g'. done. Qed.

Definition same_term (n n' : RaftNode) : Prop := (node_id n', current_term n') = (node_id n, current_term n).

#[local] Instance same_term_preorder : PreOrder same_term.
Proof. unfold same_term. split; [done|]. intros a b c. congruence. Qed.

Lemma apply_logs_term n : kp same_term apply_logs n.
Proof.
  assert (∀ n, kp same_term apply_one n) as Hone.
  { clear n. intros n. unfold apply_one, check_read_indices, send_chan, apply_membership_command, remove_server_legacy, add_server_legacy, save_config.
    rkp; try done; try (by case_if); unfold kp, db_write; by destruct (db_faults _) as [|[] ?]. }
  apply kp_get_bind. generalize (commit_index n - last_applied n). intros fuel. revert n.
  induction fuel as [|fuel IH]; intros n; simpl; [rkp|]. do 2 rkp_step; [|rkp]. rkp_step; [apply Hone|apply IH].
Qed.

(** The reply to a message says what the node has accepted. *)
Definition accepted (i : nat) (t : N) (r : bool * nat) (n : RaftNode) (g : ghost) : Prop :=
  node_id n = i ∧ current_term n = t ∧ (r.1 = true → gA g i t r.2).

Lemma reconcile_fact cli P args n :
  po_messages P (AppendEntries args) → role n = Follower → current_term n = ae_term args →
  kpf cli P (accepted (node_id n) (current_term n))
    (let! r := reconcile_log args in
     let! n := get in
     do! (if r.1 && Nat.ltb (commit_index n) (ae_leader_commit args) then
            let! last := last_log_index in
            do! modify (λ n, n <| commit_index := Nat.min (ae_leader_commit args) last |>) in
            apply_logs
          else ret tt) in
     ret r) n.
Proof.
  intros HP Hr Ht. apply kpf_inv. intros g Hg [_ Hmsg] Hn. pose proof (li_durable _ _ _ _ _ Hn) as Hd.
  assert (Forall plain (ae_entries args)) as Hpl.
  { destruct (Hmsg _ HP) as (l & e & [r Hl] & _ & _ & -> & _). apply Forall_drop. pose proof (gl_data _ _ Hg (ae_term args)) as Hdata.
    rewrite Hl in Hdata. apply Forall_app in Hdata as [Hdata _]. eapply Forall_impl; [exact Hdata|apply data_plain]. }
  pose proof (reconcile_log_frame args n Hpl) as Hfr. pose proof (reconcile_log_durable args n) as Hdu.
  destruct (reconcile_log_run args n) as (m & i & Hrun & Hmir & Hi); [apply Hd| |apply Hd|].
  { unfold head_ok. by rewrite (du_head n Hd). }
  unfold kp in Hfr, Hdu. rewrite Hrun in Hfr, Hdu. destruct (has_entry n _ _) eqn:Hhas; last first.
  { eapply (kpf_after _ _ (λ _, True) _ _ (ret (false, i)) n (with_log (log n) m n)); [by rewrite (bind_ok _ _ _ _ _ Hrun)|done| |rkp|].
    - apply logs_true, calm_logs; [by apply frame_steady|done|by apply bframe_calm, bframe_intro].
    - intros a n' [= <- <-] g' _. done. }
  set (n1 := with_log (merged n (ae_prev_log_index args) (ae_entries args)) m n) in *. rewrite (Hi eq_refl) in Hrun.
  assert (∀ n', n' = n1 ∨ commit_index n < ae_leader_commit args ∧ n' = n1 <| commit_index := Nat.min (ae_leader_commit args) (last_log_index_of n1) |> →
    logs_fact requester cluster cli P (λ g, gA g (node_id n) (current_term n) (ae_prev_log_index args + length (ae_entries args))) n n') as Hacc.
  { intros n' Hn'. eapply accept_logs; [done|done|done|done|by apply frame_steady|exact Hdu|exact Hn']. }
  pose proof (durable_nonempty n1 (Hdu Hd)) as Hne1.
  set (r := (true, ae_prev_log_index args + length (ae_entries args))) in *. destruct (Nat.ltb (commit_index n1) (ae_leader_commit args)) eqn:Hlt.
  - eapply (kpf_after _ _ _ _ _ (do! apply_logs in ret r) n (n1 <| commit_index := Nat.min (ae_leader_commit args) (last_log_index_of n1) |>)).
    + rewrite (bind_ok _ _ _ _ _ Hrun). unfold bind at 1, get at 1. cbn [fst r andb]. rewrite Hlt.
      unfold bind at 1. rewrite bind_last_log_index by done. done.
    + intros p g1 g2 Hgr. apply (gr_ack _ _ _ Hgr).
    + apply Hacc. right. split; [by apply Nat.ltb_lt|done].
    + rkp.
    + intros a n' Ha g' HA. apply bind_ok_inv in Ha as (u & n2 & Hap & Hret). injection Hret as <- <-.
      pose proof (kp_ok _ _ _ _ _ (apply_logs_term _) Hap) as [= E1 E2]. by split_and!.
  - eapply (kpf_after _ _ _ _ _ (ret r) n n1).
    + rewrite (bind_ok _ _ _ _ _ Hrun). unfold bind at 1, get at 1. cbn [fst r andb]. by rewrite Hlt.
    + intros p g1 g2 Hgr. apply (gr_ack _ _ _ Hgr).
    + apply Hacc. by left.
    + rkp.
    + intros a n' [= <- <-] g' HA. by split_and!.
Qed.

Lemma handle_append_entries_fact cli P args n :
  po_messages P (AppendEntries args) → kpf cli P (λ m _ g, message_ok cluster g m) (handle_append_entries args) n.
Proof.
  intros HP. unfold handle_append_entries. apply kpf_get. destruct (N.leb_spec (current_term n) (ae_term args)) as [Hle|Hgt].
  2: { apply kpf_pre; [rkp|]. intros r ? [= <- <-]. by apply kpf_get, kpf_ret. }
  set (body := bind (step_down_to_follower _ _) _).
  assert (kpf cli P (accepted (node_id n) (ae_term args)) body n) as Hbody.
  { apply kpf_pre; [rkp|]. intros [] n1 (Hr1 & Ht1 & Hi1 & _)%step_down_ok. apply kpf_pre; [rkp_step; quiet_upd|]. intros [] n2 [= <-].
    set (n2 := n1 <| current_leader := _ |> <| last_election_time := _ |>).
    assert (current_term n2 = ae_term args) as Ht2 by (cbn; lia). rewrite <- Hi1. change (node_id n1) with (node_id n2). rewrite <- Ht2.
    by apply reconcile_fact. }
  unfold kpf in Hbody |- *. unfold bind at 1. destruct (body n) as [[r|e|w] n'] eqn:Hrun; [|done|done]. cbn.
  intros g Hg HP' Hn. destruct (Hbody g Hg HP' Hn) as (g' & ? & ? & ? & ? & (Hid & Ht & Hack)). exists g'. split_and!; try done.
  unfold message_ok, append_reply_ok. cbn. by rewrite Hid, Ht.
Qed.

(** ** Replies *)

Lemma advance_commit_logs cli P n : role n = Leader → kp (logs cli P) advance_commit n.
Proof.
  intros Hr. unfold advance_commit. do 2 rkp_step. cbv zeta. set (m := majority_match_index _ _). rkp_step; [|rkp]. apply Nat.ltb_lt in Hif.
  rkp_step. destruct (log n !! (m - last_included_index n)) as [e|] eqn:He; [|rkp]. rkp_step; [|rkp]. apply N.eqb_eq in Hif0.
  rkp_step; [rkp_step|rkp]. apply commit_logs; [|lia]. intros g full Hg Hn Hl.
  destruct (majority_match_index_default n (server_match_indices n (last_log_index_of n))) as [Hd|Hmaj]; [fold m in Hd; lia|].
  by eapply quorum_commit_ok.
Qed.

Context (Hself : map_Forall (λ i cli, cli_address cli ∉ cli_peers cli) cluster).

Lemma record_append_reply_logs cli P r n :
  po_messages P (AppendEntriesResponse r) → aer_term r = current_term n → kp (logs cli P) (record_append_reply r) n.
Proof.
  intros HP Ht. apply kp_logs_inv. intros g _ _ Hn. unfold record_append_reply. rkp_step.
  destruct (peer_index n (aer_peer_id r)) as [p|] eqn:Hp; [|rkp]. rkp_step.
  - rkp_step; [|rkp; quiet_upd]. unfold set_progress. rkp_step.
    destruct (vec_set p (aer_match_index r + 1) (next_index n)) as [ni|]; [|rkp]. unfold vec_set.
    destruct (Nat.ltb p (length (match_index n))); [|rkp]. rkp_step.
    eapply progress_logs; [|done|done|done|done]. exact (Hself _ _ (li_cli _ _ _ _ _ Hn)).
  - destruct (next_index n !! p); [|rkp]. rkp. quiet_upd.
Qed.

Lemma handle_append_entries_response_logs cli P r n :
  po_messages P (AppendEntriesResponse r) → kp (logs cli P) (handle_append_entries_response r) n.
Proof.
  intros HP. unfold handle_append_entries_response. rkp_step. rkp_step; [|rkp]. rkp_step.
  - apply andb_true_iff in Hif as [Hr%bool_decide_eq_true Ht%N.eqb_eq]. rkp_step; [by apply record_append_reply_logs|].
    apply advance_commit_logs. eapply kp_role; [|done|done]. apply record_append_reply_role.
  - rkp. quiet_upd.
Qed.

Lemma handle_timeout_now_logs cli P args n : kp (logs cli P) (handle_timeout_now args) n.
Proof. unfold handle_timeout_now. rkp. Qed.

(** ** The loop *)

Lemma check_promote_logs cli P n : kp (logs cli P) check_promote_non_voting_members n.
Proof.
  apply kp_logs_inv. intros g _ _ Hn. unfold check_promote_non_voting_members. rkp_step.
  rewrite (st_change _ _ (ni_static _ _ _ _ (li_node _ _ _ _ _ Hn))). rkp.
Qed.

Lemma check_finalize_logs cli P n : kp (logs cli P) check_finalize_joint_consensus n.
Proof.
  apply kp_logs_inv. intros g _ _ Hn. unfold check_finalize_joint_consensus. rkp_step.
  rewrite (st_change _ _ (ni_static _ _ _ _ (li_node _ _ _ _ _ Hn))). rkp.
Qed.
#[local] Hint Resolve check_promote_logs check_finalize_logs send_heartbeats_logs : dfs.

Lemma tick_logs cli P n : kp (logs cli P) tick n.
Proof. unfold tick. rkp_step; [rkp_step; quiet_upd|]. injection H as _ <-. rkp. Qed.

Lemma handle_read_index_logs cli P tx n : kp (logs cli P) (handle_read_index tx) n.
Proof.
  unfold handle_read_index. do 2 rkp_step; [rkp|]. apply negb_false_iff, bool_decide_eq_true in Hif. cbv zeta.
  rkp_step; [rkp_step; quiet_upd|]. injection H as _ <-. rkp_step; [rkp|]. do 2 rkp_step; [rkp|].
  apply send_heartbeats_logs. eapply kp_role; [|exact H|exact Hif]. unfold check_read_indices. by rkp.
Qed.
#[local] Hint Resolve handle_read_index_logs handle_client_request_logs handle_timeout_now_logs : dfs.

(** What the network and the clients may hand to node [i] when [P] has been sent:
    AppendEntries, vote requests and their replies have been sent, snapshots are
    not transferred, and clients do not change the membership. *)
Definition delivered (P : pool) (i : nat) (ev : Event) : Prop :=
  event_ok requester (po_votes P) i ev ∧
  match ev with
  | EvRpc (AppendEntries _ as m) _ | EvRpc (RequestVote _ as m) _ | EvRpc (AppendEntriesResponse _ as m) _ => po_messages P m
  | EvRpc (InstallSnapshot _) _ | EvRpc (InstallSnapshotResponse _) _ => False
  | EvClientRequest cmd _ => data_command cmd = true
  | _ => True
  end.

(** Replies other than to AppendEntries say nothing new about logs. *)
Lemma reply_ok P msg tx n m n' :
  handle_rpc msg n = (Ok m, n') → delivered P (node_id n) (EvRpc msg tx) →
  match msg with AppendEntries _ => True | _ => ∀ g, pool_ok cluster g P → message_ok cluster g m end.
Proof.
  intros Hrun [_ Hd]. destruct msg as [q|r|q|r|q|r|q|r]; cbn in Hd, Hrun; try done; intros g [_ HP].
  - destruct (request_vote_reply_kind _ _ _ _ Hrun) as [r ->]. done.
  - unfold handle_request_vote_response in Hrun. inv_ok; done.
  - unfold handle_append_entries_response in Hrun. inv_ok; by apply HP.
  - unfold handle_timeout_now in Hrun. inv_ok; done.
  - by injection Hrun as <- <-.
Qed.

Lemma handle_rpc_logs cli P msg tx n :
  delivered P (node_id n) (EvRpc msg tx) → kp (logs cli P) (handle_rpc msg) n.
Proof.
  intros [Hok Hd]. destruct msg; cbn in *; try done; try rkp.
  - by apply handle_request_vote_logs.
  - destruct Hok as [_ ?]. by apply handle_request_vote_response_logs.
  - by eapply kpf_kp, handle_append_entries_fact.
  - by apply handle_append_entries_response_logs.
Qed.

Lemma handle_rpc_fact cli P msg tx n :
  delivered P (node_id n) (EvRpc msg tx) → kpf cli P (λ m _ g, message_ok cluster g m) (handle_rpc msg) n.
Proof.
  intros Hd. pose proof (handle_rpc_logs cli P msg tx n Hd) as Hk.
  pose proof (λ m n' Hrun, reply_ok P msg tx n m n' Hrun Hd) as Hm.
  destruct msg; try (apply kpf_of_kp; [done|]; intros m n' g Hrun; by apply (Hm m n')). by apply handle_append_entries_fact, Hd.
Qed.

(** The reply goes out on the channel of the request. *)
Lemma answer_steady members tx msg n m n' :
  event_ok requester (λ _ _ _, True) (node_id n) (EvRpc msg (Some tx)) → handle_rpc msg n = (Ok m, n') →
  kp (steady requester members) (send_chan tx (RpcReply m)) n'.
Proof.
  intros Hok Hrun. pose proof (other_reply_kind _ _ _ _ Hrun) as Hk. destruct msg; cbn in Hok; try (by apply kp_frame_steady, send_chan_frame).
  - cbn in Hrun. destruct (request_vote_reply_kind _ _ _ _ Hrun) as [r ->].
    apply request_vote_reply in Hrun as (? & ? & ?). apply send_vote_steady; [done..|]. by rewrite Hok.
  - by destruct Hok.
Qed.

Lemma handle_event_logs cli P ev n : delivered P (node_id n) ev → kp (logs cli P) (handle_event ev) n.
Proof.
  intros Hd. pose proof Hd as [Hok Hcmd]. destruct ev as [msg tx|cmd tx|tx|tx|tx]; simpl; try (by rkp).
  destruct tx as [tx|]; [|rkp_step; [by eapply handle_rpc_logs|rkp]].
  pose proof (handle_rpc_fact cli P msg (Some tx) n Hd) as Hf. unfold kpf in Hf. unfold kp, bind at 1.
  destruct (handle_rpc msg n) as [[m|e|w] n'] eqn:Hrun; [|done|done]. cbn.
  intros g Hg HP Hn. destruct (Hf g Hg HP Hn) as (g' & Hg' & Hgr & Hn' & Eid & Hm). exists g'. split_and!; try done.
  apply reply_logs; [|done|done]. eapply answer_steady; [|exact Hrun]. destruct msg; cbn in *; try done. by destruct Hok.
Qed.

(** The loop over a batch, whose messages were all sent before it started. *)
Lemma events_logs cli P i evs n :
  node_id n = i → Forall (delivered P i) evs → kp (logs cli P) (for_each evs handle_event) n.
Proof.
  revert n. induction evs as [|ev evs IH]; intros n Hid Hok; simpl; [rkp|]. inv Hok. unfold kp, bind.
  pose proof (handle_event_logs cli P ev n ltac:(done)) as Hev. unfold kp in Hev.
  destruct (handle_event ev n) as [[[]|e|w] n1] eqn:Hrun; [|done..].
  destruct (for_each evs handle_event n1) as [o n2] eqn:Hrest.
  assert (node_id n1 = node_id n → kp (logs cli P) (for_each evs handle_event) n1) as Hk.
  { intros Hn1. by apply IH. }
  unfold kp in Hk. rewrite Hrest in Hk.
  assert (∀ x : RaftNode, (node_id n1 = node_id n → logs cli P n1 x) → logs cli P n x).
  { intros x Hx g Hg HP Hn. destruct (Hev g Hg HP Hn) as (g1 & ? & ? & ? & Hid1).
    assert (logs cli P n x) as Hall by (etrans; [exact Hev|by apply Hx]). by apply Hall. }
  destruct o; auto.
Qed.

Definition input_delivered (P : pool) (i : nat) (inp : Input) : Prop :=
  match inp with Tick => True | Batch evs => Forall (delivered P i) evs end.

Lemma client_requests_data P i evs :
  Forall (delivered P i) evs → Forall (λ r, data_command r.1 = true) (omap client_request evs).
Proof. induction 1 as [|ev evs [_ Hev] _ IH]; [constructor|]. destruct ev; simpl in *; try done. by constructor. Qed.

Lemma handle_event_batch_logs cli P evs n :
  Forall (delivered P (node_id n)) evs → kp (logs cli P) (handle_event_batch evs) n.
Proof.
  intros Hok. unfold handle_event_batch. rkp_step.
  - eapply events_logs; [done|]. apply Forall_forall. intros ev [_ ?]%list_elem_of_filter. by eapply Forall_forall in Hok.
  - pose proof (client_requests_data _ _ _ Hok) as Hdata. destruct (omap client_request evs) as [|r rs] eqn:Hreq; [rkp|]. do 2 rkp_step; [rkp|].
    apply negb_false_iff, bool_decide_eq_true in Hif. by apply handle_client_batch_logs.
Qed.

Lemma run_once_logs cli P inp n : input_delivered P (node_id n) inp → kp (logs cli P) (run_once inp) n.
Proof.
  intros Hok. destruct inp as [|evs]; unfold run_once; rkp_step; [apply tick_logs|].
  apply handle_event_batch_logs. by apply Forall_take.
Qed.

End complete.
