(* ===== verification/RaftStateMachine.v ===== *)
(** * Log matching, leader completeness, state machine safety

    A cluster whose nodes tick, handle batches of delivered messages and client
    requests, compact their logs, crash and restart from their databases; the
    network loses, delays, reorders and repeats messages. At any two moments of
    an execution the logs match, a leader has what was committed before, and
    nodes have committed the same commands at the same indices.

    Command lines name the same servers, database writes succeed, clients do
    not change the membership, and snapshots are not transferred (installing
    one discards entries the node has acknowledged, see [RaftDurable]). *)

From S2P Require Import Prelude BTree Sharding MasterState AppState ClusterConfig RaftNode RaftRpc RaftLoop RaftDemo RaftFrame RaftElection RaftLog RaftDurable RaftSafety RaftCommit RaftMatching RaftGhost RaftSteps RaftComplete.

Section cluster.
  Context {E : RaftEnv} (requester : nat → nat) (cluster : gmap nat Cli).

Notation log_inv := (log_inv requester cluster).
Notation global := (global cluster).

(** ** The cluster *)

(** The nodes and the granted votes, with every message sent so far. *)
Record LogNet : Type := mkLogNet {
  ln_net : Net;
  ln_messages : list RpcMessage;
}.

(** The requests a node has posted and the replies it has given. *)
Definition messages_of (n : RaftNode) : list RpcMessage :=
  (http_out n).*2 ++ omap (λ m, match m.2 with RpcReply r => Some r | _ => None end) (chan_out n).

Definition pool_of (s : LogNet) : pool := mkPool (sent (ln_net s)) (λ m, m ∈ ln_messages s).

Inductive log_step : LogNet → LogNet → Prop :=
  | log_round s i n inp now wall timeout n' :
      net_nodes (ln_net s) !! i = Some n → input_delivered requester (pool_of s) i inp →
      run_once inp (at_time now wall timeout n) = (Ok tt, n') →
      log_step s (mkLogNet (mkNet (<[i := n']> (net_nodes (ln_net s))) (net_votes (ln_net s) ++ votes_of requester n'))
                           (ln_messages s ++ messages_of n'))
  | log_restart s i n cli now wall timeout :
      net_nodes (ln_net s) !! i = Some n → cluster !! i = Some cli →
      log_step s (mkLogNet (mkNet (<[i := restart cli now wall timeout i (db n)]> (net_nodes (ln_net s))) (net_votes (ln_net s)))
                           (ln_messages s)).

Definition log_init (s : LogNet) : Prop := net_init cluster (ln_net s) ∧ ln_messages s = [].

(** Every command line names the same servers, and no node among its own peers. *)
Definition well_addressed : Prop :=
  well_configured cluster ∧ map_Forall (λ i cli, cli_address cli ∉ cli_peers cli) cluster.

(** ** The invariant *)

Definition cluster_inv (g : ghost) (s : LogNet) : Prop :=
  global g ∧ pool_ok cluster g (pool_of s) ∧
  map_Forall (λ i n, node_id n = i ∧ ∃ cli, log_inv cli g n) (net_nodes (ln_net s)).

(** What stays true of logs. *)
Definition onward (g g' : ghost) : Prop :=
  (∀ t, gG g t `prefix_of` gG g' t) ∧ (∀ l t ci, commit_ok cluster g l t ci → commit_ok cluster g' l t ci).

#[global] Instance onward_preorder : PreOrder onward.
Proof.
  split; [by intros g; split|]. intros a b c [G1 C1] [G2 C2]. split; [|auto]. intros t. etrans; [apply G1|apply G2].
Qed.

Lemma grows_onward p g g' : grows p g g' → onward g g'.
Proof. intros Hgr. split; [apply Hgr|]. intros l t ci Hc. by eapply commit_ok_mono. Qed.

Definition first_entry : LogEntry := mkLogEntry 0 NoOp.

Definition ghost_start : ghost :=
  mkGhost (λ _ _ _, False) (λ t, if decide (t = 0%N) then [first_entry] else []) (λ _ _, False) (λ _, 0%N) (λ _ _ _, False) (λ _ _, []).

Lemma first_consistent : consistent (gG ghost_start) [first_entry].
Proof. by intros [|k] e [= <-]. Qed.

Lemma ghost_start_cases (P : N → list LogEntry → Prop) : P 0%N [first_entry] → (∀ t, P t []) → ∀ t, P t (gG ghost_start t).
Proof. intros H0 H1 t. cbn. case_decide as Ht; [by rewrite Ht|done]. Qed.

Lemma ghost_start_global : global ghost_start.
Proof.
  split; try done; try (by intros ? ? ? ? []); try (by intros ? ? ? []); try (by intros ? ? []).
  - apply (ghost_start_cases (λ t l, l = [] ∨ t = 0%N ∨ ∃ c, gLed ghost_start c t)); auto.
  - apply (ghost_start_cases (λ _, consistent _)); [apply first_consistent|done].
  - apply (ghost_start_cases (λ _, ordered)); [|done]. intros i j x y _ Hx Hy.
    by apply list_lookup_singleton_Some in Hx as [_ <-], Hy as [_ <-].
  - apply (ghost_start_cases (λ t, Forall (λ e, (term e ≤ t)%N))); [|done]. by repeat constructor.
  - apply (ghost_start_cases (λ _, Forall data)); [|done]. by repeat constructor.
  - intros t t' k Ht _ _. cbn. by rewrite decide_False by lia.
Qed.

Lemma restart_log_inv cli g now wall timeout n : log_inv cli g n → log_inv cli g (restart cli now wall timeout (node_id n) (db n)).
Proof.
  intros Hn. pose proof (restart_inv requester cli now wall timeout _ _ (li_node _ _ _ _ _ Hn)) as Hnode.
  pose proof (restart_durable cli now wall timeout n (li_durable _ _ _ _ _ Hn)) as Hd.
  destruct (restart_same cli now wall timeout n (li_durable _ _ _ _ _ Hn)) as (Et & _ & El & Ei & Eit).
  destruct (restart_frame cli now wall timeout n) as (Eid & _ & Er & Ep & Eh & Ec & Eci & Ela).
  set (r := restart _ _ _ _ _ _) in *. destruct Hn. split; rewrite ?Eid, ?Et, ?Er, ?Ep, ?Eh, ?Ec, ?Eci, ?Ela; try done; try lia.
  destruct li_log as (full & []). exists full. split; rewrite ?Eid, ?Et, ?Er, ?Eci, ?Ei; try done.
  - apply (views_same _ n); [|done]. congruence.
  - apply (commit_ok_mono _ 0 g g full full (current_term n) (current_term n) (commit_index n)); try done; [apply grows_refl|lia].
Qed.

Lemma start_log_inv cli now wall timeout i :
  cluster !! i = Some cli → log_inv cli ghost_start (restart cli now wall timeout i empty_db).
Proof.
  intros Hcli. split; try done.
  - by repeat (constructor; simpl); try set_solver.
  - apply fresh_durable.
  - exists [first_entry]. split; try done.
    + split; [by exists first_entry|done].
    + apply first_consistent.
    + constructor; [cbn; lia|done].
    + by left.
Qed.

Lemma log_init_inv s : log_init s → cluster_inv ghost_start s.
Proof.
  intros [[Hv Hn] Hm]. split_and!; [apply ghost_start_global| |].
  - split; cbn; [intros p t c (r & Hin & _)|intros m Hin]; [rewrite Hv in Hin|rewrite Hm in Hin]; set_solver.
  - intros i n (cli & now & wall & timeout & Hcli & ->)%Hn. split; [done|]. exists cli. by apply start_log_inv.
Qed.

(** What a node has sent meets the invariant. *)
Lemma messages_of_ok cli g n m : log_inv cli g n → m ∈ messages_of n → message_ok cluster g m.
Proof.
  intros Hn. unfold messages_of. rewrite elem_of_app. intros [Hin|Hin].
  - apply list_elem_of_fmap in Hin as (x & -> & Hx). by apply (proj1 (Forall_forall _ _) (li_http _ _ _ _ _ Hn)).
  - apply list_elem_of_omap in Hin as ([tx c] & Hx & Hr). pose proof (proj1 (Forall_forall _ _) (li_chan _ _ _ _ _ Hn) _ Hx) as Hc.
    destruct c; try done. by injection Hr as <-.
Qed.

Lemma cluster_inv_insert g g' s i n' votes messages cli :
  QuorumSystem (cluster_quorum cluster) → cluster_inv g s → global g' → grows i g g' → node_id n' = i → log_inv cli g' n' →
  (∀ c r, (c, r) ∈ votes → gB g' (rvr_peer_id r) (rvr_term r) c) → (∀ m, m ∈ messages → message_ok cluster g' m) →
  cluster_inv g' (mkLogNet (mkNet (<[i := n']> (net_nodes (ln_net s))) (net_votes (ln_net s) ++ votes)) (ln_messages s ++ messages)).
Proof.
  intros HQ (Hg & [Hv Hm] & Hn) Hg' Hgr Hid Hn' Hvotes Hmsgs. split_and!; [done| |].
  - split; cbn.
    + intros p t c (r & Hin & <- & <-). cbn in Hin. apply elem_of_app in Hin as [Hin|Hin]; [|auto]. apply Hgr, Hv. by exists r.
    + intros m [Hin|Hin]%elem_of_app; [|auto]. eapply message_ok_mono; [done|auto].
  - cbn. intros j n [[<- <-]|[Hne Hj]]%lookup_insert_Some; [eauto|]. destruct (Hn _ _ Hj) as (Hj' & cli' & ?). split; [done|]. exists cli'.
    eapply log_inv_other; [done|exact Hg|done|done|by rewrite Hj'|done].
Qed.

Lemma at_time_logs cli P now wall timeout n : logs requester cluster cli P n (at_time now wall timeout n).
Proof.
  apply calm_logs; [apply frame_steady; frame0|apply lframe_durable; intros ?; by split|by apply bframe_calm, bframe_intro].
Qed.

Lemma cluster_inv_step g s s' :
  well_addressed → cluster_inv g s → log_step s s' → ∃ g', onward g g' ∧ cluster_inv g' s'.
Proof.
  intros [Hw Hself] Hinv Hstep. pose proof (cluster_quorum_meets cluster Hw) as HQ. pose proof Hinv as (Hg & HP & Hn).
  destruct Hstep as [s i n inp now wall timeout n' Hi Hok Hrun|s i n cli now wall timeout Hi Hcli].
  - destruct (Hn _ _ Hi) as (Hid & cli & Hni).
    assert (logs requester cluster cli (pool_of s) n n') as Hlogs.
    { etrans; [apply at_time_logs|]. eapply kp_ok; [|exact Hrun]. apply run_once_logs; [done|done|]. cbn. by rewrite Hid. }
    destruct (Hlogs g Hg HP Hni) as (g' & Hg' & Hgr & Hni' & Hid'). rewrite Hid in *. exists g'. split; [by eapply grows_onward|].
    eapply cluster_inv_insert; try done.
    + intros c r. eapply votes_of_sent, (li_node _ _ _ _ _ Hni').
    + intros m. by eapply messages_of_ok.
  - destruct (Hn _ _ Hi) as (<- & cli' & Hni). pose proof (li_cli _ _ _ _ _ Hni) as Hcli'. rewrite Hcli in Hcli'. injection Hcli' as <-.
    exists g. split; [reflexivity|]. rewrite <- (app_nil_r (net_votes (ln_net s))), <- (app_nil_r (ln_messages s)).
    eapply (cluster_inv_insert g g s _ _ [] []); try done; [apply grows_refl|apply restart_frame|by apply restart_log_inv|set_solver|set_solver].
Qed.

Lemma cluster_inv_steps g s s' :
  well_addressed → cluster_inv g s → rtc log_step s s' → ∃ g', onward g g' ∧ cluster_inv g' s'.
Proof.
  intros Hw Hinv Hsteps. revert g Hinv. induction Hsteps as [s|s s1 s2 Hstep _ IH]; intros g Hinv; [by exists g|].
  destruct (cluster_inv_step _ _ _ Hw Hinv Hstep) as (g1 & Ho1 & Hinv1). destruct (IH _ Hinv1) as (g2 & Ho2 & Hinv2).
  exists g2. split; [by etrans|done].
Qed.

(** ** Safety *)

(** The entry of a node at absolute index [k], when it has not been compacted. *)
Definition entry_at (n : RaftNode) (k : nat) : option LogEntry :=
  if Nat.ltb (last_included_index n) k then log n !! (k - last_included_index n) else None.

Definition node_of (s : LogNet) (i : nat) (n : RaftNode) : Prop := net_nodes (ln_net s) !! i = Some n.

Lemma entry_at_full g n full k : log_ok cluster g n full → last_included_index n < k → entry_at n k = full !! k.
Proof.
  intros Hl Hk. unfold entry_at. destruct (Nat.ltb_spec (last_included_index n) k); [|lia]. apply views_entry; [apply Hl|done].
Qed.

Lemma entry_at_Some n k e : entry_at n k = Some e → last_included_index n < k.
Proof. unfold entry_at. by destruct (Nat.ltb_spec (last_included_index n) k). Qed.

(** Two nodes at two moments, under one ghost state. *)
Lemma two_moments s0 s1 s2 i j n1 n2 :
  well_addressed → log_init s0 → rtc log_step s0 s1 → rtc log_step s1 s2 → node_of s1 i n1 → node_of s2 j n2 →
  ∃ g full1 full2, global g ∧ consistent (gG g) full1 ∧ consistent (gG g) full2 ∧
    commit_ok cluster g full1 (current_term n1) (commit_index n1) ∧ log_ok cluster g n2 full2 ∧
    (∀ k, last_included_index n1 < k → entry_at n1 k = full1 !! k) ∧ (∀ k, last_included_index n2 < k → entry_at n2 k = full2 !! k).
Proof.
  intros Hw H0 H01 H12 Hi Hj. destruct (cluster_inv_steps _ _ _ Hw (log_init_inv _ H0) H01) as (g1 & _ & Hinv1).
  destruct (cluster_inv_steps _ _ _ Hw Hinv1 H12) as (g2 & [HG HC] & Hinv2).
  destruct Hinv1 as (_ & _ & Hn1). destruct (Hn1 _ _ Hi) as (_ & cli1 & Hni). destruct (li_log _ _ _ _ _ Hni) as (full1 & Hl1).
  destruct Hinv2 as (Hg2 & _ & Hn2). destruct (Hn2 _ _ Hj) as (_ & cli2 & Hnj). destruct (li_log _ _ _ _ _ Hnj) as (full2 & Hl2).
  exists g2, full1, full2. split_and!; [done|eapply consistent_mono; [exact HG|apply Hl1]|apply Hl2|apply HC, Hl1|done| |].
  - intros k. by eapply entry_at_full.
  - intros k. by eapply entry_at_full.
Qed.

(** C4. Log Matching: when two logs of the cluster, at any two moments, have
    entries of the same term at the same index, they have the same entries at
    every index up to it that neither has compacted. The conditions are those of this file: the
    command lines name the same servers, membership is fixed, database writes
    succeed, and no snapshot is transferred between nodes. *)
Theorem log_matching s0 s1 s2 i j n1 n2 k e1 e2 :
  well_addressed → log_init s0 → rtc log_step s0 s1 → rtc log_step s1 s2 → node_of s1 i n1 → node_of s2 j n2 →
  entry_at n1 k = Some e1 → entry_at n2 k = Some e2 → term e1 = term e2 →
  ∀ k', k' ≤ k → last_included_index n1 < k' → last_included_index n2 < k' → entry_at n1 k' = entry_at n2 k'.
Proof.
  intros Hw H0 H01 H12 Hi Hj He1 He2 Ht k' Hk' Hl1 Hl2.
  destruct (two_moments s0 s1 s2 i j n1 n2) as (g & f1 & f2 & _ & Hc1 & Hc2 & _ & _ & Hf1 & Hf2); try done.
  pose proof (entry_at_Some _ _ _ He1). pose proof (entry_at_Some _ _ _ He2). rewrite Hf1 in He1 by done. rewrite Hf2 in He2 by done.
  pose proof (consistent_agree _ _ _ _ _ _ Hc1 Hc2 He1 He2 Ht) as Hag. rewrite Hf1, Hf2 by done.
  apply (f_equal (.!! k')) in Hag. by rewrite !lookup_take_lt in Hag by lia.
Qed.

(** C3. Leader Completeness: an entry that a node knows to be committed, at any
    moment, is in the log of every node that leads a term that is not earlier, at
    any later moment, unless that node has compacted it. The conditions are those of this file: the
    command lines name the same servers, membership is fixed, database writes
    succeed, and no snapshot is transferred between nodes. *)
Theorem leader_completeness s0 s1 s2 i j n1 n2 k e :
  well_addressed → log_init s0 → rtc log_step s0 s1 → rtc log_step s1 s2 → node_of s1 i n1 → node_of s2 j n2 →
  k ≤ commit_index n1 → entry_at n1 k = Some e → role n2 = Leader → (current_term n1 ≤ current_term n2)%N →
  k ≤ last_included_index n2 ∨ entry_at n2 k = Some e.
Proof.
  intros Hw H0 H01 H12 Hi Hj Hk He Hr Ht.
  destruct (two_moments s0 s1 s2 i j n1 n2) as (g & f1 & f2 & Hg & _ & _ & Hcom & Hl2 & Hf1 & Hf2); try done.
  destruct (decide (k ≤ last_included_index n2)); [by left|right]. pose proof (entry_at_Some _ _ _ He).
  rewrite Hf1 in He by done. rewrite Hf2 by lia. destruct (lo_leader _ _ _ _ Hl2 Hr) as [HG _].
  assert (commit_ok cluster g f1 (current_term n2) (commit_index n1)) as Hcom2.
  { apply (commit_ok_mono _ 0 g g f1 f1 (current_term n1) _ (commit_index n1)); try done. apply grows_refl. }
  destruct (commit_ok_leader _ _ _ _ _ Hg Hcom2) as [?|[Hp _]]; [|lia|].
  - rewrite HG. destruct (vw_point _ _ (lo_views _ _ _ _ Hl2)) as (x & Hx & _). intros Hnil. by rewrite Hnil in Hx.
  - rewrite <- HG. eapply prefix_lookup_Some; [|exact Hp]. by rewrite lookup_take_lt by lia.
Qed.

(** Committed entries are those of some leader. *)
Lemma commit_entry g l t ci k :
  commit_ok cluster g l t ci → 0 < k → k ≤ ci →
  ∃ u m e, committed cluster g u m ∧ k ≤ m ∧ l !! k = Some e ∧ gG g u !! k = Some e.
Proof.
  intros [->|(u & m & Hc & _ & Hm & Hp)] H0 Hk; [lia|]. assert (m < length (gG g u)) by by apply own_lt, Hc.
  destruct (lookup_lt_is_Some_2 (gG g u) k) as [e He]; [lia|]. exists u, m, e. split_and!; [done|lia| |done].
  eapply prefix_lookup_Some; [|exact Hp]. by rewrite lookup_take_lt by lia.
Qed.

(** The logs of the leaders agree on what they have committed. *)
Lemma committed_agree g u1 m1 u2 m2 k e1 e2 :
  global g → committed cluster g u1 m1 → committed cluster g u2 m2 → (u1 ≤ u2)%N → k ≤ m1 →
  gG g u1 !! k = Some e1 → gG g u2 !! k = Some e2 → e1 = e2.
Proof.
  intros Hg H1 H2 Hu Hk He1 He2. destruct (decide (u1 = u2)) as [->|Hne]; [congruence|].
  assert (has (gG g) u1 m1 (gG g u2)) as Hhas.
  { apply (gl_complete _ _ Hg); [lia|apply H1|by apply committed_possible|]. intros Hnil. by rewrite Hnil in He2. }
  enough (gG g u2 !! k = Some e1) by congruence. eapply prefix_lookup_Some; [|exact Hhas]. by rewrite lookup_take_lt by lia.
Qed.

(** C1. State Machine Safety: two nodes that have committed an index, at any two
    moments of an execution, have the same command there, unless one of them
    has compacted it. The conditions are those of this file: the
    command lines name the same servers, membership is fixed, database writes
    succeed, and no snapshot is transferred between nodes. *)
Theorem state_machine_safety s0 s1 s2 i j n1 n2 k :
  well_addressed → log_init s0 → rtc log_step s0 s1 → rtc log_step s1 s2 → node_of s1 i n1 → node_of s2 j n2 →
  k ≤ commit_index n1 → k ≤ commit_index n2 → last_included_index n1 < k → last_included_index n2 < k →
  ∃ e, entry_at n1 k = Some e ∧ entry_at n2 k = Some e.
Proof.
  intros Hw H0 H01 H12 Hi Hj Hk1 Hk2 Hi1 Hi2.
  destruct (two_moments s0 s1 s2 i j n1 n2) as (g & f1 & f2 & Hg & _ & _ & Hcom & Hl2 & Hf1 & Hf2); try done.
  rewrite Hf1, Hf2 by done.
  destruct (commit_entry _ _ _ _ k Hcom) as (u1 & m1 & e1 & Hc1 & Hm1 & He1 & HG1); [lia|done|].
  destruct (commit_entry _ _ _ _ k (lo_commit _ _ _ _ Hl2)) as (u2 & m2 & e2 & Hc2 & Hm2 & He2 & HG2); [lia|done|].
  exists e1. split; [done|]. rewrite He2. f_equal. destruct (N.le_gt_cases u1 u2).
  - symmetry. by eapply (committed_agree g u1 m1 u2 m2 k).
  - eapply (committed_agree g u2 m2 u1 m1 k); done || lia.
Qed.

End cluster.

(** ** Three metaservers commit an entry *)

Module LogDemo.
#[local] Existing Instance demo_env.

Definition start : LogNet := mkLogNet Demo.start [].

(** One round of node [i] at time [now]. *)
Definition round (i : nat) (now : N) (inp : Input) (s : LogNet) : LogNet :=
  match net_nodes (ln_net s) !! i with
  | Some n =>
      match run_once inp (at_time now 0 1500 n) with
      | (Ok _, n') => mkLogNet (mkNet (<[i := n']> (net_nodes (ln_net s))) (net_votes (ln_net s) ++ votes_of Demo.requester n'))
                               (ln_messages s ++ messages_of n')
      | _ => s
      end
  | None => s
  end.

(** The round does not panic. *)
Definition runs (i : nat) (now : N) (inp : Input) (s : LogNet) : bool :=
  match net_nodes (ln_net s) !! i with Some n => is_ok (run_once inp (at_time now 0 1500 n)).1 | None => false end.

Lemma logged_round i now inp s :
  input_delivered Demo.requester (pool_of s) i inp → runs i now inp s = true → log_step Demo.requester Demo.cluster s (round i now inp s).
Proof.
  intros Hok Hrun. unfold round, runs in *. destruct (net_nodes (ln_net s) !! i) as [n|] eqn:Hi; [|done].
  destruct (run_once inp (at_time now 0 1500 n)) as [[[]| |] n'] eqn:Hr; [|done..]. by eapply log_round.
Qed.

(** The [k]-th message sent is delivered. *)
Definition deliver (k : nat) (tx : option nat) (s : LogNet) : Input :=
  match ln_messages s !! k with Some m => Batch [EvRpc m tx] | None => Tick end.

Lemma deliver_delivered i k tx s m :
  ln_messages s !! k = Some m →
  match m with
  | AppendEntries a => forallb (λ e, plain_command (command e)) (ae_entries a)
  | RequestVote a => bool_decide (tx = Some (rv_candidate_id a))
  | AppendEntriesResponse _ => true
  | _ => false
  end = true → input_delivered Demo.requester (pool_of s) i (deliver k tx s).
Proof.
  intros Hk Hm. unfold deliver. rewrite Hk. apply list_elem_of_lookup_2 in Hk.
  repeat constructor; destruct m; try done; cbn in *.
  - apply bool_decide_eq_true in Hm as ->. done.
  - apply Forall_forall. intros e He. rewrite forallb_forall in Hm. by apply Hm, list_elem_of_In.
Qed.

Lemma deliver_step i now k tx s m :
  ln_messages s !! k = Some m →
  match m with
  | AppendEntries a => forallb (λ e, plain_command (command e)) (ae_entries a)
  | RequestVote a => bool_decide (tx = Some (rv_candidate_id a))
  | AppendEntriesResponse _ => true
  | _ => false
  end = true → runs i now (deliver k tx s) s = true →
  log_step Demo.requester Demo.cluster s (round i now (deliver k tx s) s).
Proof. intros Hk Hm Hrun. apply logged_round; [by eapply deliver_delivered|done]. Qed.

(** Node 1 asks for votes and takes office; node 2 rejects its first heartbeat and
    accepts the second; node 1 commits its entry, and tells node 2. *)
Definition s1 : LogNet := round 1 2000 Tick start.
Definition s2 : LogNet := round 2 2000 (deliver 0 (Some 1) s1) s1.
Definition s3 : LogNet := round 1 2010 (Batch [Demo.vote_reply]) s2.
Definition s4 : LogNet := round 1 2100 Tick s3.
Definition s5 : LogNet := round 2 2100 (deliver 7 (Some 1) s4) s4.
Definition s6 : LogNet := round 1 2110 (deliver 10 None s5) s5.
Definition s7 : LogNet := round 1 2200 Tick s6.
Definition s8 : LogNet := round 2 2200 (deliver 19 (Some 1) s7) s7.
Definition s9 : LogNet := round 1 2210 (deliver 23 None s8) s8.
Definition s10 : LogNet := round 1 2300 Tick s9.
Definition s11 : LogNet := round 2 2300 (deliver 36 (Some 1) s10) s10.

Notation lstep := (log_step Demo.requester Demo.cluster).

Ltac delivers i now k tx s := apply (rtc_l _ _ (round i now (deliver k tx s) s));
  [eapply (deliver_step i now k tx s); [by vm_compute|by vm_compute|by vm_compute]|].
Ltac ticks i now s := apply (rtc_l _ _ (round i now Tick s)); [apply (logged_round i now Tick s); [exact I|by vm_compute]|].

Lemma start_to_s9 : rtc lstep start s9.
Proof.
  ticks 1 2000%N start. fold s1. delivers 2 2000%N 0 (Some 1) s1. fold s2. apply (rtc_l _ _ s3).
  { apply (logged_round 1 2010 (Batch [Demo.vote_reply]) s2); [|by vm_compute]. repeat constructor. intros _.
    exists (mkRequestVoteReply 1 true 2). split; [|done]. vm_compute. by left. }
  ticks 1 2100%N s3. fold s4. delivers 2 2100%N 7 (Some 1) s4. fold s5. delivers 1 2110%N 10 (@None nat) s5. fold s6.
  ticks 1 2200%N s6. fold s7. delivers 2 2200%N 19 (Some 1) s7. fold s8. delivers 1 2210%N 23 (@None nat) s8. apply rtc_refl.
Qed.

Lemma s9_to_s11 : rtc lstep s9 s11.
Proof. ticks 1 2300%N s9. fold s10. delivers 2 2300%N 36 (Some 1) s10. apply rtc_refl. Qed.

Lemma start_logged : log_init Demo.cluster start.
Proof. split; [apply Demo.start_init|done]. Qed.

Lemma addressed : well_addressed Demo.cluster.
Proof.
  split; [apply Demo.configured|]. intros i c Hi. unfold Demo.cluster in *.
  apply lookup_insert_Some in Hi as [[<- <-]|[_ Hi]]; [by apply (bool_decide_unpack _); vm_compute|].
  apply lookup_insert_Some in Hi as [[<- <-]|[_ Hi]]; [by apply (bool_decide_unpack _); vm_compute|].
  apply lookup_singleton_Some in Hi as [<- <-]. by apply (bool_decide_unpack _); vm_compute.
Qed.

(** A node of the run and what is computed of it. *)
Definition node (s : LogNet) (i : nat) : RaftNode := default (restart (Demo.cli 1) 0 0 1500 1 empty_db) (net_nodes (ln_net s) !! i).

Lemma node_of_node s i : bool_decide (is_Some (net_nodes (ln_net s) !! i)) = true → node_of s i (node s i).
Proof. unfold node_of, node. intros Hb%bool_decide_eq_true. by destruct (net_nodes (ln_net s) !! i); [|destruct Hb]. Qed.

End LogDemo.

Lemma state_machine_safety_witness :
  ∃ e, entry_at (E := demo_env) (LogDemo.node LogDemo.s9 1) 1 = Some e ∧ entry_at (LogDemo.node LogDemo.s11 2) 1 = Some e.
Proof.
  apply (state_machine_safety (E := demo_env) Demo.requester Demo.cluster LogDemo.start LogDemo.s9 LogDemo.s11 1 2);
    [apply LogDemo.addressed|apply LogDemo.start_logged|apply LogDemo.start_to_s9|apply LogDemo.s9_to_s11|
     apply LogDemo.node_of_node; by vm_compute|apply LogDemo.node_of_node; by vm_compute|..];
    apply (bool_decide_unpack _); by vm_compute.
Defined.

Lemma leader_completeness_witness :
  1 ≤ last_included_index (E := demo_env) (LogDemo.node LogDemo.s11 1) ∨
  entry_at (LogDemo.node LogDemo.s11 1) 1 = Some (mkLogEntry 1 NoOp).
Proof.
  apply (leader_completeness (E := demo_env) Demo.requester Demo.cluster LogDemo.start LogDemo.s9 LogDemo.s11 1 1
    (LogDemo.node LogDemo.s9 1));
    [apply LogDemo.addressed|apply LogDemo.start_logged|apply LogDemo.start_to_s9|apply LogDemo.s9_to_s11|
     apply LogDemo.node_of_node; by vm_compute|apply LogDemo.node_of_node; by vm_compute|
     apply (bool_decide_unpack _); by vm_compute|by vm_compute|by vm_compute|apply (bool_decide_unpack _); by vm_compute].
Defined.

Lemma log_matching_witness :
  entry_at (E := demo_env) (LogDemo.node LogDemo.s9 1) 1 = entry_at (LogDemo.node LogDemo.s11 2) 1.
Proof.
  apply (log_matching (E := demo_env) Demo.requester Demo.cluster LogDemo.start LogDemo.s9 LogDemo.s11 1 2 _ _ 1
    (mkLogEntry 1 NoOp) (mkLogEntry 1 NoOp));
    [apply LogDemo.addressed|apply LogDemo.start_logged|apply LogDemo.start_to_s9|apply LogDemo.s9_to_s11|
     apply LogDemo.node_of_node; by vm_compute|apply LogDemo.node_of_node; by vm_compute|by vm_compute|by vm_compute|done|done|
     apply (bool_decide_unpack _); by vm_compute|apply (bool_decide_unpack _); by vm_compute].
Defined.
