(* ===== verification/RaftProgress.v ===== *)
(** * No node of the cluster panics

    In every state of an execution of [RaftStateMachine] every node is well
    formed in the sense of [RaftSafety], and every message the network may
    deliver to it agrees with what it has committed: the condition under which a
    round does not panic is what Leader Completeness gives. So each node can
    make a round whatever it is handed, as long as the term counter has room. *)

From S2P Require Import Prelude BTree Sharding MasterState AppState ClusterConfig RaftNode RaftRpc RaftLoop RaftDemo RaftFrame RaftElection RaftLog RaftDurable RaftSafety RaftCommit RaftMatching RaftGhost RaftSteps RaftComplete RaftStateMachine.

Section progress.
  Context {E : RaftEnv} (requester : nat → nat) (cluster : gmap nat Cli).

Notation log_inv := (log_inv requester cluster).
Notation global := (global cluster).
Notation log_step := (log_step requester cluster).

(** ** What is delivered agrees with what is committed *)

(** AppendEntries of a leader whose term is not earlier agree with the committed
    part of the log. *)
Lemma append_ok_safe cli g n args :
  global g → log_inv cli g n → append_ok cluster g args →
  (current_term n ≤ ae_term args)%N → last_included_index n ≤ ae_prev_log_index args → append_safe args n.
Proof.
  intros Hg Hn (l & e0 & Hl & He0 & _ & Hes & _) Ht Hp j e x Hj Hc Hx.
  destruct (li_log _ _ _ _ _ Hn) as (full & Hlog).
  assert (commit_ok cluster g full (ae_term args) (commit_index n)) as Hcom.
  { eapply (commit_ok_mono _ 0 g g full full); [apply grows_refl|done|exact Ht|done|apply Hlog]. }
  assert (gG g (ae_term args) ≠ []) as Hne.
  { intros Hnil. rewrite Hnil in Hl. apply prefix_nil_inv in Hl. by rewrite Hl in He0. }
  destruct (commit_ok_leader _ _ _ _ _ Hg Hcom Hne) as [H0|[Hpre _]]; [lia|].
  rewrite Hes, lookup_drop in Hj. rewrite (views_entry _ _ _ (lo_views _ _ _ _ Hlog)) in Hx by lia.
  assert (gG g (ae_term args) !! (S (ae_prev_log_index args) + j) = Some x) as Hgx.
  { eapply prefix_lookup_Some; [|exact Hpre]. rewrite lookup_take_lt by lia. rewrite <- Hx. f_equal. lia. }
  pose proof (prefix_lookup_Some _ _ _ _ Hj Hl) as Hge. congruence.
Qed.

Lemma delivered_safe cli P g n ev :
  global g → pool_ok cluster g P → log_inv cli g n → delivered requester P (node_id n) ev → event_safe n ev.
Proof.
  intros Hg [_ HP] Hn [_ Hd]. destruct ev as [msg tx| | | |]; [|done..]. destruct msg as [| |args| | | | |]; try done.
  cbn in *. intros Ht Hp. eapply append_ok_safe; [done|done| |done|done]. by apply (HP (AppendEntries args)).
Qed.

Context (HQ : QuorumSystem (cluster_quorum cluster)).
Context (Hself : map_Forall (λ i cli, cli_address cli ∉ cli_peers cli) cluster).

(** The messages of a batch, one after the other. *)
Lemma batch_delivered_safe cli P i evs g n :
  node_id n = i → Forall (delivered requester P i) evs → global g → pool_ok cluster g P → log_inv cli g n →
  each_in_turn event_safe evs n.
Proof.
  intros Hid Hevs. revert g n Hid. induction Hevs as [|ev evs Hev _ IH]; intros g n Hid Hg HP Hn; [done|].
  rewrite <- Hid in Hev. split; [by eapply delivered_safe|].
  destruct (handle_event ev n) as [[[]|e|w] n1] eqn:Hrun; [|done|done].
  pose proof (kp_ok _ _ _ _ _ (handle_event_logs requester cluster Hself cli P ev n Hev) Hrun) as Hlogs.
  destruct (Hlogs g Hg HP Hn) as (g1 & Hg1 & Hgr & Hn1 & Hid1).
  apply (IH g1); [by rewrite Hid1|done|by eapply pool_ok_mono|done].
Qed.

Lemma input_delivered_safe cli P inp g n :
  input_delivered requester P (node_id n) inp → global g → pool_ok cluster g P → log_inv cli g n → input_safe n inp.
Proof.
  intros Hd Hg HP Hn. unfold input_safe. destruct inp as [|evs]; [done|]. cbn in *.
  eapply batch_delivered_safe; [done| |done|done|done]. apply Forall_forall.
  intros ev [_ Hin]%list_elem_of_filter. eapply Forall_forall; [|exact Hin]. by apply Forall_take.
Qed.

(** ** Every node is well formed *)

(** A node restarted from its database is well formed. *)
Lemma restart_ok cli now wall timeout n :
  durable n → node_ok (restart cli now wall timeout (node_id n) (db n)).
Proof.
  intros Hd. pose proof (restart_durable cli now wall timeout n Hd) as Hr.
  destruct (restart_frame cli now wall timeout n) as (_ & _ & _ & _ & _ & _ & Hc & Ha).
  assert (length (peers (restart cli now wall timeout (node_id n) (db n))) ≤ length (next_index (restart cli now wall timeout (node_id n) (db n))) ∧
          length (match_index (restart cli now wall timeout (node_id n) (db n))) = length (next_index (restart cli now wall timeout (node_id n) (db n)))) as [Hni Hmi].
  { unfold restart, run_init. cbn. by rewrite !length_replicate. }
  pose proof (durable_nonempty _ Hr). set (r := restart _ _ _ _ _ _) in *. constructor; try done.
  - unfold head_ok. by rewrite (du_head _ Hr).
  - lia.
  - unfold last_log_index_of. lia.
Qed.

Lemma at_time_safe cli P now wall timeout inp g n :
  input_delivered requester P (node_id n) inp → global g → pool_ok cluster g P → log_inv cli g n →
  input_safe (at_time now wall timeout n) inp.
Proof.
  intros Hd Hg HP Hn. destruct (at_time_logs requester cluster cli P now wall timeout n g Hg HP Hn) as (g' & Hg' & Hgr & Hn' & Hid).
  eapply input_delivered_safe; [by rewrite Hid|done|by eapply pool_ok_mono|done].
Qed.

Lemma at_time_ok now wall timeout n : node_ok n → node_ok (at_time now wall timeout n).
Proof. by apply indices_ok. Qed.

Definition all_ok (s : LogNet) : Prop := map_Forall (λ _, node_ok) (net_nodes (ln_net s)).

Lemma all_ok_step g s s' : cluster_inv requester cluster g s → log_step s s' → all_ok s → all_ok s'.
Proof.
  intros (Hg & HP & Hn) Hstep Hok.
  destruct Hstep as [s i n inp now wall timeout n' Hi Hd Hrun|s i n cli now wall timeout Hi Hcli]; unfold all_ok in *; cbn;
    destruct (Hn _ _ Hi) as (Hid & cli' & Hni); apply map_Forall_insert_2; try done.
  - eapply round_keeps_ok; [apply at_time_ok, (Hok _ _ Hi)| |exact Hrun]. rewrite <- Hid in Hd. by eapply at_time_safe.
  - rewrite <- Hid. apply restart_ok, Hni.
Qed.

End progress.

Section cluster_progress.
  Context {E : RaftEnv} (requester : nat → nat) (cluster : gmap nat Cli).

Lemma reachable_nodes_ok s0 s :
  well_addressed cluster → log_init cluster s0 → rtc (log_step requester cluster) s0 s →
  ∃ g, cluster_inv requester cluster g s ∧ all_ok s.
Proof.
  intros Hw H0 Hsteps. pose proof Hw as [Hc Hself]. pose proof (cluster_quorum_meets cluster Hc) as HQ.
  assert (all_ok s0) as Hok0.
  { intros i n Hi. destruct H0 as [[_ Hn] _]. apply Hn in Hi as (cli & now & wall & timeout & _ & ->). apply fresh_ok. }
  pose proof (log_init_inv requester cluster s0 H0) as Hinv0. revert Hinv0 Hok0. generalize ghost_start. clear H0.
  induction Hsteps as [s|s s1 s2 Hstep _ IH]; intros g Hinv Hok; [by exists g|].
  destruct (cluster_inv_step requester cluster g s s1 Hw Hinv Hstep) as (g1 & _ & Hinv1).
  apply (IH g1); [done|]. by apply (all_ok_step requester cluster HQ Hself g s).
Qed.

(** C39. No node of a cluster panics: in every state an execution reaches, a node
    that ticks, or is handed any batch of messages sent before and of client
    requests, completes its round without a panic and is well formed afterwards,
    so that the execution can go on with it. The executions are those of
    [RaftStateMachine]: messages are lost, delayed, reordered and repeated, nodes
    crash and restart, all command lines name the same servers, membership is
    fixed, database writes succeed and no snapshot is transferred. An election
    the round starts must not exceed the 64 bits of the term. *)
Theorem cluster_never_panics s0 s i n inp now wall timeout :
  well_addressed cluster → log_init cluster s0 → rtc (log_step requester cluster) s0 s → node_of s i n →
  input_delivered requester (pool_of s) i inp → input_room (at_time now wall timeout n) inp →
  ∃ n' s', run_once inp (at_time now wall timeout n) = (Ok tt, n') ∧ node_ok n' ∧
    log_step requester cluster s s' ∧ node_of s' i n'.
Proof.
  intros Hw H0 Hsteps Hi Hd Hroom. pose proof Hw as [Hc Hself]. pose proof (cluster_quorum_meets cluster Hc) as HQ.
  destruct (reachable_nodes_ok s0 s Hw H0 Hsteps) as (g & (Hg & HP & Hn) & Hok). destruct (Hn _ _ Hi) as (Hid & cli & Hni).
  destruct (round_runs inp (at_time now wall timeout n)) as [Hrun Hok']; [apply at_time_ok, (Hok _ _ Hi)| |done|].
  { rewrite <- Hid in Hd. by eapply at_time_safe. }
  destruct (run_once inp (at_time now wall timeout n)) as [o n'] eqn:Hr. cbn in Hrun, Hok'. subst o.
  eexists n', _. split_and!; [done|done|by eapply log_round|]. apply lookup_insert_eq.
Qed.

End cluster_progress.

(** Node 2 of the demonstration is handed a heartbeat of node 1 once more. *)
Lemma cluster_never_panics_witness :
  ∃ n' s', run_once (E := demo_env) (LogDemo.deliver 36 (Some 1) LogDemo.s11) (at_time 2400 0 1500 (LogDemo.node LogDemo.s11 2)) = (Ok tt, n') ∧
    node_ok n' ∧ log_step Demo.requester Demo.cluster LogDemo.s11 s' ∧ node_of s' 2 n'.
Proof.
  assert (∃ a, ln_messages (E := demo_env) LogDemo.s11 !! 36 = Some (AppendEntries a) ∧
               forallb (λ e, plain_command (command e)) (ae_entries a) = true) as (a & Ha & Hp).
  { eexists. split; by vm_compute. }
  apply (cluster_never_panics (E := demo_env) Demo.requester Demo.cluster LogDemo.start);
    [apply LogDemo.addressed|apply LogDemo.start_logged|etrans; [apply LogDemo.start_to_s9|apply LogDemo.s9_to_s11]|
     apply LogDemo.node_of_node; by vm_compute|by eapply LogDemo.deliver_delivered|].
  unfold LogDemo.deliver. rewrite Ha. split; [|done]. split; [done|]. by destruct (handle_event _ _) as [[] ?].
Defined.
