(* ===== verification/RaftTransfer.v ===== *)
(** * Leadership transfer

    What [initiate_leader_transfer] and the TimeoutNow handler do, and what
    they fail to do. *)

From S2P Require Import Prelude BTree Sharding MasterState AppState ClusterConfig RaftNode RaftRpc RaftLoop RaftDemo RaftFrame RaftElection RaftLog RaftDurable RaftSafety RaftCommit.

Section transfer.
  Context {E : RaftEnv}.

Notation RM := (M RaftNode).

(** ** TimeoutNow *)

Definition same_http (n n' : RaftNode) : Prop := http_out n' = http_out n.

#[local] Instance same_http_preorder : PreOrder same_http.
Proof. unfold same_http. split; [by intros n|]. intros a b c. congruence. Qed.

Lemma db_only_http {A} (m : RM A) n : kp db_only m n → kp same_http m n.
Proof. unfold kp. destruct (m n) as [[] ?]; [by intros [d ->]..|done]. Qed.

Lemma save_term_http n : kp same_http save_term n.
Proof. apply db_only_http, save_term_db_only. Qed.
Lemma save_vote_http n : kp same_http save_vote n.
Proof. apply db_only_http, save_vote_db_only. Qed.
#[local] Hint Resolve save_term_http save_vote_http : dfs.

Lemma step_down_http t h n : kp same_http (step_down_to_follower t h) n.
Proof. unfold step_down_to_follower. rkp; try done. by destruct h. Qed.
#[local] Hint Resolve step_down_http : dfs.

Lemma candidacy_http n : kp same_http candidacy n.
Proof. unfold candidacy, incr_term. rkp; done. Qed.
#[local] Hint Resolve candidacy_http : dfs.

Lemma handle_timeout_now_http args n : kp same_http (handle_timeout_now args) n.
Proof. unfold handle_timeout_now. rkp. Qed.

(** A node that accepts TimeoutNow becomes a candidate of a new term and has
    its own vote, but sends no vote request: the election it reports as
    started cannot be won before its next timeout, except in a term it has
    left by then. *)
Theorem timeout_now_requests_no_votes args n t n' :
  handle_timeout_now args n = (Ok (TimeoutNowResponse (mkTimeoutNowReply t true)), n') →
  role n' = Candidate ∧ (current_term n < current_term n')%N ∧
  voters n' = {[node_id n']} ∧ http_out n' = http_out n.
Proof.
  intros H. assert (http_out n' = http_out n) as Hhttp.
  { exact (kp_ok same_http _ _ _ _ (handle_timeout_now_http args n) H). }
  unfold handle_timeout_now in H. unfold bind at 1, get at 1 in H. case_if; [by inv_ok|].
  apply bind_ok_inv in H as ([] & n1 & H1 & H). apply bind_ok_inv in H as ([] & n2 & H2 & H).
  injection H as _ <-. destruct (candidacy_ok _ _ H2) as (Hr & Hv & _).
  split_and!; [done| |done|done].
  assert (current_term n ≤ current_term n1)%N as Hle.
  { case_if; [|by inv_ok]. apply step_down_inv in H1 as (_ & _ & _ & ->). lia. }
  eapply N.le_lt_trans; [exact Hle|]. clear -H2. unfold candidacy in H2. inv_ok.
  unfold incr_term in Hrun. inv_ok. db_inv. simpl. lia.
Qed.

(** ** Waiting for the target *)

Definition same_match (n n' : RaftNode) : Prop :=
  match_index n' = match_index n ∧ log n' = log n ∧ last_included_index n' = last_included_index n.

#[local] Instance same_match_preorder : PreOrder same_match.
Proof. unfold same_match. split; [by intros n|]. intros a b c. naive_solver congruence. Qed.

Lemma send_heartbeats_match n : kp same_match send_heartbeats n.
Proof.
  unfold send_heartbeats, heartbeat_peer, send_http. rkp_step. rkp_step. destruct x as [i [[? ?] ?]].
  rkp; done.
Qed.

Lemma send_heartbeats_ne n : ne send_heartbeats n.
Proof.
  unfold send_heartbeats. ne_step; [by intros ? ?|]. generalize (imap pair (combined_peers a)).
  intros l. generalize s'. induction l as [|[i [[? ?] ?]] l IH]; intros m; simpl; [by intros ? ?|].
  apply ne_bind; [|intros ? ?; apply IH]. unfold heartbeat_peer, send_http, usize_sub. repeat ne_step.
Qed.

(** The wait for the target never sees it catch up: the node handles no reply
    while it waits, so a target that is behind when the transfer starts makes
    the transfer fail after its 50 rounds of heartbeats. *)
Theorem leader_transfer_never_waits attempts target i n m :
  node_ok n → match_index n !! i = Some m → m < last_log_index_of n →
  (await_catch_up attempts target i n).1 = Err "Timeout waiting for target server to catch up".
Proof.
  revert n. induction attempts as [|attempts IH]; intros n Hn Hm Hlt.
  all: simpl; unfold bind at 1, get at 1; rewrite bind_last_log_index by (by apply node_ok_nonempty);
    rewrite Hm; destruct (Nat.ltb_spec m (last_log_index_of n)) as [_|]; [|lia].
  { done. }
  destruct (send_heartbeats n) as [[[]|e|w] n'] eqn:Hs.
  - rewrite (bind_ok _ _ _ _ _ Hs).
    destruct (kp_ok same_match _ _ _ _ (send_heartbeats_match n) Hs) as (E1 & E2 & E3).
    apply IH; [|by rewrite E1|unfold last_log_index_of in *; by rewrite E2, E3].
    destruct (send_heartbeats_np True n Hn) as [_ Hn']. rewrite Hs in Hn'. by apply Hn'.
  - by apply send_heartbeats_ne in Hs.
  - destruct (send_heartbeats_np True n Hn) as [Hp _]. rewrite Hs in Hp. by destruct (Hp I).
Qed.

End transfer.

Lemma timeout_now_requests_no_votes_witness :
  let r := handle_timeout_now (mkTimeoutNowArgs 1 1) demo_follower in
  role r.2 = Candidate ∧ http_out r.2 = [].
Proof.
  intros r.
  destruct (timeout_now_requests_no_votes (E := demo_env) (mkTimeoutNowArgs 1 1) demo_follower 2 r.2)
    as (H1 & _ & _ & H2).
  - assert (r.1 = Ok (TimeoutNowResponse (mkTimeoutNowReply 2 true))) as Hr by by vm_compute.
    rewrite <- Hr. apply surjective_pairing.
  - split; [exact H1|exact H2].
Defined.

Lemma leader_transfer_never_waits_witness :
  (await_catch_up 50 3 1 demo_leader).1 = Err "Timeout waiting for target server to catch up".
Proof.
  apply (leader_transfer_never_waits (E := demo_env) 50 3 1 demo_leader 0);
    [apply demo_leader_ok|by vm_compute|vm_compute; lia].
Defined.
