(* ===== verification/TwoPhase.v ===== *)
(** * Cross-shard rename: the handlers and background tasks

    dfs/metaserver/src/master.rs: the rename RPC, the four transaction RPCs of
    the participant and the coordinator, and one interval of the cleanup and
    recovery tasks. A handler is an asynchronous program: a [Proc] that reads
    the local state, submits commands to the local Raft group and calls other
    shards, and whose other side may do anything in between. *)

From S2P Require Import Prelude BTree Sharding MasterState AppState.

(** ** Programs *)

(** [src/proto/dfs.proto:350-383 PrepareTransactionRequest] *)
Inductive Rpc : Type :=
  | RpcPrepare (id p : string) (metadata : option FileMetadata) (coordinator : string)
  | RpcCommit (id : string)
  | RpcAbort (id : string)
  | RpcInquire (id : string).

(** The responses of the handlers; [StatusError] is `Err(Status)`, [TaskDone] the
    end of an interval of a background task. *)
Inductive Reply : Type :=
  | RenameReply (success : bool) (error_message leader_hint : string)
  | PrepareReply (success : bool) (error_message leader_hint : string)
  | CommitReply (success : bool) (error_message leader_hint : string)
  | AbortReply (success : bool) (error_message leader_hint : string)
  | InquireReply (status : string)
  | StatusError (message : string)
  | TaskDone.

Inductive Proc : Type :=
  | Done (r : Reply)
  | ReadState (k : MasterState → Proc)
  | ReadMap (k : ShardMap → Proc)
  | ReadIndex (k : RaftReply → Proc)
  | Now (k : N → Proc)
  | Submit (c : MasterCommand) (k : RaftReply → Proc)
  | Call (peer : string) (rpc : Rpc) (k : option Reply → Proc).

Section shard.
  (** CRC32 of the consistent-hashing ring, and the shard the process serves. *)
  Context (crc : string → N) (shard_id : string).

(** ** Guards *)

(** [src/dfs/metaserver/src/master.rs:2141-2159 check_shard_ownership] *)
Definition check_shard_ownership (p : string) (ok : Proc) : Proc :=
  ReadMap (λ m,
    match get_shard crc m p with
    | Some target_shard =>
        if decide (target_shard = shard_id) then ok
        else
          let hint := default "" (head (default [] (get_shard_peers m target_shard))) in
          Done (StatusError ("REDIRECT:" +:+ hint))
    | None => ok
    end).

(** [src/dfs/metaserver/src/master.rs:2163-2173 check_safe_mode] *)
Definition check_safe_mode (ok : Proc) : Proc :=
  ReadState (λ s,
    if is_in_safe_mode s
    then Done (StatusError "Cluster is in Safe Mode. Write operations are blocked.") else ok).

(** [src/dfs/metaserver/src/master.rs:1911-1930 ensure_linearizable_read] *)
Definition ensure_linearizable_read (ok : Proc) : Proc :=
  ReadIndex (λ r,
    match r with
    | RaftOk => ok
    | RaftNotLeader (Some hint) => Done (StatusError ("Not Leader|" +:+ hint))
    | RaftNotLeader None => Done (StatusError "Not Leader")
    | RaftClosed => Done (StatusError "Failed to send to Raft node")
    | RaftLost => Done (StatusError "Raft node shutdown")
    end).

(** ** Calls to the destination shard *)

(** [src/dfs/metaserver/src/master.rs:3667-3719 send_prepare_to_dest_shard] *)
Fixpoint send_prepare_to_dest_shard (id p : string) (metadata : FileMetadata)
    (dest_peers : list string) (k : bool → Proc) : Proc :=
  match dest_peers with
  | [] => k false
  | peer :: rest =>
      Call peer (RpcPrepare id p (Some metadata) shard_id) (λ resp,
        match resp with
        | Some (PrepareReply success _ leader_hint) =>
            if success then k true
            else if decide (leader_hint = "") then k false
            else send_prepare_to_dest_shard id p metadata rest k
        | _ => send_prepare_to_dest_shard id p metadata rest k
        end)
  end.

(** [src/dfs/metaserver/src/master.rs:3722-3767 send_commit_to_dest_shard] *)
Fixpoint send_commit_to_dest_shard (id : string) (dest_peers : list string) (k : bool → Proc) : Proc :=
  match dest_peers with
  | [] => k false
  | peer :: rest =>
      Call peer (RpcCommit id) (λ resp,
        match resp with
        | Some (CommitReply success _ leader_hint) =>
            if success then k true
            else if decide (leader_hint = "") then k false
            else send_commit_to_dest_shard id rest k
        | _ => send_commit_to_dest_shard id rest k
        end)
  end.

(** [src/dfs/metaserver/src/master.rs:3770-3816 send_abort_to_dest_shard] *)
Fixpoint send_abort_to_dest_shard (id : string) (dest_peers : list string) (k : bool → Proc) : Proc :=
  match dest_peers with
  | [] => k false
  | peer :: rest =>
      Call peer (RpcAbort id) (λ resp,
        match resp with
        | Some (AbortReply success _ leader_hint) =>
            if success then k true
            else if decide (leader_hint = "") then k false
            else send_abort_to_dest_shard id rest k
        | _ => send_abort_to_dest_shard id rest k
        end)
  end.

(** ** Rename *)

(** Steps 5 to 8: the participant has committed, so nothing aborts any more.
    [src/dfs/metaserver/src/master.rs:2951-3013 rename] *)
Definition finish_rename (id source_shard source_path : string) : Proc :=
  Submit (ApplyTransactionOperation id (mkTxOperation source_shard (TxDelete source_path))) (λ _,
  Submit (UpdateTransactionState id Committed) (λ _,
  Submit (SetParticipantAcked id) (λ _,
  Done (RenameReply true "" "")))).

(** The cross-shard case. [id] is the fresh UUID.
    [src/dfs/metaserver/src/master.rs:2809-3013 rename] *)
Definition cross_shard_rename (id source_path dest_path source_shard dest_shard : string)
    (dest_peers : list string) (source_metadata : FileMetadata) : Proc :=
  let dest_metadata := source_metadata <| path := dest_path |> in
  Now (λ now,
  Submit (CreateTransactionRecord
    (new_rename now id source_path dest_path source_shard dest_shard dest_metadata)) (λ r,
  match r with
  | RaftClosed => Done (RenameReply false "Internal error: Raft unavailable" "")
  | RaftNotLeader leader_opt => Done (RenameReply false "Not Leader" (default "" leader_opt))
  | RaftLost => Done (RenameReply false "Internal error: Raft commit failed" "")
  | RaftOk =>
  Submit (UpdateTransactionState id Prepared) (λ r,
  match r with
  | RaftClosed =>
      send_abort_to_dest_shard id dest_peers (λ _,
        Done (RenameReply false "Internal error: Raft unavailable" ""))
  | RaftNotLeader _ | RaftLost =>
      send_abort_to_dest_shard id dest_peers (λ _,
        Done (RenameReply false "Internal error: Raft commit failed" ""))
  | RaftOk =>
  send_prepare_to_dest_shard id dest_path dest_metadata dest_peers (λ prepared,
  if prepared then
    send_commit_to_dest_shard id dest_peers (λ committed,
    if committed then finish_rename id source_shard source_path
    else Done (RenameReply false "Cross-shard commit pending, will be retried" ""))
  else
    send_abort_to_dest_shard id dest_peers (λ _,
    Submit (UpdateTransactionState id Aborted) (λ _,
    Done (RenameReply false "Cross-shard prepare failed" ""))))
  end)
  end)).

(** [src/dfs/metaserver/src/master.rs:2728-3020 rename] *)
Definition rename (id source_path dest_path : string) : Proc :=
  check_shard_ownership source_path (
  check_safe_mode (
  ReadMap (λ m,
  let source_shard := default shard_id (get_shard crc m source_path) in
  let dest_shard := default shard_id (get_shard crc m dest_path) in
  let dest_peers := default [] (get_shard_peers m dest_shard) in
  ReadState (λ s,
  match files s !! source_path with
  | None => Done (RenameReply false ("Source file not found: " +:+ source_path) "")
  | Some source_metadata =>
      if decide (source_shard = dest_shard) then
        Submit (RenameFile source_path dest_path) (λ r,
        match r with
        | RaftOk => Done (RenameReply true "" "")
        | RaftNotLeader leader_opt => Done (RenameReply false "Not Leader" (default "" leader_opt))
        | RaftClosed => Done (StatusError "Raft channel closed")
        | RaftLost => Done (StatusError "Raft response error")
        end)
      else
        cross_shard_rename id source_path dest_path source_shard dest_shard dest_peers source_metadata
  end)))).

(** ** Participant RPCs *)

(** The record a participant stores; it does not know the source path.
    [src/dfs/metaserver/src/master.rs:3074-3092 prepare_transaction] *)
Definition participant_record (now : N) (id p : string) (metadata : FileMetadata) (coordinator : string)
  : TransactionRecord := {|
  tx_id := id;
  tx_type := Rename "" p;
  state := Prepared;
  timestamp := now;
  participants := [coordinator; shard_id];
  operations := [mkTxOperation shard_id (TxCreate p metadata)];
  coordinator_shard := coordinator;
  participant_acked := false;
  inquiry_count := 0;
|}.

(** `FileMetadata::default()`. *)
Definition default_metadata : FileMetadata := mkFileMetadata "" 0 [] "" 0 0 0 0 0 0.

(** [src/dfs/metaserver/src/master.rs:3026-3126 prepare_transaction] *)
Definition prepare_transaction (id p : string) (metadata : option FileMetadata) (coordinator : string)
  : Proc :=
  ReadState (λ s,
  match transaction_records s !! id with
  | Some _ => Done (PrepareReply true "" "")
  | None =>
  check_shard_ownership p (
  ReadState (λ s,
  match files s !! p with
  | Some _ => Done (PrepareReply false ("Destination file already exists: " +:+ p) "")
  | None =>
  Now (λ now,
  Submit (CreateTransactionRecord
    (participant_record now id p (default default_metadata metadata) coordinator)) (λ r,
  match r with
  | RaftOk => Done (PrepareReply true "" "")
  | RaftNotLeader leader_opt => Done (PrepareReply false "Not Leader" (default "" leader_opt))
  | RaftClosed => Done (StatusError "Raft channel closed")
  | RaftLost => Done (StatusError "Raft response error")
  end))
  end))
  end).

(** [src/dfs/metaserver/src/master.rs:3131-3227 commit_transaction] *)
Definition commit_transaction (id : string) : Proc :=
  ReadState (λ s,
  if decide (state <$> transaction_records s !! id = Some Committed)
  then Done (CommitReply true "" "")
  else
  ReadState (λ s,
  match transaction_records s !! id ≫= λ record, head (operations record) with
  | Some op =>
      Submit (ApplyTransactionOperation id op) (λ r,
      match r with
      | RaftOk =>
          Submit (UpdateTransactionState id Committed) (λ _, Done (CommitReply true "" ""))
      | RaftNotLeader leader_opt => Done (CommitReply false "Not Leader" (default "" leader_opt))
      | RaftClosed => Done (StatusError "Raft channel closed")
      | RaftLost => Done (StatusError "Raft response error")
      end)
  | None => Done (CommitReply false ("Transaction not found: " +:+ id) "")
  end)).

(** [src/dfs/metaserver/src/master.rs:3232-3274 abort_transaction] *)
Definition abort_transaction (id : string) : Proc :=
  Submit (UpdateTransactionState id Aborted) (λ r,
  match r with
  | RaftOk => Done (AbortReply true "" "")
  | RaftNotLeader leader_opt => Done (AbortReply false "Not Leader" (default "" leader_opt))
  | RaftClosed => Done (StatusError "Raft channel closed")
  | RaftLost => Done (StatusError "Raft response error")
  end).

(** [src/dfs/metaserver/src/master.rs:3276-3306 inquire_transaction] *)
Definition inquire_transaction (id : string) : Proc :=
  ensure_linearizable_read (
  ReadState (λ s,
  Done (InquireReply
    (match state <$> transaction_records s !! id with
     | Some Committed => "COMMITTED"
     | Some Aborted => "ABORTED"
     | _ => "UNKNOWN"
     end)))).

(** The handler an RPC starts. *)
Definition serve (rpc : Rpc) : Proc :=
  match rpc with
  | RpcPrepare id p metadata coordinator => prepare_transaction id p metadata coordinator
  | RpcCommit id => commit_transaction id
  | RpcAbort id => abort_transaction id
  | RpcInquire id => inquire_transaction id
  end.

(** ** Background tasks *)

(** [src/dfs/metaserver/src/master.rs:851-869 abort_via_raft] *)
Definition abort_via_raft (id : string) (k : Proc) : Proc :=
  Submit (UpdateTransactionState id Aborted) (λ _, k).

(** [src/dfs/metaserver/src/master.rs:872-890 commit_via_raft] *)
Definition commit_via_raft (id : string) (k : Proc) : Proc :=
  Submit (UpdateTransactionState id Committed) (λ _, k).

(** [src/dfs/metaserver/src/master.rs:893-910 delete_via_raft] *)
Definition delete_via_raft (id : string) (k : Proc) : Proc :=
  Submit (DeleteTransactionRecord id) (λ _, k).

(** [src/dfs/metaserver/src/master.rs:913-935 apply_operation_via_raft] *)
Definition apply_operation_via_raft (id : string) (op : TxOperation) (k : Proc) : Proc :=
  Submit (ApplyTransactionOperation id op) (λ _, k).

(** [src/dfs/metaserver/src/master.rs:937-962 increment_inquiry_count_via_raft] *)
Definition increment_inquiry_count_via_raft (id : string) (k : Proc) : Proc :=
  Submit (IncrementInquiryCount id) (λ _, k).

(** The coordinator peers are asked in turn until one answers.
    [src/dfs/metaserver/src/master.rs:1053-1103 run_transaction_cleanup] *)
Fixpoint inquire_peers (id : string) (peers : list string) (k : option string → Proc) : Proc :=
  match peers with
  | [] => k None
  | peer :: rest =>
      Call peer (RpcInquire id) (λ resp,
        match resp with
        | Some (InquireReply status) => k (Some status)
        | _ => inquire_peers id rest k
        end)
  end.

(** What a participant does with the outcome it is told.
    [src/dfs/metaserver/src/master.rs:1105-1137 run_transaction_cleanup] *)
Definition on_inquiry (id : string) (record : TransactionRecord) (status : option string) (k : Proc)
  : Proc :=
  if decide (status = Some "COMMITTED") then
    match head (operations record) with
    | Some op => apply_operation_via_raft id op (commit_via_raft id k)
    | None => k
    end
  else if decide (status = Some "ABORTED") then abort_via_raft id k
  else if decide (status = Some "UNKNOWN") then
    increment_inquiry_count_via_raft id (
      if (60 <? wrap32 (inquiry_count record + 1))%N then abort_via_raft id k else k)
  else k.

(** One record of the cleanup interval, with the clock read once.
    [src/dfs/metaserver/src/master.rs:996-1163 run_transaction_cleanup] *)
Definition cleanup_record (now : N) (id : string) (record : TransactionRecord) (k : Proc) : Proc :=
  let timed_out := is_timed_out now record in
  let stale := is_stale now record in
  let is_coordinator := bool_decide (coordinator_shard record = shard_id) in
  if decide (coordinator_shard record = "") then
    match state record with
    | Pending | Prepared => if timed_out then abort_via_raft id k else k
    | Committed | Aborted => if stale then delete_via_raft id k else k
    end
  else
    match state record, is_coordinator with
    | Pending, _ => if timed_out then abort_via_raft id k else k
    | Prepared, true => k
    | Prepared, false =>
        if timed_out then
          ReadMap (λ m,
            let coordinator_peers := default [] (get_shard_peers m (coordinator_shard record)) in
            inquire_peers id coordinator_peers (λ status, on_inquiry id record status k))
        else k
    | Committed, true =>
        if participant_acked record then if stale then delete_via_raft id k else k else k
    | Committed, false | Aborted, _ => if stale then delete_via_raft id k else k
    end.

(** `for (tx_id, record) in records { .. }`. *)
Fixpoint for_records (body : string → TransactionRecord → Proc → Proc)
    (records : list (string * TransactionRecord)) : Proc :=
  match records with
  | [] => Done TaskDone
  | (id, record) :: records => body id record (for_records body records)
  end.

(** One interval of the cleanup task.
    [src/dfs/metaserver/src/master.rs:968-1165 run_transaction_cleanup] *)
Definition transaction_cleanup : Proc :=
  Now (λ now,
  ReadState (λ s,
  let records := List.filter (λ e, is_timed_out now e.2 || is_stale now e.2)
                   (map_to_list (transaction_records s)) in
  for_records (λ id record k, Now (λ now, cleanup_record now id record k)) records)).

(** [src/dfs/metaserver/src/master.rs:1228-1259 run_transaction_recovery] *)
Fixpoint retry_commit (id : string) (dest_peers : list string) (k : bool → Proc) : Proc :=
  match dest_peers with
  | [] => k false
  | peer :: rest =>
      Call peer (RpcCommit id) (λ resp,
        match resp with
        | Some (CommitReply true _ _) => k true
        | _ => retry_commit id rest k
        end)
  end.

(** `record.operations.iter().find(|op| matches!(op.op_type, TxOpType::Delete { .. }))`. *)
Definition find_delete (record : TransactionRecord) : option TxOperation :=
  List.find (λ op, match op_type op with TxDelete _ => true | _ => false end) (operations record).

(** One record of the recovery interval.
    [src/dfs/metaserver/src/master.rs:1204-1319 run_transaction_recovery] *)
Definition recover_record (id : string) (record : TransactionRecord) (k : Proc) : Proc :=
  let dest_shard := default "" (List.find (λ p, negb (bool_decide (p = shard_id))) (participants record)) in
  ReadMap (λ m,
  let dest_peers := default [] (get_shard_peers m dest_shard) in
  match dest_peers with
  | [] => k
  | _ =>
      retry_commit id dest_peers (λ commit_ok,
      if commit_ok then
        match state record with
        | Committed => Submit (SetParticipantAcked id) (λ _, k)
        | Prepared =>
            let mark := commit_via_raft id (Submit (SetParticipantAcked id) (λ _, k)) in
            match find_delete record with
            | Some delete_op => apply_operation_via_raft id delete_op mark
            | None => mark
            end
        | _ => k
        end
      else k)
  end).

(** [src/dfs/metaserver/src/master.rs:1191-1196 run_transaction_recovery] *)
Definition needs_recovery (now : N) (record : TransactionRecord) : bool :=
  bool_decide (coordinator_shard record = shard_id) &&
  ((bool_decide (state record = Committed) && negb (participant_acked record))
   || (bool_decide (state record = Prepared) && is_timed_out now record)).

(** One interval of the recovery task.
    [src/dfs/metaserver/src/master.rs:1171-1322 run_transaction_recovery] *)
Definition transaction_recovery : Proc :=
  Now (λ now,
  ReadState (λ s,
  for_records recover_record
    (List.filter (λ e, needs_recovery now e.2) (map_to_list (transaction_records s))))).

End shard.
