(* ===== verification/TwoPhaseSafety.v ===== *)
(** * A cross-shard rename never loses the file

    The coordinator shard and the participant shard run the programs of
    TwoPhase.v concurrently: handlers interleave at every read, submission and
    call, messages are lost, delayed and duplicated, submitted commands may
    take effect late, and any process may die at any point. Other clients may
    do anything that touches neither path. *)

From S2P Require Import Prelude BTree Sharding MasterState AppState TwoPhase.

(** ** The two shards *)

Inductive Side : Type := Coord | Part.

Definition other (sd : Side) : Side := match sd with Coord => Part | Part => Coord end.

(** A shard: its replicated state, the running processes (with the RPC they
    serve), the commands submitted so far, the RPCs sent to it, and the
    answers it has given. *)
Record Shard : Type := mkShard {
  sh_state : MasterState;
  sh_procs : list (option Rpc * Proc);
  sh_pool : list MasterCommand;
  sh_inbox : list Rpc;
  sh_answers : list (option Rpc * Reply);
}.

Definition eta_shard (s : Shard) : Shard :=
  mkShard (sh_state s) (sh_procs s) (sh_pool s) (sh_inbox s) (sh_answers s).
#[global] Instance u_sh_state : Upd sh_state := ltac:(upd_tac eta_shard sh_state).
#[global] Instance u_sh_procs : Upd sh_procs := ltac:(upd_tac eta_shard sh_procs).
#[global] Instance u_sh_pool : Upd sh_pool := ltac:(upd_tac eta_shard sh_pool).
#[global] Instance u_sh_inbox : Upd sh_inbox := ltac:(upd_tac eta_shard sh_inbox).
#[global] Instance u_sh_answers : Upd sh_answers := ltac:(upd_tac eta_shard sh_answers).

Record World : Type := mkWorld { coord : Shard; part : Shard }.

Definition shard (w : World) (sd : Side) : Shard :=
  match sd with Coord => coord w | Part => part w end.

Definition set_shard (w : World) (sd : Side) (s : Shard) : World :=
  match sd with Coord => mkWorld s (part w) | Part => mkWorld (coord w) s end.

Section world.
  (** The transaction, the two paths and their shards, and the file renamed. *)
  Context (crc : string → N) (tx src dst src_shard dst_shard : string) (md0 : FileMetadata).

Definition md : FileMetadata := md0 <| path := dst |>.

Definition id_of (sd : Side) : string := match sd with Coord => src_shard | Part => dst_shard end.

(** Shard maps that assign the two paths to the two shards. *)
Definition map_ok (m : ShardMap) : Prop :=
  get_shard crc m src = Some src_shard ∧ get_shard crc m dst = Some dst_shard.

(** Commands of other clients: anything but transactions and the two paths. *)
Definition foreign (sd : Side) (c : MasterCommand) : Prop :=
  match c with
  | CreateTransactionRecord _ | UpdateTransactionState _ _ | ApplyTransactionOperation _ _
  | DeleteTransactionRecord _ | SetParticipantAcked _ | IncrementInquiryCount _ => False
  | _ => ¬ touches c (match sd with Coord => src | Part => dst end)
  end.

(** One step of a process; [answers] are those of the other shard. The result
    is the process after the step, the shard's state, and a command that
    entered the pool. *)
Inductive proc_step (answers : list (option Rpc * Reply)) (s : MasterState)
  : Proc → Proc → MasterState → list MasterCommand → Prop :=
  | ps_read k : proc_step answers s (ReadState k) (k s) s []
  | ps_map k m : map_ok m → proc_step answers s (ReadMap k) (k m) s []
  | ps_index k r : proc_step answers s (ReadIndex k) (k r) s []
  | ps_now k t : proc_step answers s (Now k) (k t) s []
  | ps_applied c k : proc_step answers s (Submit c k) (k RaftOk) (apply_master_command c s) [c]
  | ps_unknown c k r : r ≠ RaftOk → proc_step answers s (Submit c k) (k r) s [c]
  | ps_answer peer rpc k r : (Some rpc, r) ∈ answers → proc_step answers s (Call peer rpc k) (k (Some r)) s []
  | ps_no_answer peer rpc k : proc_step answers s (Call peer rpc k) (k None) s [].

Inductive step : World → World → Prop :=
  (* a process runs *)
  | st_proc w sd l o p r p' s' pool :
      sh_procs (shard w sd) = l ++ (o, p) :: r →
      proc_step (sh_answers (shard w (other sd))) (sh_state (shard w sd)) p p' s' pool →
      step w (set_shard w sd (shard w sd <| sh_procs := l ++ (o, p') :: r |> <| sh_state := s' |>
                                <| sh_pool := pool ++ sh_pool (shard w sd) |>))
  (* a call is sent; it may be sent again *)
  | st_send w sd o peer rpc k :
      (o, Call peer rpc k) ∈ sh_procs (shard w sd) →
      step w (set_shard w (other sd)
                (shard w (other sd) <| sh_inbox := rpc :: sh_inbox (shard w (other sd)) |>))
  (* a received call starts a handler; it may be received again *)
  | st_serve w sd rpc :
      rpc ∈ sh_inbox (shard w sd) →
      step w (set_shard w sd (shard w sd <| sh_procs := (Some rpc, serve crc (id_of sd) rpc)
                                                          :: sh_procs (shard w sd) |>))
  (* a background task runs an interval *)
  | st_task w sd task :
      task = transaction_cleanup (id_of sd) ∨ task = transaction_recovery (id_of sd) →
      step w (set_shard w sd (shard w sd <| sh_procs := (None, task) :: sh_procs (shard w sd) |>))
  (* a process ends *)
  | st_done w sd l o x r :
      sh_procs (shard w sd) = l ++ (o, Done x) :: r →
      step w (set_shard w sd (shard w sd <| sh_procs := l ++ r |>
                                <| sh_answers := (o, x) :: sh_answers (shard w sd) |>))
  (* a process dies *)
  | st_crash w sd l p r :
      sh_procs (shard w sd) = l ++ p :: r →
      step w (set_shard w sd (shard w sd <| sh_procs := l ++ r |>))
  (* a submitted command takes effect late *)
  | st_late w sd c :
      c ∈ sh_pool (shard w sd) →
      step w (set_shard w sd (shard w sd <| sh_state := apply_master_command c (sh_state (shard w sd)) |>))
  (* another client *)
  | st_foreign w sd c :
      foreign sd c →
      step w (set_shard w sd (shard w sd <| sh_state := apply_master_command c (sh_state (shard w sd)) |>)).

(** The rename handler is about to run; the source exists, the destination does
    not, and no transaction is recorded. *)
Definition init (w : World) : Prop :=
  sh_procs (coord w) = [(None, rename crc src_shard tx src dst)] ∧ sh_procs (part w) = [] ∧
  files (sh_state (coord w)) !! src = Some md0 ∧ files (sh_state (part w)) !! dst = None ∧
  ∀ sd, transaction_records (sh_state (shard w sd)) = ∅ ∧ sh_pool (shard w sd) = [] ∧
        sh_inbox (shard w sd) = [] ∧ sh_answers (shard w sd) = [].

(** ** What a process may do

    [f] says that the process knows the destination file to exist. *)

(** The records of the two sides. *)
Definition record_ok (sd : Side) (r : TransactionRecord) : Prop :=
  coordinator_shard r = src_shard ∧
  match sd with
  | Coord => participants r = [src_shard; dst_shard] ∧
             operations r = [mkTxOperation src_shard (TxDelete src);
                             mkTxOperation dst_shard (TxCreate dst md)]
  | Part => operations r = [mkTxOperation dst_shard (TxCreate dst md)]
  end.

(** Answers that are only given once the destination file exists. *)
Definition tells_created (r : Reply) : bool :=
  match r with
  | CommitReply true _ _ | RenameReply true _ _ => true
  | InquireReply status => bool_decide (status = "COMMITTED")
  | _ => false
  end.

Definition command_ok (sd : Side) (f : bool) (c : MasterCommand) : Prop :=
  match c with
  | CreateTransactionRecord r => tx_id r = tx ∧ record_ok sd r ∧ state r ≠ Committed
  | UpdateTransactionState _ st => st = Committed → f = true
  | ApplyTransactionOperation _ op =>
      match sd with
      | Coord => op_type op = TxDelete src ∧ f = true
      | Part => op_type op = TxCreate dst md
      end
  | DeleteTransactionRecord _ | SetParticipantAcked _ | IncrementInquiryCount _ => True
  | _ => False
  end.

Definition rpc_ok (sd : Side) (rpc : Rpc) : Prop :=
  match sd, rpc with
  | Part, RpcPrepare id p metadata coordinator =>
      id = tx ∧ p = dst ∧ metadata = Some md ∧ coordinator = src_shard
  | Part, _ => True
  | Coord, RpcInquire _ => True
  | Coord, _ => False
  end.

(** What a process finds in its shard's state. *)
Definition state_ok (sd : Side) (s : MasterState) : Prop :=
  map_Forall (λ i r, i = tx ∧ record_ok sd r) (transaction_records s) ∧
  match sd with
  | Coord => ∀ m, files s !! src = Some m → m = md0
  | Part => ∀ m, files s !! dst = Some m → m = md
  end.

Definition committed_in (s : MasterState) : bool :=
  bool_decide (state <$> transaction_records s !! tx = Some Committed).

Definition creates (sd : Side) (c : MasterCommand) (r : RaftReply) : bool :=
  match sd, c, r with Part, ApplyTransactionOperation _ _, RaftOk => true | _, _, _ => false end.

Fixpoint proc_ok (sd : Side) (f : bool) (p : Proc) : Prop :=
  match p with
  | Done r => tells_created r = true → f = true
  | ReadState k => ∀ s, state_ok sd s → proc_ok sd (f || committed_in s) (k s)
  | ReadMap k => ∀ m, map_ok m → proc_ok sd f (k m)
  | ReadIndex k => ∀ r, proc_ok sd f (k r)
  | Now k => ∀ t, proc_ok sd f (k t)
  | Submit c k => command_ok sd f c ∧ ∀ r, proc_ok sd (f || creates sd c r) (k r)
  | Call _ rpc k => rpc_ok (other sd) rpc ∧ proc_ok sd f (k None) ∧
                    ∀ r, proc_ok sd (f || tells_created r) (k (Some r))
  end.

Lemma command_ok_mono sd f c : command_ok sd f c → command_ok sd true c.
Proof. destruct c; simpl; try done. by destruct sd; [intros [? _]|]. Qed.

Lemma proc_ok_mono sd f p : proc_ok sd f p → proc_ok sd true p.
Proof.
  revert f. induction p as [r|k IH|k IH|k IH|k IH|c k IH|peer rpc k IH]; simpl; intros f; eauto.
  - intros [Hc Hk]. split; [by eapply command_ok_mono|eauto].
  - intros (? & ? & ?). eauto.
Qed.

Lemma proc_ok_or sd f b p : proc_ok sd f p → proc_ok sd (f || b) p.
Proof. destruct f, b; try done. by apply proc_ok_mono. Qed.

(** ** The programs are well-behaved *)

Lemma ownership_ok sd f shard_id p k :
  proc_ok sd f k → proc_ok sd f (check_shard_ownership crc shard_id p k).
Proof.
  intros Hk m _. simpl. destruct (get_shard crc m p); [case_decide|]; done.
Qed.

Lemma safe_mode_ok sd f k : proc_ok sd f k → proc_ok sd f (check_safe_mode k).
Proof.
  intros Hk s _. simpl. destruct (is_in_safe_mode s); [done|by apply proc_ok_or].
Qed.

Lemma send_prepare_ok f peers k :
  (∀ b, proc_ok Coord f (k b)) →
  proc_ok Coord f (send_prepare_to_dest_shard src_shard tx dst md peers k).
Proof.
  intros Hk. induction peers as [|peer rest IH]; simpl; [done|]. split; [done|split; [done|]].
  intros r. apply proc_ok_or. destruct r as [|[] ? h| | | | |]; try done. by case_decide.
Qed.

Lemma send_commit_ok f id peers k :
  proc_ok Coord f (k false) → proc_ok Coord true (k true) →
  proc_ok Coord f (send_commit_to_dest_shard id peers k).
Proof.
  intros Hn Hy. induction peers as [|peer rest IH]; simpl; [done|]. split; [done|split; [done|]].
  intros r. destruct r as [| |[] ? h| | | |]; try (by apply proc_ok_or); simpl.
  - by rewrite orb_true_r.
  - case_decide; by apply proc_ok_or.
Qed.

Lemma send_abort_ok f id peers k :
  (∀ b, proc_ok Coord f (k b)) → proc_ok Coord f (send_abort_to_dest_shard id peers k).
Proof.
  intros Hk. induction peers as [|peer rest IH]; simpl; [done|]. split; [done|split; [done|]].
  intros r. apply proc_ok_or. destruct r as [| | |[] ? h| | |]; try done. by case_decide.
Qed.

Lemma finish_rename_ok id : proc_ok Coord true (finish_rename id src_shard src).
Proof. simpl. by split_and!. Qed.

Lemma cross_shard_rename_ok f peers :
  proc_ok Coord f (cross_shard_rename src_shard tx src dst src_shard dst_shard peers md0).
Proof.
  simpl. intros now. split; [done|]. intros r. rewrite orb_false_r. destruct r; simpl; try done.
  split; [done|]. intros r. rewrite orb_false_r. destruct r; simpl; try (by apply send_abort_ok).
  apply send_prepare_ok. intros [].
  - by apply send_commit_ok; [|apply finish_rename_ok].
  - apply send_abort_ok. intros _. by split.
Qed.

Lemma rename_ok : src_shard ≠ dst_shard → proc_ok Coord false (rename crc src_shard tx src dst).
Proof.
  intros Hne. apply ownership_ok, safe_mode_ok. simpl. intros m [Hs Hd] s [_ Hf].
  rewrite Hs, Hd. simpl. destruct (files s !! src) as [m0|] eqn:Hm; [|done].
  rewrite decide_False by done. rewrite (Hf m0) by done. apply cross_shard_rename_ok.
Qed.

Lemma prepare_transaction_ok f :
  proc_ok Part f (prepare_transaction crc dst_shard tx dst (Some md) src_shard).
Proof.
  simpl. intros s _. apply proc_ok_or. destruct (transaction_records s !! tx); [done|].
  apply ownership_ok. intros s' _. apply proc_ok_or. destruct (files s' !! dst); [done|].
  simpl. intros now. split; [done|]. intros r. by destruct r.
Qed.

Lemma commit_transaction_ok f id : proc_ok Part f (commit_transaction id).
Proof.
  simpl. intros s [Hr _]. case_decide as Hc.
  - simpl. intros _. apply orb_true_iff. right. apply bool_decide_eq_true.
    apply fmap_Some in Hc as (r & Hid & Hst). destruct (Hr _ _ Hid) as [-> _]. rewrite Hid. simpl. by rewrite Hst.
  - intros s' [Hr' _]. destruct (transaction_records s' !! id) as [r|] eqn:Hid; [|done].
    destruct (Hr' _ _ Hid) as (-> & _ & Hops). simpl. rewrite Hops. simpl. split; [done|].
    intros [| | |]; simpl; try done. rewrite orb_true_r. by split.
Qed.

Lemma abort_transaction_ok sd f id : proc_ok sd f (abort_transaction id).
Proof. simpl. split; [done|]. by intros []. Qed.

Lemma inquire_ok sd f id : proc_ok sd f (inquire_transaction id).
Proof.
  simpl. intros [|[]| |]; simpl; try done. intros s [Hr _].
  destruct (transaction_records s !! id) as [r|] eqn:Hid; [|done].
  destruct (Hr _ _ Hid) as [-> _]. simpl. unfold committed_in. rewrite Hid. simpl.
  destruct (state r); intros Ht%bool_decide_eq_true; try done.
  rewrite bool_decide_eq_true_2 by done. apply orb_true_r.
Qed.

Lemma serve_ok sd rpc : rpc_ok sd rpc → proc_ok sd false (serve crc (id_of sd) rpc).
Proof.
  intros H. destruct sd, rpc; try done; unfold serve, id_of.
  - apply inquire_ok.
  - destruct H as (-> & -> & -> & ->). apply prepare_transaction_ok.
  - apply commit_transaction_ok.
  - apply abort_transaction_ok.
  - apply inquire_ok.
Qed.

Lemma for_records_ok sd f body records :
  (∀ f' id r k, (id, r) ∈ records → proc_ok sd f' k → proc_ok sd f' (body id r k)) →
  proc_ok sd f (for_records body records).
Proof.
  intros Hb. induction records as [|[id r] records IH]; simpl; [done|].
  apply Hb; [set_solver|]. apply IH. intros. apply Hb; [set_solver|done].
Qed.

Lemma on_inquiry_ok f id r status k :
  record_ok Part r → (status = Some "COMMITTED" → f = true) →
  proc_ok Part f k → proc_ok Part f (on_inquiry id r status k).
Proof.
  intros (_ & Hops) Hst Hk. unfold on_inquiry. case_decide as Hc.
  { rewrite Hops, (Hst Hc) in *. simpl. by split_and!. }
  case_decide; [|case_decide; [|done]].
  - simpl. split; [done|]. intros _. by apply proc_ok_or.
  - simpl. split; [done|]. intros _. apply proc_ok_or. case_if; [|done]. simpl. split; [done|].
    intros _. by apply proc_ok_or.
Qed.

Lemma inquire_peers_ok f id peers k :
  (∀ f' status, (f = true → f' = true) → (status = Some "COMMITTED" → f' = true) →
     proc_ok Part f' (k status)) →
  proc_ok Part f (inquire_peers id peers k).
Proof.
  intros Hk. induction peers as [|peer rest IH]; simpl; [by apply Hk|]. split; [done|].
  split; [done|]. intros r. destruct r as [| | | |status| |]; try (by apply proc_ok_or).
  apply Hk; simpl; [by intros ->|]. intros [= Hs]. by rewrite (bool_decide_eq_true_2 _ Hs), orb_true_r.
Qed.

Lemma cleanup_record_ok sd f now id r k :
  src_shard ≠ dst_shard → src_shard ≠ "" → record_ok sd r → proc_ok sd f k →
  proc_ok sd f (cleanup_record (id_of sd) now id r k).
Proof.
  intros Hne Hne' Hr Hk. pose proof Hr as [Hc _]. unfold cleanup_record. rewrite Hc.
  rewrite decide_False by done.
  assert (∀ st, st ≠ Committed → proc_ok sd f (Submit (UpdateTransactionState id st) (λ _, k))) as Hup.
  { intros st Hst. simpl. split; [by intros ->|]. intros ?. by apply proc_ok_or. }
  assert (proc_ok sd f (delete_via_raft id k)) as Hdel.
  { simpl. split; [done|]. intros ?. by apply proc_ok_or. }
  destruct (state r), (bool_decide (src_shard = id_of sd)) eqn:Hb; repeat case_if; try done;
    try by apply Hup.
  destruct sd; [by apply bool_decide_eq_false in Hb|]. simpl. intros m _.
  apply inquire_peers_ok. intros f' status Hf Hst. apply on_inquiry_ok; [done|done|].
  destruct f; [by rewrite (Hf eq_refl)|]. destruct f'; [by eapply proc_ok_mono|done].
Qed.

Lemma cleanup_ok sd :
  src_shard ≠ dst_shard → src_shard ≠ "" → proc_ok sd false (transaction_cleanup (id_of sd)).
Proof.
  intros Hne Hne'. unfold transaction_cleanup. intros now s [Hr _]. apply for_records_ok.
  intros f id r k Hin Hk now'. apply cleanup_record_ok; [done..| |done].
  apply list_elem_of_In, filter_In in Hin as [Hin _]. apply list_elem_of_In, elem_of_map_to_list in Hin.
  by destruct (Hr _ _ Hin).
Qed.

Lemma retry_commit_ok f id peers k :
  proc_ok Coord f (k false) → proc_ok Coord true (k true) → proc_ok Coord f (retry_commit id peers k).
Proof.
  intros Hn Hy. induction peers as [|peer rest IH]; simpl; [done|]. split; [done|split; [done|]].
  intros r. destruct r as [| |[] ? h| | | |]; try (by apply proc_ok_or); simpl. by rewrite orb_true_r.
Qed.

Lemma recover_record_ok f id r k :
  src_shard ≠ dst_shard → record_ok Coord r → proc_ok Coord f k →
  proc_ok Coord f (recover_record src_shard id r k).
Proof.
  intros Hne (_ & Hp & Hops) Hk. unfold recover_record. intros m _. cbv zeta.
  destruct (default [] _) as [|peer peers]; [done|]. apply retry_commit_ok; [done|].
  apply proc_ok_mono in Hk. unfold find_delete. rewrite Hops. simpl.
  destruct (state r); simpl; try done; by split_and!.
Qed.

Lemma recovery_ok sd :
  src_shard ≠ dst_shard → proc_ok sd false (transaction_recovery (id_of sd)).
Proof.
  intros Hne. unfold transaction_recovery. intros now s [Hr _]. apply for_records_ok.
  intros f id r k Hin Hk. apply list_elem_of_In, filter_In in Hin as [Hin Hneed].
  apply list_elem_of_In, elem_of_map_to_list in Hin. destruct (Hr _ _ Hin) as [-> Hok].
  destruct sd; [by apply recover_record_ok|]. exfalso.
  unfold needs_recovery in Hneed. apply andb_true_iff in Hneed as [Hc%bool_decide_eq_true _].
  simpl in Hc. destruct Hok as [Hok _]. congruence.
Qed.

(** ** The invariant *)

Definition created (w : World) : Prop := files (sh_state (part w)) !! dst = Some md.

(** [C] says that the destination file exists. *)
Record shard_inv (sd : Side) (C : Prop) (sh : Shard) : Prop := mk_shard_inv {
  si_state : state_ok sd (sh_state sh);
  si_committed : committed_in (sh_state sh) = true → C;
  si_procs o p : (o, p) ∈ sh_procs sh → ∃ f, (f = true → C) ∧ proc_ok sd f p;
  si_pool c : c ∈ sh_pool sh → ∃ f, (f = true → C) ∧ command_ok sd f c;
  si_inbox rpc : rpc ∈ sh_inbox sh → rpc_ok sd rpc;
  si_answers o r : (o, r) ∈ sh_answers sh → tells_created r = true → C;
  si_source : sd = Coord → files (sh_state sh) !! src = Some md0 ∨ C;
}.

Lemma shard_inv_mono sd (C C' : Prop) sh : (C → C') → shard_inv sd C sh → shard_inv sd C' sh.
Proof.
  intros HC []. constructor; eauto.
  - intros o p Hin. destruct (si_procs0 o p Hin) as (f & ? & ?). eauto.
  - intros c Hin. destruct (si_pool0 c Hin) as (f & ? & ?). eauto.
  - intros Hsd. destruct (si_source0 Hsd); auto.
Qed.

(** What a command of the transaction does to the state of its shard. *)
Record effect (sd : Side) (C : Prop) (s s' : MasterState) : Prop := mk_effect {
  ef_state : state_ok sd s';
  ef_committed : committed_in s' = true → C;
  ef_source : sd = Coord → files s !! src = Some md0 ∨ C → files s' !! src = Some md0 ∨ C;
  ef_dest : sd = Part → files s !! dst = Some md → files s' !! dst = Some md;
}.

Lemma records_effect sd (C : Prop) s m' :
  state_ok sd s → map_Forall (λ i r, i = tx ∧ record_ok sd r) m' →
  (∀ r, m' !! tx = Some r → state r = Committed → C) →
  effect sd C s (s <| transaction_records := m' |>).
Proof.
  intros [_ Hfiles] Hm HC. constructor; [done| |done|done].
  unfold committed_in. intros H%bool_decide_eq_true. apply fmap_Some in H as (r & Hr & Hst). eauto.
Qed.

Lemma alter_effect sd (C : Prop) id g s :
  state_ok sd s → (committed_in s = true → C) →
  (∀ r, record_ok sd r → record_ok sd (g r)) → (∀ r, state (g r) = Committed → state r = Committed ∨ C) →
  effect sd C s (update_record id g s).
Proof.
  intros Hs Hc Hg Hst. apply records_effect; [done| |].
  - intros i r Hi. destruct (decide (i = id)) as [->|Hne].
    + rewrite lookup_alter_eq in Hi. apply fmap_Some in Hi as (r0 & Hr0 & ->).
      destruct (proj1 Hs _ _ Hr0). auto.
    + rewrite lookup_alter_ne in Hi by done. by apply (proj1 Hs).
  - intros r Hi Hr. assert (∃ r0, transaction_records s !! tx = Some r0 ∧ (state r0 = Committed ∨ C))
      as (r0 & Hr0 & [H0|]); [| |done].
    { destruct (decide (tx = id)) as [<-|Hne].
      - rewrite lookup_alter_eq in Hi. apply fmap_Some in Hi as (r0 & Hr0 & ->). eauto.
      - rewrite lookup_alter_ne in Hi by done. eauto. }
    apply Hc. unfold committed_in. rewrite Hr0. simpl. by rewrite H0.
Qed.

Lemma command_effect sd (C : Prop) f c s :
  command_ok sd f c → (f = true → C) → state_ok sd s → (committed_in s = true → C) →
  effect sd C s (apply_master_command c s).
Proof.
  intros Hok Hf Hs Hc. pose proof Hs as [Hr Hfiles]. destruct c; simpl in Hok; try done.
  - destruct Hok as (Hid & Hrec & Hst). apply records_effect; [done| |].
    + apply map_Forall_insert_2; [done|]. done.
    + rewrite Hid, lookup_insert_eq. naive_solver.
  - apply alter_effect; try done. simpl. intros r ->. right. auto.
  - simpl. unfold apply_tx_operation. destruct sd.
    + destruct Hok as [-> HC]. constructor; [|done|by right; auto|done].
      split; [done|]. simpl. intros m. by rewrite lookup_delete_eq.
    + rewrite Hok. destruct (files s !! dst) eqn:Hd; [by constructor|].
      constructor; [|done|done|by rewrite Hd]. split; [done|]. simpl. intros m. rewrite lookup_insert_eq. naive_solver.
  - apply records_effect; [done|by apply map_Forall_delete|].
    intros r [_ Hi]%lookup_delete_Some Hst. apply Hc. unfold committed_in. rewrite Hi. simpl. by rewrite Hst.
  - apply alter_effect; [done|done|done|auto].
  - apply alter_effect; [done|done|done|auto].
Qed.

Lemma create_effect c s :
  command_ok Part true c → state_ok Part s → creates Part c RaftOk = true →
  files (apply_master_command c s) !! dst = Some md.
Proof.
  destruct c; try done. simpl. intros Hok [_ Hfiles] _. unfold apply_tx_operation. rewrite Hok.
  destruct (files s !! dst) as [m|] eqn:Hd; simpl; [by rewrite Hd, (Hfiles m eq_refl)|by rewrite lookup_insert_eq].
Qed.

Lemma foreign_effect sd (C : Prop) c s :
  foreign sd c → state_ok sd s → (committed_in s = true → C) → effect sd C s (apply_master_command c s).
Proof.
  intros Hfor [Hr Hfiles] Hc.
  assert (transaction_records (apply_master_command c s) = transaction_records s) as Hrec.
  { destruct c; simpl in *; try done; unfold rename_file, split_files; by repeat case_match. }
  assert (∀ p, ¬ touches c p → files (apply_master_command c s) !! p = files s !! p) as Hfr
    by (intros p; apply files_frame).
  assert (¬ touches c (match sd with Coord => src | Part => dst end)) as Hnt by by destruct c.
  constructor.
  - split; [by rewrite Hrec|]. destruct sd; by rewrite Hfr.
  - unfold committed_in. by rewrite Hrec.
  - intros ->. by rewrite Hfr.
  - intros ->. by rewrite Hfr.
Qed.

(** A shard that changes its state by such an effect keeps its invariant. *)
Lemma effect_inv sd (C : Prop) sh s' :
  shard_inv sd C sh → effect sd C (sh_state sh) s' → shard_inv sd C (sh <| sh_state := s' |>).
Proof. intros [] []. constructor; simpl; auto. Qed.

(** ** Steps *)

Definition inv (w : World) : Prop := ∀ sd, shard_inv sd (created w) (shard w sd).

Lemma inv_set w sd sh' :
  inv w → (created w → created (set_shard w sd sh')) →
  shard_inv sd (created (set_shard w sd sh')) sh' → inv (set_shard w sd sh').
Proof.
  intros Hw HC Hsh sd'. pose proof (Hw sd'). destruct sd, sd'; simpl in *; try done;
    by eapply shard_inv_mono.
Qed.

(** Steps that leave the replicated states alone. *)
Lemma inv_set_same w sd sh' :
  inv w → sh_state sh' = sh_state (shard w sd) →
  (shard_inv sd (created w) (shard w sd) → shard_inv sd (created w) sh') → inv (set_shard w sd sh').
Proof.
  intros Hw Hst Hsh. assert (created (set_shard w sd sh') = created w) as HC.
  { unfold created. destruct sd; simpl in *; [done|]. by rewrite Hst. }
  apply inv_set; rewrite ?HC; auto.
Qed.

(** Steps that apply a command. *)
Lemma inv_apply w sd s' :
  inv w → effect sd (created w) (sh_state (shard w sd)) s' →
  inv (set_shard w sd (shard w sd <| sh_state := s' |>)) ∧
  (created w → created (set_shard w sd (shard w sd <| sh_state := s' |>))).
Proof.
  intros Hw He. assert (created w → created (set_shard w sd (shard w sd <| sh_state := s' |>))) as HC.
  { unfold created. destruct sd; simpl in *; [done|]. by apply (ef_dest _ _ _ _ He). }
  split; [|done]. apply inv_set; [done..|]. eapply shard_inv_mono; [exact HC|].
  by apply effect_inv.
Qed.

(** Replacing a process, and adding to the pool. *)
Lemma procs_inv sd (C : Prop) sh l o p r p' pool f :
  sh_procs sh = l ++ (o, p) :: r → shard_inv sd C sh →
  (f = true → C) → proc_ok sd f p' → (∀ c, c ∈ pool → ∃ g, (g = true → C) ∧ command_ok sd g c) →
  shard_inv sd C (sh <| sh_procs := l ++ (o, p') :: r |> <| sh_pool := pool ++ sh_pool sh |>).
Proof.
  intros Hp [] Hf Hok Hpool. constructor; simpl; auto.
  - intros o' q Hin. rewrite Hp in si_procs0.
    rewrite elem_of_app, elem_of_cons in Hin. destruct Hin as [Hin|[[= -> ->]|Hin]]; [|eauto|].
    + apply (si_procs0 o'). set_solver.
    + apply (si_procs0 o'). set_solver.
  - intros c [?|?]%elem_of_app; auto.
Qed.

Lemma sublist_inv sd (C : Prop) sh l p r answers :
  sh_procs sh = l ++ p :: r → shard_inv sd C sh →
  (∀ o x, (o, x) ∈ answers → tells_created x = true → C) →
  shard_inv sd C (sh <| sh_procs := l ++ r |> <| sh_answers := answers ++ sh_answers sh |>).
Proof.
  intros Hp [] Ha. constructor; simpl; auto.
  - intros o q Hin. apply (si_procs0 o). rewrite Hp. set_solver.
  - intros o x [?|?]%elem_of_app; eauto.
Qed.

Lemma spawn_inv sd (C : Prop) sh o p :
  shard_inv sd C sh → proc_ok sd false p → shard_inv sd C (sh <| sh_procs := (o, p) :: sh_procs sh |>).
Proof.
  intros [] Hok. constructor; simpl; auto.
  intros o' q [[= -> ->]|?]%elem_of_cons; [by exists false|eauto].
Qed.

(** One step of a process: what it knows afterwards is true. *)
Lemma proc_step_ok sd (C : Prop) f answers s p p' s' pool :
  proc_step answers s p p' s' pool →
  (f = true → C) → proc_ok sd f p → state_ok sd s → (committed_in s = true → C) →
  (∀ o r, (o, r) ∈ answers → tells_created r = true → C) →
  (∀ c, c ∈ pool → command_ok sd f c) ∧
  ∃ g, proc_ok sd g p' ∧ (s' = s ∧ (g = true → C) ∨
    effect sd C s s' ∧ (g = true → C ∨ (sd = Part ∧ files s' !! dst = Some md))).
Proof.
  intros Hstep Hf Hok Hs Hc Ha. destruct Hstep; simpl in Hok.
  - split; [set_solver|]. exists (f || committed_in s). split; [auto|]. left. split; [done|].
    intros [?|?]%orb_true_iff; auto.
  - split; [set_solver|]. exists f. auto.
  - split; [set_solver|]. exists f. auto.
  - split; [set_solver|]. exists f. auto.
  - destruct Hok as [Hcmd Hk]. split; [set_solver|]. eexists. split; [apply Hk|]. right.
    split; [by eapply command_effect|]. intros [?|Hcr]%orb_true_iff; [auto|]. right.
    destruct sd; [done|]. split; [done|]. apply create_effect; [by eapply command_ok_mono|done|done].
  - destruct Hok as [Hcmd Hk]. split; [set_solver|]. eexists. split; [apply Hk|]. left. split; [done|].
    intros [?|Hcr]%orb_true_iff; [auto|]. by destruct sd, c, r.
  - destruct Hok as (_ & _ & Hk). split; [set_solver|]. eexists. split; [apply Hk|]. left. split; [done|].
    intros [?|?]%orb_true_iff; eauto.
  - destruct Hok as (_ & Hk & _). split; [set_solver|]. exists f. auto.
Qed.

Context (shards_differ : src_shard ≠ dst_shard) (named : src_shard ≠ "").

Lemma st_proc_inv w sd l o p r p' s' pool :
  inv w → sh_procs (shard w sd) = l ++ (o, p) :: r →
  proc_step (sh_answers (shard w (other sd))) (sh_state (shard w sd)) p p' s' pool →
  inv (set_shard w sd (shard w sd <| sh_procs := l ++ (o, p') :: r |> <| sh_state := s' |>
                         <| sh_pool := pool ++ sh_pool (shard w sd) |>)).
Proof.
  intros Hw Hp Hstep. pose proof (Hw sd) as Hsd.
  destruct (si_procs _ _ _ Hsd o p) as (f & Hf & Hok); [rewrite Hp; set_solver|].
  destruct (proc_step_ok sd (created w) f _ _ _ _ _ _ Hstep Hf Hok (si_state _ _ _ Hsd)
    (si_committed _ _ _ Hsd) (si_answers _ _ _ (Hw (other sd)))) as (Hpool & g & Hg & Hcase).
  set (w1 := set_shard w sd (shard w sd <| sh_state := s' |>)).
  assert (inv w1 ∧ (created w → created w1) ∧ (g = true → created w1)) as (Hw1 & HC & HCg).
  { destruct Hcase as [[-> HC]|[He HC]].
    - assert (w1 = w) as ->; [|auto]. subst w1. destruct w as [[] []], sd; done.
    - destruct (inv_apply w sd s' Hw He) as [? HC']. split_and!; [done|done|].
      intros Hgt. destruct (HC Hgt) as [?|[-> ?]]; auto. }
  assert (shard w1 sd = shard w sd <| sh_state := s' |>) as Hs1 by by destruct sd.
  assert (set_shard w1 sd (shard w1 sd <| sh_procs := l ++ (o, p') :: r |>
            <| sh_pool := pool ++ sh_pool (shard w1 sd) |>) =
          set_shard w sd (shard w sd <| sh_procs := l ++ (o, p') :: r |> <| sh_state := s' |>
            <| sh_pool := pool ++ sh_pool (shard w sd) |>)) as <- by (rewrite Hs1; by destruct sd).
  apply inv_set_same; [done|done|]. intros H1. eapply procs_inv; [|done|exact HCg|done|].
  - rewrite Hs1. exact Hp.
  - intros c Hc. exists f. split; [auto|auto].
Qed.

Lemma step_inv w w' : inv w → step w w' → inv w'.
Proof.
  intros Hw Hstep. destruct Hstep as
    [w sd l o p r p' s' pool Hp Hps|w sd o peer rpc k Hin|w sd rpc Hin|w sd task Ht|w sd l o x r Hp
    |w sd l p r Hp|w sd c Hin|w sd c Hfor].
  - by eapply st_proc_inv.
  - apply inv_set_same; [done|done|]. intros []. constructor; simpl; auto.
    intros rpc' [->|?]%elem_of_cons; [|auto].
    destruct (si_procs _ _ _ (Hw sd) _ _ Hin) as (f & _ & Hok & _). done.
  - apply inv_set_same; [done|done|]. intros H. apply spawn_inv; [done|].
    apply serve_ok. by apply (si_inbox _ _ _ H).
  - apply inv_set_same; [done|done|]. intros H. apply spawn_inv; [done|].
    destruct Ht as [->| ->]; [by apply cleanup_ok|by apply recovery_ok].
  - apply inv_set_same; [done|done|]. intros H.
    apply (sublist_inv sd (created w) (shard w sd) l (o, Done x) r [(o, x)]); [done|done|].
    intros o' x' [= -> ->]%list_elem_of_singleton Ht.
    destruct (si_procs _ _ _ H o (Done x)) as (f & Hf & Hok); [rewrite Hp; set_solver|]. auto.
  - apply inv_set_same; [done|done|]. intros H.
    apply (sublist_inv sd (created w) (shard w sd) l p r []); [done|done|set_solver].
  - destruct (si_pool _ _ _ (Hw sd) c Hin) as (f & Hf & Hok).
    apply inv_apply; [done|]. eapply command_effect; [done|done|apply (Hw sd)..].
  - apply inv_apply; [done|]. apply foreign_effect; [done|apply (Hw sd)..].
Qed.

Lemma init_inv w : init w → inv w.
Proof.
  intros (Hpc & Hpp & Hsrc & Hdst & Hall) sd. destruct (Hall sd) as (Hr & Hpool & Hin & Hans).
  constructor; rewrite ?Hpool, ?Hin, ?Hans.
  - split; [by rewrite Hr|]. destruct sd; simpl; [rewrite Hsrc; naive_solver|by rewrite Hdst].
  - unfold committed_in. by rewrite Hr.
  - intros o p. destruct sd; simpl; rewrite ?Hpc, ?Hpp; [|by intros ?%not_elem_of_nil].
    intros [= -> ->]%list_elem_of_singleton. exists false. split; [done|]. by apply rename_ok.
  - by intros c ?%not_elem_of_nil.
  - by intros c ?%not_elem_of_nil.
  - by intros o r ?%not_elem_of_nil.
  - intros ->. by left.
Qed.


End world.

(** ** Undisturbed runs *)

(** A process run to its end with every command applied; [call] answers its RPCs
    and updates the other shard. *)
Fixpoint run (call : Rpc → MasterState → option Reply * MasterState) (m : ShardMap) (now : N)
    (p : Proc) (s peer : MasterState) : Reply * (MasterState * MasterState) :=
  match p with
  | Done r => (r, (s, peer))
  | ReadState k => run call m now (k s) s peer
  | ReadMap k => run call m now (k m) s peer
  | ReadIndex k => run call m now (k RaftOk) s peer
  | Now k => run call m now (k now) s peer
  | Submit c k => run call m now (k RaftOk) (apply_master_command c s) peer
  | Call _ rpc k => let (r, peer) := call rpc peer in run call m now (k r) s peer
  end.

Definition unreachable (_ : Rpc) (peer : MasterState) : option Reply * MasterState := (None, peer).

(** A participant that serves every call to its end. *)
Definition served (crc : string → N) (dst_shard : string) (m : ShardMap) (now : N) (rpc : Rpc)
    (s : MasterState) : option Reply * MasterState :=
  let out := run unreachable m now (serve crc dst_shard rpc) s s in (Some out.1, out.2.1).

(** The state of a transaction in a shard. *)
Definition tx_state (id : string) (s : MasterState) : option TxState :=
  state <$> transaction_records s !! id.

Section undisturbed.
  Context (crc : string → N) (m : ShardMap) (now : N) (tx src dst src_shard dst_shard peer : string)
    (peers : list string) (sc sp : MasterState) (md0 : FileMetadata).
  Context (shards_differ : src_shard ≠ dst_shard) (assigned : map_ok crc src dst src_shard dst_shard m)
    (reachable : get_shard_peers m dst_shard = Some (peer :: peers)) (active : is_in_safe_mode sc = false)
    (source : files sc !! src = Some md0) (fresh : transaction_records sp !! tx = None).

Lemma prepare_served meta :
  files sp !! dst = None →
  served crc dst_shard m now (RpcPrepare tx dst (Some meta) src_shard) sp =
  (Some (PrepareReply true "" ""),
   apply_master_command (CreateTransactionRecord (participant_record dst_shard now tx dst meta src_shard)) sp).
Proof.
  intros Hd. unfold served. simpl. rewrite fresh. simpl. destruct assigned as [_ ->].
  rewrite decide_True by done. simpl. by rewrite Hd.
Qed.

Lemma prepare_refused meta existing :
  files sp !! dst = Some existing →
  served crc dst_shard m now (RpcPrepare tx dst (Some meta) src_shard) sp =
  (Some (PrepareReply false ("Destination file already exists: " +:+ dst) ""), sp).
Proof.
  intros Hd. unfold served. simpl. rewrite fresh. simpl. destruct assigned as [_ ->].
  rewrite decide_True by done. simpl. by rewrite Hd.
Qed.

Lemma commit_served s r op :
  transaction_records s !! tx = Some r → state r ≠ Committed → head (operations r) = Some op →
  served crc dst_shard m now (RpcCommit tx) s =
  (Some (CommitReply true "" ""),
   apply_master_command (UpdateTransactionState tx Committed) (apply_tx_operation op s)).
Proof.
  intros Hr Hst Hop. unfold served. simpl. rewrite decide_False by (rewrite Hr; simpl; congruence).
  simpl. rewrite Hr. simpl. by rewrite Hop.
Qed.

Lemma abort_served s :
  served crc dst_shard m now (RpcAbort tx) s =
  (Some (AbortReply true "" ""), apply_master_command (UpdateTransactionState tx Aborted) s).
Proof. done. Qed.

(** Up to the first call, the coordinator records the prepared transaction. *)
Definition prepared_coord : MasterState :=
  apply_master_command (UpdateTransactionState tx Prepared)
    (apply_master_command (CreateTransactionRecord
       (new_rename now tx src dst src_shard dst_shard (md0 <| path := dst |>))) sc).

Lemma rename_prepares call :
  run call m now (rename crc src_shard tx src dst) sc sp =
  run call m now
    (send_prepare_to_dest_shard src_shard tx dst (md0 <| path := dst |>) (peer :: peers) (λ prepared,
       if prepared then
         send_commit_to_dest_shard tx (peer :: peers) (λ committed,
         if committed then finish_rename tx src_shard src
         else Done (RenameReply false "Cross-shard commit pending, will be retried" ""))
       else
         send_abort_to_dest_shard tx (peer :: peers) (λ _,
         Submit (UpdateTransactionState tx Aborted) (λ _,
         Done (RenameReply false "Cross-shard prepare failed" ""))))) prepared_coord sp.
Proof.
  destruct assigned as [Hs Hd]. unfold rename, check_shard_ownership, check_safe_mode. simpl.
  rewrite Hs, decide_True by done. simpl. rewrite active. simpl. rewrite Hd, Hs. simpl. rewrite source.
  rewrite decide_False by done. by rewrite reachable.
Qed.

(** C35. Undisturbed, a cross-shard rename to a free path succeeds: the source
    shard loses exactly the source file, the destination shard gains exactly
    the renamed one, and both record the transaction as committed. *)
Theorem rename_completes :
  files sp !! dst = None →
  let out := run (served crc dst_shard m now) m now (rename crc src_shard tx src dst) sc sp in
  out.1 = RenameReply true "" "" ∧
  files out.2.1 = delete src (files sc) ∧
  files out.2.2 = <[dst := md0 <| path := dst |>]> (files sp) ∧
  tx_state tx out.2.1 = Some Committed ∧ tx_state tx out.2.2 = Some Committed.
Proof.
  intros Hd. cbv zeta. rewrite rename_prepares. cbn [run send_prepare_to_dest_shard].
  rewrite prepare_served by done. cbn [run send_commit_to_dest_shard].
  erewrite commit_served; [|simpl; apply lookup_insert_eq|done|done]. simpl.
  unfold apply_tx_operation, tx_state. simpl. rewrite Hd. simpl.
  by simplify_map_eq.
Qed.

(** C36. Undisturbed, a cross-shard rename to a path that is taken fails: no file
    of either shard changes and the coordinator records an abort. *)
Theorem rename_refuses_existing existing :
  files sp !! dst = Some existing →
  let out := run (served crc dst_shard m now) m now (rename crc src_shard tx src dst) sc sp in
  out.1 = RenameReply false "Cross-shard prepare failed" "" ∧
  files out.2.1 = files sc ∧ files out.2.2 = files sp ∧
  tx_state tx out.2.1 = Some Aborted ∧ tx_state tx out.2.2 = None.
Proof.
  intros Hd. cbv zeta. rewrite rename_prepares. cbn [run send_prepare_to_dest_shard].
  erewrite prepare_refused by done. simpl.
  unfold tx_state. simpl. by simplify_map_eq.
Qed.

End undisturbed.

(** ** Committing over an existing file *)

(** A file that another client creates at the destination between prepare and
    commit stays in place, and the participant reports the commit as done: the
    coordinator then deletes the source, and the renamed file is lost. *)
Theorem commit_keeps_foreign_file crc dst_shard m now id s r op p renamed existing :
  transaction_records s !! id = Some r → state r ≠ Committed →
  head (operations r) = Some op → op_type op = TxCreate p renamed →
  files s !! p = Some existing →
  let out := served crc dst_shard m now (RpcCommit id) s in
  out.1 = Some (CommitReply true "" "") ∧ files out.2 = files s.
Proof.
  intros Hr Hst Hop Hty Hf. cbv zeta. erewrite commit_served by done. simpl.
  unfold apply_tx_operation. by rewrite Hty, Hf.
Qed.

(** ** A schedule that completes a rename *)

Module RenameDemo.

Definition crc (_ : string) : N := 0.
Definition demo_map : ShardMap :=
  mkShardMap (Range [("/m", "a"); ("/z", "b")]) {["a"; "b"]} {["a" := ["a1"]; "b" := ["b1"]]}.
Definition file : FileMetadata := new_file "/a/x" 0 0.
Definition coord0 : MasterState := master_default <| files := {["/a/x" := file]} |>.
Definition part0 : MasterState := master_default.
Definition world0 : World :=
  mkWorld (mkShard coord0 [(None, rename crc "a" "t1" "/a/x" "/n/y")] [] [] [])
          (mkShard part0 [] [] [] []).

(** What the environment does next with the first process of a side: it runs,
    sends its call, is started by a received call, or ends. *)
Inductive Action : Type := ARun | ASend | AServe | AEnd.

#[local] Instance BlockInfo_eq_dec : EqDecision BlockInfo := ltac:(solve_decision).
#[local] Instance FileMetadata_eq_dec : EqDecision FileMetadata := ltac:(solve_decision).
#[local] Instance Rpc_eq_dec : EqDecision Rpc := ltac:(solve_decision).

Definition run_first (answers : list (option Rpc * Reply)) (s : MasterState) (p : Proc)
  : option (Proc * MasterState * list MasterCommand) :=
  match p with
  | Done _ => None
  | ReadState k => Some (k s, s, [])
  | ReadMap k => Some (k demo_map, s, [])
  | ReadIndex k => Some (k RaftOk, s, [])
  | Now k => Some (k 0%N, s, [])
  | Submit c k => Some (k RaftOk, apply_master_command c s, [c])
  | Call _ rpc k =>
      match answers with
      | (Some rpc', r) :: _ => if decide (rpc' = rpc) then Some (k (Some r), s, []) else None
      | _ => None
      end
  end.

Definition act (w : World) (e : Side * Action) : option World :=
  let (sd, a) := e in
  let s := shard w sd in
  match a, sh_procs s with
  | ARun, (o, p) :: r =>
      '(p', s', pool) ← run_first (sh_answers (shard w (other sd))) (sh_state s) p;
      Some (set_shard w sd (s <| sh_procs := (o, p') :: r |> <| sh_state := s' |>
                              <| sh_pool := pool ++ sh_pool s |>))
  | ASend, (_, Call _ rpc _) :: _ =>
      Some (set_shard w (other sd)
              (shard w (other sd) <| sh_inbox := rpc :: sh_inbox (shard w (other sd)) |>))
  | AServe, _ =>
      rpc ← head (sh_inbox s);
      Some (set_shard w sd (s <| sh_procs := (Some rpc, serve crc (id_of "a" "b" sd) rpc) :: sh_procs s |>))
  | AEnd, (o, Done x) :: r =>
      Some (set_shard w sd (s <| sh_procs := r |> <| sh_answers := (o, x) :: sh_answers s |>))
  | _, _ => None
  end.

Fixpoint acts (l : list (Side * Action)) (w : World) : option World :=
  match l with
  | [] => Some w
  | e :: l => w' ← act w e; acts l w'
  end.

Notation dstep := (step crc "/a/x" "/n/y" "a" "b").

Lemma run_first_step answers s p p' s' pool :
  run_first answers s p = Some (p', s', pool) →
  proc_step crc "/a/x" "/n/y" "a" "b" answers s p p' s' pool.
Proof.
  intros H. destruct p; simplify_eq/=; try by constructor.
  destruct answers as [|[[rpc'|] r] answers]; [done| |done]. case_decide; simplify_eq/=.
  constructor. set_solver.
Qed.

Lemma act_step w e w' : act w e = Some w' → dstep w w'.
Proof.
  destruct e as [sd []]; simpl; intros H.
  - destruct (sh_procs (shard w sd)) as [|[o p] r] eqn:Hp; [done|].
    destruct (run_first _ _ p) as [[[p' s'] pool]|] eqn:Hr; simplify_eq/=.
    apply (st_proc _ _ _ _ _ w sd [] o p r p' s' pool); [done|by apply run_first_step].
  - destruct (sh_procs (shard w sd)) as [|[o []] r] eqn:Hp; simplify_eq/=.
    eapply st_send. rewrite Hp. apply list_elem_of_here.
  - destruct (head (sh_inbox (shard w sd))) as [rpc|] eqn:Hh; simplify_eq/=.
    apply st_serve. destruct (sh_inbox (shard w sd)); simplify_eq/=. apply list_elem_of_here.
  - destruct (sh_procs (shard w sd)) as [|[o []] r'] eqn:Hp; simplify_eq/=.
    by apply (st_done _ _ _ _ _ w sd [] o r r').
Qed.

Lemma acts_rtc l w w' : acts l w = Some w' → rtc dstep w w'.
Proof.
  revert w. induction l as [|e l IH]; simpl; intros w H; [by simplify_eq|].
  destruct (act w e) as [w1|] eqn:He; [|done].
  eapply rtc_l; [by eapply act_step|by apply IH].
Qed.

Definition runs (sd : Side) (n : nat) : list (Side * Action) := replicate n (sd, ARun).

(** The coordinator records the transaction and sends prepare; the participant
    serves it, then the commit; the coordinator deletes the source. *)
Definition schedule : list (Side * Action) :=
  runs Coord 7 ++ [(Coord, ASend); (Part, AServe)] ++ runs Part 5 ++ [(Part, AEnd)] ++
  runs Coord 1 ++ [(Coord, ASend); (Part, AServe)] ++ runs Part 4 ++ [(Part, AEnd)] ++
  runs Coord 4 ++ [(Coord, AEnd)].

End RenameDemo.


Lemma commit_keeps_foreign_file_witness :
  let r := participant_record "b" 0 "t1" "/n/y" RenameDemo.file "a" in
  let s := master_default <| files := {["/n/y" := new_file "/n/y" 4 2]} |>
             <| transaction_records := {["t1" := r]} |> in
  let out := served RenameDemo.crc "b" RenameDemo.demo_map 0 (RpcCommit "t1") s in
  out.1 = Some (CommitReply true "" "") ∧ files out.2 = files s.
Proof. intros r s. eapply commit_keeps_foreign_file; try reflexivity. discriminate. Defined.

Lemma rename_completes_witness :
  let out := run (served RenameDemo.crc "b" RenameDemo.demo_map 0) RenameDemo.demo_map 0
               (rename RenameDemo.crc "a" "t1" "/a/x" "/n/y") RenameDemo.coord0 RenameDemo.part0 in
  out.1 = RenameReply true "" "" ∧
  files out.2.2 = <["/n/y" := RenameDemo.file <| path := "/n/y" |>]> (files RenameDemo.part0).
Proof.
  intros out. destruct (rename_completes RenameDemo.crc RenameDemo.demo_map 0 "t1" "/a/x" "/n/y" "a" "b"
    "b1" [] RenameDemo.coord0 RenameDemo.part0 RenameDemo.file) as (H1 & _ & H2 & _);
    [done|by vm_compute..|]. by split.
Defined.

Lemma rename_refuses_existing_witness :
  let sp := RenameDemo.part0 <| files := {["/n/y" := new_file "/n/y" 4 2]} |> in
  let out := run (served RenameDemo.crc "b" RenameDemo.demo_map 0) RenameDemo.demo_map 0
               (rename RenameDemo.crc "a" "t1" "/a/x" "/n/y") RenameDemo.coord0 sp in
  out.1 = RenameReply false "Cross-shard prepare failed" "" ∧
  files out.2.1 = files RenameDemo.coord0 ∧ files out.2.2 = files sp.
Proof.
  intros sp out. destruct (rename_refuses_existing RenameDemo.crc RenameDemo.demo_map 0 "t1" "/a/x" "/n/y"
    "a" "b" "b1" [] RenameDemo.coord0 sp RenameDemo.file) with (existing := new_file "/n/y" 4 2)
    as (H1 & H2 & H3 & _); [done|by vm_compute..|]. by split_and!.
Defined.
