(* ===== verification/Placement.v ===== *)
(** * Placement of blocks on chunk servers

    dfs/metaserver/src/master.rs, select_servers_rack_aware: the servers of a
    new block are taken from the racks in turn. *)

From S2P Require Import Prelude MasterState.

(** ** Rack-aware selection *)

Notation Server := (string * ChunkServerStatus)%type.

Section select.
Context `{HashOrder}.

(** [src/dfs/metaserver/src/master.rs:390-394 select_servers_rack_aware] *)
Definition rack_key (s : Server) : string :=
  if decide (rack_id s.2 = "") then "__addr__" +:+ s.1 else rack_id s.2.

(** `rack_buckets.entry(rack_key).or_default().push(s)`.
    [src/dfs/metaserver/src/master.rs:387-396 select_servers_rack_aware] *)
Definition push_bucket (buckets : gmap string (list Server)) (s : Server) : gmap string (list Server) :=
  <[rack_key s := default [] (buckets !! rack_key s) ++ [s]]> buckets.

(** Most available space first.
    [src/dfs/metaserver/src/master.rs:383-385 select_servers_rack_aware] *)
Definition more_space (a b : Server) : bool := (available_space b.2 <=? available_space a.2)%N.

(** `a[0].1.available_space`; a bucket is never empty. *)
Definition best_space (rack : list Server) : N :=
  match rack with s :: _ => available_space s.2 | [] => 0 end.

(** [src/dfs/metaserver/src/master.rs:383-407 select_servers_rack_aware] *)
Definition racks_of (servers : list Server) : list (list Server) :=
  let candidates := sort_by more_space servers in
  let rack_buckets := foldl push_bucket ∅ candidates in
  sort_by (λ a b, (best_space b <=? best_space a)%N) (entries rack_buckets).*2.

(** One pass of the `for` over the racks: the servers selected, the positions,
    whether one was picked, and whether `break 'outer` ended the loop.
    [src/dfs/metaserver/src/master.rs:414-425 select_servers_rack_aware] *)
Fixpoint round_robin_round (n : nat) (racks : list (list Server)) (positions : list nat)
    (selected : list string) (picked_this_round : bool)
  : list string * list nat * bool * bool :=
  match racks, positions with
  | rack :: racks, pos :: positions =>
      if n <=? length selected then (selected, pos :: positions, picked_this_round, true)
      else
        match rack !! pos with
        | Some s =>
            let '(selected, positions, picked, full) :=
              round_robin_round n racks positions (selected ++ [s.1]) true in
            (selected, S pos :: positions, picked, full)
        | None =>
            let '(selected, positions, picked, full) :=
              round_robin_round n racks positions selected picked_this_round in
            (selected, pos :: positions, picked, full)
        end
  | _, _ => (selected, positions, picked_this_round, false)
  end.

(** [src/dfs/metaserver/src/master.rs:409-431 select_servers_rack_aware] *)
Fixpoint round_robin (fuel n : nat) (racks : list (list Server)) (positions : list nat)
    (selected : list string) : list string :=
  match fuel with
  | 0 => selected
  | S fuel =>
      let '(selected, positions, picked, full) := round_robin_round n racks positions selected false in
      if full then selected
      else if picked then round_robin fuel n racks positions selected
      else selected
  end.

(** A pass that does not end the loop selects a server, so [n + 1] passes are enough.
    [src/dfs/metaserver/src/master.rs:378-432 select_servers_rack_aware] *)
Definition select_servers_rack_aware (servers : list Server) (n : nat) : list string :=
  match n, servers with
  | 0, _ | _, [] => []
  | _, _ =>
      let racks := racks_of servers in
      round_robin (S n) n racks (replicate (length racks) 0) []
  end.

(** *** The servers in round-robin order *)

Definition row (racks : list (list Server)) (i : nat) : list Server := omap (.!! i) racks.
Definition rows (racks : list (list Server)) (i k : nat) : list Server :=
  mjoin (row racks <$> seq i k).
Definition depth (racks : list (list Server)) : nat := max_list (length <$> racks).

(** Where the racks stand after [i] passes. *)
Definition positions_at (racks : list (list Server)) (i : nat) : list nat :=
  (λ rack, min i (length rack)) <$> racks.

#[local] Arguments positions_at : simpl never.
#[local] Arguments row : simpl never.
#[local] Arguments rows : simpl never.

Lemma lookup_min {A} (l : list A) i : l !! min i (length l) = l !! i.
Proof.
  destruct (decide (i < length l)); [by rewrite Nat.min_l by lia|].
  rewrite Nat.min_r by lia. by rewrite !lookup_ge_None_2 by lia.
Qed.

Lemma positions_at_cons rack racks i :
  positions_at (rack :: racks) i = min i (length rack) :: positions_at racks i.
Proof. done. Qed.

Lemma row_cons rack racks i : row (rack :: racks) i = option_list (rack !! i) ++ row racks i.
Proof. unfold row. simpl. by destruct (rack !! i). Qed.

Lemma round_spec n racks i selected picked :
  length selected ≤ n →
  ∃ positions' picked' full,
    round_robin_round n racks (positions_at racks i) selected picked =
      (take n (selected ++ (row racks i).*1), positions', picked', full) ∧
    (full = true → n ≤ length (selected ++ (row racks i).*1)) ∧
    (full = false → length (selected ++ (row racks i).*1) ≤ n ∧
       positions' = positions_at racks (S i) ∧
       picked' = picked || bool_decide (row racks i ≠ [])).
Proof.
  revert selected picked. induction racks as [|rack racks IH]; intros selected picked Hlen.
  - eexists [], picked, false. split; [by rewrite app_nil_r, take_ge|]. split; [done|].
    rewrite app_nil_r. intros _. split; [done|]. split; [done|]. by rewrite orb_false_r.
  - rewrite positions_at_cons, row_cons. cbn [round_robin_round].
    destruct (n <=? length selected) eqn:E.
    { apply Nat.leb_le in E. eexists _, _, true. rewrite take_app_le, take_ge by lia.
      split; [done|]. split; [|done]. intros _. rewrite length_app. lia. }
    apply Nat.leb_gt in E. rewrite lookup_min. destruct (rack !! i) as [s|] eqn:Hs; simpl.
    + destruct (IH (selected ++ [s.1]) true) as (ps & pk & full & -> & Hf & Hn).
      { rewrite length_app. simpl. lia. }
      rewrite <- app_assoc in Hf, Hn |- *. simpl in *. eexists _, _, full. split; [done|].
      split; [done|]. intros Hfull. destruct (Hn Hfull) as (? & -> & ->). split; [done|].
      apply lookup_lt_Some in Hs. rewrite positions_at_cons.
      split; [f_equal; lia|]. simpl. by rewrite orb_true_r.
    + destruct (IH selected picked) as (ps & pk & full & -> & Hf & Hn); [lia|].
      eexists _, _, full. split; [done|]. split; [done|].
      intros Hfull. destruct (Hn Hfull) as (? & -> & ->). split; [done|].
      apply lookup_ge_None in Hs. rewrite positions_at_cons. split; [f_equal; lia|done].
Qed.

Lemma row_beyond racks i : depth racks ≤ i → row racks i = [].
Proof.
  induction racks as [|rack racks IH]; [done|]. intros Hd.
  assert (depth (rack :: racks) = length rack `max` depth racks) as E by done.
  rewrite row_cons, lookup_ge_None_2 by lia. simpl. apply IH. lia.
Qed.

Lemma rows_cons racks i k : rows racks i (S k) = row racks i ++ rows racks (S i) k.
Proof. done. Qed.

Lemma row_nil_later racks i j : row racks i = [] → i ≤ j → row racks j = [].
Proof.
  intros Hi Hij. induction racks as [|rack racks IH]; [done|]. rewrite row_cons in *.
  destruct (rack !! i) eqn:E; [done|]. apply lookup_ge_None in E.
  rewrite lookup_ge_None_2 by lia. by apply IH.
Qed.

Lemma rows_nil_later racks i k : row racks i = [] → rows racks i k = [].
Proof.
  intros Hi. assert (∀ j, i ≤ j → rows racks j k = []) as Hj; [|by apply Hj].
  induction k as [|k IH]; intros j Hij; [done|].
  rewrite rows_cons, (row_nil_later _ i j), IH by (done || lia). done.
Qed.

Lemma round_robin_spec fuel n racks i k selected :
  length selected ≤ n → n < length selected + fuel → depth racks ≤ i + k →
  round_robin fuel n racks (positions_at racks i) selected =
  take n (selected ++ (rows racks i k).*1).
Proof.
  revert i k selected. induction fuel as [|fuel IH]; intros i k selected Hlen Hfuel Hk; [lia|].
  cbn [round_robin].
  destruct (round_spec n racks i selected false Hlen) as (ps & pk & full & -> & Hf & Hn).
  assert (row racks i ≠ [] → k ≠ 0) as Hk0.
  { intros Hrow ->. apply Hrow, row_beyond. lia. }
  destruct full.
  - destruct k as [|k].
    { destruct (row racks i) eqn:Hrow; [by simpl|by destruct Hk0]. }
    rewrite rows_cons, fmap_app, app_assoc. by rewrite (take_app_le (_ ++ _)) by auto.
  - destruct (Hn eq_refl) as (Hle & -> & ->). simpl.
    case_bool_decide as Hrow; simpl.
    + destruct k as [|k]; [by destruct Hk0|]. rewrite rows_cons, fmap_app, app_assoc.
      assert (length (row racks i) ≠ 0) by (by destruct (row racks i)).
      rewrite length_app, length_fmap in Hle. rewrite (IH _ k).
      * f_equal. rewrite (take_ge (_ ++ _)); [done|]. rewrite length_app, length_fmap. lia.
      * rewrite length_take. lia.
      * rewrite length_take, length_app, length_fmap. lia.
      * lia.
    + assert (row racks i = []) as Hnil by (by destruct (row racks i); [|destruct Hrow]).
      by rewrite rows_nil_later, Hnil by done.
Qed.

(** Reading the racks by rows yields every server once. *)
Lemma mjoin_lookups {A} (l : list A) k :
  length l ≤ k → mjoin ((λ i, option_list (l !! i)) <$> seq 0 k) = l.
Proof.
  revert k. induction l as [|x l IH]; intros k Hk.
  - clear Hk. induction (seq 0 k) as [|i ix IHi]; [done|]. exact IHi.
  - destruct k as [|k]; [simpl in Hk; lia|]. cbn [seq]. rewrite <- fmap_S_seq, fmap_cons.
    simpl. f_equal. rewrite <- list_fmap_compose. apply (IH k). simpl in Hk. lia.
Qed.

Lemma rows_perm racks k : depth racks ≤ k → rows racks 0 k ≡ₚ mjoin racks.
Proof.
  unfold rows. induction racks as [|rack racks IH]; intros Hd.
  - induction (seq 0 k) as [|i ix IHi]; [done|]. by simpl.
  - assert (depth (rack :: racks) = length rack `max` depth racks) as E by done. simpl.
    rewrite <- IH by lia. rewrite <- (mjoin_lookups rack k) at 2 by lia.
    clear. induction (seq 0 k) as [|i ix IHi]; [done|]. rewrite !fmap_cons. cbn [mjoin list_join].
    rewrite row_cons, IHi. solve_Permutation.
Qed.

Definition rack_ok (k : string) (rack : list Server) : Prop :=
  rack ≠ [] ∧ Forall (λ s, rack_key s = k) rack.

Lemma push_bucket_spec buckets s :
  map_Forall rack_ok buckets →
  map_Forall rack_ok (push_bucket buckets s) ∧
  mjoin (map_to_list (push_bucket buckets s)).*2 ≡ₚ s :: mjoin (map_to_list buckets).*2.
Proof.
  intros Hok. unfold push_bucket. destruct (buckets !! rack_key s) as [rack|] eqn:Hb; simpl.
  - split.
    + apply map_Forall_insert_2; [|done]. destruct (Hok _ _ Hb) as [Hne Hall].
      split; [by destruct rack|]. apply Forall_app. auto.
    + rewrite <- (insert_delete_id buckets (rack_key s) rack) at 2 by done.
      rewrite <- insert_delete_eq, !map_to_list_insert by apply lookup_delete_eq.
      simpl. solve_Permutation.
  - split; [apply map_Forall_insert_2; [|done]; split; [done|]; auto|].
    by rewrite map_to_list_insert.
Qed.

Lemma buckets_spec servers buckets :
  map_Forall rack_ok buckets →
  map_Forall rack_ok (foldl push_bucket buckets servers) ∧
  mjoin (map_to_list (foldl push_bucket buckets servers)).*2 ≡ₚ servers ++ mjoin (map_to_list buckets).*2.
Proof.
  revert buckets. induction servers as [|s servers IH]; intros buckets Hok; simpl; [done|].
  destruct (push_bucket_spec buckets s Hok) as [Hok' Hp].
  destruct (IH _ Hok') as [? ->]. split; [done|]. rewrite Hp. solve_Permutation.
Qed.

Lemma row_heads (kr : list (string * list Server)) :
  Forall (λ e, rack_ok e.1 e.2) kr → rack_key <$> row kr.*2 0 = kr.*1.
Proof.
  induction 1 as [|[k rack] kr [Hne Hall] _ IH]; [done|]. simpl in *. rewrite row_cons.
  destruct rack as [|s rack]; [done|]. simpl. f_equal; [by apply Forall_cons in Hall as [-> _]|exact IH].
Qed.

Lemma racks_of_spec servers :
  mjoin (racks_of servers) ≡ₚ servers ∧
  ∃ keys, NoDup keys ∧ rack_key <$> row (racks_of servers) 0 ≡ₚ keys ∧
    length keys = length (racks_of servers) ∧ ∀ s, s ∈ servers → rack_key s ∈ keys.
Proof.
  unfold racks_of. set (buckets := foldl push_bucket ∅ (sort_by more_space servers)).
  destruct (buckets_spec (sort_by more_space servers) ∅) as [Hok Hp]; [apply map_Forall_empty|].
  fold buckets in Hok, Hp. rewrite map_to_list_empty, app_nil_r, sort_by_perm in Hp.
  assert (mjoin (sort_by (λ a b, (best_space b <=? best_space a)%N) (entries buckets).*2) ≡ₚ servers) as Hj.
  { by rewrite sort_by_perm, entries_perm. }
  split; [exact Hj|]. exists (entries buckets).*1. split_and!.
  - apply NoDup_entries.
  - rewrite <- row_heads.
    + unfold row. by rewrite sort_by_perm.
    + rewrite entries_perm. apply Forall_forall. intros [k rack] Hr%elem_of_map_to_list. by apply Hok.
  - by rewrite sort_by_perm, !length_fmap.
  - intros s Hs. rewrite <- Hj in Hs. apply list_elem_of_join in Hs as (rack & Hs & Hr).
    rewrite sort_by_perm in Hr. apply list_elem_of_fmap in Hr as ([k rack'] & -> & Hr).
    apply list_elem_of_fmap. exists (k, rack'). split; [|done]. apply elem_of_entries in Hr.
    destruct (Hok _ _ Hr) as [_ Hall]. simpl in *. by eapply Forall_forall in Hall.
Qed.

Lemma select_take servers n :
  select_servers_rack_aware servers n =
  (take n (rows (racks_of servers) 0 (depth (racks_of servers)))).*1.
Proof.
  destruct n as [|n]; [done|]. destruct servers as [|s servers].
  - simpl. destruct (racks_of_spec []) as [Hp _].
    by rewrite <- rows_perm in Hp by done; apply Permutation_nil_r in Hp as ->.
  - unfold select_servers_rack_aware. set (racks := racks_of (s :: servers)).
    assert (replicate (length racks) 0 = positions_at racks 0) as ->.
    { unfold positions_at. clear. induction racks as [|r racks IH]; [done|]. simpl. by rewrite IH. }
    rewrite (round_robin_spec _ _ _ _ (depth racks)) by (simpl; lia). by rewrite fmap_take.
Qed.

Lemma select_spread servers n :
  NoDup servers.*1 →
  ∃ chosen : list Server,
    select_servers_rack_aware servers n = chosen.*1 ∧ NoDup chosen.*1 ∧ chosen ⊆ servers ∧
    length chosen = min n (length servers) ∧
    (NoDup (rack_key <$> chosen) ∨ ∀ s, s ∈ servers → rack_key s ∈ rack_key <$> chosen).
Proof.
  intros Hnd. rewrite select_take.
  destruct (racks_of_spec servers) as (Hp & keys & Hkeys & Hrow & Hlen & Hin).
  rewrite <- rows_perm in Hp by done. set (all := rows _ _ _) in *.
  exists (take n all). split; [done|]. split_and!.
  - rewrite <- Hp, <- (take_drop n all), fmap_app in Hnd. by apply NoDup_app in Hnd as [? _].
  - intros s Hs. rewrite <- Hp. by apply elem_of_take in Hs as (i & ? & _); eapply list_elem_of_lookup_2.
  - by rewrite length_take, Hp.
  - destruct (depth (racks_of servers)) as [|d] eqn:Hd.
    { left. subst all. change (rows _ 0 0) with (@nil Server). rewrite take_nil. constructor. }
    subst all. rewrite rows_cons, take_app.
    assert (length keys = length (row (racks_of servers) 0)) as Hk by (by rewrite <- Hrow, length_fmap).
    destruct (decide (n ≤ length keys)) as [Hle|Hgt].
    + left. replace (n - _) with 0 by lia. rewrite take_0, app_nil_r.
      rewrite <- Hrow, <- (take_drop n (row (racks_of servers) 0)), fmap_app in Hkeys. by apply NoDup_app in Hkeys as [? _].
    + right. intros s Hs. rewrite fmap_app. apply elem_of_app. left. rewrite take_ge by lia.
      rewrite Hrow. auto.
Qed.

(** C37. The servers selected for a block: as many as asked for when there are
    that many, all of them candidates and none twice; and a rack is used a
    second time only when every rack holds a selected server. The selection
    loop always ends. *)
Theorem select_servers_spread servers n :
  NoDup servers.*1 →
  ∃ chosen : list Server,
    select_servers_rack_aware servers n = chosen.*1 ∧ NoDup chosen.*1 ∧ chosen ⊆ servers ∧
    length chosen = min n (length servers) ∧
    (NoDup (rack_key <$> chosen) ∨ ∀ s, s ∈ servers → rack_key s ∈ rack_key <$> chosen).
Proof. apply select_spread. Qed.

End select.

Definition demo_servers : list Server :=
  [("a:1", mkChunkServerStatus 0 0 100 0 "r1"); ("b:1", mkChunkServerStatus 0 0 90 0 "r1");
   ("c:1", mkChunkServerStatus 0 0 80 0 "r2"); ("d:1", mkChunkServerStatus 0 0 70 0 "")].

Lemma select_servers_spread_witness :
  select_servers_rack_aware (H := map_order) demo_servers 3 = ["a:1"; "c:1"; "d:1"] ∧
  ∃ chosen : list Server,
    select_servers_rack_aware (H := map_order) demo_servers 3 = chosen.*1 ∧ NoDup chosen.*1 ∧
    chosen ⊆ demo_servers ∧ length chosen = 3 ∧
    (NoDup (rack_key <$> chosen) ∨ ∀ s, s ∈ demo_servers → rack_key s ∈ rack_key <$> chosen).
Proof.
  split; [vm_compute; reflexivity|].
  apply (@select_servers_spread map_order demo_servers 3).
  apply (bool_decide_unpack _). vm_compute. exact I.
Defined.
