(* ===== verification/Healing.v ===== *)
(** * Chunk servers: healing, heartbeats and liveness

    dfs/metaserver/src/master.rs: the healer that repairs under-replicated and
    erasure-coded blocks, chunk-server registration and heartbeats, and one
    interval of the liveness checker, the periodic healer and the block
    balancer. Commands for chunk servers wait in [pending_commands] until the
    next heartbeat of the server they are for. *)

From S2P Require Import Prelude BTree Sharding MasterState AppState.

(** ** Chunk-server commands *)

(** `pending_commands.entry(addr).or_default().push(command)`. *)
Definition push_command (addr : string) (c : ChunkServerCommand) (s : MasterState) : MasterState :=
  s <| pending_commands := <[addr := default [] (pending_commands s !! addr) ++ [c]]> (pending_commands s) |>.

(** REPLICATE. [src/dfs/metaserver/src/master.rs:581-591 heal_under_replicated_blocks] *)
Definition replicate_command (bid target : string) : ChunkServerCommand :=
  mkChunkServerCommand 1 bid target (-1) 0 0 [] 0 0.

(** RECONSTRUCT_EC_SHARD.
    [src/dfs/metaserver/src/master.rs:521-531 heal_under_replicated_blocks] *)
Definition reconstruct_command (block : BlockInfo) (target : string) (shard_idx : nat)
    (sources : list string) : ChunkServerCommand :=
  mkChunkServerCommand 3 (block_id block) target (Z.of_nat shard_idx) (block_ec_data_shards block)
    (block_ec_parity_shards block) sources (original_size block) 0.

(** ** Healing *)

Section heal.
Context `{HashOrder}.

Definition live (s : MasterState) (addr : string) : bool := bool_decide (is_Some (chunk_servers s !! addr)).

(** i32 addition and the conversion to usize, in the release build. *)
Definition wrap_i32 (z : Z) : Z := ((z + 2 ^ 31) `mod` 2 ^ 32 - 2 ^ 31)%Z.
Definition as_usize (z : Z) : Z := (z `mod` 2 ^ 64)%Z.

(** Live address or the empty string.
    [src/dfs/metaserver/src/master.rs:505-515 heal_under_replicated_blocks] *)
Definition shard_sources (s : MasterState) (block : BlockInfo) : list string :=
  (λ l, if live s l then l else "") <$> locations block.

(** The loop over the shards of a block; `break` when it is unrecoverable.
    [src/dfs/metaserver/src/master.rs:471-538 heal_under_replicated_blocks] *)
Fixpoint heal_shards (live_servers : list string) (block : BlockInfo) (live_count : nat) (k : Z)
    (shard_idx : nat) (locs : list string) (s : MasterState) : MasterState :=
  match locs with
  | [] => s
  | loc :: locs =>
      if live s loc then heal_shards live_servers block live_count k (S shard_idx) locs s
      else if (Z.of_nat live_count <? k)%Z then s
      else
        match List.find (λ a, bool_decide (a ∉ locations block)) live_servers with
        | Some target =>
            heal_shards live_servers block live_count k (S shard_idx) locs
              (push_command target (reconstruct_command block target shard_idx (shard_sources s block)) s)
        | None => heal_shards live_servers block live_count k (S shard_idx) locs s
        end
  end.

(** [src/dfs/metaserver/src/master.rs:446-538 heal_under_replicated_blocks] *)
Definition heal_ec_block (live_servers : list string) (block : BlockInfo) (s : MasterState) : MasterState :=
  let k := as_usize (block_ec_data_shards block) in
  let total := as_usize (wrap_i32 (block_ec_data_shards block + block_ec_parity_shards block)) in
  if negb (Z.of_nat (length (locations block)) =? total)%Z then s
  else
    let live_count := length (filter (λ l, live s l = true) (locations block)) in
    heal_shards live_servers block live_count k 0 (locations block) s.

(** Replicas on live servers that are not known to be bad.
    [src/dfs/metaserver/src/master.rs:541-552 heal_under_replicated_blocks] *)
Definition live_locs (s : MasterState) (block : BlockInfo) : list string :=
  let bad_on := default ∅ (bad_block_locations s !! block_id block) in
  filter (λ loc, live s loc = true ∧ loc ∉ bad_on) (locations block).

(** [src/dfs/metaserver/src/master.rs:554-574 heal_under_replicated_blocks] *)
Definition heal_targets (live_servers : list string) (s : MasterState) (block : BlockInfo) : list string :=
  take (3 - length (live_locs s block)) (filter (.∉ locations block) live_servers).

(** [src/dfs/metaserver/src/master.rs:539-599 heal_under_replicated_blocks] *)
Definition heal_replicated_block (live_servers : list string) (block : BlockInfo) (s : MasterState)
  : MasterState :=
  if 3 - length (live_locs s block) =? 0 then s
  else
    match live_locs s block with
    | [] => s
    | source :: _ =>
        foldl (λ s target, push_command source (replicate_command (block_id block) target) s) s
          (heal_targets live_servers s block)
    end.

(** [src/dfs/metaserver/src/master.rs:445-600 heal_under_replicated_blocks] *)
Definition heal_block (live_servers : list string) (s : MasterState) (block : BlockInfo) : MasterState :=
  if (0 <? block_ec_data_shards block)%Z then heal_ec_block live_servers block s
  else heal_replicated_block live_servers block s.

(** [src/dfs/metaserver/src/master.rs:436-602 heal_under_replicated_blocks] *)
Definition heal_under_replicated_blocks (s : MasterState) : MasterState :=
  let live_servers := (entries (chunk_servers s)).*1 in
  match live_servers with
  | [] => s
  | _ =>
      foldl (λ s file, foldl (heal_block live_servers) s (blocks file)) s (entries (files s)).*2
  end.

(** *** What healing does to the state *)

(** [s'] is [s] with commands that satisfy [R] appended to the queues. *)
Definition queued (R : string → ChunkServerCommand → Prop) (s s' : MasterState) : Prop :=
  s' = s <| pending_commands := pending_commands s' |> ∧
  ∀ a, ∃ new, default [] (pending_commands s' !! a) = default [] (pending_commands s !! a) ++ new ∧
    Forall (R a) new.

Lemma queued_refl R s : queued R s s.
Proof. split; [by destruct s|]. intros a. exists []. by rewrite app_nil_r. Qed.

Lemma queued_trans R s1 s2 s3 : queued R s1 s2 → queued R s2 s3 → queued R s1 s3.
Proof.
  intros [E1 H1] [E2 H2]. split; [rewrite E2 at 1; rewrite E1 at 1; done|]. intros a.
  destruct (H1 a) as (n1 & Ea & ?), (H2 a) as (n2 & -> & ?).
  exists (n1 ++ n2). rewrite Ea, app_assoc. split; [done|]. by apply Forall_app.
Qed.

Lemma push_queued R a c s : R a c → queued R s (push_command a c s).
Proof.
  intros Hc. split; [by destruct s|]. intros b. simpl. destruct (decide (a = b)) as [->|Hab].
  - exists [c]. rewrite lookup_insert_eq. auto.
  - exists []. rewrite lookup_insert_ne by done. by rewrite app_nil_r.
Qed.

Lemma foldl_queued {A} R (f : MasterState → A → MasterState) s0 l s :
  (∀ s x, x ∈ l → queued R s0 s → queued R s (f s x)) → queued R s0 s → queued R s0 (foldl f s l).
Proof.
  revert s. induction l as [|x l IH]; intros s Hf Hs; simpl; [done|].
  apply IH; [intros; apply Hf; [by right|done]|]. eapply queued_trans; [done|]. apply Hf; [by left|done].
Qed.

(** The parts of the state that healing reads stay as they are. *)
Lemma queued_reads R s s' :
  queued R s s' →
  live s' = live s ∧ (∀ b, live_locs s' b = live_locs s b) ∧ (∀ b, shard_sources s' b = shard_sources s b).
Proof. intros [E _]. rewrite E. done. Qed.

(** The replicas that count: on a registered server and not reported corrupt. *)
Definition good_replica (s : MasterState) (block : BlockInfo) (a : string) : Prop :=
  is_Some (chunk_servers s !! a) ∧ a ∉ default ∅ (bad_block_locations s !! block_id block).

#[export] Instance good_replica_dec s block a : Decision (good_replica s block a).
Proof. unfold good_replica. apply _. Defined.

Lemma live_locs_good s block : live_locs s block = filter (good_replica s block) (locations block).
Proof.
  unfold live_locs, good_replica, live. apply list_filter_iff. intros a. by rewrite bool_decide_eq_true.
Qed.

(** What a command of the healer promises, in terms of the state it was made in. *)
Definition replication_ok (s : MasterState) (block : BlockInfo) (a : string) (c : ChunkServerCommand) : Prop :=
  cmd_type c = 1%Z ∧ a ∈ locations block ∧ good_replica s block a ∧
  length (filter (good_replica s block) (locations block)) < 3 ∧
  live s (target_chunk_server_address c) = true ∧ target_chunk_server_address c ∉ locations block.

Definition reconstruction_ok (s : MasterState) (block : BlockInfo) (a : string) (c : ChunkServerCommand)
  : Prop :=
  cmd_type c = 3%Z ∧ target_chunk_server_address c = a ∧ live s a = true ∧ a ∉ locations block ∧
  (∃ i loc, shard_index c = Z.of_nat i ∧ locations block !! i = Some loc ∧ live s loc = false) ∧
  (as_usize (block_ec_data_shards block) ≤ Z.of_nat (length (filter (λ l, live s l = true) (locations block))))%Z ∧
  cmd_ec_data_shards c = block_ec_data_shards block ∧ cmd_ec_parity_shards c = block_ec_parity_shards block ∧
  ec_shard_sources c = shard_sources s block.

Definition command_for (s : MasterState) (block : BlockInfo) (a : string) (c : ChunkServerCommand) : Prop :=
  cmd_block_id c = block_id block ∧ (replication_ok s block a c ∨ reconstruction_ok s block a c).

(** The reconstructions of one block all go to the same server. *)
Lemma heal_shards_one_target live_servers block n k i locs s a c :
  c ∈ default [] (pending_commands (heal_shards live_servers block n k i locs s) !! a) →
  c ∈ default [] (pending_commands s !! a) ∨
  Some a = List.find (λ a, bool_decide (a ∉ locations block)) live_servers.
Proof.
  revert i s. induction locs as [|loc locs IH]; intros i s; simpl; [auto|].
  destruct (live s loc); [apply IH|]. case_if; [auto|].
  destruct (List.find _ live_servers) as [t|] eqn:Hf; [|apply IH].
  intros [Hc|Hc]%IH; [|auto]. simpl in Hc. destruct (decide (t = a)) as [->|Hne]; [auto|].
  rewrite lookup_insert_ne in Hc by done. auto.
Qed.

Section block.
  Context (s0 : MasterState) (live_servers : list string) (block : BlockInfo).
  Context (live_ok : ∀ a, a ∈ live_servers → live s0 a = true).

Lemma heal_shards_queued n k i locs s :
  (∀ j loc, locs !! j = Some loc → locations block !! (i + j) = Some loc) →
  n = length (filter (λ l, live s0 l = true) (locations block)) →
  k = as_usize (block_ec_data_shards block) →
  queued (command_for s0 block) s0 s →
  queued (command_for s0 block) s (heal_shards live_servers block n k i locs s).
Proof.
  intros Hlocs -> ->. revert i s Hlocs. induction locs as [|loc locs IH]; intros i s Hlocs Hs; simpl.
  { apply queued_refl. }
  assert (∀ j l, locs !! j = Some l → locations block !! (S i + j) = Some l) as Hnext.
  { intros j l Hj. replace (S i + j) with (i + S j) by lia. by apply Hlocs. }
  destruct (queued_reads _ _ _ Hs) as (El & _ & Es). rewrite El, Es.
  destruct (live s0 loc) eqn:Hloc; [by apply IH|].
  case_if; [apply queued_refl|]. apply Z.ltb_ge in Hif.
  destruct (List.find _ live_servers) as [target|] eqn:Hfind; [|by apply IH].
  apply List.find_some in Hfind as [Hin Hnot%bool_decide_eq_true]. apply list_elem_of_In in Hin.
  assert (queued (command_for s0 block) s (push_command target
    (reconstruct_command block target i (shard_sources s0 block)) s)) as Hpush.
  { apply push_queued. split; [done|]. right. split_and!; try done; [by apply live_ok|].
    exists i, loc. split; [done|]. split; [|done]. rewrite <- (Nat.add_0_r i). by apply Hlocs. }
  eapply queued_trans; [exact Hpush|]. apply IH; [done|]. by eapply queued_trans.
Qed.

Lemma heal_block_queued s :
  queued (command_for s0 block) s0 s →
  queued (command_for s0 block) s (heal_block live_servers s block).
Proof.
  intros Hs. destruct (queued_reads _ _ _ Hs) as (El & Eb & _). unfold heal_block. case_if.
  - unfold heal_ec_block. case_if; [apply queued_refl|]. rewrite El.
    by apply heal_shards_queued.
  - unfold heal_replicated_block, heal_targets. rewrite !Eb. case_if; [apply queued_refl|].
    destruct (live_locs s0 block) as [|source rest] eqn:Hl; [apply queued_refl|].
    apply (foldl_queued _ _ s); [|apply queued_refl].
    intros s1 target Ht _. apply push_queued. split; [done|]. left.
    apply elem_of_take in Ht as (j & Hj & _). apply list_elem_of_lookup_2, list_elem_of_filter in Hj as [? Hin].
    apply Nat.eqb_neq in Hif0. pose proof (list_elem_of_here source rest) as Hs0.
    rewrite <- Hl, live_locs_good in Hs0. apply list_elem_of_filter in Hs0 as [Hgood Hloc].
    split_and!; try done; [rewrite <- live_locs_good, Hl; lia|by apply live_ok].
Qed.

End block.

Lemma queued_mono (R R' : string → ChunkServerCommand → Prop) s s' :
  (∀ a c, R a c → R' a c) → queued R s s' → queued R' s s'.
Proof.
  intros HR [? Hq]. split; [done|]. intros a. destruct (Hq a) as (new & ? & Hn).
  exists new. split; [done|]. eapply Forall_impl; eauto.
Qed.

Lemma live_entries s a : a ∈ (entries (chunk_servers s)).*1 ↔ live s a = true.
Proof.
  unfold live. rewrite bool_decide_eq_true, list_elem_of_fmap. split.
  - intros ([a' st] & -> & Hin). exists st. by apply elem_of_entries.
  - intros [st Hst]. exists (a, st). split; [done|]. by apply elem_of_entries.
Qed.

(** A command of the healer for some block of some file of [s]. *)
Definition heal_command (s : MasterState) (a : string) (c : ChunkServerCommand) : Prop :=
  ∃ p file block, files s !! p = Some file ∧ block ∈ blocks file ∧ command_for s block a c.

Lemma heal_block_ok s0 p file block s :
  files s0 !! p = Some file → block ∈ blocks file → queued (heal_command s0) s0 s →
  queued (heal_command s0) s (heal_block (entries (chunk_servers s0)).*1 s block).
Proof.
  intros Hp Hb [Hs _]. apply (queued_mono (command_for s0 block)); [unfold heal_command; eauto 10|].
  (* the commands already queued do not matter *)
  pose (s0' := s0 <| pending_commands := pending_commands s |>).
  change (command_for s0 block) with (command_for s0' block). rewrite Hs. fold s0'.
  apply heal_block_queued; [|apply queued_refl]. intros a Ha. by apply live_entries in Ha.
Qed.

Lemma heal_file_ok s0 p file s :
  files s0 !! p = Some file → queued (heal_command s0) s0 s →
  queued (heal_command s0) s (foldl (heal_block (entries (chunk_servers s0)).*1) s (blocks file)).
Proof.
  intros Hp Hs. apply (foldl_queued _ _ s); [|apply queued_refl].
  intros s2 block Hb Hs2. eapply heal_block_ok; [done|done|by eapply queued_trans].
Qed.

Lemma heal_any_file_ok s0 s file :
  file ∈ (entries (files s0)).*2 → queued (heal_command s0) s0 s →
  queued (heal_command s0) s (foldl (heal_block (entries (chunk_servers s0)).*1) s (blocks file)).
Proof.
  intros ([p file'] & -> & Hp)%list_elem_of_fmap. apply elem_of_entries in Hp. by eapply heal_file_ok.
Qed.

Lemma heal_ok s : queued (heal_command s) s (heal_under_replicated_blocks s).
Proof.
  unfold heal_under_replicated_blocks. destruct (entries (chunk_servers s)).*1 eqn:E; [apply queued_refl|].
  rewrite <- E. apply foldl_queued; [|apply queued_refl]. intros. by apply heal_any_file_ok.
Qed.

(** Healing only queues commands, and only useful ones: a replication of a
    block with fewer than three good replicas goes to a server that holds a
    good replica and names a live server without one; a reconstruction goes to
    a live server without a shard, for a shard whose server is gone, when
    enough shards are left. *)
Theorem heal_commands_sound s :
  let s' := heal_under_replicated_blocks s in
  s' = s <| pending_commands := pending_commands s' |> ∧
  ∀ a, ∃ new,
    default [] (pending_commands s' !! a) = default [] (pending_commands s !! a) ++ new ∧
    Forall (heal_command s a) new.
Proof. apply heal_ok. Qed.

(** *** Enough replicas are scheduled *)

Definition pending (s : MasterState) (a : string) : list ChunkServerCommand :=
  default [] (pending_commands s !! a).

Lemma queued_pending R s s' a c : queued R s s' → c ∈ pending s a → c ∈ pending s' a.
Proof. intros [_ Hq] Hc. unfold pending. destruct (Hq a) as (new & -> & _). apply elem_of_app. by left. Qed.

Lemma push_all_pending source bid targets s t :
  t ∈ targets →
  replicate_command bid t ∈
    pending (foldl (λ s t, push_command source (replicate_command bid t) s) s targets) source.
Proof.
  revert s. induction targets as [|t' targets IH]; intros s; [by intros ?%not_elem_of_nil|].
  intros [->|Ht]%elem_of_cons; simpl; [|by apply IH].
  eapply (queued_pending (λ _ _, True)).
  - apply (foldl_queued _ _ (push_command source (replicate_command bid t') s)); [|apply queued_refl].
    intros. by apply push_queued.
  - unfold pending. simpl. rewrite lookup_insert_eq. simpl. set_solver.
Qed.

(** The queue after healing the blocks of [l], one of them [block]. *)
Lemma foldl_pending {A} R (f : MasterState → A → MasterState) s0 l x s a c :
  (∀ s x, x ∈ l → queued R s0 s → queued R s (f s x)) → queued R s0 s → x ∈ l →
  (∀ s, queued R s0 s → c ∈ pending (f s x) a) → c ∈ pending (foldl f s l) a.
Proof.
  intros Hf Hs [l1 [l2 ->]]%list_elem_of_split Hx. rewrite foldl_app. simpl.
  assert (queued R s0 (foldl f s l1)) as H1.
  { apply foldl_queued; [|done]. intros. apply Hf; [apply elem_of_app; by left|done]. }
  eapply queued_pending; [|by apply Hx].
  apply (foldl_queued _ _ (f (foldl f s l1) x)); [|apply queued_refl].
  intros s1 y Hy Hs1. apply Hf; [set_solver|]. eapply queued_trans; [exact H1|].
  eapply queued_trans; [|exact Hs1]. apply Hf; [set_solver|done].
Qed.

Lemma block_pending servers block s source rest t :
  (block_ec_data_shards block ≤ 0)%Z → live_locs s block = source :: rest →
  t ∈ heal_targets servers s block →
  replicate_command (block_id block) t ∈ pending (heal_block servers s block) source.
Proof.
  intros Hec Hl Ht. unfold heal_block. rewrite (proj2 (Z.ltb_ge _ _)) by done.
  unfold heal_replicated_block. case_if.
  - apply Nat.eqb_eq in Hif. unfold heal_targets in Ht. rewrite Hif, take_0 in Ht.
    by apply not_elem_of_nil in Ht.
  - rewrite Hl. by apply push_all_pending.
Qed.

Lemma heal_enough s p file block source rest :
  files s !! p = Some file → block ∈ blocks file → (block_ec_data_shards block ≤ 0)%Z →
  live_locs s block = source :: rest →
  ∃ targets, NoDup targets ∧
    length targets = min (3 - length (live_locs s block))
      (size (dom (chunk_servers s) ∖ list_to_set (locations block))) ∧
    ∀ t, t ∈ targets → t ∉ locations block ∧ is_Some (chunk_servers s !! t) ∧
      replicate_command (block_id block) t ∈ pending (heal_under_replicated_blocks s) source.
Proof.
  intros Hp Hb Hec Hlive. set (servers := (entries (chunk_servers s)).*1).
  assert (NoDup (filter (.∉ locations block) servers)) as Hnd by apply NoDup_filter, NoDup_entries.
  exists (heal_targets servers s block). unfold heal_targets. split_and!.
  - rewrite <- (take_drop (3 - length (live_locs s block))) in Hnd. by apply NoDup_app in Hnd as [? _].
  - rewrite length_take. f_equal. rewrite <- (size_list_to_set (C := gset string)) by done. f_equal.
    apply set_eq. intros a. rewrite elem_of_list_to_set, list_elem_of_filter, elem_of_difference,
      elem_of_dom, elem_of_list_to_set. unfold servers. rewrite live_entries. unfold live.
    rewrite bool_decide_eq_true. naive_solver.
  - intros t Ht. pose proof Ht as Ht'. apply elem_of_take in Ht' as (j & Hj & _).
    apply list_elem_of_lookup_2, list_elem_of_filter in Hj as [Hn Hin].
    unfold servers in Hin. rewrite live_entries in Hin. unfold live in Hin. apply bool_decide_eq_true in Hin.
    split_and!; [done|done|]. unfold heal_under_replicated_blocks. fold servers.
    destruct servers as [|a0 as0] eqn:Es; [by rewrite filter_nil, take_nil in Ht; apply not_elem_of_nil in Ht|].
    rewrite <- Es in *. clear Es.
    apply (foldl_pending (heal_command s) _ s _ file);
      [intros; by apply heal_any_file_ok|apply queued_refl| |].
    { apply list_elem_of_fmap. exists (p, file). split; [done|]. by apply elem_of_entries. }
    intros s1 Hs1. apply (foldl_pending (heal_command s) _ s _ block);
      [intros; by eapply heal_block_ok|done|done|].
    intros s2 Hs2. destruct (queued_reads _ _ _ Hs2) as (_ & El & _).
    apply (block_pending _ _ _ _ rest); [done|by rewrite El|]. unfold heal_targets. by rewrite El.
Qed.

(** *** Lost shards are scheduled *)

Lemma heal_shards_keeps live_servers block n k i locs s a c :
  c ∈ pending s a → c ∈ pending (heal_shards live_servers block n k i locs s) a.
Proof.
  revert i s. induction locs as [|loc locs IH]; intros i s Hc; simpl; [done|]. repeat case_match; auto.
  apply IH. eapply (queued_pending (λ _ _, True)); [by apply push_queued|done].
Qed.

Lemma shards_pending live_servers block n k target locs :
  List.find (λ a, bool_decide (a ∉ locations block)) live_servers = Some target → (k ≤ Z.of_nat n)%Z →
  ∀ i s j loc, locs !! j = Some loc → live s loc = false →
  reconstruct_command block target (i + j) (shard_sources s block) ∈
    pending (heal_shards live_servers block n k i locs s) target.
Proof.
  intros Hfind Hk. induction locs as [|l locs IH]; intros i s j loc Hj Hloc; [done|]. simpl. rewrite Hfind.
  rewrite (proj2 (Z.ltb_ge _ _)) by done. destruct j as [|j]; simpl in Hj.
  - injection Hj as ->. rewrite Hloc, Nat.add_0_r. apply heal_shards_keeps. unfold pending. simpl.
    rewrite lookup_insert_eq. simpl. set_solver.
  - replace (i + S j) with (S i + j) by lia. destruct (live s l); [by eapply IH|].
    apply (IH (S i) (push_command target (reconstruct_command block target i (shard_sources s block)) s) j loc Hj Hloc).
Qed.

Lemma heal_reconstructs s p file block i loc spare :
  files s !! p = Some file → block ∈ blocks file → (0 < block_ec_data_shards block)%Z →
  Z.of_nat (length (locations block)) = as_usize (wrap_i32 (block_ec_data_shards block + block_ec_parity_shards block)) →
  (as_usize (block_ec_data_shards block) ≤ Z.of_nat (length (filter (λ l, live s l = true) (locations block))))%Z →
  locations block !! i = Some loc → live s loc = false → live s spare = true → spare ∉ locations block →
  ∃ target, live s target = true ∧ target ∉ locations block ∧
    reconstruct_command block target i (shard_sources s block) ∈ pending (heal_under_replicated_blocks s) target.
Proof.
  intros Hp Hb Hec Htotal Hk Hi Hloc Hspare Hout. set (servers := (entries (chunk_servers s)).*1).
  pose proof Hspare as Hin. rewrite <- live_entries in Hin. fold servers in Hin.
  destruct (List.find (λ a, bool_decide (a ∉ locations block)) servers) as [target|] eqn:Hfind.
  2: { apply List.find_none with (x := spare) in Hfind; [|by apply list_elem_of_In].
       by apply bool_decide_eq_false in Hfind. }
  pose proof Hfind as [Ht Hn%bool_decide_eq_true]%List.find_some. apply list_elem_of_In in Ht.
  exists target. split; [by apply live_entries|]. split; [done|].
  unfold heal_under_replicated_blocks. fold servers.
  destruct servers as [|a0 as0] eqn:Es; [done|]. rewrite <- Es in *. clear Es.
  apply (foldl_pending (heal_command s) _ s _ file); [intros; by apply heal_any_file_ok|apply queued_refl| |].
  { apply list_elem_of_fmap. exists (p, file). split; [done|]. by apply elem_of_entries. }
  intros s1 Hs1. apply (foldl_pending (heal_command s) _ s _ block); [intros; by eapply heal_block_ok|done|done|].
  intros s2 Hs2. destruct (queued_reads _ _ _ Hs2) as (El & _ & Es2).
  unfold heal_block, heal_ec_block. rewrite (proj2 (Z.ltb_lt _ _)) by done. rewrite (proj2 (Z.eqb_eq _ _)) by done. simpl.
  rewrite <- (Es2 block), El. apply (shards_pending _ _ _ _ _ (locations block) Hfind Hk 0 s2 i loc Hi). by rewrite El.
Qed.

(** Healing schedules enough: for a block with a good replica but fewer than
    three, the server of the first good replica is told to copy it to as many
    distinct new servers as are missing, or to all there are. *)
Theorem heal_schedules_enough s p file block source rest :
  files s !! p = Some file → block ∈ blocks file → (block_ec_data_shards block ≤ 0)%Z →
  live_locs s block = source :: rest →
  ∃ targets, NoDup targets ∧
    length targets = min (3 - length (live_locs s block))
      (size (dom (chunk_servers s) ∖ list_to_set (locations block))) ∧
    ∀ t, t ∈ targets → t ∉ locations block ∧ is_Some (chunk_servers s !! t) ∧
      replicate_command (block_id block) t ∈ pending (heal_under_replicated_blocks s) source.
Proof. apply heal_enough. Qed.


(** ** Registration, heartbeats and liveness *)

(** [src/dfs/metaserver/src/master.rs:2562-2594 register_chunk_server] *)
Definition register_chunk_server (now : N) (address : string) (capacity : N) (rack : string) (a : AppState)
  : AppState :=
  match a with
  | AMaster s =>
      AMaster (s <| chunk_servers := <[address := mkChunkServerStatus now 0 capacity 0 rack]> (chunk_servers s) |>)
  | AConfig _ => a
  end.

(** [src/proto/dfs.proto:49-56 HeartbeatRequest] *)
Record HeartbeatRequest : Type := mkHeartbeat {
  hb_address : string;
  hb_used_space : N;
  hb_available_space : N;
  hb_chunk_count : N;
  hb_bad_blocks : list string;
  hb_rack_id : string;
}.

(** [src/dfs/metaserver/src/master.rs:2614-2634 heartbeat] *)
Definition record_heartbeat (now : N) (req : HeartbeatRequest) (s : MasterState) : MasterState :=
  let rack :=
    if decide (hb_rack_id req = "")
    then default "" (rack_id <$> chunk_servers s !! hb_address req) else hb_rack_id req in
  s <| chunk_servers := <[hb_address req :=
         mkChunkServerStatus now (hb_used_space req) (hb_available_space req) (hb_chunk_count req) rack]>
         (chunk_servers s) |>.

(** [src/dfs/metaserver/src/master.rs:2636-2644 heartbeat] *)
Definition report_in_safe_mode (now : N) (is_new_chunkserver : bool) (count : nat) (s : MasterState)
  : MasterState :=
  let s := if is_in_safe_mode s && is_new_chunkserver then update_reported_blocks now count s else s in
  if is_in_safe_mode s && should_exit_safe_mode now s then exit_safe_mode s else s.

(** [src/dfs/metaserver/src/master.rs:2653-2659 heartbeat] *)
Definition record_bad_blocks (address : string) (bad : list string) (s : MasterState) : MasterState :=
  foldl (λ s bid, s <| bad_block_locations :=
           <[bid := {[address]} ∪ default ∅ (bad_block_locations s !! bid)]> (bad_block_locations s) |>) s bad.

(** The commands, the term of the response and the state.
    [src/dfs/metaserver/src/master.rs:2596-2685 heartbeat] *)
Definition heartbeat (now term : N) (req : HeartbeatRequest) (a : AppState)
  : bool * list ChunkServerCommand * N * AppState :=
  match a with
  | AMaster s =>
      let is_new_chunkserver := negb (live s (hb_address req)) in
      let s := record_heartbeat now req s in
      let s := report_in_safe_mode now is_new_chunkserver (N.to_nat (hb_chunk_count req)) s in
      let s := match hb_bad_blocks req with
               | [] => s
               | bad => heal_under_replicated_blocks (record_bad_blocks (hb_address req) bad s)
               end in
      let commands := default [] (pending_commands s !! hb_address req) in
      let s := s <| pending_commands := delete (hb_address req) (pending_commands s) |> in
      (true, commands, term, AMaster s)
  | AConfig _ => (false, [], 0%N, a)
  end.

(** Servers silent for more than 15 seconds.
    [src/dfs/metaserver/src/master.rs:740-746 run_liveness_checker] *)
Definition dead_servers (now : N) (s : MasterState) : list string :=
  (filter (λ e, (15000 <? sub64 now (last_heartbeat e.2))%N = true) (entries (chunk_servers s))).*1.

(** One interval. [src/dfs/metaserver/src/master.rs:733-758 run_liveness_checker] *)
Definition liveness_check (now : N) (a : AppState) : AppState :=
  match a with
  | AMaster s =>
      let dead := dead_servers now s in
      let s := foldl (λ s addr, s <| chunk_servers := delete addr (chunk_servers s) |>
                                  <| pending_commands := delete addr (pending_commands s) |>) s dead in
      AMaster (match dead with [] => s | _ => heal_under_replicated_blocks s end)
  | AConfig _ => a
  end.

(** One interval. [src/dfs/metaserver/src/master.rs:768-773 run_periodic_healer] *)
Definition periodic_heal (a : AppState) : AppState :=
  match a with
  | AMaster s => AMaster (heal_under_replicated_blocks s)
  | AConfig _ => a
  end.

(** ** Balancing and shuffling *)

(** `ChunkServerCommand { type: 1, block_id, target_chunk_server_address, ..Default::default() }`.
    [src/dfs/metaserver/src/master.rs:822-827 run_block_balancer] *)
Definition move_command (bid target : string) : ChunkServerCommand :=
  mkChunkServerCommand 1 bid target 0 0 0 [] 0 0.

(** The first block of the files that is on [from] and not on [to].
    [src/dfs/metaserver/src/master.rs:808-819 run_block_balancer] *)
Definition block_to_move (fs : list FileMetadata) (from to : string) : option string :=
  block_id <$> List.find (λ b, bool_decide (from ∈ locations b) && bool_decide (to ∉ locations b))
    (mjoin (blocks <$> fs)).

(** Address and available space of every server. *)
Definition server_space (s : MasterState) : list (string * N) :=
  (λ e, (e.1, available_space e.2)) <$> entries (chunk_servers s).

(** One interval. [src/dfs/metaserver/src/master.rs:780-844 run_block_balancer] *)
Definition balance_blocks (a : AppState) : AppState :=
  match a with
  | AMaster s =>
      match sort_by (λ a b, (a.2 <=? b.2)%N) (server_space s) with
      | (most_full, min_avail) :: rest =>
          match last rest with
          | Some (least_full, max_avail) =>
              if ((min_avail <? max_avail) && (100 * 1024 * 1024 <? max_avail - min_avail))%N then
                match block_to_move (entries (files s)).*2 most_full least_full with
                | Some bid => AMaster (push_command most_full (move_command bid least_full) s)
                | None => a
                end
              else a
          | None => a
          end
      | [] => a
      end
  | AConfig _ => a
  end.

(** *** Silent servers are removed and replaced *)

Definition remove_server (s : MasterState) (addr : string) : MasterState :=
  s <| chunk_servers := delete addr (chunk_servers s) |>
    <| pending_commands := delete addr (pending_commands s) |>.

Definition silent (now : N) (st : ChunkServerStatus) : bool := (15000 <? sub64 now (last_heartbeat st))%N.

Lemma remove_servers_spec s l :
  let s' := foldl remove_server s l in
  s' = s <| chunk_servers := chunk_servers s' |> <| pending_commands := pending_commands s' |> ∧
  (∀ a, a ∈ l → chunk_servers s' !! a = None) ∧
  ∀ a, a ∉ l → chunk_servers s' !! a = chunk_servers s !! a.
Proof.
  revert s. induction l as [|x l IH]; intros s; simpl.
  { split; [by destruct s|]. split; [by intros ? ?%not_elem_of_nil|done]. }
  destruct (IH (remove_server s x)) as (E & Hin & Hout). split; [by rewrite E|]. split.
  - intros a Ha. destruct (decide (a ∈ l)); [by apply Hin|].
    apply elem_of_cons in Ha as [->|]; [|done]. rewrite Hout by done. simpl. apply lookup_delete_eq.
  - intros a [Hx Hl]%not_elem_of_cons. rewrite Hout by done. simpl. by rewrite lookup_delete_ne.
Qed.

Lemma elem_of_dead_servers now s a :
  a ∈ dead_servers now s ↔ ∃ st, chunk_servers s !! a = Some st ∧ silent now st = true.
Proof.
  unfold dead_servers, silent. rewrite list_elem_of_fmap. split.
  - intros ([a' st] & -> & [? ?%elem_of_entries]%list_elem_of_filter). eauto.
  - intros (st & Hst & Hs). exists (a, st). split; [done|]. apply list_elem_of_filter.
    split; [done|]. by apply elem_of_entries.
Qed.

(** The servers left by an interval of the liveness checker. *)
Lemma liveness_check_servers now s :
  ∃ s1 s2, liveness_check now (AMaster s) = AMaster s2 ∧
    s1 = s <| chunk_servers := chunk_servers s1 |> <| pending_commands := pending_commands s1 |> ∧
    (∀ a, chunk_servers s1 !! a = st ← chunk_servers s !! a; if silent now st then None else Some st) ∧
    chunk_servers s2 = chunk_servers s1 ∧
    (s2 = heal_under_replicated_blocks s1 ∨ dead_servers now s = []).
Proof.
  destruct (remove_servers_spec s (dead_servers now s)) as (E & Hin & Hout).
  set (s1 := foldl _ _ _) in *. simpl. change (foldl _ s (dead_servers now s)) with s1.
  exists s1. eexists. split; [done|]. split; [done|]. split_and!.
  - intros a. destruct (chunk_servers s !! a) as [st|] eqn:Ha; simpl.
    + destruct (silent now st) eqn:Hs; [apply Hin, elem_of_dead_servers; eauto|].
      rewrite Hout, Ha; [done|]. rewrite elem_of_dead_servers. intros (st' & ? & ?). congruence.
    + rewrite Hout, Ha; [done|]. rewrite elem_of_dead_servers. intros (st' & ? & ?). congruence.
  - destruct (dead_servers now s); [done|]. destruct (heal_ok s1) as [-> _]. done.
  - destruct (dead_servers now s); auto.
Qed.

(** The liveness checker removes exactly the chunk servers whose last
    heartbeat is more than fifteen seconds old, as long as the clock does not
    run behind a heartbeat. *)
Theorem liveness_removes_silent now s s' :
  liveness_check now (AMaster s) = AMaster s' → (now < u64_mod)%N →
  map_Forall (λ _ st, (last_heartbeat st ≤ now)%N) (chunk_servers s) →
  ∀ a st, chunk_servers s' !! a = Some st ↔
    chunk_servers s !! a = Some st ∧ (now ≤ last_heartbeat st + 15000)%N.
Proof.
  intros Hrun Hnow Hclock a st. destruct (liveness_check_servers now s) as (s1 & s2 & Hr & _ & Hs & E & _).
  rewrite Hr in Hrun. simplify_eq. rewrite E, Hs.
  destruct (chunk_servers s !! a) as [st'|] eqn:Ha; simpl; [|naive_solver].
  unfold silent. pose proof (Hclock _ _ Ha) as Hle. simpl in Hle. rewrite sub64_of_le by lia.
  destruct (15000 <? now - last_heartbeat st')%N eqn:Hb;
    [apply N.ltb_lt in Hb|apply N.ltb_ge in Hb]; (split; [intros [=]|intros [[=] ?]]; subst); try lia; done || (split; [done|lia]).
Qed.

(** A server whose heartbeat is ahead of the checker's clock counts as silent. *)
Lemma clock_behind_heartbeat now s a st :
  chunk_servers s !! a = Some st → (now < last_heartbeat st)%N → (last_heartbeat st + 15000 < u64_mod)%N →
  a ∈ dead_servers now s.
Proof.
  intros Ha Hlt Hmax. apply elem_of_dead_servers. exists st. split; [done|]. unfold silent, sub64.
  apply N.ltb_lt. rewrite N.mod_small by lia. lia.
Qed.

(** A heartbeat returns at least the commands that were queued. *)
Lemma heartbeat_returns now term req s c :
  c ∈ pending s (hb_address req) → c ∈ (heartbeat now term req (AMaster s)).1.1.2.
Proof.
  intros Hc. unfold heartbeat. cbn [fst snd]. set (s3 := report_in_safe_mode _ _ _ _).
  assert (pending_commands s3 = pending_commands s) as E3.
  { subst s3. unfold report_in_safe_mode, update_reported_blocks, exit_safe_mode. by repeat case_match. }
  assert (c ∈ pending s3 (hb_address req)) as Hc3 by (unfold pending; by rewrite E3).
  destruct (hb_bad_blocks req) as [|b bad]; [done|]. eapply (queued_pending _ _ _ _ _ (heal_ok _)).
  unfold record_bad_blocks. clearbody s3. generalize (b :: bad). clear -Hc3.
  intros l. revert s3 Hc3. induction l as [|x l IH]; intros s3 Hc3; simpl; [done|]. by apply IH.
Qed.

(** C27. A silent server is replaced: when a block has at most three replicas, one
    of them on a server that went silent and a good one on another, and some
    responsive server has none, the next interval of the liveness checker
    queues a replication that a responsive holder receives with its next
    heartbeat. *)
Theorem silent_server_is_replaced now s p file block d source t std sts stt :
  files s !! p = Some file → block ∈ blocks file → (block_ec_data_shards block ≤ 0)%Z →
  length (locations block) ≤ 3 →
  d ∈ locations block → chunk_servers s !! d = Some std → silent now std = true →
  source ∈ locations block → chunk_servers s !! source = Some sts → silent now sts = false →
  source ∉ default ∅ (bad_block_locations s !! block_id block) →
  t ∉ locations block → chunk_servers s !! t = Some stt → silent now stt = false →
  ∃ s' a, liveness_check now (AMaster s) = AMaster s' ∧ a ∈ live_locs s' block ∧
    ∀ now' term req, hb_address req = a →
      ∃ t', live s' t' = true ∧ t' ∉ locations block ∧
        replicate_command (block_id block) t' ∈ (heartbeat now' term req (AMaster s')).1.1.2.
Proof.
  intros Hp Hb Hec H3 Hd Hstd Hsd Hsrc Hsts Hss Hbad Ht Hstt Hst.
  destruct (liveness_check_servers now s) as (s1 & s2 & Hrun & E1 & Hs1 & _ & Hheal).
  assert (s2 = heal_under_replicated_blocks s1) as ->.
  { destruct Hheal as [|Hnil]; [done|]. assert (d ∈ dead_servers now s) as Hdd.
    { apply elem_of_dead_servers; eauto. } rewrite Hnil in Hdd. by apply not_elem_of_nil in Hdd. }
  assert (∀ a st, chunk_servers s !! a = Some st → live s1 a = negb (silent now st)) as Hlive.
  { intros a st Ha. unfold live. rewrite Hs1, Ha. simpl. by destruct (silent now st). }
  assert (source ∈ live_locs s1 block) as Hin.
  { unfold live_locs. apply list_elem_of_filter. rewrite (Hlive _ _ Hsts), Hss.
    split; [|done]. split; [done|]. by rewrite E1. }
  assert (length (live_locs s1 block) < 3) as Hlen.
  { enough (length (live_locs s1 block) < length (locations block)) by lia.
    apply (length_filter_lt _ _ d); [done|]. rewrite (Hlive _ _ Hstd), Hsd. by intros [? _]. }
  destruct (live_locs s1 block) as [|a rest] eqn:Hl; [by apply not_elem_of_nil in Hin|].
  destruct (heal_enough s1 p file block a rest) as (targets & _ & Hn & Hall); [by rewrite E1|done|done|done|].
  assert (t ∈ dom (chunk_servers s1) ∖ list_to_set (locations block)) as Htd.
  { apply elem_of_difference. rewrite elem_of_dom, elem_of_list_to_set, Hs1, Hstt. simpl.
    rewrite Hst. by split. }
  destruct targets as [|t' targets].
  { rewrite Hl in Hn. simpl in Hn, Hlen. assert (size (dom (chunk_servers s1) ∖ list_to_set (locations block)) ≠ 0); [|lia].
    apply size_non_empty_iff. set_solver. }
  destruct (Hall t') as (Hn' & Hlt & Hc); [apply list_elem_of_here|].
  destruct (queued_reads _ _ _ (heal_ok s1)) as (El & Ell & _).
  exists (heal_under_replicated_blocks s1), a. split; [done|]. split.
  - rewrite Ell, Hl. apply list_elem_of_here.
  - intros now' term req <-. exists t'. split_and!; [|done|by apply heartbeat_returns].
    rewrite El. by apply bool_decide_eq_true.
Qed.

End heal.

(** ** A cluster of four servers, one of them silent *)

Definition demo_block : BlockInfo := mkBlockInfo "b1" 10 ["cs1"; "cs2"; "cs3"] 0 0 0 10.
Definition demo_server (heard : N) (rack : string) : ChunkServerStatus := mkChunkServerStatus heard 0 100 0 rack.
Definition demo_cluster : MasterState :=
  master_default <| files := {["/f" := mkFileMetadata "/f" 10 [demo_block] "" 0 0 0 0 0 0]} |>
    <| chunk_servers := {["cs1" := demo_server 0 "r1"; "cs2" := demo_server 19000 "r2";
                          "cs3" := demo_server 18000 "r3"; "cs4" := demo_server 17000 "r4"]} |>.

Lemma heal_schedules_enough_witness :
  ∃ targets, NoDup targets ∧ length targets = 1 ∧
    ∀ t, t ∈ targets → t ∉ locations demo_block ∧ is_Some (chunk_servers demo_cluster !! t) ∧
      replicate_command "b1" t ∈ pending (heal_under_replicated_blocks (H := map_order)
        (demo_cluster <| bad_block_locations := {["b1" := {["cs2"]}]} |>)) "cs1".
Proof.
  set (s := demo_cluster <| bad_block_locations := {["b1" := {["cs2"]}]} |>).
  destruct (@heal_schedules_enough map_order s "/f" (mkFileMetadata "/f" 10 [demo_block] "" 0 0 0 0 0 0)
    demo_block "cs1" ["cs3"]) as (targets & Hnd & Hlen & Hall).
  - vm_compute; reflexivity.
  - apply list_elem_of_here.
  - simpl. lia.
  - vm_compute; reflexivity.
  - exists targets. split; [done|]. split; [rewrite Hlen; vm_compute; reflexivity|done].
Defined.

Lemma liveness_removes_silent_witness :
  ∃ s', liveness_check (H := map_order) 20000 (AMaster demo_cluster) = AMaster s' ∧
    ∀ a st, chunk_servers s' !! a = Some st ↔
      chunk_servers demo_cluster !! a = Some st ∧ (20000 ≤ last_heartbeat st + 15000)%N.
Proof.
  eexists. split; [reflexivity|].
  apply (@liveness_removes_silent map_order 20000 demo_cluster); [reflexivity|vm_compute; reflexivity|].
  apply (bool_decide_unpack _). vm_compute. exact I.
Defined.

Lemma silent_server_is_replaced_witness :
  ∃ s' a, liveness_check (H := map_order) 20000 (AMaster demo_cluster) = AMaster s' ∧
    a ∈ live_locs s' demo_block ∧
    ∀ now' term req, hb_address req = a →
      ∃ t', live s' t' = true ∧ t' ∉ locations demo_block ∧
        replicate_command "b1" t' ∈ (heartbeat (H := map_order) now' term req (AMaster s')).1.1.2.
Proof.
  apply (@silent_server_is_replaced map_order 20000 demo_cluster "/f"
    (mkFileMetadata "/f" 10 [demo_block] "" 0 0 0 0 0 0) demo_block "cs1" "cs2" "cs4"
    (demo_server 0 "r1") (demo_server 19000 "r2") (demo_server 17000 "r4"));
    try reflexivity; try (vm_compute; reflexivity); try (apply (bool_decide_unpack _); vm_compute; exact I).
  apply list_elem_of_here.
Defined.
