(* ===== verification/Monitor.v ===== *)
(** * Request rates

    dfs/metaserver/src/master.rs, [ThroughputMonitor]: requests are counted by
    the first component of their path; every five seconds the counts become
    smoothed rates, from which the split detector picks a hot prefix. *)

From Corelib Require Import SpecFloat.
From S2P Require Import Prelude MasterState Text.

(** The literals 0.3 and 0.7, and the operations used on rates. *)
Definition f64_0_3 : f64 := S754_finite false 5404319552844595 (-54).
Definition f64_0_7 : f64 := S754_finite false 6305039478318694 (-53).
Definition f64_mul : f64 → f64 → f64 := SFmul 53 1024.
Definition f64_add : f64 → f64 → f64 := SFadd 53 1024.
Definition f64_ltb : f64 → f64 → bool := SFltb.

(** [src/dfs/metaserver/src/master.rs:610-616 PrefixMetrics] *)
Record PrefixMetrics : Type := mkPrefixMetrics {
  rps : f64;
  bps : f64;
  last_count : N;
  last_bytes : N;
}.

(** [last_split_time] is the monotonic clock in seconds.
    [src/dfs/metaserver/src/master.rs:618-625 ThroughputMonitor] *)
Record ThroughputMonitor : Type := mkMonitor {
  metrics : gmap string PrefixMetrics;
  split_threshold_rps : f64;
  merge_threshold_rps : f64;
  split_cooldown_secs : N;
  last_split_time : N;
}.

Definition eta_monitor (m : ThroughputMonitor) : ThroughputMonitor :=
  mkMonitor (metrics m) (split_threshold_rps m) (merge_threshold_rps m) (split_cooldown_secs m)
    (last_split_time m).
#[global] Instance upd_metrics : Upd metrics := ltac:(upd_tac eta_monitor metrics).
#[global] Instance upd_last_split : Upd last_split_time := ltac:(upd_tac eta_monitor last_split_time).

(** `PrefixMetrics::default()`. *)
Definition no_requests : PrefixMetrics := mkPrefixMetrics (f64_of_N 0) (f64_of_N 0) 0 0.

(** [src/dfs/metaserver/src/master.rs:628-636 new] *)
Definition monitor_new (split_threshold merge_threshold : f64) (cooldown now : N) : ThroughputMonitor :=
  mkMonitor ∅ split_threshold merge_threshold cooldown (now - cooldown).

(** [src/dfs/metaserver/src/master.rs:647-654 get_path_prefix] *)
Definition get_path_prefix (p : string) : string :=
  match filter (.≠ "") (split_on "/" p) with
  | first :: _ => "/" +:+ first +:+ "/"
  | [] => "/"
  end.

(** [src/dfs/metaserver/src/master.rs:638-645 record_request] *)
Definition record_request (p : string) (bytes : N) (m : ThroughputMonitor) : ThroughputMonitor :=
  let prefix := get_path_prefix p in
  let entry := default no_requests (metrics m !! prefix) in
  m <| metrics := <[prefix := mkPrefixMetrics (rps entry) (bps entry) (wrap64 (last_count entry + 1))
                                (wrap64 (last_bytes entry + bytes))]> (metrics m) |>.

(** [src/dfs/metaserver/src/master.rs:658-674 decay_metrics] *)
Definition decay (m : PrefixMetrics) : PrefixMetrics :=
  let current_rps := f64_div (f64_of_N (last_count m)) (f64_of_N 5) in
  let current_bps := f64_div (f64_of_N (last_bytes m)) (f64_of_N 5) in
  mkPrefixMetrics (f64_add (f64_mul (rps m) f64_0_3) (f64_mul current_rps f64_0_7))
    (f64_add (f64_mul (bps m) f64_0_3) (f64_mul current_bps f64_0_7)) 0 0.

(** [src/dfs/metaserver/src/master.rs:656-675 decay_metrics] *)
Definition decay_metrics (m : ThroughputMonitor) : ThroughputMonitor := m <| metrics := decay <$> metrics m |>.

Section hot.
  Context `{HashOrder}.

(** [src/dfs/metaserver/src/master.rs:1567-1579 run_split_detector] *)
Definition hot_prefix (now : N) (m : ThroughputMonitor) : option (string * f64) :=
  if (split_cooldown_secs m <=? now - last_split_time m)%N then
    (λ e, (e.1, rps e.2)) <$> List.find (λ e, f64_ltb (split_threshold_rps m) (rps e.2)) (entries (metrics m))
  else None.

(** [src/dfs/metaserver/src/master.rs:1722-1725 run_split_detector] *)
Definition total_rps (m : ThroughputMonitor) : f64 :=
  foldl f64_add (f64_of_N 0) ((λ e, rps e.2) <$> entries (metrics m)).

End hot.

(** ** Counting *)

(** How many requests of a list fall under a prefix, as a reference. *)
Definition requests_under (prefix : string) (l : list (string * N)) : nat :=
  length (filter (λ r, get_path_prefix r.1 = prefix) l).

(** The counter of a prefix after any requests: the number of requests whose
    first path component it is, modulo 2^64, whatever the others are. *)
Lemma record_requests_count l m prefix :
  (last_count (default no_requests (metrics m !! prefix)) < u64_mod)%N →
  let m' := foldl (λ m r, record_request r.1 r.2 m) m l in
  last_count (default no_requests (metrics m' !! prefix)) =
  wrap64 (last_count (default no_requests (metrics m !! prefix)) + N.of_nat (requests_under prefix l)).
Proof.
  revert m. induction l as [|[p b] l IH]; intros m Hlt; simpl.
  { unfold wrap64. by rewrite N.add_0_r, N.mod_small. }
  assert (last_count (default no_requests (metrics (record_request p b m) !! prefix)) =
    if decide (get_path_prefix p = prefix)
    then wrap64 (last_count (default no_requests (metrics m !! prefix)) + 1)
    else last_count (default no_requests (metrics m !! prefix))) as E.
  { simpl. case_decide as Hp; [subst prefix; by rewrite lookup_insert_eq|by rewrite lookup_insert_ne]. }
  rewrite IH; rewrite E; clear E IH.
  - unfold requests_under. rewrite filter_cons. simpl. case_decide; simpl; [|done].
    unfold wrap64. rewrite N.Div0.add_mod_idemp_l. f_equal. lia.
  - case_decide; [|done]. unfold wrap64. by apply N.mod_lt.
Qed.
