(* ===== verification/Program.v ===== *)
(** * Request handlers as programs

    The handlers and background tasks of the servers, and the client library, are
    asynchronous: between two steps anything else may run. They are programs
    ([Prog]) over a signature of effects. [exec] runs a program against an
    environment that interferes between its steps and answers as it may; [run]
    is a deterministic, undisturbed execution. The effects of the metadata
    servers are [Effect]: critical sections on the shared state, commands
    submitted to Raft, calls of other servers, the clock. *)

From S2P Require Import Prelude BTree Sharding MasterState AppState ClusterConfig RaftNode Monitor.

(** ** Programs *)

Inductive Prog (E : Type → Type) (A : Type) : Type :=
  | Ret (a : A)
  | Vis {B : Type} (e : E B) (k : B → Prog E A).
Arguments Ret {E A} a.
Arguments Vis {E A B} e k.

Fixpoint prog_bind {E A B} (p : Prog E A) (k : A → Prog E B) : Prog E B :=
  match p with
  | Ret a => k a
  | Vis e k' => Vis e (λ b, prog_bind (k' b) k)
  end.

Definition perform {E B} (e : E B) : Prog E B := Vis e Ret.

Notation "'let*' x ':=' p 'in' k" := (prog_bind p (λ x, k))
  (at level 10, x name, p at level 200, k at level 200) : outcome_scope.
Notation "'do*' p 'in' k" := (prog_bind p (λ _, k))
  (at level 10, p at level 200, k at level 200) : outcome_scope.

(** `?`: an error ends the program. *)
Definition try {E X A B} (p : Prog E (A + X)) (k : A → Prog E (B + X)) : Prog E (B + X) :=
  let* r := p in
  match r with inl a => k a | inr e => Ret (inr e) end.

Notation "'let?' x ':=' p 'in' k" := (try p (λ x, k))
  (at level 10, x name, p at level 200, k at level 200) : outcome_scope.
Notation "'do?' p 'in' k" := (try p (λ _, k))
  (at level 10, p at level 200, k at level 200) : outcome_scope.

Definition reply {E X A} (a : A) : Prog E (A + X) := Ret (inl a).
Definition fail {E X A} (e : X) : Prog E (A + X) := Ret (inr e).

Fixpoint for_each {E A} (l : list A) (body : A → Prog E unit) : Prog E unit :=
  match l with
  | [] => Ret tt
  | x :: l => do* body x in for_each l body
  end.

(** ** Execution *)

Section exec.
  Context {E : Type → Type} {W : Type}.
  (** What one effect may answer and do; what others may do in between. *)
  Context (performs : ∀ B, E B → W → B → W → Prop) (I : W → W → Prop).

Fixpoint exec {A} (p : Prog E A) (w : W) (a : A) (w' : W) : Prop :=
  match p with
  | Ret a' => a = a' ∧ w' = w
  | Vis e k => ∃ w1 b w2, I w w1 ∧ performs _ e w1 b w2 ∧ exec (k b) w2 a w'
  end.

Lemma exec_bind {A B} (p : Prog E A) (k : A → Prog E B) w b w' :
  exec (prog_bind p k) w b w' ↔ ∃ a w1, exec p w a w1 ∧ exec (k a) w1 b w'.
Proof.
  revert w. induction p as [a'|C e k' IH]; intros w; simpl; [naive_solver|]. split.
  - intros (w1 & c & w2 & HI & He & Hk). apply IH in Hk as (a & w3 & ? & ?). eauto 10.
  - intros (a & w3 & (w1 & c & w2 & HI & He & Hk) & ?). exists w1, c, w2. split_and!; [done..|].
    apply IH. eauto.
Qed.

Lemma exec_try {X A B} (p : Prog E (A + X)) (k : A → Prog E (B + X)) w r w' :
  exec (try p k) w r w' →
  ∃ ra w1, exec p w ra w1 ∧
    match ra with inl a => exec (k a) w1 r w' | inr e => r = inr e ∧ w' = w1 end.
Proof. intros (ra & w1 & ? & Hk)%exec_bind. exists ra, w1. split; [done|]. by destruct ra. Qed.

End exec.

Section run.
  Context {E : Type → Type} {W : Type} (step : ∀ B, E B → W → B * W).

Fixpoint run {A} (p : Prog E A) (w : W) : A * W :=
  match p with
  | Ret a => (a, w)
  | Vis e k => let '(b, w) := step _ e w in run (k b) w
  end.

Lemma run_bind {A B} (p : Prog E A) (k : A → Prog E B) w :
  run (prog_bind p k) w = let '(a, w1) := run p w in run (k a) w1.
Proof.
  revert w. induction p as [a'|C e k' IH]; intros w; simpl; [done|].
  destruct (step C e w) as [c w1]. apply IH.
Qed.

Lemma run_try {X A B} (p : Prog E (A + X)) (k : A → Prog E (B + X)) w :
  run (try p k) w =
  match run p w with (inl a, w1) => run (k a) w1 | (inr e, w1) => (inr e, w1) end.
Proof. unfold try. rewrite run_bind. by destruct (run p w) as [[a|e] w1]. Qed.

Lemma run_for_each {A} (l : list A) (body : A → Prog E unit) w :
  run (for_each l body) w = (tt, foldl (λ w x, (run (body x) w).2) w l).
Proof.
  revert w. induction l as [|x l IH]; intros w; simpl; [done|]. rewrite run_bind.
  destruct (run (body x) w) as [[] w1]. apply IH.
Qed.

(** The undisturbed execution is one of the executions. *)
Lemma run_exec (performs : ∀ B, E B → W → B → W → Prop) (I : W → W → Prop) {A} (p : Prog E A) w :
  (∀ w, I w w) → (∀ B e w, performs B e w (step B e w).1 (step B e w).2) →
  exec performs I p w (run p w).1 (run p w).2.
Proof.
  intros HI Hstep. revert w. induction p as [a'|C e k IH]; intros w; simpl; [done|].
  destruct (step C e w) as [c w1] eqn:He. exists w, c, w1.
  split; [done|]. split; [|apply IH]. pose proof (Hstep C e w) as Hs. by rewrite He in Hs.
Qed.

(** The only execution of a deterministic environment. *)
Lemma exec_run (performs : ∀ B, E B → W → B → W → Prop) (I : W → W → Prop) {A} (p : Prog E A) w a w' :
  (∀ w1 w2, I w1 w2 → w1 = w2) → (∀ B e w b w', performs B e w b w' → (b, w') = step B e w) →
  exec performs I p w a w' → (a, w') = run p w.
Proof.
  intros HI Hstep. revert w. induction p as [a'|C e k IH]; intros w; simpl; [by intros [-> ->]|].
  intros (w1 & b & w2 & <-%HI & He%Hstep & Hk). rewrite <- He. by apply IH.
Qed.

End run.

(** ** Results *)

(** `tonic::Status`, by its code. *)
Inductive Status : Type :=
  | Internal (message : string)
  | FailedPrecondition (message : string)
  | OutOfRange (message : string)
  | Unavailable (message : string)
  | NotFound (message : string).

(** The message type of most responses: success, error message, leader hint. *)
Record Response : Type := mkResponse {
  success : bool;
  error_message : string;
  leader_hint : string;
}.

Definition accepted : Response := mkResponse true "" "".
Definition not_leader (hint : option string) : Response := mkResponse false "Not Leader" (default "" hint).

(** How a question to the Raft node ends. *)
Inductive Answer (A : Type) : Type :=
  | Answered (a : A)
  | ChannelClosed
  | Unanswered.
Arguments Answered {A} a.
Arguments ChannelClosed {A}.
Arguments Unanswered {A}.

(** Requests of a master to the configuration server and to another master. *)
Inductive PeerRequest : Type :=
  | ReqRegisterMaster (address shard_id : string)
  | ReqShardHeartbeat (address : string) (rps_per_prefix : gmap string f64)
  | ReqFetchShardMap
  | ReqSplitShard (shard_id split_key new_shard_id : string) (new_shard_peers : list string)
  | ReqMergeShard (victim retained : string)
  | ReqIngestMetadata (files : list FileMetadata).

Inductive PeerResponse : Type :=
  | RespPlain (r : Response)
  | RespShards (shards : gmap string (list string))
  | RespSplit (r : Response) (new_shard_peers : list string).

(** ** Effects of a metadata server *)

Inductive Effect : Type → Type :=
  | Lock {B} (f : AppState → B * AppState) : Effect B
  | LockMap {B} (f : ShardMap → B * ShardMap) : Effect B
  | LockMonitor {B} (f : ThroughputMonitor → B * ThroughputMonitor) : Effect B
  | Submit (c : Command) : Effect RaftReply
  | Cast (c : Command) : Effect unit
  | ReadIndex : Effect RaftReply
  | GetClusterInfo : Effect (Answer ClusterInfo)
  | GetLeaderInfo : Effect (Answer (option string))
  | NowMs : Effect N
  | Instant : Effect N
  | Term : Effect N
  | Uuid : Effect string
  | Call (addr : string) (req : PeerRequest) : Effect (option PeerResponse).

Notation Handler := (Prog Effect).

(** Critical sections that only read. *)
Definition read_app {B} (f : AppState → B) : Handler B := perform (Lock (λ a, (f a, a))).
Definition read_map {B} (f : ShardMap → B) : Handler B := perform (LockMap (λ m, (f m, m))).
Definition read_monitor {B} (f : ThroughputMonitor → B) : Handler B := perform (LockMonitor (λ m, (f m, m))).
Definition modify_app (f : AppState → AppState) : Handler unit := perform (Lock (λ a, (tt, f a))).

(** ** Its environment *)

(** What a process sees: the replicated state of its Raft group and the part of
    it that is its own, its copy of the shard map, its monitor; the clock and a
    supply of identifiers; the requests it has sent. *)
Record World : Type := mkWorld {
  w_app : AppState;
  w_map : ShardMap;
  w_monitor : ThroughputMonitor;
  w_clock : N;
  w_uuids : list string;
  w_sent : list (string * PeerRequest);
}.

Definition eta_world (w : World) : World :=
  mkWorld (w_app w) (w_map w) (w_monitor w) (w_clock w) (w_uuids w) (w_sent w).
#[global] Instance upd_w_app : Upd w_app := ltac:(upd_tac eta_world w_app).
#[global] Instance upd_w_map : Upd w_map := ltac:(upd_tac eta_world w_map).
#[global] Instance upd_w_monitor : Upd w_monitor := ltac:(upd_tac eta_world w_monitor).
#[global] Instance upd_w_uuids : Upd w_uuids := ltac:(upd_tac eta_world w_uuids).
#[global] Instance upd_w_sent : Upd w_sent := ltac:(upd_tac eta_world w_sent).

(** The answers of Raft and of the other servers in an undisturbed execution. *)
Record Peers : Type := mkPeers {
  call_answer : string → PeerRequest → option PeerResponse;
  submit_answer : RaftReply;
  cluster_answer : Answer ClusterInfo;
  leader_answer : Answer (option string);
  term_answer : N;
}.

Section server.
  Context (crc : string → N).

(** A command takes effect on the state of the group. *)
Definition commit (c : Command) (w : World) : World :=
  w <| w_app := apply_command crc (w_clock w) c (w_app w) |>.

(** What one effect may answer and do. A command that is refused or never
    answered may have been logged and take effect: now, or later, which is then
    interference. *)
Definition performs {B} (e : Effect B) : World → B → World → Prop :=
  match e in Effect B return World → B → World → Prop with
  | Lock f => λ w b w', b = (f (w_app w)).1 ∧ w' = w <| w_app := (f (w_app w)).2 |>
  | LockMap f => λ w b w', b = (f (w_map w)).1 ∧ w' = w <| w_map := (f (w_map w)).2 |>
  | LockMonitor f => λ w b w', b = (f (w_monitor w)).1 ∧ w' = w <| w_monitor := (f (w_monitor w)).2 |>
  | Submit c => λ w r w',
      match r with
      | RaftOk => w' = commit c w
      | RaftClosed => w' = w
      | RaftNotLeader _ | RaftLost => w' = w ∨ w' = commit c w
      end
  | Cast c => λ w _ w', w' = w ∨ w' = commit c w
  | Uuid => λ w _ w', ∃ l, w' = w <| w_uuids := l |>
  | Call addr req => λ w _ w', w' = w <| w_sent := w_sent w ++ [(addr, req)] |>
  | _ => λ w _ w', w' = w
  end.

(** Undisturbed: Raft commits at once, or refuses at once. *)
Definition run_effect (peers : Peers) {B} (e : Effect B) : World → B * World :=
  match e in Effect B return World → B * World with
  | Lock f => λ w, ((f (w_app w)).1, w <| w_app := (f (w_app w)).2 |>)
  | LockMap f => λ w, ((f (w_map w)).1, w <| w_map := (f (w_map w)).2 |>)
  | LockMonitor f => λ w, ((f (w_monitor w)).1, w <| w_monitor := (f (w_monitor w)).2 |>)
  | Submit c => λ w, (submit_answer peers, match submit_answer peers with RaftOk => commit c w | _ => w end)
  | Cast c => λ w, (tt, match submit_answer peers with RaftOk => commit c w | _ => w end)
  | ReadIndex => λ w, (submit_answer peers, w)
  | GetClusterInfo => λ w, (cluster_answer peers, w)
  | GetLeaderInfo => λ w, (leader_answer peers, w)
  | NowMs | Instant => λ w, (w_clock w, w)
  | Term => λ w, (term_answer peers, w)
  | Uuid => λ w, (default "" (head (w_uuids w)), w <| w_uuids := tail (w_uuids w) |>)
  | Call addr req => λ w, (call_answer peers addr req, w <| w_sent := w_sent w ++ [(addr, req)] |>)
  end.

Lemma run_effect_performs peers B (e : Effect B) w :
  performs e w (run_effect peers e w).1 (run_effect peers e w).2.
Proof. destruct e; simpl; eauto; by destruct (submit_answer peers); auto. Qed.

End server.
