(* ===== verification/MasterService.v ===== *)
(** * The file service of the master

    dfs/metaserver/src/master.rs, [MasterService]: the RPCs on files, block
    locations, safe mode and Raft membership. Rename and the transaction RPCs
    are in [TwoPhase], chunk-server RPCs in [Healing]. An RPC looks at the local
    state, then submits a command: [spec] says what a caller may rely on when
    other requests run in between. *)

From stdpp Require Import pretty.
From S2P Require Import Prelude BTree Text Sharding MasterState AppState ClusterConfig RaftNode Monitor Program Placement Healing.

(** ** Messages *)

(** [src/proto/dfs.proto:117-125 AllocateBlockResponse] *)
Record AllocateBlockResponse : Type := mkAllocateBlockResponse {
  resp_block : option BlockInfo;
  chunk_server_addresses : list string;
  resp_leader_hint : string;
  resp_ec_data_shards : Z;
  resp_ec_parity_shards : Z;
  master_term : N;
}.

(** [src/proto/dfs.proto:391-399 GetSafeModeStatusResponse] *)
Record SafeModeStatus : Type := mkSafeModeStatus {
  st_is_safe_mode : bool;
  st_is_manual : bool;
  st_chunk_server_count : N;
  st_expected_blocks : N;
  st_reported_blocks : N;
  st_threshold : f64;
  st_entered_at : N;
}.

Section service.
  Context `{HashOrder}.
  (** CRC32 of the consistent-hashing ring, and the shard the process serves. *)
  Context (crc : string → N) (shard_id : string).

(** ** Guards *)

Definition record (p : string) : Handler unit := perform (LockMonitor (λ m, (tt, record_request p 0 m))).

(** [src/dfs/metaserver/src/master.rs:2141-2159 check_shard_ownership] *)
Definition check_shard_ownership (p : string) : Handler (unit + Status) :=
  read_map (λ m,
    match get_shard crc m p with
    | Some target_shard =>
        if decide (target_shard = shard_id) then inl tt
        else inr (OutOfRange ("REDIRECT:" +:+ default "" (head (default [] (get_shard_peers m target_shard)))))
    | None => inl tt
    end).

Definition in_safe_mode : Status := Unavailable "Cluster is in Safe Mode. Write operations are blocked.".

(** [src/dfs/metaserver/src/master.rs:2163-2173 check_safe_mode] *)
Definition check_safe_mode : Handler (unit + Status) :=
  read_app (λ a, if is_safe_mode a then inr in_safe_mode else inl tt).

(** [src/dfs/metaserver/src/master.rs:1911-1930 ensure_linearizable_read] *)
Definition ensure_linearizable_read : Handler (unit + Status) :=
  let* r := perform ReadIndex in
  match r with
  | RaftOk => reply tt
  | RaftNotLeader (Some hint) => fail (FailedPrecondition ("Not Leader|" +:+ hint))
  | RaftNotLeader None => fail (FailedPrecondition "Not Leader")
  | RaftClosed => fail (Internal "Failed to send to Raft node: channel closed")
  | RaftLost => fail (Internal "Raft node shutdown")
  end.

(** Submitting a command and turning the outcome into a response. *)
Definition submit {A} (c : Command) (ok : A) (refused : option string → A) (lost : string)
  : Handler (A + Status) :=
  let* r := perform (Submit c) in
  match r with
  | RaftOk => reply ok
  | RaftNotLeader leader_opt => reply (refused leader_opt)
  | RaftClosed => fail (Internal "Raft channel closed")
  | RaftLost => fail (Internal lost)
  end.

Definition submit_plain (c : Command) (lost : string) : Handler (Response + Status) :=
  submit c accepted not_leader lost.

(** ** Files *)

(** [src/dfs/metaserver/src/master.rs:2179-2233 get_file_info] *)
Definition get_file_info (p : string) : Handler (option FileMetadata + Status) :=
  do* record p in
  let* now_ms := perform NowMs in
  do* perform (Cast (CMaster (UpdateAccessStats p now_ms))) in
  do? check_shard_ownership p in
  do? ensure_linearizable_read in
  read_app (λ a,
    match a with
    | AMaster s => inl (files s !! p)
    | AConfig _ => inr (Internal "Invalid state")
    end).

(** `if let AppState::Master(ref state) = *state_lock { state.files.contains_key(&path) .. }`. *)
Definition file_exists (a : AppState) (p : string) : option bool :=
  match a with
  | AMaster s => Some (bool_decide (is_Some (files s !! p)))
  | AConfig _ => None
  end.

(** [src/dfs/metaserver/src/master.rs:2235-2293 create_file] *)
Definition create_file (p : string) (ec_data ec_parity : Z) : Handler (Response + Status) :=
  do* record p in
  do? check_shard_ownership p in
  do? check_safe_mode in
  let* found := read_app (λ a, file_exists a p) in
  if decide (found = Some true) then reply (mkResponse false "File already exists" "")
  else submit_plain (CMaster (CreateFile p ec_data ec_parity)) "Raft response error".

(** [src/dfs/metaserver/src/master.rs:2295-2349 delete_file] *)
Definition delete_file (p : string) : Handler (Response + Status) :=
  do* record p in
  do? check_shard_ownership p in
  do? check_safe_mode in
  let* found := read_app (λ a, file_exists a p) in
  if decide (found = Some false) then reply (mkResponse false "File not found" "")
  else submit_plain (CMaster (DeleteFile p)) "Raft response error".

(** What allocation decides on the state: the servers and the policy.
    [src/dfs/metaserver/src/master.rs:2364-2415 allocate_block] *)
Definition choose_servers (p : string) (a : AppState) : (list string * Z * Z) + Status :=
  match a with
  | AMaster s =>
      match files s !! p with
      | None => inr (NotFound "File not found")
      | Some file_meta =>
          let ec_data := ec_data_shards file_meta in
          let ec_parity := ec_parity_shards file_meta in
          let candidates := entries (chunk_servers s) in
          let selected needed :=
            if decide (needed = 0) then inr (Unavailable "No chunk servers available")
            else inl (select_servers_rack_aware candidates needed, ec_data, ec_parity) in
          if ((0 <? ec_data) && (0 <? ec_parity))%Z then
            let total := as_usize (wrap_i32 (ec_data + ec_parity)) in
            if (Z.of_nat (length candidates) <? total)%Z
            then inr (Unavailable ("Need " +:+ pretty total +:+ " chunk servers for EC(" +:+ pretty ec_data
                   +:+ "," +:+ pretty ec_parity +:+ "), only " +:+ pretty (length candidates) +:+ " available"))
            else selected (Z.to_nat total)
          else selected (min 3 (length candidates))
      end
  | AConfig _ => inr (Internal "Wrong state type")
  end.

(** [src/dfs/metaserver/src/master.rs:2351-2471 allocate_block] *)
Definition allocate_block (p : string) : Handler (AllocateBlockResponse + Status) :=
  do* record p in
  do? check_shard_ownership p in
  do? check_safe_mode in
  let? chosen := read_app (choose_servers p) in
  let '(selected_servers, ec_data, ec_parity) := chosen in
  let* block_id := perform Uuid in
  let* r := perform (Submit (CMaster (AllocateBlock p block_id selected_servers))) in
  match r with
  | RaftClosed => fail (Internal "Raft channel closed")
  | _ =>
      let* term := perform Term in
      match r with
      | RaftOk =>
          reply (mkAllocateBlockResponse (Some (mkBlockInfo block_id 0 selected_servers 0 ec_data ec_parity 0))
            selected_servers "" ec_data ec_parity term)
      | RaftNotLeader leader_opt => reply (mkAllocateBlockResponse None [] (default "" leader_opt) 0 0 0)
      | _ => fail (Internal "Raft response error")
      end
  end.

(** [src/dfs/metaserver/src/master.rs:2473-2530 complete_file] *)
Definition complete_file (p : string) (size : N) (etag_md5 : string) (created_at_ms : N)
    (block_checksums : list BlockChecksumInfo) : Handler (bool + Status) :=
  do? check_shard_ownership p in
  submit (CMaster (CompleteFile p size (if decide (etag_md5 = "") then None else Some etag_md5)
    (if decide (created_at_ms = 0%N) then None else Some created_at_ms) block_checksums))
    true (λ _, false) "Raft response error".

(** [src/dfs/metaserver/src/master.rs:2532-2560 list_files] *)
Definition list_files (prefix : string) : Handler (list string + Status) :=
  do? ensure_linearizable_read in
  read_app (λ a,
    match a with
    | AMaster s =>
        let keys := (entries (files s)).*1 in
        inl (if decide (prefix = "") then keys else List.filter (String.prefix prefix) keys)
    | AConfig _ => inr (Internal "Invalid state")
    end).

(** [src/dfs/metaserver/src/master.rs:2687-2723 get_block_locations] *)
Definition get_block_locations (bid : string) : Handler (option (list string) + Status) :=
  do? ensure_linearizable_read in
  read_app (λ a,
    match a with
    | AMaster s =>
        inl (locations <$> List.find (λ b, bool_decide (block_id b = bid)) ((entries (files s)).*2 ≫= blocks))
    | AConfig _ => inl None
    end).

(** `path.rfind('/').map(|pos| path[..pos + 1].to_string())`. *)
Fixpoint directory (p : string) : option string :=
  match p with
  | EmptyString => None
  | String c p =>
      match directory p with
      | Some d => Some (String c d)
      | None => if decide (c = "/"%char) then Some "/" else None
      end
  end.

(** [src/dfs/metaserver/src/master.rs:3558-3616 ingest_metadata] *)
Definition ingest_metadata (batch : list FileMetadata) : Handler (Response + Status) :=
  let shuffle_prefix := head batch ≫= λ f, directory (path f) in
  let* r := perform (Submit (CMaster (IngestBatch batch))) in
  match r with
  | RaftOk =>
      do* (match shuffle_prefix with
           | Some prefix => perform (Cast (CMaster (TriggerShuffle prefix)))
           | None => Ret tt
           end) in
      reply accepted
  | RaftNotLeader hint => reply (not_leader hint)
  | RaftClosed => fail (Internal "Raft channel closed")
  | RaftLost => fail (Internal "Internal error")
  end.

(** [src/dfs/metaserver/src/master.rs:3618-3658 initiate_shuffle] *)
Definition initiate_shuffle (prefix : string) : Handler (Response + Status) :=
  do? check_shard_ownership prefix in
  do? check_safe_mode in
  submit_plain (CMaster (TriggerShuffle prefix)) "Internal error".

(** ** Safe mode *)

(** [src/dfs/metaserver/src/master.rs:3311-3336 get_safe_mode_status] *)
Definition get_safe_mode_status : Handler (SafeModeStatus + Status) :=
  do? ensure_linearizable_read in
  read_app (λ a,
    match a with
    | AMaster s =>
        inl (mkSafeModeStatus (safe_mode s) (safe_mode_manual s) (wrap32 (N.of_nat (size (chunk_servers s))))
          (wrap32 (N.of_nat (expected_block_count s))) (wrap32 (N.of_nat (reported_block_count s)))
          (safe_mode_threshold s) (safe_mode_entered_at s))
    | AConfig _ => inr (Internal "Wrong state type")
    end).

(** The answer is the new mode. [src/dfs/metaserver/src/master.rs:3338-3369 set_safe_mode] *)
Definition set_safe_mode (enter : bool) : Handler (bool + Status) :=
  let* now := perform NowMs in
  perform (Lock (λ a,
    match a with
    | AMaster s =>
        if enter then (inl true, AMaster (force_enter_safe_mode now s))
        else (inl false, AMaster (force_exit_safe_mode s))
    | AConfig _ => (inr (Internal "Wrong state type"), a)
    end)).

(** ** Membership *)

(** [src/dfs/metaserver/src/master.rs:3374-3417 add_raft_server] *)
Definition add_raft_server (server_id : nat) (server_address : string) : Handler (Response + Status) :=
  submit_plain (CMembership (AddServer server_id server_address)) "Raft response error".

(** [src/dfs/metaserver/src/master.rs:3419-3503 remove_raft_server] *)
Definition remove_raft_server (server_id : nat) : Handler (Response + Status) :=
  let* answer := perform GetClusterInfo in
  match answer with
  | ChannelClosed => fail (Internal "Raft channel closed")
  | Unanswered => fail (Internal "Failed to get cluster info")
  | Answered info =>
      let cluster_size := length (ci_peers info) + 1 in
      if negb (bool_decide (ci_role info = Leader)) then
        let* leader := perform GetLeaderInfo in
        reply (mkResponse false "Not Leader"
          (match leader with Answered (Some hint) => hint | _ => "" end))
      else if cluster_size <=? 1 then
        reply (mkResponse false "Cannot remove server: would leave cluster empty" "")
      else submit_plain (CMembership (RemoveServer server_id)) "Raft response error"
  end.

(** Role, node and leader numbers and addresses as the response prints them.
    [src/dfs/metaserver/src/master.rs:3505-3556 get_cluster_info] *)
Definition get_cluster_info : Handler ((ClusterInfo * string * N * string * list (N * string)) + Status) :=
  let* answer := perform GetClusterInfo in
  match answer with
  | ChannelClosed => fail (Internal "Raft channel closed")
  | Unanswered => fail (Internal "Failed to get cluster info")
  | Answered info =>
      reply (info,
        match ci_role info with Leader => "Leader" | Follower => "Follower" | Candidate => "Candidate" end,
        match ci_leader_id info with Some i => wrap32 (N.of_nat i) | None => 0%N end,
        default "" (ci_leader_address info),
        imap (λ idx addr, (wrap32 (N.of_nat idx), addr)) (ci_peers info))
  end.

End service.
