(* ===== verification/ServiceSpec.v ===== *)
(** * What callers of the file service may rely on

    Every execution of a file RPC, with other requests running in between, looks
    like this to its caller: the state was checked for safe mode at one moment,
    inspected at a later one, and the command took effect at one moment after
    that; success is answered only when it did, and everything else is the doing
    of other requests. *)

From S2P Require Import Prelude BTree Text Sharding MasterState AppState ClusterConfig RaftNode Monitor Program Placement Healing MasterService.

(** ** Requests and replies *)

Inductive FileRequest : Type :=
  | RqGetFileInfo (p : string)
  | RqCreateFile (p : string) (ec_data ec_parity : Z)
  | RqDeleteFile (p : string)
  | RqAllocateBlock (p : string)
  | RqCompleteFile (p : string) (sz : N) (etag : string) (created : N) (sums : list BlockChecksumInfo)
  | RqListFiles (prefix : string)
  | RqGetBlockLocations (bid : string)
  | RqIngestMetadata (batch : list FileMetadata)
  | RqInitiateShuffle (prefix : string).

Inductive FileReply : Type :=
  | RpPlain (r : Response)
  | RpInfo (m : option FileMetadata)
  | RpAllocated (r : AllocateBlockResponse)
  | RpCompleted (b : bool)
  | RpFiles (l : list string)
  | RpLocations (l : option (list string)).

Definition answer {A B} (f : A → B) (p : Handler (A + Status)) : Handler (B + Status) :=
  let? a := p in reply (f a).

Section spec.
  Context `{HashOrder} (crc : string → N) (shard_id : string).

Definition serve_file (rq : FileRequest) : Handler (FileReply + Status) :=
  match rq with
  | RqGetFileInfo p => answer RpInfo (get_file_info crc shard_id p)
  | RqCreateFile p d m => answer RpPlain (create_file crc shard_id p d m)
  | RqDeleteFile p => answer RpPlain (delete_file crc shard_id p)
  | RqAllocateBlock p => answer RpAllocated (allocate_block crc shard_id p)
  | RqCompleteFile p sz etag created sums => answer RpCompleted (complete_file crc shard_id p sz etag created sums)
  | RqListFiles prefix => answer RpFiles (list_files prefix)
  | RqGetBlockLocations bid => answer RpLocations (get_block_locations bid)
  | RqIngestMetadata batch => answer RpPlain (ingest_metadata batch)
  | RqInitiateShuffle prefix => answer RpPlain (initiate_shuffle crc shard_id prefix)
  end.

(** ** The abstract specification *)

(** Requests that are refused in safe mode, and requests that only read. *)
Definition refused_in_safe_mode (rq : FileRequest) : bool :=
  match rq with
  | RqCreateFile _ _ _ | RqDeleteFile _ | RqAllocateBlock _ | RqInitiateShuffle _ => true
  | _ => false
  end.

(** What a request reads: its answer in a state. *)
Definition reads (rq : FileRequest) (a : AppState) (rp : FileReply) : Prop :=
  match rq, a with
  | RqGetFileInfo p, AMaster s => rp = RpInfo (files s !! p)
  | RqListFiles prefix, AMaster s =>
      ∃ l, rp = RpFiles l ∧ NoDup l ∧ ∀ k, k ∈ l ↔ is_Some (files s !! k) ∧ String.prefix prefix k = true
  | RqGetBlockLocations bid, AMaster s =>
      ∃ l, rp = RpLocations l ∧
        match l with
        | Some locs => ∃ p f b, files s !! p = Some f ∧ b ∈ blocks f ∧ block_id b = bid ∧ locations b = locs
        | None => ∀ p f b, files s !! p = Some f → b ∈ blocks f → block_id b ≠ bid
        end
  | RqGetBlockLocations _, AConfig _ => rp = RpLocations None
  | _, _ => False
  end.

(** The command a request submits, given the state it inspected, and what it
    answers when the command is committed. *)
Definition writes (rq : FileRequest) (a0 : AppState) (c : MasterCommand) (rp : FileReply) : Prop :=
  match rq with
  | RqCreateFile p d m => file_exists a0 p ≠ Some true ∧ c = CreateFile p d m ∧ rp = RpPlain accepted
  | RqDeleteFile p => file_exists a0 p ≠ Some false ∧ c = DeleteFile p ∧ rp = RpPlain accepted
  | RqAllocateBlock p =>
      ∃ servers d m bid term, choose_servers p a0 = inl (servers, d, m) ∧ c = AllocateBlock p bid servers ∧
        rp = RpAllocated (mkAllocateBlockResponse (Some (mkBlockInfo bid 0 servers 0 d m 0)) servers "" d m term)
  | RqCompleteFile p sz etag created sums =>
      c = CompleteFile p sz (if decide (etag = "") then None else Some etag)
            (if decide (created = 0%N) then None else Some created) sums ∧ rp = RpCompleted true
  | RqIngestMetadata batch => c = IngestBatch batch ∧ rp = RpPlain accepted
  | RqInitiateShuffle prefix => c = TriggerShuffle prefix ∧ rp = RpPlain accepted
  | _ => False
  end.

(** Refusals that look at the state. *)
Definition refuses (rq : FileRequest) (a0 : AppState) (r : FileReply + Status) : Prop :=
  match rq with
  | RqCreateFile p _ _ => file_exists a0 p = Some true ∧ r = inl (RpPlain (mkResponse false "File already exists" ""))
  | RqDeleteFile p => file_exists a0 p = Some false ∧ r = inl (RpPlain (mkResponse false "File not found" ""))
  | RqAllocateBlock p => ∃ e, choose_servers p a0 = inr e ∧ r = inr e
  | _ => False
  end.

(** Not committed as far as the server knows. *)
Definition unconfirmed (r : FileReply + Status) : Prop :=
  match r with
  | inl (RpPlain rp) => success rp = false
  | inl (RpAllocated rp) => resp_block rp = None
  | inl (RpCompleted b) => b = false
  | inr (Internal _) => True
  | _ => False
  end.

(** Errors without effect: a path of another shard, a read that Raft cannot
    confirm. *)
Definition may_fail (rq : FileRequest) (e : Status) : bool :=
  match e, rq with
  | OutOfRange _, (RqListFiles _ | RqGetBlockLocations _ | RqIngestMetadata _) => false
  | OutOfRange _, _ => true
  | (FailedPrecondition _ | Internal _), (RqGetFileInfo _ | RqListFiles _ | RqGetBlockLocations _) => true
  | _, _ => false
  end.

(** [as_] was checked for safe mode, [a0] inspected, [a1] is the state the
    request acts on and [a2] the state it leaves. *)
Inductive spec (rq : FileRequest) (as_ a0 a1 : AppState) : FileReply + Status → AppState → Prop :=
  | spec_read rp : reads rq a1 rp → spec rq as_ a0 a1 (inl rp) a1
  | spec_write now c rp :
      writes rq a0 c rp → (refused_in_safe_mode rq = true → is_safe_mode as_ = false) →
      spec rq as_ a0 a1 (inl rp) (apply_command crc now (CMaster c) a1)
  | spec_refuse r : refuses rq a0 r → spec rq as_ a0 a1 r a1
  | spec_safe_mode :
      refused_in_safe_mode rq = true → is_safe_mode as_ = true → spec rq as_ a0 a1 (inr in_safe_mode) a1
  | spec_unconfirmed now c rp r a2 :
      writes rq a0 c rp → unconfirmed r → a2 = a1 ∨ a2 = apply_command crc now (CMaster c) a1 →
      spec rq as_ a0 a1 r a2
  | spec_fail e : may_fail rq e = true → spec rq as_ a0 a1 (inr e) a1.

(** ** The handlers implement it *)

Section refinement.
  (** What other requests may do to the state in one step; the commands that
      handlers submit without waiting are among it. *)
  Context (J : AppState → AppState → Prop).
  Context (cast_access : ∀ now p t a, J a (apply_command crc now (CMaster (UpdateAccessStats p t)) a)).
  Context (cast_shuffle : ∀ now prefix a, J a (apply_command crc now (CMaster (TriggerShuffle prefix)) a)).

(** The rest of a process is not restricted. *)
Definition interferes (w w' : World) : Prop := rtc J (w_app w) (w_app w').
Notation ex := (exec (@performs crc) interferes).
Notation "w ~> w'" := (rtc J (w_app w) (w_app w')) (at level 70).

Definition implements (rq : FileRequest) (a : AppState) (r : FileReply + Status) (a' : AppState) : Prop :=
  ∃ as_ a0 a1 a2, rtc J a as_ ∧ rtc J as_ a0 ∧ rtc J a0 a1 ∧ spec rq as_ a0 a1 r a2 ∧ rtc J a2 a'.

Lemma ex_read_app {B} (f : AppState → B) w b w' :
  ex (read_app f) w b w' → w ~> w' ∧ b = f (w_app w').
Proof. intros (w1 & b1 & w2 & HI & [-> ->] & [-> ->]). done. Qed.

Lemma ex_read_map {B} (f : ShardMap → B) w b w' : ex (read_map f) w b w' → w ~> w' ∧ ∃ m, b = f m.
Proof. intros (w1 & b1 & w2 & HI & [-> ->] & [-> ->]). split; [done|]. by eexists. Qed.

Lemma ex_record p w b w' : ex (record p) w b w' → w ~> w'.
Proof. intros (w1 & b1 & w2 & HI & [-> ->] & [-> ->]). done. Qed.

Lemma ex_quiet {B} (e : Effect B) w b w' :
  match e with NowMs | Term | Uuid | ReadIndex => True | _ => False end → ex (perform e) w b w' → w ~> w'.
Proof.
  intros He (w1 & b1 & w2 & HI & Hp & [-> ->]). destruct e; try done; simpl in Hp; split_conj; by subst.
Qed.

Lemma ex_submit {A} c (ok : A) refused lost w r w' :
  ex (submit c ok refused lost) w r w' →
  ∃ now a1, rtc J (w_app w) a1 ∧
    ((r = inl ok ∧ w_app w' = apply_command crc now c a1) ∨
     (((∃ h, r = inl (refused h)) ∨ ∃ e, r = inr (Internal e)) ∧
      (w_app w' = a1 ∨ w_app w' = apply_command crc now c a1))).
Proof.
  intros (w1 & b & w2 & HI & Hp & Hk). exists (w_clock w1), (w_app w1). split; [done|].
  destruct b; simpl in Hp, Hk; destruct Hk as [-> ->].
  - left. by subst.
  - right. split; [left; eauto|]. destruct Hp as [->| ->]; auto.
  - right. split; [right; eauto|]. subst; auto.
  - right. split; [right; eauto|]. destruct Hp as [->| ->]; auto.
Qed.

(** A handler answers with the reply of its inner program. *)
Lemma ex_answer {A B} (f : A → B) p w r w' :
  ex (answer f p) w r w' →
  ∃ ra, ex p w ra w' ∧ r = match ra with inl a => inl (f a) | inr e => inr e end.
Proof.
  intros (ra & w1 & Hp & Hk)%exec_try. exists ra. destruct ra; destruct Hk as [-> ->]; done.
Qed.

Lemma ex_owned {A} p (k : Handler (A + Status)) w r w' :
  ex (do? check_shard_ownership crc shard_id p in k) w r w' →
  (∃ hint, r = inr (OutOfRange hint) ∧ w ~> w') ∨ ∃ w1, w ~> w1 ∧ ex k w1 r w'.
Proof.
  intros (ra & w1 & [Hw [m Hra]]%ex_read_map & Hk)%exec_try. destruct ra as [[]|e]; [eauto|].
  destruct Hk as [-> ->]. left. repeat case_match; simplify_eq. eauto.
Qed.

Lemma ex_unsafe {A} (k : Handler (A + Status)) w r w' :
  ex (do? check_safe_mode in k) w r w' →
  ∃ w1, w ~> w1 ∧
    ((is_safe_mode (w_app w1) = true ∧ r = inr in_safe_mode ∧ w' = w1) ∨
     (is_safe_mode (w_app w1) = false ∧ ex k w1 r w')).
Proof.
  intros (ra & w1 & [Hw Hra]%ex_read_app & Hk)%exec_try. exists w1. split; [done|].
  destruct (is_safe_mode (w_app w1)); subst ra; [left|right]; split; [done|destruct Hk; auto|done|done].
Qed.

Lemma ex_linearizable {A} (k : Handler (A + Status)) w r w' :
  ex (do? ensure_linearizable_read in k) w r w' →
  (∃ e, r = inr e ∧ (match e with FailedPrecondition _ | Internal _ => True | _ => False end) ∧ w ~> w') ∨
  ∃ w1, w ~> w1 ∧ ex k w1 r w'.
Proof.
  intros (ra & w1 & Hra & Hk)%exec_try. destruct Hra as (w2 & b & w3 & HI & -> & Hb).
  destruct b as [|[hint|]| |]; destruct Hb as [-> ->]; [right; eauto|destruct Hk as [-> ->]; left; eauto 10..].
Qed.

Notation outcome_of f ra := (match ra with inl x => inl (f x) | inr e => inr e end).

Lemma submit_implements rq as_ a0 c {A} (f : A → FileReply) ok refused lost a w ra w' :
  rtc J a as_ → rtc J as_ a0 → rtc J a0 (w_app w) →
  writes rq a0 c (f ok) → (∀ h, unconfirmed (inl (f (refused h)))) →
  (refused_in_safe_mode rq = true → is_safe_mode as_ = false) →
  ex (submit (CMaster c) ok refused lost) w ra w' →
  implements rq a (outcome_of f ra) (w_app w').
Proof.
  intros H1 H2 H3 Hw Hun Hsafe (now & a1 & Ha1 & Hr)%ex_submit.
  exists as_, a0, a1, (w_app w'). split; [done|]. split; [done|]. split; [by etrans|]. split; [|done].
  destruct Hr as [[-> ->]|[Hr Hw']]; [by apply spec_write|].
  eapply spec_unconfirmed; [done| |done]. destruct Hr as [[h ->]|[e ->]]; [apply Hun|done].
Qed.

(** Handlers that stop without effect. *)
Lemma stop_implements rq a r a' : rtc J a a' → spec rq a' a' a' r a' → implements rq a r a'.
Proof. intros ??. exists a', a', a', a'. auto using rtc_refl. Qed.

(** [chain] composes the interference of successive steps. *)
Ltac chain :=
  solve [ done
        | match goal with H : rtc _ ?a _ |- rtc _ ?a _ => solve [etrans; [exact H|chain]] end ].

(** The guards of the writing handlers. *)
Lemma guarded_implements rq p {A} (f : A → FileReply) k a w ra w' :
  refused_in_safe_mode rq = true → (∀ hint, may_fail rq (OutOfRange hint) = true) →
  rtc J a (w_app w) →
  (∀ w1, rtc J a (w_app w1) → is_safe_mode (w_app w1) = false → ex k w1 ra w' →
    implements rq a (outcome_of f ra) (w_app w')) →
  ex (do? check_shard_ownership crc shard_id p in do? check_safe_mode in k) w ra w' →
  implements rq a (outcome_of f ra) (w_app w').
Proof.
  intros Hrq Hfail Ha Hgo [(hint & -> & Hw)|(w2 & Hw2 & Hk)]%ex_owned.
  { apply stop_implements; [chain|by apply spec_fail]. }
  apply ex_unsafe in Hk as (w3 & Hw3 & [(Hs & -> & ->)|(Hs & Hk)]).
  { apply stop_implements; [chain|by apply spec_safe_mode]. }
  apply (Hgo w3); [chain|done|done].
Qed.

Lemma recorded {A} p (k : Handler A) w r w' :
  ex (do* record p in k) w r w' → ∃ w1, w ~> w1 ∧ ex k w1 r w'.
Proof. intros (u & w1 & Hw1%ex_record & Hk)%exec_bind. eauto. Qed.

Lemma create_implements p d m w ra w' :
  ex (create_file crc shard_id p d m) w ra w' →
  implements (RqCreateFile p d m) (w_app w) (outcome_of RpPlain ra) (w_app w').
Proof.
  intros (w1 & Hw1 & Hk)%recorded. revert Hk. apply guarded_implements; [done..|]. clear.
  intros w3 Ha Hs (found & w4 & [Hw4 ->]%ex_read_app & Hk)%exec_bind. case_decide as Hf.
  - destruct Hk as [-> ->]. exists (w_app w3), (w_app w4), (w_app w4), (w_app w4).
    split_and!; try done. by apply spec_refuse.
  - by eapply (submit_implements _ (w_app w3) (w_app w4) _ RpPlain _ _ _ _ w4); [..|exact Hk].
Qed.

Lemma delete_implements p w ra w' :
  ex (delete_file crc shard_id p) w ra w' →
  implements (RqDeleteFile p) (w_app w) (outcome_of RpPlain ra) (w_app w').
Proof.
  intros (w1 & Hw1 & Hk)%recorded. revert Hk. apply guarded_implements; [done..|]. clear.
  intros w3 Ha Hs (found & w4 & [Hw4 ->]%ex_read_app & Hk)%exec_bind. case_decide as Hf.
  - destruct Hk as [-> ->]. exists (w_app w3), (w_app w4), (w_app w4), (w_app w4).
    split_and!; try done. by apply spec_refuse.
  - by eapply (submit_implements _ (w_app w3) (w_app w4) _ RpPlain _ _ _ _ w4); [..|exact Hk].
Qed.

Lemma allocate_implements p w ra w' :
  ex (allocate_block crc shard_id p) w ra w' →
  implements (RqAllocateBlock p) (w_app w) (outcome_of RpAllocated ra) (w_app w').
Proof.
  intros (w1 & Hw1 & Hk)%recorded. revert Hk. apply guarded_implements; [done..|]. clear.
  intros w3 Ha Hs (chosen & w4 & [Hw4 ->]%ex_read_app & Hk)%exec_try.
  destruct (choose_servers p (w_app w4)) as [[[servers d] m]|e] eqn:Hc.
  2: { destruct Hk as [-> ->]. exists (w_app w3), (w_app w4), (w_app w4), (w_app w4).
       split_and!; try done. apply spec_refuse. by exists e. }
  apply exec_bind in Hk as (bid & w5 & Hw5%ex_quiet & Hk); [|done].
  apply exec_bind in Hk as (r & w6 & (w7 & r' & w8 & HI & Hp & [-> ->]) & Hk).
  assert (∀ term, writes (RqAllocateBlock p) (w_app w4) (AllocateBlock p bid servers)
    (RpAllocated (mkAllocateBlockResponse (Some (mkBlockInfo bid 0 servers 0 d m 0)) servers "" d m term)))
    as Hwrites by (intros; by exists servers, d, m, bid, term).
  exists (w_app w3), (w_app w4), (w_app w7), (w_app w8). split; [done|]. split; [done|].
  split; [chain|]. destruct r'; simpl in Hp.
  - apply exec_bind in Hk as (term & w9 & Hw9%ex_quiet & [-> ->]); [|done]. subst w8. split; [|done].
    by eapply spec_write.
  - apply exec_bind in Hk as (term & w9 & Hw9%ex_quiet & [-> ->]); [|done]. split; [|done].
    apply (spec_unconfirmed _ _ _ _ (w_clock w7) _ _ _ _ (Hwrites 0%N)); [done|]. destruct Hp as [->| ->]; auto.
  - destruct Hk as [-> ->]. split; [|done].
    apply (spec_unconfirmed _ _ _ _ (w_clock w7) _ _ _ _ (Hwrites 0%N)); [done|]. subst; auto.
  - apply exec_bind in Hk as (term & w9 & Hw9%ex_quiet & [-> ->]); [|done]. split; [|done].
    apply (spec_unconfirmed _ _ _ _ (w_clock w7) _ _ _ _ (Hwrites 0%N)); [done|]. destruct Hp as [->| ->]; auto.
Qed.

Lemma complete_implements p sz etag created sums w ra w' :
  ex (complete_file crc shard_id p sz etag created sums) w ra w' →
  implements (RqCompleteFile p sz etag created sums) (w_app w) (outcome_of RpCompleted ra) (w_app w').
Proof.
  intros [(hint & -> & Hw)|(w2 & Hw2 & Hk)]%ex_owned.
  { apply stop_implements; [chain|by apply spec_fail]. }
  by eapply (submit_implements _ (w_app w2) (w_app w2) _ RpCompleted _ _ _ _ w2); [..|exact Hk].
Qed.

Lemma shuffle_implements prefix w ra w' :
  ex (initiate_shuffle crc shard_id prefix) w ra w' →
  implements (RqInitiateShuffle prefix) (w_app w) (outcome_of RpPlain ra) (w_app w').
Proof.
  apply guarded_implements; [done..|]. intros w3 Ha Hs Hk.
  by eapply (submit_implements _ (w_app w3) (w_app w3) _ RpPlain _ _ _ _ w3); [..|exact Hk].
Qed.

Lemma ingest_implements batch w ra w' :
  ex (ingest_metadata batch) w ra w' →
  implements (RqIngestMetadata batch) (w_app w) (outcome_of RpPlain ra) (w_app w').
Proof.
  intros (r & w1 & (w2 & r' & w3 & HI & Hp & [-> ->]) & Hk)%exec_bind.
  exists (w_app w2), (w_app w2), (w_app w2), (w_app w3). split; [done|]. split; [done|]. split; [done|].
  destruct r'; simpl in Hp.
  - split.
    { subst w3. apply exec_bind in Hk as (u & w4 & _ & [-> _]). by eapply spec_write. }
    destruct (head batch ≫= _) as [prefix|].
    + destruct Hk as (w4 & u & w5 & HI4 & Hc & _ & ->). etrans; [exact HI4|].
      destruct Hc as [->| ->]; [done|]. apply rtc_once, cast_shuffle.
    + by destruct Hk as [_ ->].
  - destruct Hk as [-> ->]. split; [|done].
    eapply (spec_unconfirmed _ _ _ _ (w_clock w2) (IngestBatch batch)); [done|done|]. destruct Hp as [->| ->]; auto.
  - destruct Hk as [-> ->]. split; [|done].
    eapply (spec_unconfirmed _ _ _ _ (w_clock w2) (IngestBatch batch)); [done|done|]. subst; auto.
  - destruct Hk as [-> ->]. split; [|done].
    eapply (spec_unconfirmed _ _ _ _ (w_clock w2) (IngestBatch batch)); [done|done|]. destruct Hp as [->| ->]; auto.
Qed.

(** Reads, once Raft has confirmed the leadership. *)
Lemma read_implements rq {A} (f : A → FileReply) (g : AppState → A + Status) a w ra w' :
  (∀ e, match e with FailedPrecondition _ | Internal _ => True | _ => False end → may_fail rq e = true) →
  (∀ a1, match g a1 with
         | inl x => reads rq a1 (f x)
         | inr e => match e with FailedPrecondition _ | Internal _ => True | _ => False end
         end) →
  rtc J a (w_app w) →
  ex (do? ensure_linearizable_read in read_app g) w ra w' →
  implements rq a (outcome_of f ra) (w_app w').
Proof.
  intros Hfail Hg Ha [(e & -> & He & Hw)|(w1 & Hw1 & [Hw' ->]%ex_read_app)]%ex_linearizable.
  { apply stop_implements; [chain|]. apply spec_fail. auto. }
  apply stop_implements; [chain|]. specialize (Hg (w_app w')).
  destruct (g (w_app w')) as [x|e]; [by apply spec_read|]. apply spec_fail. auto.
Qed.

Lemma info_implements p w ra w' :
  ex (get_file_info crc shard_id p) w ra w' →
  implements (RqGetFileInfo p) (w_app w) (outcome_of RpInfo ra) (w_app w').
Proof.
  intros (w1 & Hw1 & Hk)%recorded. apply exec_bind in Hk as (now & w2 & Hw2%ex_quiet & Hk); [|done].
  apply exec_bind in Hk as (u & w3 & (w4 & u' & w5 & HI & Hc & [-> ->]) & Hk).
  assert (w4 ~> w5) as Hw5. { destruct Hc as [->| ->]; [done|]. apply rtc_once, cast_access. }
  apply ex_owned in Hk as [(hint & -> & Hw)|(w6 & Hw6 & Hk)].
  { apply stop_implements; [unfold interferes in HI; chain|by apply spec_fail]. }
  revert Hk. apply read_implements; [by intros []|by intros []|unfold interferes in HI; chain].
Qed.

Lemma list_implements prefix w ra w' :
  ex (list_files prefix) w ra w' →
  implements (RqListFiles prefix) (w_app w) (outcome_of RpFiles ra) (w_app w').
Proof.
  apply read_implements; [by intros []| |done]. intros [s|c]; [|done].
  eexists. split; [done|]. pose proof (NoDup_entries (files s)) as Hnd.
  assert (∀ k, k ∈ (entries (files s)).*1 ↔ is_Some (files s !! k)) as Hin.
  { intros k. rewrite list_elem_of_fmap. split.
    - intros ([k' f] & -> & ?%elem_of_entries). by exists f.
    - intros [f Hf]. exists (k, f). split; [done|]. by apply elem_of_entries. }
  case_decide as Hp.
  - subst prefix. split; [done|]. intros k. rewrite Hin. split; [|by intros []].
    intros ?. split; [done|]. by destruct k.
  - split.
    + by apply NoDup_ListNoDup, List.NoDup_filter, NoDup_ListNoDup.
    + intros k. rewrite list_elem_of_In, List.filter_In, <- list_elem_of_In. by rewrite Hin.
Qed.

Lemma locations_implements bid w ra w' :
  ex (get_block_locations bid) w ra w' →
  implements (RqGetBlockLocations bid) (w_app w) (outcome_of RpLocations ra) (w_app w').
Proof.
  apply read_implements; [by intros []| |done]. intros [s|c]; [|done].
  eexists. split; [done|].
  assert (∀ b, b ∈ (entries (files s)).*2 ≫= blocks ↔ ∃ p f, files s !! p = Some f ∧ b ∈ blocks f) as Hin.
  { intros b. rewrite list_elem_of_bind. setoid_rewrite list_elem_of_fmap. split.
    - intros (f & Hb & [p f'] & -> & ?%elem_of_entries). eauto.
    - intros (p & f & Hp & Hb). exists f. split; [done|]. exists (p, f). split; [done|]. by apply elem_of_entries. }
  destruct (List.find _ _) as [b|] eqn:Hf; simpl.
  - apply List.find_some in Hf as [Hb%list_elem_of_In Hid%bool_decide_eq_true].
    apply Hin in Hb as (p & f & ? & ?). by exists p, f, b.
  - intros p f b Hp Hb. assert (b ∈ (entries (files s)).*2 ≫= blocks) as Hb' by (apply Hin; eauto).
    by apply list_elem_of_In, (List.find_none _ _ Hf), bool_decide_eq_false in Hb'.
Qed.

Lemma serve_implements rq w r w' : ex (serve_file rq) w r w' → implements rq (w_app w) r (w_app w').
Proof.
  destruct rq; intros (ra & Hex & ->)%ex_answer;
    eauto using info_implements, create_implements, delete_implements, allocate_implements, complete_implements,
      list_implements, locations_implements, ingest_implements, shuffle_implements.
Qed.

(** C10. The file service refines its specification: however its execution is
    interleaved with other requests, and whatever Raft answers, a file RPC
    checks safe mode in one state, inspects a later one and acts on a still
    later one, in a single step; it answers success only when its command took
    effect in that step, refuses only for a reason that held in the state it
    inspected, and reads return what the state of that step holds. *)
Theorem file_service_refines_spec rq w r w' :
  exec (@performs crc) interferes (serve_file rq) w r w' →
  ∃ as_ a0 a1 a2, rtc J (w_app w) as_ ∧ rtc J as_ a0 ∧ rtc J a0 a1 ∧ spec rq as_ a0 a1 r a2 ∧ rtc J a2 (w_app w').
Proof. apply serve_implements. Qed.

End refinement.

(** Any command that some request has committed. *)
Definition committed (a a' : AppState) : Prop := ∃ now c, a' = apply_command crc now c a.

(** Two clients that create the same file: the check and the command are two
    steps, so the second creation succeeds as well and drops the block that was
    allocated for the first. *)
Lemma concurrent_create_overwrites p bid locs w s :
  w_app w = AMaster s → get_shard crc (w_map w) p = Some shard_id → safe_mode s = false → files s !! p = None →
  ∃ w' s1 s', exec (@performs crc) (interferes committed) (create_file crc shard_id p 0 0) w (inl accepted) w' ∧
    blocks <$> files s1 !! p = Some [mkBlockInfo bid 0 locs 0 0 0 0] ∧ rtc committed (w_app w) (AMaster s1) ∧
    w_app w' = AMaster s' ∧ blocks <$> files s' !! p = Some [].
Proof.
  intros Ha Hm Hs Hf.
  set (s1 := apply_master_command (AllocateBlock p bid locs) (apply_master_command (CreateFile p 0 0) s)).
  assert (rtc committed (AMaster s) (AMaster s1)) as Hr.
  { eapply rtc_l; [by exists 0%N, (CMaster (CreateFile p 0 0))|].
    eapply rtc_l; [by exists 0%N, (CMaster (AllocateBlock p bid locs))|]. done. }
  set (w0 := w <| w_monitor := record_request p 0 (w_monitor w) |>).
  set (w1 := w0 <| w_app := AMaster s1 |>).
  exists (commit crc (CMaster (CreateFile p 0 0)) w1), s1, (apply_master_command (CreateFile p 0 0) s1).
  split_and!; [|simpl; by rewrite lookup_alter_eq, lookup_insert_eq|by rewrite Ha|done|simpl; by rewrite lookup_insert_eq].
  exists w, tt, w0. split; [apply rtc_refl|]. split; [done|].
  exists w0, (inl tt), w0. split; [apply rtc_refl|]. split.
  { split; [|by destruct w]. simpl. rewrite Hm. by rewrite decide_True. }
  exists w0, (inl tt), w0. split; [apply rtc_refl|]. split.
  { split; [|by destruct w]. simpl. rewrite Ha. simpl. unfold is_in_safe_mode. by rewrite Hs. }
  exists w0, (Some false), w0. split; [apply rtc_refl|]. split.
  { split; [|by destruct w]. simpl. rewrite Ha. simpl. by rewrite bool_decide_false by (by rewrite Hf; intros []). }
  exists w1, RaftOk, (commit crc (CMaster (CreateFile p 0 0)) w1).
  split; [unfold interferes; simpl; by rewrite Ha|]. by split.
Qed.

End spec.

(** ** An example *)

Module ServiceDemo.

Definition crc (s : string) : N := 0.
Definition world : World :=
  mkWorld (AMaster master_default) (add_shard crc new_range "shard-0" ["h0:1"])
    (monitor_new (f64_of_N 100) (f64_of_N 1) 60 100) 5000 ["b1"; "b2"] [].
Definition leader : Peers :=
  mkPeers (λ _ _, None) RaftOk Unanswered Unanswered 3.
Definition create : FileRequest := RqCreateFile "/a/f" 0 0.
Definition result : (FileReply + Status) * World :=
  run (@run_effect crc leader) (serve_file (H := map_order) crc "shard-0" create) world.

End ServiceDemo.

Lemma file_service_refines_spec_witness :
  ServiceDemo.result.1 = inl (RpPlain accepted) ∧
  ∃ as_ a0 a1 a2, rtc (committed ServiceDemo.crc) (w_app ServiceDemo.world) as_ ∧ rtc (committed ServiceDemo.crc) as_ a0 ∧
    rtc (committed ServiceDemo.crc) a0 a1 ∧
    spec (H := map_order) ServiceDemo.crc ServiceDemo.create as_ a0 a1 ServiceDemo.result.1 a2 ∧
    rtc (committed ServiceDemo.crc) a2 (w_app ServiceDemo.result.2).
Proof.
  split; [vm_compute; reflexivity|].
  apply (@file_service_refines_spec map_order ServiceDemo.crc "shard-0" (committed ServiceDemo.crc)).
  - intros now p t a. by exists now, (CMaster (UpdateAccessStats p t)).
  - intros now prefix a. by exists now, (CMaster (TriggerShuffle prefix)).
  - apply run_exec; [intros w; apply rtc_refl|apply run_effect_performs].
Defined.
