(* ===== verification/MasterTasks.v ===== *)
(** * Background tasks of the master

    dfs/metaserver/src/master.rs: one interval of the data shuffler, the tiering
    and erasure-coding scanners, the rate monitor, the shard-map refresh and the
    split and merge detector. (Liveness, healing and balancing are in [Healing],
    the transaction tasks in [TwoPhase].) *)

From stdpp Require Import pretty.
From S2P Require Import Prelude BTree Text Sharding MasterState AppState ClusterConfig RaftNode Monitor Program Placement Healing.

(** What [MasterConfig] tells the tasks.
    [src/dfs/metaserver/src/master.rs:678-693 MasterConfig] *)
Record MasterConfig : Type := mkMasterConfig {
  cfg_shard_id : string;
  cfg_config_server_addrs : list string;
  cfg_master_address : string;
  cold_threshold_secs : N;
  ec_threshold_secs : N;
}.

Section tasks.
  Context `{HashOrder} (crc : string → N) (config : MasterConfig).

(** ** Shuffling *)

(** [src/dfs/metaserver/src/master.rs:1360-1375 run_data_shuffler] *)
Definition block_to_shuffle (s : MasterState) (prefix from to : string) : option string :=
  block_to_move (List.filter (λ f, String.prefix prefix (path f)) (entries (files s)).*2) from to.

(** One prefix: a command is queued, or the prefix has nothing left to move.
    [src/dfs/metaserver/src/master.rs:1349-1402 run_data_shuffler] *)
Definition shuffle_prefix (servers : list (string * N)) (prefix : string) (a : AppState) : bool * AppState :=
  match a with
  | AMaster s =>
      let sorted_servers := sort_by (λ x y, (y.2 <=? x.2)%N) servers in
      match head sorted_servers, last sorted_servers with
      | Some (least_full, _), Some (most_full, _) =>
          match block_to_shuffle s prefix most_full least_full with
          | Some bid => (false, AMaster (push_command most_full (move_command bid least_full) s))
          | None => (true, a)
          end
      | _, _ => (false, a)
      end
  | AConfig _ => (false, a)
  end.

(** [src/dfs/metaserver/src/master.rs:1324-1418 run_data_shuffler] *)
Definition run_data_shuffler : Handler unit :=
  let* snapshot := read_app (λ a,
    match a with
    | AMaster s => ((entries (gset_to_gmap tt (shuffling_prefixes s))).*1, server_space s)
    | AConfig _ => ([], [])
    end) in
  let '(prefixes, servers) := snapshot in
  if (bool_decide (prefixes = []) || (length servers <? 2)) then Ret tt
  else
    for_each prefixes (λ prefix,
      let* stop_shuffle := perform (Lock (shuffle_prefix servers prefix)) in
      if stop_shuffle : bool then
        do* perform (Submit (CMaster (StopShuffle prefix))) in Ret tt
      else Ret tt).

(** [src/dfs/metaserver/src/master.rs:1421-1427 run_metrics_decay] *)
Definition run_metrics_decay : Handler unit := perform (LockMonitor (λ m, (tt, decay_metrics m))).

(** ** Tiering *)

(** Only the leader scans. *)
Definition as_leader (k : Handler unit) : Handler unit :=
  let* leader := perform GetLeaderInfo in
  match leader with
  | Answered (Some addr) => if decide (addr = cfg_master_address config) then k else Ret tt
  | _ => Ret tt
  end.

(** [src/dfs/metaserver/src/master.rs:1966-1971 scan_tiering] *)
Definition is_cold (now_ms : N) (f : FileMetadata) : bool :=
  (moved_to_cold_at_ms f =? 0)%N && (ec_data_shards f =? 0)%Z && (0 <? last_access_ms f)%N &&
  (wrap64 (cold_threshold_secs config * 1000) <? now_ms - last_access_ms f)%N.

(** MOVE_TO_COLD. [src/dfs/metaserver/src/master.rs:1988-1995 scan_tiering] *)
Definition cold_command (bid : string) : ChunkServerCommand := mkChunkServerCommand 4 bid "" 0 0 0 [] 0 0.

(** [src/dfs/metaserver/src/master.rs:1980-2000 scan_tiering] *)
Definition queue_cold (bs : list BlockInfo) (a : AppState) : AppState :=
  match a with
  | AMaster s =>
      AMaster (foldl (λ s b, foldl (λ s loc, push_command loc (cold_command (block_id b)) s) s (locations b)) s bs)
  | AConfig _ => a
  end.

(** [src/dfs/metaserver/src/master.rs:1933-2013 scan_tiering] *)
Definition scan_tiering : Handler unit :=
  as_leader (
    let* now_ms := perform NowMs in
    let* candidates := read_app (λ a,
      match a with
      | AMaster s => (λ f, (path f, blocks f)) <$> List.filter (is_cold now_ms) (entries (files s)).*2
      | AConfig _ => []
      end) in
    for_each candidates (λ e,
      do* modify_app (queue_cold e.2) in
      do* perform (Submit (CMaster (MoveToCold e.1 now_ms))) in Ret tt)).

(** [src/dfs/metaserver/src/master.rs:2049-2056 scan_ec_conversion] *)
Definition is_convertible (now_ms : N) (f : FileMetadata) : bool :=
  (0 <? moved_to_cold_at_ms f)%N && (ec_data_shards f =? 0)%Z &&
  (wrap64 (ec_threshold_secs config * 1000) <? now_ms - moved_to_cold_at_ms f)%N.

(** [src/dfs/metaserver/src/master.rs:2064-2081 scan_ec_conversion] *)
Definition ec_servers (a : AppState) : list string :=
  match a with
  | AMaster s =>
      take 9 (sort_by String.leb (filter (λ e, (0 <? available_space e.2)%N = true) (entries (chunk_servers s))).*1)
  | AConfig _ => []
  end.

(** [src/dfs/metaserver/src/master.rs:2096-2104 scan_ec_conversion] *)
Definition converted (shard_servers : list string) (b : BlockInfo) : BlockInfo :=
  mkBlockInfo (block_id b) (block_size b) shard_servers (checksum_crc32c b) 6 3 (original_size b).

(** [src/dfs/metaserver/src/master.rs:2016-2138 scan_ec_conversion] *)
Definition scan_ec_conversion : Handler unit :=
  as_leader (
    let* now_ms := perform NowMs in
    let* candidates := read_app (λ a,
      match a with
      | AMaster s => List.filter (is_convertible now_ms) (entries (files s)).*2
      | AConfig _ => []
      end) in
    for_each candidates (λ file,
      let* shard_servers := read_app ec_servers in
      if length shard_servers <? 9 then Ret tt
      else
        do* perform (Submit (CMaster (ConvertToEc (path file) 6 3 (converted shard_servers <$> blocks file)))) in
        Ret tt)).

(** ** The shard map *)

(** [src/dfs/metaserver/src/master.rs:1460-1470 run_shard_map_refresh] *)
Definition refreshed_map (shards : gmap string (list string)) : ShardMap :=
  foldl (λ m e, add_shard crc m e.1 e.2) new_range
    (sort_by (λ x y, String.leb x.1 y.1) (map_to_list shards)).

(** The configuration servers in turn until one answers.
    [src/dfs/metaserver/src/master.rs:1429-1480 run_shard_map_refresh] *)
Fixpoint refresh_shard_map (addrs : list string) : Handler unit :=
  match addrs with
  | [] => Ret tt
  | addr :: addrs =>
      let* r := perform (Call addr ReqFetchShardMap) in
      match r with
      | Some (RespShards shards) => perform (LockMap (λ _, (tt, refreshed_map shards)))
      | _ => refresh_shard_map addrs
      end
  end.

(** ** Splitting and merging *)

(** `if addr.starts_with("http://") { addr } else { format!("http://{}", addr) }`. *)
Definition with_http (marker addr : string) : string :=
  if String.prefix marker addr then addr else "http://" +:+ addr.

(** The peers in turn until one ingests the files.
    [src/dfs/metaserver/src/master.rs:1665-1694 run_split_detector] *)
Fixpoint push_metadata (fs : list FileMetadata) (peers : list string) : Handler unit :=
  match peers with
  | [] => Ret tt
  | peer :: peers =>
      let* r := perform (Call (with_http "http" peer) (ReqIngestMetadata fs)) in
      match r with
      | Some (RespPlain _) => Ret tt
      | _ => push_metadata fs peers
      end
  end.

(** The task that reports a split: the configuration servers in turn until one
    accepts it, then the files go to the peers it allocated.
    [src/dfs/metaserver/src/master.rs:1641-1703 run_split_detector] *)
Fixpoint report_split (prefix new_shard_id : string) (fs : list FileMetadata) (addrs : list string) : Handler unit :=
  match addrs with
  | [] => Ret tt
  | addr :: addrs =>
      let* r := perform (Call (with_http "http://" addr) (ReqSplitShard (cfg_shard_id config) prefix new_shard_id [])) in
      match r with
      | Some (RespSplit resp new_shard_peers) =>
          if success resp then
            match fs, new_shard_peers with
            | [], _ | _, [] => Ret tt
            | _, _ => push_metadata fs new_shard_peers
            end
          else report_split prefix new_shard_id fs addrs
      | _ => report_split prefix new_shard_id fs addrs
      end
  end.

(** The task that reports a merge: all files go to the retained shard.
    [src/dfs/metaserver/src/master.rs:1754-1832 run_split_detector] *)
Fixpoint report_merge (victim : string) (addrs : list string) : Handler unit :=
  match addrs with
  | [] => Ret tt
  | addr :: addrs =>
      let* r := perform (Call (with_http "http://" addr) (ReqMergeShard victim (cfg_shard_id config))) in
      match r with
      | Some (RespPlain resp) =>
          if success resp then
            let* all_files := read_app (λ a, match a with AMaster s => (entries (files s)).*2 | AConfig _ => [] end) in
            let* peers := read_map (λ m, default [] (get_shard_peers m (cfg_shard_id config))) in
            push_metadata all_files peers
          else report_merge victim addrs
      | _ => report_merge victim addrs
      end
  end.

(** Registration, until one server accepts.
    [src/dfs/metaserver/src/master.rs:1510-1536 run_split_detector] *)
Fixpoint register (addrs : list string) : Handler bool :=
  match addrs with
  | [] => Ret false
  | addr :: addrs =>
      let* r := perform (Call addr (ReqRegisterMaster (cfg_master_address config) (cfg_shard_id config))) in
      match r with
      | Some (RespPlain resp) => if success resp then Ret true else register addrs
      | _ => register addrs
      end
  end.

(** A hot prefix: the files at and above it leave the shard, then the files that
    are to move are looked up, then the split is reported. The answer is whether
    the interval goes on.
    [src/dfs/metaserver/src/master.rs:1581-1713 run_split_detector] *)
Definition split (prefix : string) : Handler bool :=
  let* uuid := perform Uuid in
  let new_shard_id := cfg_shard_id config +:+ "-split-" +:+ default "" (head (split_on "-" uuid)) in
  let* r := perform (Submit (CMaster (SplitShard prefix new_shard_id []))) in
  match r with
  | RaftOk =>
      let* now := perform Instant in
      do* perform (LockMonitor (λ m, (tt, m <| last_split_time := now |>))) in
      let* files_to_move := read_app (λ a,
        match a with
        | AMaster s => (filter (λ e, String.prefix prefix e.1 = true) (entries (files s))).*2
        | AConfig _ => []
        end) in
      do* report_split prefix new_shard_id files_to_move (cfg_config_server_addrs config) in Ret true
  | RaftClosed => Ret false
  | _ => Ret true
  end.

(** Low load: a neighbour is merged into this shard, the predecessor first.
    [src/dfs/metaserver/src/master.rs:1715-1834 run_split_detector] *)
Definition merge (m : ThroughputMonitor) : Handler unit :=
  if f64_leb (f64_of_N 0) (merge_threshold_rps m) && f64_ltb (total_rps m) (merge_threshold_rps m) then
    let* neighbors := read_map (λ map, get_neighbors map (cfg_shard_id config)) in
    match (match neighbors.1 with Some n => Some n | None => neighbors.2 end) with
    | Some neighbor_id => report_merge neighbor_id (cfg_config_server_addrs config)
    | None => Ret tt
    end
  else Ret tt.

(** One interval; the answer is whether the master is registered. The reporting
    tasks run within the interval here; the code spawns them.
    [src/dfs/metaserver/src/master.rs:1483-1837 run_split_detector] *)
Definition run_split_detector (registered : bool) : Handler bool :=
  let* registered := (if registered then Ret true else register (cfg_config_server_addrs config)) in
  let* rates := read_monitor (λ m, rps <$> metrics m) in
  do* for_each (cfg_config_server_addrs config) (λ addr,
    do* perform (Call addr (ReqShardHeartbeat (cfg_master_address config) rates)) in Ret tt) in
  let* now := perform Instant in
  let* hot := read_monitor (hot_prefix now) in
  let* goes_on := (match hot with Some (prefix, _) => split prefix | None => Ret true end) in
  if goes_on : bool then
    let* m := read_monitor (λ m, m) in
    do* merge m in
    Ret registered
  else Ret registered.

(** ** Tiering moves exactly the cold files *)

Section tiering.
  Context (peers : Peers) (commits : submit_answer peers = RaftOk).
  Context (leads : leader_answer peers = Answered (Some (cfg_master_address config))).
Notation mrun p := (run (@run_effect crc peers) p).

Definition set_cold (now_ms : N) (f : FileMetadata) : FileMetadata := f <| moved_to_cold_at_ms := now_ms |>.

(** One candidate on the state. *)
Definition tier_file (now_ms : N) (s : MasterState) (e : string * list BlockInfo) : MasterState :=
  match queue_cold e.2 (AMaster s) with
  | AMaster s => apply_master_command (MoveToCold e.1 now_ms) s
  | AConfig _ => s
  end.

Definition cold_candidates (now_ms : N) (s : MasterState) : list (string * list BlockInfo) :=
  (λ f, (path f, blocks f)) <$> List.filter (is_cold now_ms) (entries (files s)).*2.

Lemma scan_tiering_run w s :
  w_app w = AMaster s →
  w_app (mrun scan_tiering w).2 = AMaster (foldl (tier_file (w_clock w)) s (cold_candidates (w_clock w) s)).
Proof.
  intros Ha. unfold scan_tiering, as_leader. rewrite run_bind. simpl. rewrite leads, decide_True by done.
  simpl. rewrite Ha. rewrite run_for_each. simpl.
  assert (∀ (l : list (string * list BlockInfo)) w' s', w_app w' = AMaster s' →
    w_app (foldl (λ w0 x, (mrun (do* modify_app (queue_cold x.2)
      in do* perform (Submit (CMaster (MoveToCold x.1 (w_clock w)))) in Ret tt) w0).2) w' l) =
    AMaster (foldl (tier_file (w_clock w)) s' l)) as Hgo.
  { induction l as [|e l IH]; intros w' s' Hs; [done|]. simpl. apply IH. rewrite commits. simpl. by rewrite Hs. }
  apply (Hgo (cold_candidates (w_clock w) s)). by destruct w.
Qed.

(** The commands that are queued for an address. *)
Definition cold_commands (a : string) (bs : list BlockInfo) : list ChunkServerCommand :=
  bs ≫= λ b, (λ _, cold_command (block_id b)) <$> filter (.= a) (locations b).

Lemma push_cold_locations bid locs s a :
  let s' := foldl (λ s loc, push_command loc (cold_command bid) s) s locs in
  files s' = files s ∧ pending s' a = pending s a ++ ((λ _, cold_command bid) <$> filter (.= a) locs).
Proof.
  revert s. induction locs as [|l locs IH]; intros s; [by rewrite app_nil_r|]. simpl.
  destruct (IH (push_command l (cold_command bid) s)) as [-> ->]. split; [done|]. rewrite filter_cons.
  unfold pending at 1. simpl. case_decide as Hl.
  - subst l. rewrite lookup_insert_eq. simpl. by rewrite <- app_assoc.
  - by rewrite lookup_insert_ne.
Qed.

Lemma queue_cold_pending bs s s' a :
  queue_cold bs (AMaster s) = AMaster s' → files s' = files s ∧ pending s' a = pending s a ++ cold_commands a bs.
Proof.
  simpl. intros [= <-]. revert s. induction bs as [|b bs IH]; intros s; [by rewrite app_nil_r|]. simpl.
  destruct (push_cold_locations (block_id b) (locations b) s a) as [Hf Hp].
  destruct (IH (foldl (λ s loc, push_command loc (cold_command (block_id b)) s) s (locations b))) as [-> ->].
  rewrite Hf, Hp. split; [done|]. by rewrite <- app_assoc.
Qed.

Lemma tier_file_effect now_ms e s a :
  files (tier_file now_ms s e) = alter (set_cold now_ms) e.1 (files s) ∧
  pending (tier_file now_ms s e) a = pending s a ++ cold_commands a e.2.
Proof.
  unfold tier_file. destruct (queue_cold e.2 (AMaster s)) as [s'|] eqn:Hq; [|done].
  destruct (queue_cold_pending _ _ _ a Hq) as [Hf Hp]. by rewrite <- Hf, <- Hp.
Qed.

Lemma tier_files_effect now_ms l s a :
  (∀ p, files (foldl (tier_file now_ms) s l) !! p =
     (λ f, if decide (p ∈ l.*1) then set_cold now_ms f else f) <$> files s !! p) ∧
  pending (foldl (tier_file now_ms) s l) a = pending s a ++ (l ≫= λ e, cold_commands a e.2).
Proof.
  revert s. induction l as [|e l IH]; intros s.
  - split; [|by rewrite app_nil_r]. intros p. simpl. by destruct (files s !! p).
  - simpl. destruct (IH (tier_file now_ms s e)) as [Hf Hp], (tier_file_effect now_ms e s a) as [Ef Ep].
    rewrite Hp, Ep, <- app_assoc. split; [|done]. intros p. rewrite Hf, Ef.
    destruct (decide (e.1 = p)) as [<-|Hne].
    + rewrite lookup_alter_eq. destruct (files s !! e.1) as [f|]; [|done]. simpl. f_equal.
      change (list_fmap _ _ fst l) with (l.*1). rewrite (decide_True (P := e.1 ∈ e.1 :: l.*1)) by (by left). by case_decide.
    + rewrite lookup_alter_ne by done. destruct (files s !! p) as [f|]; [|done]. simpl. f_equal.
      change (list_fmap _ _ fst l) with (l.*1). destruct (decide (p ∈ l.*1)) as [Hp'|Hp'].
      * by rewrite (decide_True (P := p ∈ e.1 :: l.*1)) by (by right).
      * rewrite decide_False; [done|]. by intros [->|?]%elem_of_cons.
Qed.

Lemma elem_of_candidates now_ms s p bs :
  files_keyed s →
  (p, bs) ∈ cold_candidates now_ms s ↔ ∃ f, files s !! p = Some f ∧ is_cold now_ms f = true ∧ bs = blocks f.
Proof.
  intros Hk. unfold cold_candidates. rewrite list_elem_of_fmap. split.
  - intros (f & [= -> ->] & Hf). apply list_elem_of_In, List.filter_In in Hf as [Hf%list_elem_of_In Hc].
    apply list_elem_of_fmap in Hf as ([k f'] & -> & Hf%elem_of_entries). simpl in *.
    exists f'. pose proof (Hk _ _ Hf) as Hkey. simpl in Hkey. subst k. done.
  - intros (f & Hf & Hc & ->). pose proof (Hk _ _ Hf) as Hkey. simpl in Hkey. exists f. rewrite Hkey. split; [done|].
    apply list_elem_of_In, List.filter_In. split; [|done]. apply list_elem_of_In, list_elem_of_fmap.
    exists (p, f). split; [done|]. by apply elem_of_entries.
Qed.

(** C24. Tiering: an undisturbed scan of the leader moves exactly the files that
    are replicated, not yet cold and have not been read for longer than the
    threshold; it tells each server that holds a replica of one of their blocks
    to move it, and nobody else anything. *)
Theorem scan_tiering_moves_cold w s :
  w_app w = AMaster s → files_keyed s →
  ∃ s', w_app (run (@run_effect crc peers) scan_tiering w).2 = AMaster s' ∧
    (∀ p, files s' !! p =
       (λ f, if is_cold (w_clock w) f then f <| moved_to_cold_at_ms := w_clock w |> else f) <$> files s !! p) ∧
    ∀ a, ∃ new, pending s' a = pending s a ++ new ∧
      ∀ c, c ∈ new ↔ ∃ p f b, files s !! p = Some f ∧ is_cold (w_clock w) f = true ∧ b ∈ blocks f ∧
        a ∈ locations b ∧ c = cold_command (block_id b).
Proof.
  intros Ha Hk. eexists. split; [by apply scan_tiering_run|].
  pose proof (elem_of_candidates (w_clock w) s) as Hin. split.
  - intros p. rewrite (proj1 (tier_files_effect (w_clock w) (cold_candidates (w_clock w) s) s "")).
    destruct (files s !! p) as [f|] eqn:Hf; [|done]. simpl. f_equal.
    assert (p ∈ (cold_candidates (w_clock w) s).*1 ↔ is_cold (w_clock w) f = true) as Hiff.
    { rewrite list_elem_of_fmap. split.
      - intros ([p' bs] & -> & (f' & Hf' & Hc & _)%Hin); [|done]. simpl in *. congruence.
      - intros Hc. exists (p, blocks f). split; [done|]. apply Hin; [done|]. eauto. }
    destruct (is_cold (w_clock w) f); [by rewrite decide_True by (by apply Hiff)|].
    by rewrite decide_False by (by intros ?%Hiff).
  - intros a. eexists. split; [apply tier_files_effect|]. intros c. rewrite list_elem_of_bind. split.
    + intros ([p bs] & Hc & (f & Hf & Hcold & ->)%Hin); [|done]. unfold cold_commands in Hc.
      apply list_elem_of_bind in Hc as (b & Hc & Hb). apply list_elem_of_fmap in Hc as (l & -> & Hl).
      apply list_elem_of_filter in Hl as [-> Hl]. by exists p, f, b.
    + intros (p & f & b & Hf & Hcold & Hb & Ha' & ->). exists (p, blocks f). split; [|apply Hin; eauto].
      apply list_elem_of_bind. exists b. split; [|done]. apply list_elem_of_fmap. exists a. split; [done|].
      by apply list_elem_of_filter.
Qed.

End tiering.

(** ** Splits and merges do not carry the files over *)

Lemma push_metadata_app peers fs addrs w : w_app (run (@run_effect crc peers) (push_metadata fs addrs) w).2 = w_app w.
Proof.
  revert w. induction addrs as [|a addrs IH]; intros w; [done|]. simpl.
  destruct (call_answer peers _ _) as [[]|]; simpl; try rewrite IH; done.
Qed.

(** The requests of a report: none of them carries a file. *)
Lemma report_empty_split peers prefix new_id addrs w :
  let w' := (run (@run_effect crc peers) (report_split prefix new_id [] addrs) w).2 in
  w_app w' = w_app w ∧
  ∃ sent, w_sent w' = w_sent w ++ sent ∧ Forall (λ e, ∀ fs, e.2 ≠ ReqIngestMetadata fs) sent.
Proof.
  revert w. induction addrs as [|a addrs IH]; intros w; simpl.
  { split; [done|]. exists []. split; [by rewrite app_nil_r|constructor]. }
  set (w1 := w <| w_sent := _ |>).
  assert (∀ w2, w_app w2 = w_app w1 → (∃ sent, w_sent w2 = w_sent w1 ++ sent ∧
      Forall (λ e : string * PeerRequest, ∀ fs, e.2 ≠ ReqIngestMetadata fs) sent) →
    w_app w2 = w_app w ∧ ∃ sent, w_sent w2 = w_sent w ++ sent ∧
      Forall (λ e : string * PeerRequest, ∀ fs, e.2 ≠ ReqIngestMetadata fs) sent) as Hstep.
  { intros w2 E (sent & Es & Hall). split; [done|]. eexists. rewrite Es. simpl. rewrite <- app_assoc. split; [done|].
    by constructor. }
  assert (∃ sent, w_sent w1 = w_sent w1 ++ sent ∧ Forall (λ e : string * PeerRequest, ∀ fs, e.2 ≠ ReqIngestMetadata fs) sent)
    as Hnil by (exists []; split; [by rewrite app_nil_r|constructor]).
  destruct (call_answer peers _ _) as [[r|sh|r new_peers]|].
  - apply Hstep; apply IH.
  - apply Hstep; apply IH.
  - destruct (success r); [by apply Hstep|]. apply Hstep; apply IH.
  - apply Hstep; apply IH.
Qed.

(** An undisturbed split loses its files: afterwards the shard has no file at or
    above the prefix, and none was sent to another shard. *)
Lemma split_loses_files peers prefix w s :
  submit_answer peers = RaftOk → w_app w = AMaster s →
  let w' := (run (@run_effect crc peers) (split prefix) w).2 in
  (∃ s', w_app w' = AMaster s' ∧ ∀ p, String.leb prefix p = true → files s' !! p = None) ∧
  ∃ sent, w_sent w' = w_sent w ++ sent ∧ Forall (λ e, ∀ fs, e.2 ≠ ReqIngestMetadata fs) sent.
Proof.
  intros Hc Ha. unfold split. rewrite run_bind. cbn [run perform run_effect fst snd].
  rewrite run_bind. cbn [run perform run_effect fst snd]. rewrite Hc.
  set (new_id := _ +:+ _). set (s1 := apply_master_command (SplitShard prefix new_id []) s).
  set (w1 := commit _ _ _). assert (w_app w1 = AMaster s1) as Ha1 by (subst w1; simpl; by rewrite Ha).
  assert (w_sent w1 = w_sent w) as Hs1 by done. clearbody w1.
  rewrite run_bind. cbn [run perform run_effect fst snd]. rewrite run_bind. cbn [run perform run_effect fst snd].
  rewrite run_bind. cbn [run read_app perform run_effect fst snd].
  assert (∀ p, String.leb prefix p = true → files s1 !! p = None) as Hnone.
  { intros p Hp. subst s1. unfold apply_master_command. by rewrite split_files_lookup, Hp. }
  set (fs := match w_app _ with AMaster _ => _ | AConfig _ => _ end).
  assert (fs = []) as ->.
  { subst fs. simpl. rewrite Ha1. destruct (filter _ (entries (files s1))) as [|[k f] l] eqn:E; [done|]. exfalso.
    assert ((k, f) ∈ filter (λ e, String.prefix prefix e.1 = true) (entries (files s1))) as Hin by (rewrite E; by left).
    apply list_elem_of_filter in Hin as [[suffix Hp]%prefix_strip Hk%elem_of_entries]. simpl in Hp. subst k.
    rewrite Hnone in Hk; [done|]. apply string_leb_app. }
  rewrite run_bind. match goal with |- context [run _ (report_split _ _ _ _) ?w] => set (w2 := w) end.
  destruct (report_empty_split peers prefix new_id (cfg_config_server_addrs config) w2) as [Happ Hsent].
  destruct (run _ (report_split _ _ _ _) w2) as [u w3]. simpl in *. rewrite Happ.
  split; [exists s1; by rewrite <- Ha1|]. by rewrite <- Hs1.
Qed.

(** The retained shard of a merge sends its own files to itself. *)
Lemma report_merge_own_files peers victim addrs w s :
  w_app w = AMaster s →
  ∃ sent, w_sent (run (@run_effect crc peers) (report_merge victim addrs) w).2 = w_sent w ++ sent ∧
    Forall (λ e, ∀ fs, e.2 = ReqIngestMetadata fs → fs = (entries (files s)).*2) sent.
Proof.
  revert w. induction addrs as [|a addrs IH]; intros w Ha; simpl.
  { exists []. split; [by rewrite app_nil_r|constructor]. }
  set (w1 := w <| w_sent := _ |>).
  assert (∀ sent' w2, w_sent w2 = w_sent w1 ++ sent' →
    Forall (λ e : string * PeerRequest, ∀ fs, e.2 = ReqIngestMetadata fs → fs = (entries (files s)).*2) sent' →
    ∃ sent, w_sent w2 = w_sent w ++ sent ∧
    Forall (λ e : string * PeerRequest, ∀ fs, e.2 = ReqIngestMetadata fs → fs = (entries (files s)).*2) sent) as Hstep.
  { intros sent' w2 E Hall. eexists. rewrite E. simpl. rewrite <- app_assoc. split; [done|]. by constructor. }
  assert (∀ w2, w_app w2 = AMaster s → ∃ sent,
    w_sent (run (@run_effect crc peers) (report_merge victim addrs) w2).2 = w_sent w2 ++ sent ∧
    Forall (λ e : string * PeerRequest, ∀ fs, e.2 = ReqIngestMetadata fs → fs = (entries (files s)).*2) sent) as IH'
    by auto.
  assert (∀ targets w2, ∃ sent, w_sent (run (@run_effect crc peers) (push_metadata (entries (files s)).*2 targets) w2).2 =
    w_sent w2 ++ sent ∧
    Forall (λ e : string * PeerRequest, ∀ fs, e.2 = ReqIngestMetadata fs → fs = (entries (files s)).*2) sent) as Hpush.
  { induction targets as [|x targets IHt]; intros w2; [exists []; split; [by rewrite app_nil_r|constructor]|]. simpl.
    assert (∃ sent, w_sent w2 ++ [(with_http "http" x, ReqIngestMetadata (entries (files s)).*2)] = w_sent w2 ++ sent ∧
      Forall (λ e : string * PeerRequest, ∀ fs, e.2 = ReqIngestMetadata fs → fs = (entries (files s)).*2) sent) as Hone.
    { eexists. split; [done|]. repeat constructor. by intros fs [=]. }
    destruct (call_answer peers _ _) as [[]|]; [exact Hone|..];
      (match goal with |- context [run _ _ ?w] => destruct (IHt w) as (sent & -> & Hall) end;
       eexists; simpl; rewrite <- app_assoc; split; [done|]; constructor; [by intros fs [=]|done]). }
  destruct (call_answer peers _ _) as [[r|sh|r np]|].
  - destruct (success r).
    + simpl. rewrite Ha. simpl. match goal with |- context [run _ (push_metadata _ ?t) ?w2] => destruct (Hpush t w2) as (sent & E & Hall) end.
      by eapply Hstep.
    + destruct (IH' w1) as (sent & E & Hall); [done|]. by eapply Hstep.
  - destruct (IH' w1) as (sent & E & Hall); [done|]. by eapply Hstep.
  - destruct (IH' w1) as (sent & E & Hall); [done|]. by eapply Hstep.
  - destruct (IH' w1) as (sent & E & Hall); [done|]. by eapply Hstep.
Qed.

End tasks.

(** ** An example *)

Module TieringDemo.

Definition config : MasterConfig := mkMasterConfig "shard-0" ["c:1"] "m:1" 10 20.
Definition file (p : string) (accessed : N) : FileMetadata :=
  mkFileMetadata p 1 [mkBlockInfo ("b" +:+ p) 1 ["a:1"; "b:1"] 0 0 0 1] "" 0 0 0 accessed 0 0.
Definition state : MasterState :=
  master_default <| files := {["/old" := file "/old" 1000; "/new" := file "/new" 95000]} |>.
Definition world : World :=
  mkWorld (AMaster state) new_range (monitor_new (f64_of_N 100) (f64_of_N 1) 60 100) 100000 [] [].
Definition leader : Peers := mkPeers (λ _ _, None) RaftOk Unanswered (Answered (Some "m:1")) 1.

End TieringDemo.

Lemma scan_tiering_moves_cold_witness :
  ∃ s', w_app (run (@run_effect (λ _, 0%N) TieringDemo.leader)
      (scan_tiering (H := map_order) TieringDemo.config) TieringDemo.world).2 = AMaster s' ∧
    moved_to_cold_at_ms <$> files s' !! "/old" = Some 100000%N ∧ moved_to_cold_at_ms <$> files s' !! "/new" = Some 0%N.
Proof.
  destruct (@scan_tiering_moves_cold map_order (λ _, 0%N) TieringDemo.config TieringDemo.leader eq_refl eq_refl
    TieringDemo.world TieringDemo.state) as (s' & Hrun & Hfiles & _).
  - reflexivity.
  - intros p f Hf. unfold TieringDemo.state in Hf. simpl in Hf.
    destruct (decide (p = "/old")) as [->|Hne]; [by injection Hf as <-|]. rewrite lookup_insert_ne in Hf by done.
    by apply lookup_singleton_Some in Hf as [<- <-].
  - exists s'. split; [exact Hrun|]. rewrite !Hfiles. split; reflexivity.
Defined.
