(* ===== verification/Checker.v ===== *)
(** * The linearizability checker

    dfs/client/src/checker.rs: histories of puts, gets, deletes and renames,
    their assembly from invoke and return entries, the backtracking search for
    keys that renames connect, and the timestamp check for single keys. The
    search is proved to decide linearizability against a sequential file
    store. [Diagnosis] has the reading of histories and the texts of failures. *)

From stdpp Require Import pretty.
From S2P Require Import Prelude BTree.

(** ** Data *)

(** One decoded line of the log. [src/dfs/client/src/checker.rs:16-37 HistoryEntry] *)
Record HistoryEntry : Type := mkHistoryEntry {
  he_id : N;
  he_client : string;
  entry_type : string;
  he_op : string;
  he_path : string;
  he_src : string;
  he_dst : string;
  he_data_hash : string;
  he_result : string;
  ts_ns : N;
}.

(** [src/dfs/client/src/checker.rs:40-46 OpType] *)
Inductive OpType : Type :=
  | Put (p data_hash : string)
  | Get (p : string)
  | Delete (p : string)
  | Rename (src dst : string).

(** [src/dfs/client/src/checker.rs:49-57 OpResult] *)
Inductive OpResult : Type :=
  | ResOk
  | ResNotFound
  | ResError
  | ResPutOk (data_hash : string)
  | ResGetOk (data_hash : string)
  | ResUnknown.

(** [src/dfs/client/src/checker.rs:60-68 Operation] *)
Record Operation : Type := mkOperation {
  op_id : N;
  op_client : string;
  op_kind : OpType;
  invoke_ts : N;
  return_ts : N;
  op_result : OpResult;
}.

#[global] Instance OpType_eq_dec : EqDecision OpType := ltac:(solve_decision).
#[global] Instance OpResult_eq_dec : EqDecision OpResult := ltac:(solve_decision).
#[global] Instance Operation_eq_dec : EqDecision Operation := ltac:(solve_decision).
#[global] Instance Operation_inhabited : Inhabited Operation :=
  populate (mkOperation 0 "" (Get "") 0 0 ResUnknown).

(** ** Assembling a history *)

(** [src/dfs/client/src/checker.rs:143-161 parse_op_type] *)
Definition parse_op_type (entry : HistoryEntry) : outcome OpType :=
  if decide (he_op entry = "put") then Ok (Put (he_path entry) (he_data_hash entry))
  else if decide (he_op entry = "get") then Ok (Get (he_path entry))
  else if decide (he_op entry = "delete") then Ok (Delete (he_path entry))
  else if decide (he_op entry = "rename") then Ok (Rename (he_src entry) (he_dst entry))
  else Err ("unknown op '" +:+ he_op entry +:+ "'").

(** `&s[7..]`. *)
Definition after7 (s : string) : string := String.substring 7 (String.length s - 7) s.

(** [src/dfs/client/src/checker.rs:163-176 parse_result] *)
Definition parse_result (entry : HistoryEntry) : OpResult :=
  let s := he_result entry in
  if decide (s = "ok") then ResOk
  else if decide (s = "not_found") then ResNotFound
  else if decide (s = "error") then ResError
  else if String.prefix "put_ok:" s then ResPutOk (after7 s)
  else if String.prefix "get_ok:" s then ResGetOk (after7 s)
  else ResUnknown.

(** The loop over the entries. [invokes] is the HashMap, [ops] the BTreeMap.
    [src/dfs/client/src/checker.rs:92-121 parse_history] *)
Fixpoint parse_entries (line_no : nat) (entries : list HistoryEntry) (invokes : gmap N HistoryEntry)
    (ops : list (N * Operation)) : outcome (gmap N HistoryEntry * list (N * Operation)) :=
  match entries with
  | [] => Ok (invokes, ops)
  | entry :: entries =>
      if decide (entry_type entry = "invoke") then
        parse_entries (S line_no) entries (<[he_id entry := entry]> invokes) ops
      else if decide (entry_type entry = "return") then
        match invokes !! he_id entry with
        | Some inv =>
            match parse_op_type inv with
            | Ok kind =>
                parse_entries (S line_no) entries (delete (he_id entry) invokes)
                  (bt_insert (he_id inv)
                     (mkOperation (he_id inv) (he_client inv) kind (ts_ns inv) (ts_ns entry) (parse_result entry))
                     ops)
            | Err e => Err e
            | Panic w => Panic w
            end
        | None => Err ("return without matching invoke for id " +:+ pretty (he_id entry))
        end
      else Err ("unknown entry type '" +:+ entry_type entry +:+ "' at line " +:+ pretty (S line_no))
  end.

(** The invokes without a return: crashed operations.
    [src/dfs/client/src/checker.rs:124-138 parse_history] *)
Fixpoint add_crashed (invokes : list (N * HistoryEntry)) (ops : list (N * Operation))
  : outcome (list (N * Operation)) :=
  match invokes with
  | [] => Ok ops
  | (id, inv) :: invokes =>
      match parse_op_type inv with
      | Ok kind => add_crashed invokes
                     (bt_insert id (mkOperation id (he_client inv) kind (ts_ns inv) 0 ResUnknown) ops)
      | Err e => Err e
      | Panic w => Panic w
      end
  end.

(** From the decoded lines; the crashed operations may be added in any order,
    which only matters for the error that is reported.
    [src/dfs/client/src/checker.rs:79-141 parse_history] *)
Definition parse_history (entries : list HistoryEntry) : outcome (list Operation) :=
  match parse_entries 0 entries ∅ [] with
  | Ok (invokes, ops) =>
      match add_crashed (map_to_list invokes) ops with
      | Ok ops => Ok ops.*2
      | Err e => Err e
      | Panic w => Panic w
      end
  | Err e => Err e
  | Panic w => Panic w
  end.

(** ** The search over linearizations *)

Notation RegisterState := (gmap string (option string)).

(** `state.get(path).cloned().unwrap_or(None)`. *)
Definition register (st : RegisterState) (p : string) : option string := mjoin (st !! p).

(** [src/dfs/client/src/checker.rs:651-678 apply_op] *)
Definition apply_op (op : Operation) (st : RegisterState) (applied : bool) : option RegisterState :=
  if negb applied then Some st
  else
    match op_kind op with
    | Put p h => Some (<[p := Some h]> st)
    | Get _ => Some st
    | Delete p => Some (<[p := None]> st)
    | Rename src dst =>
        match register st src with
        | Some v => Some (<[src := None]> (<[dst := Some v]> st))
        | None => Some st
        end
    end.

(** [src/dfs/client/src/checker.rs:560-648 check_and_apply] *)
Definition check_and_apply (op : Operation) (st : RegisterState) : option RegisterState :=
  match op_kind op with
  | Put p h =>
      match op_result op with
      | ResOk | ResPutOk _ => Some (<[p := Some h]> st)
      | ResError => None
      | _ => Some st
      end
  | Get p =>
      let current := register st p in
      match op_result op with
      | ResGetOk h => if decide (current = Some h) then Some st else None
      | ResNotFound | ResOk => if decide (current = None) then Some st else None
      | _ => Some st
      end
  | Delete p =>
      match op_result op with
      | ResOk => Some (<[p := None]> st)
      | ResNotFound => if decide (register st p = None) then Some st else None
      | _ => Some (<[p := None]> st)
      end
  | Rename src dst =>
      match op_result op with
      | ResOk =>
          match register st src with
          | Some v => Some (<[src := None]> (<[dst := Some v]> st))
          | None => None
          end
      | ResNotFound => if decide (register st src = None) then Some st else None
      | ResError => None
      | _ => Some st
      end
  end.

(** `op.return_ts == 0 || matches!(op.result, OpResult::Error | OpResult::Unknown)`.
    [src/dfs/client/src/checker.rs:415-419 check_rename_linked] *)
Definition ambiguous (op : Operation) : bool :=
  (return_ts op =? 0)%N || match op_result op with ResError | ResUnknown => true | _ => false end.

(** `remaining.remove(remaining.iter().position(|&x| x == idx).unwrap())`. *)
Fixpoint remove_idx (idx : nat) (remaining : list nat) : list nat :=
  match remaining with
  | [] => []
  | x :: remaining => if decide (x = idx) then remaining else x :: remove_idx idx remaining
  end.

Definition u64_max : N := 18446744073709551615.

(** The least return time of the remaining operations that returned.
    [src/dfs/client/src/checker.rs:474-485 try_linearize] *)
Definition min_return (ops : list Operation) (remaining : list nat) : N :=
  foldr (λ i m, let r := return_ts (ops !!! i) in if (0 <? r)%N then N.min r m else m) u64_max remaining.

(** One level of the search uses one unit of fuel; the number of remaining
    operations is enough. `linearized` only records the path and is left out.
    [src/dfs/client/src/checker.rs:452-556 try_linearize] *)
Fixpoint try_linearize (fuel : nat) (ops : list Operation) (st : RegisterState) (remaining : list nat)
    (limit_backtrack : bool) : bool :=
  match remaining with
  | [] => true
  | _ =>
      match fuel with
      | 0 => false
      | S fuel =>
          let rec st idx := try_linearize fuel ops st (remove_idx idx remaining) limit_backtrack in
          let both idx :=
            match apply_op (ops !!! idx) st true with Some new_state => rec new_state idx | None => false end
            || (negb limit_backtrack && rec st idx) in
          let m := min_return ops remaining in
          match List.filter (λ i, (invoke_ts (ops !!! i) <=? m)%N) remaining with
          | [] => existsb both remaining
          | candidates =>
              existsb (λ idx,
                if ambiguous (ops !!! idx) then both idx
                else
                  match check_and_apply (ops !!! idx) st with
                  | Some new_state => rec new_state idx
                  | None => false
                  end) candidates
          end
      end
  end.

(** The keys of an operation. *)
Definition keys_of (op : Operation) : list string :=
  match op_kind op with
  | Put p _ | Get p | Delete p => [p]
  | Rename src dst => [src; dst]
  end.

(** `sort_by_key(|o| o.invoke_ts)`. *)
Definition by_invoke (ops : list Operation) : list Operation :=
  sort_by (λ a b, (invoke_ts a <=? invoke_ts b)%N) ops.

(** [true] is `Ok(())`; [Diagnosis] has the text of a failure.
    [src/dfs/client/src/checker.rs:390-446 check_rename_linked] *)
Definition check_rename_linked (ops : list Operation) : bool :=
  let sorted := by_invoke ops in
  let initial_state := foldl (λ st k, <[k := None]> st) ∅ (mjoin (keys_of <$> sorted)) in
  let ambiguous_count := length (List.filter ambiguous sorted) in
  let limit_backtrack := 15 <? ambiguous_count in
  try_linearize (length sorted) sorted initial_state (seq 0 (length sorted)) limit_backtrack.

(** ** Single keys *)

(** `if op.return_ts > 0 { op.return_ts } else { op.invoke_ts }`.
    [src/dfs/client/src/checker.rs:283-287 check_single_register] *)
Definition effect_ts (op : Operation) : N := if (0 <? return_ts op)%N then return_ts op else invoke_ts op.

(** The write events of the sorted operations: time and value.
    [src/dfs/client/src/checker.rs:268-311 check_single_register] *)
Definition write_events (sorted : list Operation) : list (N * option string) :=
  (0%N, None) :: omap (λ op,
    match op_kind op with
    | Put _ h => Some (effect_ts op, Some h)
    | Delete _ => Some (effect_ts op, None)
    | _ => None
    end) sorted.

(** What a read saw; [None] for the reads that are skipped.
    [src/dfs/client/src/checker.rs:316-330 check_single_register] *)
Definition read_value (op : Operation) : option (option string) :=
  if (return_ts op =? 0)%N then None
  else
    match op_result op with
    | ResGetOk h => Some (Some h)
    | ResNotFound | ResOk => Some None
    | _ => None
    end.

(** [src/dfs/client/src/checker.rs:345-363 check_single_register] *)
Fixpoint read_visible (writes : list (N * option string)) (v : option string) (invoke ret : N) : bool :=
  match writes with
  | [] => false
  | (ts, w) :: writes =>
      if (ret <? ts)%N then false
      else if decide (w = v) then
        let overwritten_before_read :=
          match writes with (next, _) :: _ => (next <=? invoke)%N | [] => false end in
        if negb overwritten_before_read then true else read_visible writes v invoke ret
      else read_visible writes v invoke ret
  end.

(** [true] is `Ok(())`. [src/dfs/client/src/checker.rs:260-378 check_single_register] *)
Definition check_single_register (ops : list Operation) : bool :=
  let sorted := by_invoke ops in
  let writes := sort_by (λ a b, (a.1 <=? b.1)%N) (write_events sorted) in
  forallb (λ op,
    match op_kind op with
    | Get _ =>
        match read_value op with
        | Some v => read_visible writes v (invoke_ts op) (return_ts op)
        | None => true
        end
    | _ => true
    end) sorted.

(** ** The checker *)

(** [src/dfs/client/src/checker.rs:246-253 op_key] *)
Definition op_key (op : Operation) : option string :=
  match op_kind op with
  | Put p _ | Get p | Delete p => Some p
  | Rename _ _ => None
  end.

(** [src/dfs/client/src/checker.rs:188-197 check_linearizability] *)
Definition rename_keys (ops : list Operation) : gset string :=
  list_to_set (mjoin ((λ op, match op_kind op with Rename src dst => [src; dst] | _ => [] end) <$> ops)).

(** [src/dfs/client/src/checker.rs:204-214 check_linearizability] *)
Definition touches_rename (ops : list Operation) (op : Operation) : bool :=
  match op_key op with
  | Some k => bool_decide (k ∈ rename_keys ops)
  | None => true
  end.

(** The keys that no rename touches, one by one.
    [src/dfs/client/src/checker.rs:218-229 check_linearizability] *)
Definition check_simple (simple_ops : list Operation) : bool :=
  let keys := remove_dups (omap op_key simple_ops) in
  forallb (λ k, check_single_register (List.filter (λ op, bool_decide (op_key op = Some k)) simple_ops)) keys.

(** [true] is `Ok(())`. [src/dfs/client/src/checker.rs:186-243 check_linearizability] *)
Definition check_linearizability (ops : list Operation) : bool :=
  let linked_ops := List.filter (touches_rename ops) ops in
  let simple_ops := List.filter (λ op, negb (touches_rename ops op)) ops in
  check_simple simple_ops && match linked_ops with [] => true | _ => check_rename_linked linked_ops end.

(** ** Linearizability of a file store *)

(** The sequential specification: paths to content hashes. *)
Notation store := (gmap string string).

Definition store_effect (o : OpType) (st : store) : store :=
  match o with
  | Put p h => <[p := h]> st
  | Get _ => st
  | Delete p => delete p st
  | Rename src dst =>
      match st !! src with
      | Some v => <[dst := v]> (delete src st)
      | None => st
      end
  end.

(** The results the store may give. A delete of a missing file may answer
    either way. *)
Definition store_answers (o : OpType) (st : store) (r : OpResult) : Prop :=
  match o, r with
  | Put _ _, (ResOk | ResPutOk _) => True
  | Get p, ResGetOk h => st !! p = Some h
  | Get p, ResNotFound => st !! p = None
  | Delete _, ResOk => True
  | Delete p, ResNotFound => st !! p = None
  | Rename src _, ResOk => is_Some (st !! src)
  | Rename src _, ResNotFound => st !! src = None
  | _, _ => False
  end.

(** An operation whose outcome is unknown took effect or did not. *)
Definition store_step (op : Operation) (st st' : store) : Prop :=
  if ambiguous op then st' = store_effect (op_kind op) st ∨ st' = st
  else store_answers (op_kind op) st (op_result op) ∧ st' = store_effect (op_kind op) st.

Fixpoint store_run (l : list Operation) (st : store) : Prop :=
  match l with
  | [] => True
  | op :: l => ∃ st', store_step op st st' ∧ store_run l st'
  end.

(** [a] returned before [b] was invoked. *)
Definition precedes (a b : Operation) : Prop := (0 < return_ts a < invoke_ts b)%N.

Fixpoint real_time (l : list Operation) : Prop :=
  match l with
  | [] => True
  | a :: l => Forall (λ b, ¬ precedes b a) l ∧ real_time l
  end.

Definition linearizable (ops : list Operation) : Prop :=
  ∃ l, l ≡ₚ ops ∧ real_time l ∧ store_run l ∅.

(** The operations the workload records: a result that belongs to the kind of
    operation, a return that is not before the invocation, and no rename of a
    path to itself. *)
Definition result_fits (o : OpType) (r : OpResult) : Prop :=
  match o, r with
  | Put _ _, (ResOk | ResPutOk _) | Get _, (ResGetOk _ | ResNotFound) | Delete _, (ResOk | ResNotFound)
  | Rename _ _, (ResOk | ResNotFound) => True
  | _, (ResError | ResUnknown) => True
  | _, _ => False
  end.

Definition recorded (op : Operation) : Prop :=
  result_fits (op_kind op) (op_result op) ∧
  (invoke_ts op ≤ u64_max)%N ∧ (return_ts op = 0%N ∨ (invoke_ts op ≤ return_ts op)%N) ∧
  match op_kind op with Rename src dst => src ≠ dst | _ => True end.

(** *** The registers represent a store *)

Definition represents (reg : RegisterState) (st : store) : Prop := ∀ p, register reg p = st !! p.

Lemma represents_insert reg st p h : represents reg st → represents (<[p := Some h]> reg) (<[p := h]> st).
Proof.
  intros Hr q. unfold register. destruct (decide (p = q)) as [->|Hne].
  - by rewrite !lookup_insert_eq.
  - rewrite !lookup_insert_ne by done. apply Hr.
Qed.

Lemma represents_delete reg st p : represents reg st → represents (<[p := None]> reg) (delete p st).
Proof.
  intros Hr q. unfold register. destruct (decide (p = q)) as [->|Hne].
  - by rewrite lookup_insert_eq, lookup_delete_eq.
  - rewrite lookup_insert_ne, lookup_delete_ne by done. apply Hr.
Qed.

Lemma represents_rename reg st src dst v :
  represents reg st → src ≠ dst →
  represents (<[src := None]> (<[dst := Some v]> reg)) (<[dst := v]> (delete src st)).
Proof. intros Hr Hne. rewrite insert_delete_ne by done. by apply represents_delete, represents_insert. Qed.

(** Applying an operation unconditionally is its effect on the store. *)
Lemma apply_op_effect op reg st :
  recorded op → represents reg st →
  ∃ reg', apply_op op reg true = Some reg' ∧ represents reg' (store_effect (op_kind op) st).
Proof.
  intros (_ & _ & _ & Hren) Hr. unfold apply_op. simpl. destruct (op_kind op); simpl.
  - eauto using represents_insert.
  - eauto.
  - eauto using represents_delete.
  - rewrite (Hr src). destruct (st !! src); eauto using represents_rename.
Qed.

(** Checking an observed result is the answer of the store. *)
Lemma check_and_apply_sound op reg st reg' :
  recorded op → ambiguous op = false → represents reg st → check_and_apply op reg = Some reg' →
  store_answers (op_kind op) st (op_result op) ∧ represents reg' (store_effect (op_kind op) st).
Proof.
  intros (Hfit & _ & _ & Hren) Hamb Hr. unfold check_and_apply, ambiguous in *.
  apply orb_false_iff in Hamb as [_ Hamb].
  destruct (op_kind op) as [p h|p|p|src dst], (op_result op); simpl in *; try done; rewrite ?Hr;
    try (case_decide; [|done]); intros ?; simplify_eq/=; auto using represents_insert, represents_delete.
  - by rewrite delete_id.
  - destruct (st !! src) as [v|] eqn:E; simplify_eq/=. eauto using represents_rename.
  - rewrite H. auto.
Qed.

Lemma check_and_apply_complete op reg st :
  recorded op → ambiguous op = false → represents reg st → store_answers (op_kind op) st (op_result op) →
  ∃ reg', check_and_apply op reg = Some reg' ∧ represents reg' (store_effect (op_kind op) st).
Proof.
  intros (Hfit & _ & _ & Hren) Hamb Hr Hans. unfold check_and_apply, ambiguous in *.
  apply orb_false_iff in Hamb as [_ Hamb].
  destruct (op_kind op) as [p h|p|p|src dst], (op_result op); simpl in *; try done; rewrite ?Hr;
    try (rewrite decide_True by done); eauto using represents_insert, represents_delete.
  - eexists. split; [done|]. by rewrite delete_id.
  - destruct Hans as [v Hv]. rewrite Hv. eauto using represents_rename.
  - rewrite Hans. eauto.
Qed.

(** *** The search *)

Section search.
  Context (ops : list Operation).

Notation at_idx := (λ i : nat, ops !!! i).

Lemma remove_idx_perm i l : i ∈ l → l ≡ₚ i :: remove_idx i l.
Proof.
  induction l as [|x l IH]; [by intros ?%not_elem_of_nil|]. simpl. intros [->|Hi]%elem_of_cons.
  - by rewrite decide_True.
  - case_decide; [by subst|]. rewrite IH at 1 by done. apply Permutation_swap.
Qed.

Lemma le_min_return m l :
  (m ≤ min_return ops l ↔ m ≤ u64_max ∧ ∀ j, j ∈ l → 0 < return_ts (ops !!! j) → m ≤ return_ts (ops !!! j))%N.
Proof.
  induction l as [|x l IH]; simpl.
  { split; [|by intros [? _]]. intros ?. split; [done|]. by intros j ?%not_elem_of_nil. }
  setoid_rewrite elem_of_cons. destruct (0 <? return_ts (ops !!! x))%N eqn:E.
  - apply N.ltb_lt in E. rewrite N.min_glb_iff, IH. split; [|intros [? Hj]; eauto 10].
    intros (Hx & ? & Hl). split; [done|]. intros j [->|?] ?; eauto.
  - apply N.ltb_ge in E. rewrite IH. split; [|intros [? Hj]; eauto 10].
    intros (? & Hl). split; [done|]. intros j [->|?] ?; [lia|eauto].
Qed.

(** A candidate is an operation that none of the remaining ones precedes. *)
Lemma candidate_spec i l :
  recorded (ops !!! i) →
  (invoke_ts (ops !!! i) <=? min_return ops l)%N = true ↔
  Forall (λ j, ¬ precedes (ops !!! j) (ops !!! i)) l.
Proof.
  intros (_ & Hmax & _). rewrite N.leb_le, le_min_return, Forall_forall. unfold precedes. split.
  - intros [_ Hj] j Hin ?. specialize (Hj j Hin). lia.
  - intros Hj. split; [done|]. intros j Hin Hr. specialize (Hj j Hin). lia.
Qed.

Lemma min_return_attained l :
  (min_return ops l = u64_max ∨
   ∃ i, i ∈ l ∧ 0 < return_ts (ops !!! i) ∧ min_return ops l = return_ts (ops !!! i))%N.
Proof.
  induction l as [|x l IH]; simpl; [auto|]. destruct (0 <? return_ts (ops !!! x))%N eqn:E.
  - apply N.ltb_lt in E. destruct (N.min_spec (return_ts (ops !!! x)) (min_return ops l)) as [[_ ->]|[_ ->]].
    + right. exists x. split; [apply list_elem_of_here|done].
    + destruct IH as [->|(i & ? & ? & ->)]; [auto|]. right. exists i. split; [by right|done].
  - destruct IH as [->|(i & ? & ? & ->)]; [auto|]. right. exists i. split; [by right|done].
Qed.

Lemma candidates_exist l :
  l ≠ [] → (∀ i, i ∈ l → recorded (ops !!! i)) →
  List.filter (λ i, (invoke_ts (ops !!! i) <=? min_return ops l)%N) l ≠ [].
Proof.
  intros Hl Hrec. assert (∃ i, i ∈ l ∧ (invoke_ts (ops !!! i) <=? min_return ops l)%N = true) as (i & Hi & Hle).
  { destruct (min_return_attained l) as [E|(i & Hi & Hpos & E)]; rewrite E.
    - destruct l as [|i l]; [done|]. exists i. split; [by left|]. apply N.leb_le.
      by destruct (Hrec i) as (_ & ? & _); [by left|].
    - exists i. split; [done|]. apply N.leb_le. destruct (Hrec i Hi) as (_ & _ & [?|?] & _); [lia|done]. }
  intros Hnil. assert (In i (List.filter (λ i, (invoke_ts (ops !!! i) <=? min_return ops l)%N) l)) as Hin.
  { apply List.filter_In. split; [by apply list_elem_of_In|done]. }
  by rewrite Hnil in Hin.
Qed.

Lemma search_sound fuel reg st l limit :
  (∀ i, i ∈ l → recorded (ops !!! i)) → represents reg st →
  try_linearize fuel ops reg l limit = true →
  ∃ order, order ≡ₚ at_idx <$> l ∧ real_time order ∧ store_run order st.
Proof.
  revert reg st l. induction fuel as [|fuel IH]; intros reg st l Hrec Hrep.
  { destruct l; [|done]. intros _. by exists []. }
  destruct (decide (l = [])) as [->|Hne]; [intros _; by exists []|].
  pose proof (candidates_exist l Hne Hrec) as Hcand. cbn [try_linearize].
  destruct l as [|x0 l0] eqn:El; [done|]. rewrite <- El in *. clear x0 l0 El.
  set (cands := List.filter _ l) in *. destruct cands as [|c0 cs] eqn:Ec; [done|]. rewrite <- Ec. clear Ec.
  intros (idx & Hin & Hrun)%existsb_exists. subst cands. apply List.filter_In in Hin as [Hin Hc].
  apply list_elem_of_In in Hin. pose proof (Hrec _ Hin) as Hop. apply candidate_spec in Hc; [|done].
  assert (∀ reg' st', represents reg' st' → store_step (ops !!! idx) st st' →
    try_linearize fuel ops reg' (remove_idx idx l) limit = true →
    ∃ order, order ≡ₚ at_idx <$> l ∧ real_time order ∧ store_run order st) as Hnext.
  { intros reg' st' Hrep' Hstep Htry. pose proof (remove_idx_perm idx l Hin) as Hp.
    destruct (IH reg' st' (remove_idx idx l)) as (order & Ho & Hrt & Hsr); [|done|done|].
    { intros i Hi. apply Hrec. rewrite Hp. by right. }
    exists ((ops !!! idx) :: order). split; [by rewrite Hp, Ho|]. split; [|simpl; eauto].
    split; [|done]. rewrite Ho, Forall_fmap. rewrite Hp in Hc. by apply Forall_cons in Hc as [_ Hc]. }
  destruct (ambiguous (ops !!! idx)) eqn:Hamb.
  - destruct (apply_op_effect _ reg st Hop Hrep) as (reg' & Ha & Hrep'). rewrite Ha in Hrun.
    apply orb_true_iff in Hrun as [Hrun|[_ Hrun]%andb_true_iff].
    + eapply Hnext; [exact Hrep'| |exact Hrun]. unfold store_step. rewrite Hamb. auto.
    + eapply Hnext; [exact Hrep| |exact Hrun]. unfold store_step. rewrite Hamb. auto.
  - destruct (check_and_apply (ops !!! idx) reg) as [reg'|] eqn:Ha; [|done].
    destruct (check_and_apply_sound _ reg st reg' Hop Hamb Hrep Ha) as [Hans Hrep'].
    eapply Hnext; [exact Hrep'| |exact Hrun]. unfold store_step. by rewrite Hamb.
Qed.

(** The first operation of an order is a candidate, and the search may take it. *)
Lemma first_is_candidate l op order :
  (∀ i, i ∈ l → recorded (ops !!! i)) → op :: order ≡ₚ at_idx <$> l → real_time (op :: order) →
  ∃ idx, idx ∈ l ∧ ops !!! idx = op ∧ order ≡ₚ at_idx <$> remove_idx idx l ∧
    (invoke_ts (ops !!! idx) <=? min_return ops l)%N = true.
Proof.
  intros Hrec Hperm [Hfirst _]. assert (op ∈ at_idx <$> l) as Hop by (rewrite <- Hperm; by left).
  apply list_elem_of_fmap in Hop as (idx & -> & Hin). exists idx. split; [done|]. split; [done|].
  pose proof (remove_idx_perm idx l Hin) as Hp. rewrite Hp in Hperm at 1. rewrite fmap_cons in Hperm.
  apply Permutation_cons_inv in Hperm. split; [done|]. apply candidate_spec; [by apply Hrec|].
  rewrite Hp. constructor.
  - destruct (Hrec idx Hin) as (_ & _ & Hret & _). unfold precedes. lia.
  - rewrite Hperm, Forall_fmap in Hfirst. exact Hfirst.
Qed.

Lemma search_complete fuel reg st l order :
  length l ≤ fuel → (∀ i, i ∈ l → recorded (ops !!! i)) → represents reg st →
  order ≡ₚ at_idx <$> l → real_time order → store_run order st →
  try_linearize fuel ops reg l false = true.
Proof.
  revert reg st l order. induction fuel as [|fuel IH]; intros reg st l order Hlen Hrec Hrep Hperm Hrt Hsr.
  { by destruct l; simpl in Hlen; [|lia]. }
  destruct (decide (l = [])) as [->|Hne]; [done|]. cbn [try_linearize].
  destruct l as [|x0 l0] eqn:El; [done|]. rewrite <- El in *. clear x0 l0 El.
  destruct order as [|op order]; [by apply Permutation_length in Hperm; destruct l|].
  destruct (first_is_candidate l op order Hrec Hperm Hrt) as (idx & Hin & Hop & Hrest & Hc).
  set (cands := List.filter _ l). assert (In idx cands) as Hcin.
  { apply List.filter_In. split; [by apply list_elem_of_In|done]. }
  destruct cands as [|c0 cs] eqn:Ec; [done|]. rewrite <- Ec in *. clear Ec.
  apply existsb_exists. exists idx. split; [done|]. simpl in Hrt, Hsr. destruct Hsr as (st' & Hstep & Hsr).
  pose proof (Hrec idx Hin) as Hrecop.
  assert (∀ reg', represents reg' st' → try_linearize fuel ops reg' (remove_idx idx l) false = true) as Hnext.
  { intros reg' Hrep'. pose proof (remove_idx_perm idx l Hin) as Hp. eapply IH; [|..|exact Hsr]; [|..|done|tauto].
    - apply Permutation_length in Hp. simpl in Hp. lia.
    - intros i Hi. apply Hrec. rewrite Hp. by right.
    - done. }
  unfold store_step in Hstep. rewrite <- Hop in Hstep. destruct (ambiguous (ops !!! idx)) eqn:Hamb.
  - destruct (apply_op_effect _ reg st Hrecop Hrep) as (reg' & -> & Hrep').
    apply orb_true_iff. destruct Hstep as [-> | ->]; [left|right]; by apply Hnext.
  - destruct Hstep as [Hans ->].
    destruct (check_and_apply_complete _ reg st Hrecop Hamb Hrep Hans) as (reg' & -> & Hrep').
    by apply Hnext.
Qed.

End search.

Lemma indices_fmap (ops : list Operation) : (λ i, ops !!! i) <$> seq 0 (length ops) = ops.
Proof.
  apply list_eq. intros i. rewrite list_lookup_fmap. destruct (decide (i < length ops)) as [Hi|Hi].
  - rewrite lookup_seq_lt by done. simpl. rewrite list_lookup_lookup_total_lt by done. done.
  - by rewrite !lookup_ge_None_2 by (rewrite ?length_seq; lia).
Qed.

Lemma initial_represents ks reg : represents reg ∅ → represents (foldl (λ st k, <[k := None]> st) reg ks) ∅.
Proof.
  revert reg. induction ks as [|k ks IH]; intros reg Hr; simpl; [done|]. apply IH.
  rewrite <- (delete_empty k). by apply represents_delete.
Qed.

Lemma rename_check_sound ops :
  Forall recorded ops → check_rename_linked ops = true → linearizable ops.
Proof.
  intros Hrec Hrun. unfold check_rename_linked, by_invoke in Hrun.
  set (sorted := sort_by _ ops) in Hrun. assert (sorted ≡ₚ ops) as Hp by apply sort_by_perm.
  rewrite <- Hp in Hrec. eapply (search_sound sorted _ _ ∅) in Hrun as (order & Ho & Hrt & Hsr).
  - exists order. split; [by rewrite Ho, indices_fmap|done].
  - intros i Hi. apply elem_of_seq in Hi. eapply Forall_lookup_total_1; [done|lia].
  - apply initial_represents. done.
Qed.

Lemma rename_check_complete ops :
  Forall recorded ops → length (List.filter ambiguous ops) ≤ 15 → linearizable ops →
  check_rename_linked ops = true.
Proof.
  intros Hrec Hamb (order & Ho & Hrt & Hsr). unfold check_rename_linked, by_invoke.
  set (sorted := sort_by _ ops). assert (sorted ≡ₚ ops) as Hp by apply sort_by_perm.
  assert (length (List.filter ambiguous sorted) ≤ 15) as Hle.
  { rewrite (Permutation_length (l' := List.filter ambiguous ops)); [done|].
    clear -Hp. induction Hp; simpl; repeat case_match; eauto using Permutation. }
  rewrite (proj2 (Nat.ltb_ge _ _) Hle). rewrite <- Hp in Hrec.
  eapply (search_complete sorted _ _ ∅ _ order); [by rewrite length_seq| | | |done|done].
  - intros i Hi. apply elem_of_seq in Hi. eapply Forall_lookup_total_1; [done|lia].
  - by apply initial_represents.
  - by rewrite indices_fmap, Hp.
Qed.

(** The search for keys connected by renames decides linearizability: a
    recorded history that it accepts has an order that respects real time and
    that a sequential file store explains, and when at most fifteen operations
    have an unknown outcome it accepts every history that has one. *)
Theorem rename_check_decides ops :
  Forall recorded ops →
  (check_rename_linked ops = true → linearizable ops) ∧
  (length (List.filter ambiguous ops) ≤ 15 → linearizable ops → check_rename_linked ops = true).
Proof. intros Hrec. split; [by apply rename_check_sound|by apply rename_check_complete]. Qed.

(** *** Examples *)

Definition entry (id : N) (ty op p src dst hash res : string) (ts : N) : HistoryEntry :=
  mkHistoryEntry id "c1" ty op p src dst hash res ts.

(** The first history of run_self_tests: a put, a rename, and two reads. *)
Definition good_rename : list HistoryEntry :=
  [entry 1 "invoke" "put" "/a" "" "" "h1" "" 100; entry 1 "return" "put" "/a" "" "" "" "ok" 200;
   entry 2 "invoke" "rename" "" "/a" "/b" "" "" 300; entry 2 "return" "rename" "" "/a" "/b" "" "ok" 400;
   entry 3 "invoke" "get" "/b" "" "" "" "" 500; entry 3 "return" "get" "/b" "" "" "" "get_ok:h1" 600;
   entry 4 "invoke" "get" "/a" "" "" "" "" 500; entry 4 "return" "get" "/a" "" "" "" "not_found" 600].

Definition good_ops : list Operation :=
  match parse_history good_rename with Ok ops => ops | _ => [] end.

Lemma rename_check_decides_witness :
  length good_ops = 4 ∧ check_rename_linked good_ops = true ∧ linearizable good_ops.
Proof.
  split; [vm_compute; reflexivity|]. split; [vm_compute; reflexivity|].
  apply rename_check_decides; [|vm_compute; reflexivity].
  repeat (apply Forall_cons; split; [repeat split; try exact I; try (right; discriminate); discriminate|]).
  apply Forall_nil. exact I.
Defined.

(** The check of single keys assumes that a write takes effect when it
    returns: a read that overlaps a put, returns before it and sees its value
    is reported as a violation, although the history is linearizable. *)
Theorem single_register_false_alarm :
  let ops := [mkOperation 1 "c1" (Put "/f" "v1") 100 400 (ResPutOk "v1");
              mkOperation 2 "c2" (Get "/f") 200 300 (ResGetOk "v1")] in
  Forall recorded ops ∧ linearizable ops ∧ check_linearizability ops = false.
Proof.
  intros ops. split; [|split; [|vm_compute; reflexivity]].
  - repeat (apply Forall_cons; split; [repeat split; try exact I; try (right; discriminate); discriminate|]).
    by apply Forall_nil.
  - exists ops. split; [done|]. split.
    + split; [|split; [by apply Forall_nil|done]]. apply Forall_singleton. unfold precedes. simpl. lia.
    + exists {["/f" := "v1"]}. split; [by split|]. exists {["/f" := "v1"]}. by repeat split.
Qed.
