(* ===== verification/Diagnosis.v ===== *)
(** * The verdict of the linearizability checker

    dfs/client/src/checker.rs: reading a history line by line, the violations
    that the checks report with their texts, the greedy diagnosis of a history
    that has no linearization, and the self-tests. The verdicts are proved to
    agree with the Boolean checks of Checker.v, and the diagnosis to name
    exactly the operations that the store refuses at its end. The JSON decoder
    is a parameter; the byte-wise [debug_byte] covers ASCII. *)

From stdpp Require Import pretty.
From S2P Require Import Prelude Text BTree Checker.

(** ** Reading the lines *)

Section reading.
  (** `serde_json::from_str` of a line. *)
  Context (from_str : string → outcome HistoryEntry).

(** The error of one line. *)
Definition at_line (line_no : nat) (e : string) : string := "line " +:+ pretty (S line_no) +:+ ": " +:+ e.

(** `reader.lines().enumerate()`: blank lines are skipped and counted.
    [src/dfs/client/src/checker.rs:83-121 parse_history] *)
Fixpoint parse_lines (line_no : nat) (lines : list (outcome string)) (invokes : gmap N HistoryEntry)
    (ops : list (N * Operation)) : outcome (gmap N HistoryEntry * list (N * Operation)) :=
  match lines with
  | [] => Ok (invokes, ops)
  | Err e :: _ => Err (at_line line_no e)
  | Panic w :: _ => Panic w
  | Ok line :: lines =>
      let trimmed := trim line in
      if decide (trimmed = "") then parse_lines (S line_no) lines invokes ops
      else
        match from_str trimmed with
        | Ok entry =>
            match parse_entries line_no [entry] invokes ops with
            | Ok (invokes, ops) => parse_lines (S line_no) lines invokes ops
            | Err e => Err e
            | Panic w => Panic w
            end
        | Err e => Err (at_line line_no e)
        | Panic w => Panic w
        end
  end.

(** [src/dfs/client/src/checker.rs:79-141 parse_history] *)
Definition read_history (lines : list (outcome string)) : outcome (list Operation) :=
  match parse_lines 0 lines ∅ [] with
  | Ok (invokes, ops) =>
      match add_crashed (map_to_list invokes) ops with
      | Ok ops => Ok ops.*2
      | Err e => Err e
      | Panic w => Panic w
      end
  | Err e => Err e
  | Panic w => Panic w
  end.

(** A line is blank, or decodes to an entry. *)
Inductive decoded : list (outcome string) → list HistoryEntry → Prop :=
  | decoded_nil : decoded [] []
  | decoded_blank line lines entries :
      trim line = "" → decoded lines entries → decoded (Ok line :: lines) entries
  | decoded_entry line lines entry entries :
      trim line ≠ "" → from_str (trim line) = Ok entry → decoded lines entries →
      decoded (Ok line :: lines) (entry :: entries).

(** Line numbers only appear in errors. *)
Lemma parse_entries_line n m entries invokes ops r :
  parse_entries n entries invokes ops = Ok r → parse_entries m entries invokes ops = Ok r.
Proof.
  revert n m invokes ops. induction entries as [|e entries IH]; intros n m invokes ops; [done|].
  cbn [parse_entries]. repeat case_match; by eauto.
Qed.

Lemma parse_entries_cons n entry entries invokes ops :
  parse_entries n (entry :: entries) invokes ops =
  match parse_entries n [entry] invokes ops with
  | Ok (invokes, ops) => parse_entries (S n) entries invokes ops
  | Err e => Err e
  | Panic w => Panic w
  end.
Proof. cbn [parse_entries]. by repeat case_match; simplify_eq. Qed.

Lemma parse_lines_decoded n m lines entries invokes ops r :
  decoded lines entries →
  (parse_lines n lines invokes ops = Ok r ↔ parse_entries m entries invokes ops = Ok r).
Proof.
  intros Hd. revert n m invokes ops. induction Hd as [|line lines entries Hb Hd IH|line lines entry entries Hb Hf Hd IH];
    intros n m invokes ops; [done| |].
  - cbn [parse_lines]. rewrite decide_True by done. apply IH.
  - cbn [parse_lines]. rewrite decide_False by done. rewrite Hf, (parse_entries_cons m entry entries).
    destruct (parse_entries n [entry] invokes ops) as [[i o]|e|w] eqn:E.
    + rewrite (parse_entries_line n m [entry] invokes ops (i, o) E). apply IH.
    + destruct (parse_entries m [entry] invokes ops) as [[i o]| |] eqn:E'; try done.
      apply (parse_entries_line m n) in E'. congruence.
    + destruct (parse_entries m [entry] invokes ops) as [[i o]| |] eqn:E'; try done.
      apply (parse_entries_line m n) in E'. congruence.
Qed.

(** A successful read decoded every line. *)
Lemma parse_lines_inv n lines invokes ops r :
  parse_lines n lines invokes ops = Ok r → ∃ entries, decoded lines entries.
Proof.
  revert n invokes ops. induction lines as [|[line|e|w] lines IH]; intros n invokes ops; cbn [parse_lines]; try done.
  { exists []. constructor. }
  case_decide as Hb; [intros (entries & ?)%IH; eauto using decoded|].
  destruct (from_str (trim line)) as [entry| |] eqn:Hf; try done.
  destruct (parse_entries n [entry] invokes ops) as [[i o]| |]; try done.
  intros (entries & ?)%IH. eauto using decoded.
Qed.

(** Reading a file gives the operations of its entries, whatever blank lines
    stand between them, and a file that is read has only such lines. *)
Theorem read_history_spec lines ops :
  read_history lines = Ok ops ↔ ∃ entries, decoded lines entries ∧ parse_history entries = Ok ops.
Proof.
  unfold read_history, parse_history. split.
  - destruct (parse_lines 0 lines ∅ []) as [[i o]| |] eqn:E; try done. intros Hc.
    destruct (parse_lines_inv _ _ _ _ _ E) as [entries Hd]. exists entries. split; [done|].
    apply (parse_lines_decoded 0 0 _ entries _ _ _ Hd) in E. by rewrite E.
  - intros (entries & Hd & Hc). destruct (parse_entries 0 entries ∅ []) as [[i o]| |] eqn:E; try done.
    apply (parse_lines_decoded 0 0 lines entries _ _ _ Hd) in E. by rewrite E.
Qed.

End reading.

(** ** Texts *)

Definition quote : string := String (ascii_of_nat 34) "".
Definition backslash : string := String (ascii_of_nat 92) "".

(** A hexadecimal digit of `\u{..}`, in lower case. *)
Definition hex_lower (n : nat) : string :=
  String (ascii_of_nat (if n <? 10 then 48 + n else 87 + n)) "".

(** One byte of `{:?}` of a string. *)
Definition debug_byte (a : ascii) : string :=
  let n := nat_of_ascii a in
  if n =? 34 then backslash +:+ quote
  else if n =? 92 then backslash +:+ backslash
  else if n =? 0 then backslash +:+ "0"
  else if n =? 9 then backslash +:+ "t"
  else if n =? 10 then backslash +:+ "n"
  else if n =? 13 then backslash +:+ "r"
  else if (n <? 32) || (n =? 127) then
    backslash +:+ "u{" +:+ (if n <? 16 then "" else hex_lower (n / 16)) +:+ hex_lower (n mod 16) +:+ "}"
  else String a "".

Fixpoint debug_bytes (s : string) : string :=
  match s with
  | EmptyString => ""
  | String a s => debug_byte a +:+ debug_bytes s
  end.

(** `{:?}` of a String and of an Option<String>. *)
Definition debug_str (s : string) : string := quote +:+ debug_bytes s +:+ quote.
Definition debug_opt (o : option string) : string :=
  match o with Some s => "Some(" +:+ debug_str s +:+ ")" | None => "None" end.

(** The derived Debug. [src/dfs/client/src/checker.rs:39-46 OpType] *)
Definition debug_type (o : OpType) : string :=
  match o with
  | Put p h => "Put { path: " +:+ debug_str p +:+ ", data_hash: " +:+ debug_str h +:+ " }"
  | Get p => "Get { path: " +:+ debug_str p +:+ " }"
  | Delete p => "Delete { path: " +:+ debug_str p +:+ " }"
  | Rename src dst => "Rename { src: " +:+ debug_str src +:+ ", dst: " +:+ debug_str dst +:+ " }"
  end.

(** The derived Debug. [src/dfs/client/src/checker.rs:48-57 OpResult] *)
Definition debug_result (r : OpResult) : string :=
  match r with
  | ResOk => "Ok"
  | ResNotFound => "NotFound"
  | ResError => "Error"
  | ResPutOk h => "PutOk { data_hash: " +:+ debug_str h +:+ " }"
  | ResGetOk h => "GetOk { data_hash: " +:+ debug_str h +:+ " }"
  | ResUnknown => "Unknown"
  end.

(** What the checks report, one constructor per text. *)
Inductive Violation : Type :=
  | InvisibleRead (key : string) (id : N) (value : option string) (invoke ret : N)
  | StaleRead (id : N) (p : string) (r : OpResult) (current : option string)
  | ValueLost (id : N) (src dst : string)
  | ValueDuplicated (id : N) (src dst : string)
  | RenameViolation (id : N) (src dst : string) (r : OpResult) (src_v dst_v : option string)
  | LinearizationViolation (id : N) (o : OpType) (r : OpResult)
  | NoOrder.

(** `expected` of a stale read. [src/dfs/client/src/checker.rs:725-729 diagnose_violations] *)
Definition expected (r : OpResult) : string :=
  match r with
  | ResGetOk h => "Some(" +:+ h +:+ ")"
  | ResNotFound => "None"
  | _ => debug_result r
  end.

(** Of check_single_register (365-369) and check_rename_linked (438-440) too.
    [src/dfs/client/src/checker.rs:730-761 diagnose_violations] *)
Definition message (v : Violation) : string :=
  match v with
  | InvisibleRead key id value invoke ret =>
      "key '" +:+ key +:+ "': read op " +:+ pretty id +:+ " returned " +:+ debug_opt value +:+
      " but no valid write visible in [" +:+ pretty invoke +:+ ", " +:+ pretty ret +:+ "]"
  | StaleRead id p r current =>
      "stale read: op " +:+ pretty id +:+ " GET '" +:+ p +:+ "' returned " +:+ expected r +:+
      " but state has " +:+ debug_opt current
  | ValueLost id src dst =>
      "value lost: rename op " +:+ pretty id +:+ " from '" +:+ src +:+ "' to '" +:+ dst +:+
      "' — both src and dst are empty"
  | ValueDuplicated id src dst =>
      "value duplicated: rename op " +:+ pretty id +:+ " from '" +:+ src +:+ "' to '" +:+ dst +:+
      "' — both src and dst have data"
  | RenameViolation id src dst r src_v dst_v =>
      "rename violation: op " +:+ pretty id +:+ " from '" +:+ src +:+ "' to '" +:+ dst +:+ "' result=" +:+
      debug_result r +:+ " but src=" +:+ debug_opt src_v +:+ ", dst=" +:+ debug_opt dst_v
  | LinearizationViolation id o r =>
      "linearization violation: op " +:+ pretty id +:+ " " +:+ debug_type o +:+ " result=" +:+ debug_result r
  | NoOrder => "history is not linearizable (no valid ordering found)"
  end.

(** `Result<(), Vec<String>>`, before the texts are made. *)
Inductive verdict : Type :=
  | Passed
  | Failed (violations : list Violation).

(** `if violations.is_empty() { Ok(()) } else { Err(violations) }`. *)
Definition verdict_of (vs : list Violation) : verdict := match vs with [] => Passed | _ => Failed vs end.

Definition violations_of (v : verdict) : list Violation := match v with Passed => [] | Failed vs => vs end.

(** ** The greedy diagnosis *)

(** What the pass tries on one operation.
    [src/dfs/client/src/checker.rs:698-712 diagnose_violations] *)
Definition greedy_step (op : Operation) (st : RegisterState) : option RegisterState :=
  if ambiguous op then apply_op op st true else check_and_apply op st.

(** One iteration of `while progress`: the flags, the state and whether an
    operation was taken. [src/dfs/client/src/checker.rs:693-714 diagnose_violations] *)
Fixpoint greedy_pass (sorted : list Operation) (processed : list bool) (st : RegisterState)
  : list bool * RegisterState * bool :=
  match sorted, processed with
  | op :: sorted, true :: processed =>
      let '(processed, st, progress) := greedy_pass sorted processed st in (true :: processed, st, progress)
  | op :: sorted, false :: processed =>
      match greedy_step op st with
      | Some ns => let '(processed, st, _) := greedy_pass sorted processed ns in (true :: processed, st, true)
      | None =>
          let '(processed, st, progress) := greedy_pass sorted processed st in (false :: processed, st, progress)
      end
  | _, _ => (processed, st, false)
  end.

(** Every pass but the last takes an operation, so that one unit of fuel more
    than there are operations is enough.
    [src/dfs/client/src/checker.rs:692-714 diagnose_violations] *)
Fixpoint greedy_loop (fuel : nat) (sorted : list Operation) (processed : list bool) (st : RegisterState)
  : list bool * RegisterState :=
  match fuel with
  | 0 => (processed, st)
  | S fuel =>
      let '(processed, st, progress) := greedy_pass sorted processed st in
      if progress then greedy_loop fuel sorted processed st else (processed, st)
  end.

(** The report of one operation that was not taken.
    [src/dfs/client/src/checker.rs:719-762 diagnose_violations] *)
Definition report (st : RegisterState) (op : Operation) : Violation :=
  match op_kind op with
  | Get p => StaleRead (op_id op) p (op_result op) (register st p)
  | Rename src dst =>
      let src_v := register st src in
      let dst_v := register st dst in
      if bool_decide (src_v = None) && bool_decide (dst_v = None) && bool_decide (op_result op = ResOk) then
        ValueLost (op_id op) src dst
      else if negb (bool_decide (src_v = None)) && negb (bool_decide (dst_v = None)) &&
              bool_decide (op_result op = ResOk) then
        ValueDuplicated (op_id op) src dst
      else RenameViolation (op_id op) src dst (op_result op) src_v dst_v
  | _ => LinearizationViolation (op_id op) (op_kind op) (op_result op)
  end.

(** The operations whose flag is [b]. *)
Fixpoint flagged {A} (b : bool) (ops : list A) (processed : list bool) : list A :=
  match ops, processed with
  | op :: ops, p :: processed => if Bool.eqb p b then op :: flagged b ops processed else flagged b ops processed
  | _, _ => []
  end.

(** [src/dfs/client/src/checker.rs:681-767 diagnose_violations] *)
Definition diagnose_violations (ops : list Operation) (initial_state : RegisterState) : list Violation :=
  let sorted := by_invoke ops in
  let '(processed, st) :=
    greedy_loop (S (length sorted)) sorted (replicate (length sorted) false) initial_state in
  report st <$> flagged false sorted processed.

(** ** The verdicts *)

(** The read events that no write explains.
    [src/dfs/client/src/checker.rs:260-378 check_single_register] *)
Definition single_register_verdict (key : string) (ops : list Operation) : verdict :=
  let sorted := by_invoke ops in
  let writes := sort_by (λ a b, (a.1 <=? b.1)%N) (write_events sorted) in
  verdict_of (omap (λ op,
    match op_kind op with
    | Get _ =>
        match read_value op with
        | Some v =>
            if read_visible writes v (invoke_ts op) (return_ts op) then None
            else Some (InvisibleRead key (op_id op) v (invoke_ts op) (return_ts op))
        | None => None
        end
    | _ => None
    end) sorted).

(** [src/dfs/client/src/checker.rs:390-446 check_rename_linked] *)
Definition rename_linked_verdict (ops : list Operation) : verdict :=
  let sorted := by_invoke ops in
  let initial_state := foldl (λ st k, <[k := None]> st) ∅ (mjoin (keys_of <$> sorted)) in
  let ambiguous_count := length (List.filter ambiguous sorted) in
  let limit_backtrack := 15 <? ambiguous_count in
  if try_linearize (length sorted) sorted initial_state (seq 0 (length sorted)) limit_backtrack then Passed
  else
    match diagnose_violations sorted initial_state with
    | [] => Failed [NoOrder]
    | violations => Failed violations
    end.

(** The keys of the HashMap are visited in the order in which they appear.
    [src/dfs/client/src/checker.rs:186-243 check_linearizability] *)
Definition linearizability_verdict (ops : list Operation) : verdict :=
  let linked_ops := List.filter (touches_rename ops) ops in
  let simple_ops := List.filter (λ op, negb (touches_rename ops op)) ops in
  let keys := remove_dups (omap op_key simple_ops) in
  let simple := mjoin ((λ k, violations_of (single_register_verdict k
                   (List.filter (λ op, bool_decide (op_key op = Some k)) simple_ops))) <$> keys) in
  let linked := match linked_ops with [] => [] | _ => violations_of (rename_linked_verdict linked_ops) end in
  verdict_of (simple ++ linked).

(** ** Self-tests *)

(** The second history: the value is at neither path after the rename. *)
Definition value_lost : list HistoryEntry :=
  [entry 1 "invoke" "put" "/a" "" "" "h1" "" 100; entry 1 "return" "put" "/a" "" "" "" "ok" 200;
   entry 2 "invoke" "rename" "" "/a" "/b" "" "" 300; entry 2 "return" "rename" "" "/a" "/b" "" "ok" 400;
   entry 3 "invoke" "get" "/a" "" "" "" "" 500; entry 3 "return" "get" "/a" "" "" "" "not_found" 600;
   entry 4 "invoke" "get" "/b" "" "" "" "" 500; entry 4 "return" "get" "/b" "" "" "" "not_found" 600].

(** The third history: a read of a value that was overwritten. *)
Definition stale_read : list HistoryEntry :=
  [entry 1 "invoke" "put" "/x" "" "" "v1" "" 100; entry 1 "return" "put" "/x" "" "" "" "ok" 200;
   entry 2 "invoke" "put" "/x" "" "" "v2" "" 300; entry 2 "return" "put" "/x" "" "" "" "ok" 400;
   entry 3 "invoke" "get" "/x" "" "" "" "" 500; entry 3 "return" "get" "/x" "" "" "" "get_ok:v1" 600].

(** `{:?}` of a Vec<String>. *)
Definition debug_vec (l : list string) : string := "[" +:+ join ", " (debug_str <$> l) +:+ "]".

Definition parse_or (test : string) (history : list HistoryEntry) : outcome (list Operation) :=
  match parse_history history with
  | Ok ops => Ok ops
  | Err e => Err (test +:+ " parse: " +:+ e)
  | Panic w => Panic w
  end.

(** A violation list that says what is wrong.
    [src/dfs/client/src/checker.rs:813-818 run_self_tests] *)
Definition clear_message (vs : list Violation) : bool :=
  let joined := join " " (message <$> vs) in
  negb (negb (contains "value lost" joined) && negb (contains "not linearizable" joined) &&
        negb (contains "stale read" joined) && negb (contains "violation" joined)).

(** The histories are given decoded. [src/dfs/client/src/checker.rs:772-846 run_self_tests] *)
Definition run_self_tests : outcome unit :=
  match parse_or "self-test 1" good_rename with
  | Ok ops =>
      match linearizability_verdict ops with
      | Failed v => Err ("self-test 1 (good rename) failed: " +:+ debug_vec (message <$> v))
      | Passed =>
          match parse_or "self-test 2" value_lost with
          | Ok ops =>
              match linearizability_verdict ops with
              | Passed => Err "self-test 2 (value lost) should have detected violation"
              | Failed v =>
                  if clear_message v then
                    match parse_or "self-test 3" stale_read with
                    | Ok ops =>
                        match linearizability_verdict ops with
                        | Passed => Err "self-test 3 (stale read) should have detected violation"
                        | Failed _ => Ok tt
                        end
                    | Err e => Err e
                    | Panic w => Panic w
                    end
                  else Err ("self-test 2: violation message unclear: " +:+ debug_vec (message <$> v))
              end
          | Err e => Err e
          | Panic w => Panic w
          end
      end
  | Err e => Err e
  | Panic w => Panic w
  end.

(** The self-tests pass, and this is what they see. *)
Lemma self_tests_pass : run_self_tests = Ok tt.
Proof. vm_compute. reflexivity. Qed.

Example value_lost_report :
  match parse_history value_lost with Ok ops => linearizability_verdict ops | _ => Passed end =
  Failed [StaleRead 4 "/b" ResNotFound (Some "h1")].
Proof. vm_compute. reflexivity. Qed.

(** ** The verdicts agree with the Boolean checks *)

Lemma verdict_of_passed vs : verdict_of vs = Passed ↔ vs = [].
Proof. by destruct vs. Qed.

Lemma violations_verdict_of vs : violations_of (verdict_of vs) = vs.
Proof. by destruct vs. Qed.

Lemma omap_nil_iff {A B} (f : A → option B) l : omap f l = [] ↔ Forall (λ x, f x = None) l.
Proof.
  induction l as [|x l IH]; simpl; [by split; [constructor|]|].
  rewrite Forall_cons. destruct (f x); [by split; [|intros [? _]]|]. naive_solver.
Qed.

Lemma single_verdict_agrees key ops :
  violations_of (single_register_verdict key ops) = [] ↔ check_single_register ops = true.
Proof.
  unfold single_register_verdict, check_single_register. rewrite violations_verdict_of, omap_nil_iff, forallb_forall.
  rewrite Forall_forall. setoid_rewrite list_elem_of_In.
  apply forall_proper. intros op. split; intros Hop Hin; specialize (Hop Hin); by repeat case_match.
Qed.

Lemma rename_verdict_agrees ops :
  violations_of (rename_linked_verdict ops) = [] ↔ check_rename_linked ops = true.
Proof.
  unfold rename_linked_verdict, check_rename_linked. destruct (try_linearize _ _ _ _ _); [done|].
  by destruct (diagnose_violations _ _).
Qed.

Lemma simple_agrees simple_ops keys :
  mjoin ((λ k, violations_of (single_register_verdict k
           (List.filter (λ op, bool_decide (op_key op = Some k)) simple_ops))) <$> keys) = [] ↔
  forallb (λ k, check_single_register (List.filter (λ op, bool_decide (op_key op = Some k)) simple_ops)) keys = true.
Proof.
  induction keys as [|k keys IH]; [done|]. rewrite fmap_cons. cbn [mjoin list_join forallb].
  rewrite app_nil, andb_true_iff, <- IH. by rewrite single_verdict_agrees.
Qed.

Lemma verdict_agrees ops : linearizability_verdict ops = Passed ↔ check_linearizability ops = true.
Proof.
  unfold linearizability_verdict, check_linearizability, check_simple.
  rewrite verdict_of_passed, app_nil, andb_true_iff, simple_agrees.
  destruct (List.filter (touches_rename ops) ops); [tauto|]. by rewrite rename_verdict_agrees.
Qed.

Lemma verdict_not_empty ops : linearizability_verdict ops ≠ Failed [].
Proof. unfold linearizability_verdict, verdict_of. by destruct (_ ++ _). Qed.

(** ** The greedy diagnosis stops at a state that refuses the rest *)

(** A sequence of operations that the diagnosis takes. *)
Fixpoint greedy_run (l : list Operation) (st : RegisterState) : option RegisterState :=
  match l with
  | [] => Some st
  | op :: l => match greedy_step op st with Some ns => greedy_run l ns | None => None end
  end.

Lemma greedy_run_app l k st :
  greedy_run (l ++ k) st = match greedy_run l st with Some ns => greedy_run k ns | None => None end.
Proof. revert st. induction l as [|op l IH]; intros st; [done|]. simpl. by destruct (greedy_step op st). Qed.

Lemma flagged_perm {A} (ops : list A) processed :
  length processed = length ops → flagged true ops processed ++ flagged false ops processed ≡ₚ ops.
Proof.
  revert processed. induction ops as [|op ops IH]; intros [|[] processed] Hl; simpl in *; simplify_eq; [done| |].
  - by rewrite (IH processed).
  - rewrite <- Permutation_middle. by rewrite (IH processed).
Qed.

Lemma flagged_fresh {A} (ops : list A) :
  flagged true ops (replicate (length ops) false) = [] ∧ flagged false ops (replicate (length ops) false) = ops.
Proof. induction ops as [|op ops [IH1 IH2]]; simpl; [done|]. by rewrite IH1, IH2. Qed.

(** One pass: the operations it takes, and that none is taken only when the
    state refuses all that are left. *)
Lemma greedy_pass_spec sorted processed st processed' st' progress :
  length processed = length sorted → greedy_pass sorted processed st = (processed', st', progress) →
  ∃ l, greedy_run l st = Some st' ∧ length processed' = length sorted ∧
    flagged true sorted processed' ≡ₚ flagged true sorted processed ++ l ∧
    length (flagged false sorted processed) = length l + length (flagged false sorted processed') ∧
    (progress = false ↔ l = []) ∧
    (progress = false → st' = st ∧ Forall (λ op, greedy_step op st = None) (flagged false sorted processed')).
Proof.
  revert processed st processed' st' progress.
  induction sorted as [|op sorted IH]; intros [|b processed] st processed' st' progress Hl E; simpl in *; simplify_eq.
  { by exists []. }
  destruct b; [|destruct (greedy_step op st) as [ns|] eqn:Es].
  - destruct (greedy_pass sorted processed st) as [[p s] pr] eqn:Ep. simplify_eq/=.
    destruct (IH _ _ _ _ _ Hl Ep) as (l & ? & ? & Hp & ? & ? & ?). exists l. rewrite Hp. by auto 10.
  - destruct (greedy_pass sorted processed ns) as [[p s] pr] eqn:Ep. simplify_eq/=.
    destruct (IH _ _ _ _ _ Hl Ep) as (l & Hr & ? & Hp & ? & ? & ?). exists (op :: l).
    simpl. rewrite Es, Hp, Permutation_middle. split_and!; auto; by intros.
  - destruct (greedy_pass sorted processed st) as [[p s] pr] eqn:Ep. simplify_eq/=.
    destruct (IH _ _ _ _ _ Hl Ep) as (l & ? & ? & Hp & ? & ? & Hs). exists l.
    split_and!; auto; [lia|]. intros Hpr. destruct (Hs Hpr) as [-> ?]. by auto.
Qed.

Lemma greedy_loop_spec fuel sorted processed st processed' st' :
  length processed = length sorted → length (flagged false sorted processed) < fuel →
  greedy_loop fuel sorted processed st = (processed', st') →
  ∃ l, greedy_run l st = Some st' ∧ length processed' = length sorted ∧
    flagged true sorted processed' ≡ₚ flagged true sorted processed ++ l ∧
    Forall (λ op, greedy_step op st' = None) (flagged false sorted processed').
Proof.
  revert processed st. induction fuel as [|fuel IH]; intros processed st Hl Hf E; [lia|]. cbn [greedy_loop] in E.
  destruct (greedy_pass sorted processed st) as [[p s] pr] eqn:Ep.
  destruct (greedy_pass_spec _ _ _ _ _ _ Hl Ep) as (l & Hr & Hl' & Hp & Hc & Hnil & Hstop). destruct pr.
  - destruct (IH p s Hl') as (k & Hrk & ? & Hpk & ?); [|done|].
    { destruct l as [|o l]; [by destruct Hnil as [_ Hnil]; specialize (Hnil eq_refl)|]. simpl in Hc. lia. }
    exists (l ++ k). rewrite greedy_run_app, Hr, Hpk, Hp, app_assoc. by auto.
  - destruct (Hstop eq_refl) as [-> ?]. simplify_eq. exists l. by auto.
Qed.

(** The loop ends of itself: more fuel changes nothing. *)
Lemma greedy_loop_fuel fuel more sorted processed st :
  length processed = length sorted → length (flagged false sorted processed) < fuel →
  greedy_loop (fuel + more) sorted processed st = greedy_loop fuel sorted processed st.
Proof.
  revert processed st. induction fuel as [|fuel IH]; intros processed st Hl Hf; [lia|]. cbn [greedy_loop Nat.add].
  destruct (greedy_pass sorted processed st) as [[p s] pr] eqn:Ep.
  destruct (greedy_pass_spec _ _ _ _ _ _ Hl Ep) as (l & _ & Hl' & _ & Hc & Hnil & _). destruct pr; [|done].
  apply IH; [done|]. destruct l as [|o l]; [by destruct Hnil as [_ Hnil]; specialize (Hnil eq_refl)|].
  simpl in Hc. lia.
Qed.

(** [l] takes the store from one state to another. *)
Fixpoint store_path (l : list Operation) (st st' : store) : Prop :=
  match l with
  | [] => st' = st
  | op :: l => ∃ st1, store_step op st st1 ∧ store_path l st1 st'
  end.

Lemma greedy_run_path l reg reg' st :
  Forall recorded l → represents reg st → greedy_run l reg = Some reg' →
  ∃ st', store_path l st st' ∧ represents reg' st'.
Proof.
  revert reg st. induction l as [|op l IH]; intros reg st Hrec Hrep E; simpl in *.
  { simplify_eq. eauto. }
  apply Forall_cons in Hrec as [Hop Hrec]. unfold greedy_step in E.
  assert (∃ ns st1, (if ambiguous op then apply_op op reg true else check_and_apply op reg) = Some ns ∧
            store_step op st st1 ∧ represents ns st1) as (ns & st1 & En & Hstep & Hrep1).
  { destruct (ambiguous op) eqn:Ha.
    - destruct (apply_op_effect op reg st Hop Hrep) as (ns & En & Hr). exists ns. eexists. split; [done|].
      split; [|exact Hr]. unfold store_step. rewrite Ha. by left.
    - destruct (check_and_apply op reg) as [ns|] eqn:En; [|done].
      destruct (check_and_apply_sound op reg st ns Hop Ha Hrep En) as [Hans Hr]. exists ns. eexists. split; [done|].
      split; [|exact Hr]. unfold store_step. by rewrite Ha. }
  rewrite En in E. destruct (IH ns st1 Hrec Hrep1 E) as (st' & ? & ?). eauto.
Qed.

(** What the final state refuses was answered, and not as the store would. *)
Lemma greedy_refused op reg st :
  recorded op → represents reg st → greedy_step op reg = None →
  ambiguous op = false ∧ ¬ store_answers (op_kind op) st (op_result op).
Proof.
  intros Hop Hrep E. unfold greedy_step in E. destruct (ambiguous op) eqn:Ha.
  - destruct (apply_op_effect op reg st Hop Hrep) as (? & ? & _). congruence.
  - split; [done|]. intros Hans.
    destruct (check_and_apply_complete op reg st Hop Ha Hrep Hans) as (? & ? & _). congruence.
Qed.

Lemma diagnose_split ops reg0 :
  ∃ taken rest reg, taken ++ rest ≡ₚ ops ∧ greedy_run taken reg0 = Some reg ∧
    Forall (λ op, greedy_step op reg = None) rest ∧ diagnose_violations ops reg0 = report reg <$> rest.
Proof.
  unfold diagnose_violations. set (sorted := by_invoke ops). assert (sorted ≡ₚ ops) as Hp by apply sort_by_perm.
  destruct (flagged_fresh sorted) as [Ht Hf].
  destruct (greedy_loop (S (length sorted)) sorted (replicate (length sorted) false) reg0) as [p reg] eqn:E.
  apply greedy_loop_spec in E as (l & Hr & Hl & Hpt & Hstop); [|by rewrite length_replicate|rewrite Hf; lia].
  exists l, (flagged false sorted p), reg. rewrite Ht in Hpt. simpl in Hpt. split; [|done].
  by rewrite <- Hpt, flagged_perm.
Qed.

(** An operation that the state refuses is a read, a rename or a delete that
    found nothing, and a rename that is said to have succeeded had no source. *)
Lemma report_cases op reg :
  greedy_step op reg = None →
  match report reg op with
  | StaleRead _ p _ current => op_kind op = Get p ∧ current = register reg p
  | ValueLost _ src dst => op_kind op = Rename src dst ∧ register reg src = None ∧ register reg dst = None
  | RenameViolation _ src dst r src_v _ =>
      op_kind op = Rename src dst ∧ (r = ResOk ∧ src_v = None ∨ r = ResNotFound ∧ src_v ≠ None)
  | LinearizationViolation _ o r => (∃ p, o = Delete p ∧ register reg p ≠ None) ∧ r = ResNotFound
  | _ => False
  end.
Proof.
  unfold greedy_step, report, ambiguous, apply_op, check_and_apply. simpl.
  destruct (return_ts op =? 0)%N; simpl; destruct (op_kind op) as [p h|p|p|src dst], (op_result op); simpl;
    intros E; repeat case_match; simplify_eq/=;
    rewrite ?andb_true_iff, ?andb_false_iff, ?negb_true_iff, ?bool_decide_eq_true, ?bool_decide_eq_false in *;
    destruct_and?; eauto 10; congruence.
Qed.

(** The greedy diagnosis of a recorded history: some of the operations, in the
    order in which it took them, run on the file store; each of the others was
    answered, and the store that is reached would not answer it so; these and
    no others are reported, each once. *)
Lemma diagnosis_splits ops ks :
  Forall recorded ops →
  ∃ taken rest reg st, taken ++ rest ≡ₚ ops ∧ store_path taken ∅ st ∧ represents reg st ∧
    Forall (λ op, ambiguous op = false ∧ ¬ store_answers (op_kind op) st (op_result op)) rest ∧
    diagnose_violations ops (foldl (λ st k, <[k := None]> st) ∅ ks) = report reg <$> rest.
Proof.
  intros Hrec. destruct (diagnose_split ops (foldl (λ st k, <[k := None]> st) ∅ ks)) as (taken & rest & reg & Hp & Hr & Hs & Hd).
  rewrite <- Hp in Hrec. apply Forall_app in Hrec as [Ht Hrest].
  apply (greedy_run_path taken _ reg ∅ Ht) in Hr as (st & Hpath & Hrep); [|by apply initial_represents].
  exists taken, rest, reg, st. split_and!; [done..| |done].
  apply Forall_forall. intros op Hin. rewrite Forall_forall in Hs, Hrest. by eapply greedy_refused; eauto.
Qed.

(** A duplicated value is never reported: a rename that succeeded is refused
    only when its source is empty. *)
Lemma duplicate_never_reported ops ks id src dst :
  ValueDuplicated id src dst ∉ diagnose_violations ops (foldl (λ st k, <[k := None]> st) ∅ ks).
Proof.
  destruct (diagnose_split ops (foldl (λ st k, <[k := None]> st) ∅ ks)) as (taken & rest & reg & _ & _ & Hs & ->).
  rewrite list_elem_of_fmap. intros (op & E & Hin). rewrite Forall_forall in Hs.
  pose proof (report_cases op reg (Hs op Hin)) as Hc. by rewrite <- E in Hc.
Qed.

(** The checker's verdict. `check_linearizability` answers `Ok` exactly
    when both Boolean checks pass, and otherwise with at least one violation.
    When the search over renames fails, the diagnosis accounts for every
    operation of the history: those it took run one after the other on the
    file store, those it reports were answered in a way in which the store
    that is reached would not answer, and the plain "no valid ordering" is
    given only when the store takes all of them in some order. *)
Theorem verdict_exact ops :
  (linearizability_verdict ops = Passed ↔ check_linearizability ops = true) ∧
  linearizability_verdict ops ≠ Failed [] ∧
  (Forall recorded ops → check_rename_linked ops = false →
   ∃ taken rest reg st, taken ++ rest ≡ₚ ops ∧ store_path taken ∅ st ∧ represents reg st ∧
     Forall (λ op, ambiguous op = false ∧ ¬ store_answers (op_kind op) st (op_result op)) rest ∧
     rename_linked_verdict ops = Failed (if decide (rest = []) then [NoOrder] else report reg <$> rest)).
Proof.
  split; [apply verdict_agrees|]. split; [apply verdict_not_empty|].
  unfold check_rename_linked, rename_linked_verdict. intros Hrec ->. set (sorted := by_invoke ops).
  assert (sorted ≡ₚ ops) as Hp by apply sort_by_perm. rewrite <- Hp in Hrec.
  destruct (diagnosis_splits sorted (mjoin (keys_of <$> sorted)) Hrec) as (taken & rest & reg & st & Hsplit & ? & ? & ? & ->).
  exists taken, rest, reg, st. split; [by rewrite Hsplit|]. split_and!; [done..|]. by destruct rest.
Qed.

Lemma verdict_exact_witness :
  let ops := match parse_history value_lost with Ok ops => ops | _ => [] end in
  length ops = 4 ∧ check_rename_linked ops = false ∧
  ∃ taken rest reg st, taken ++ rest ≡ₚ ops ∧ store_path taken ∅ st ∧ represents reg st ∧
    Forall (λ op, ambiguous op = false ∧ ¬ store_answers (op_kind op) st (op_result op)) rest ∧
    rename_linked_verdict ops = Failed (if decide (rest = []) then [NoOrder] else report reg <$> rest).
Proof.
  intros ops. split; [vm_compute; reflexivity|]. split; [vm_compute; reflexivity|].
  apply verdict_exact; [|vm_compute; reflexivity].
  repeat (apply Forall_cons; split; [repeat split; try exact I; try (right; discriminate); discriminate|]).
  apply Forall_nil. exact I.
Defined.
