(* ===== verification/Policy.v ===== *)
(** * Access policies

    dfs/common/src/auth/policy.rs and bucket_policy.rs: IAM roles with trust
    policies and managed policies, and bucket policies with principals. The
    regular expressions that wildcard patterns are turned into belong to an
    external crate: [regex_is_match] is a parameter that answers [None] when
    the pattern does not compile. *)

From S2P Require Import Prelude.

(** ** Documents *)

(** [src/dfs/common/src/auth/policy.rs:4-9 EvaluationContext] *)
Record EvaluationContext : Type := mkContext {
  principal_id : string;
  groups : list string;
  claims : gmap string string;
}.

(** [src/dfs/common/src/auth/policy.rs:55-60 ActionValue] *)
Inductive ActionValue : Type :=
  | ActionSingle (s : string)
  | ActionMultiple (v : list string).

(** [src/dfs/common/src/auth/policy.rs:87-92 ResourceValue] *)
Inductive ResourceValue : Type :=
  | ResourceSingle (s : string)
  | ResourceMultiple (v : list string).

(** The two BTreeMaps of a condition, in key order. *)
Definition Condition : Type := list (string * list (string * list string)).

(** [src/dfs/common/src/auth/policy.rs:43-53 Statement] *)
Record Statement : Type := mkStatement {
  effect : string;
  actions : ActionValue;
  resources : option ResourceValue;
  condition : option Condition;
}.

(** [src/dfs/common/src/auth/policy.rs:29-35 ManagedPolicy] *)
Record ManagedPolicy : Type := mkManagedPolicy {
  policy_name : string;
  policy_statements : list Statement;
}.

(** [src/dfs/common/src/auth/policy.rs:17-27 Role] *)
Record Role : Type := mkRole {
  role_name : string;
  arn : string;
  assume_role_policy : list Statement;
  policies : list ManagedPolicy;
}.

(** [src/dfs/common/src/auth/bucket_policy.rs:49-64 AwsPrincipal] *)
Inductive AwsPrincipal : Type :=
  | PrincipalSingle (s : string)
  | PrincipalMapSingle (s : string)
  | PrincipalMapMultiple (v : list string).

(** [src/dfs/common/src/auth/bucket_policy.rs:34-38 PrincipalValue] *)
Inductive PrincipalValue : Type :=
  | Wildcard
  | Aws (p : AwsPrincipal).

(** [src/dfs/common/src/auth/bucket_policy.rs:21-31 BucketStatement] *)
Record BucketStatement : Type := mkBucketStatement {
  bucket_effect : string;
  principal : PrincipalValue;
  bucket_actions : ActionValue;
  bucket_resources : option ResourceValue;
}.

(** [src/dfs/common/src/auth/bucket_policy.rs:4-9 PolicyResult] *)
Inductive PolicyResult : Type := Allow | ExplicitDeny | NotApplicable.

(** ** Evaluation *)

(** `str::replace` of one character by a string. *)
Fixpoint replace_char (c : ascii) (by_ : string) (s : string) : string :=
  match s with
  | EmptyString => EmptyString
  | String a s => if decide (a = c) then by_ +:+ replace_char c by_ s else String a (replace_char c by_ s)
  end.

(** `str::strip_prefix`. *)
Definition strip_prefix (p s : string) : option string :=
  if String.prefix p s
  then Some (String.substring (String.length p) (String.length s - String.length p) s) else None.

Section policy.
  Context (regex_is_match : string → string → option bool).

(** [src/dfs/common/src/auth/policy.rs:71-85 matches_wildcard] *)
Definition matches_wildcard (pattern target : string) : bool :=
  if decide (pattern = "*") then true
  else
    let regex_pattern := replace_char "?" "." (replace_char "*" ".*" (replace_char "." "\." pattern)) in
    match regex_is_match ("^" +:+ regex_pattern +:+ "$") target with
    | Some b => b
    | None => bool_decide (pattern = target)
    end.

(** [src/dfs/common/src/auth/policy.rs:63-68 ActionValue::contains] *)
Definition action_contains (v : ActionValue) (action : string) : bool :=
  match v with
  | ActionSingle s => matches_wildcard s action
  | ActionMultiple v => existsb (λ s, matches_wildcard s action) v
  end.

(** [src/dfs/common/src/auth/policy.rs:95-100 ResourceValue::contains] *)
Definition resource_contains (v : ResourceValue) (resource : string) : bool :=
  match v with
  | ResourceSingle s => matches_wildcard s resource
  | ResourceMultiple v => existsb (λ s, matches_wildcard s resource) v
  end.

(** [src/dfs/common/src/auth/policy.rs:198-211 evaluate_condition] *)
Definition actual_values (key : string) (context : EvaluationContext) : list string :=
  if decide (key = "OIDC_ISSUER:groups") then groups context
  else
    match strip_prefix "OIDC_ISSUER:" key with
    | Some claim_name => default [] ((λ v, [v]) <$> claims context !! claim_name)
    | None => []
    end.

(** [src/dfs/common/src/auth/policy.rs:213-232 evaluate_condition] *)
Definition operator_holds (operator : string) (actual expected : list string) : bool :=
  if decide (operator = "StringEquals") then
    match actual with
    | [] => false
    | v :: _ => bool_decide (v ∈ expected)
    end
  else if decide (operator = "ForAnyValue:StringEquals") then
    existsb (λ val, bool_decide (val ∈ expected)) actual
  else false.

(** [src/dfs/common/src/auth/policy.rs:192-236 evaluate_condition] *)
Definition evaluate_condition (condition : Condition) (context : EvaluationContext) : bool :=
  forallb (λ '(operator, keys),
    forallb (λ '(key, expected_values),
      operator_holds operator (actual_values key context) expected_values) keys) condition.

(** The statement speaks about the request: the three `continue`s.
    [src/dfs/common/src/auth/policy.rs:162-179 evaluate_statements] *)
Definition statement_matches (action resource : string) (context : EvaluationContext) (stmt : Statement)
  : bool :=
  action_contains (actions stmt) action &&
  match resources stmt with Some r => resource_contains r resource | None => true end &&
  match condition stmt with Some c => evaluate_condition c context | None => true end.

(** [src/dfs/common/src/auth/policy.rs:150-190 evaluate_statements] *)
Fixpoint evaluate_statements (statements : list Statement) (action resource : string)
    (context : EvaluationContext) (allow : bool) : bool :=
  match statements with
  | [] => allow
  | stmt :: statements =>
      if statement_matches action resource context stmt then
        if decide (effect stmt = "Deny") then false
        else if decide (effect stmt = "Allow") then evaluate_statements statements action resource context true
        else evaluate_statements statements action resource context allow
      else evaluate_statements statements action resource context allow
  end.

(** [src/dfs/common/src/auth/policy.rs:112-126 can_assume_role] *)
Definition can_assume_role (roles : list Role) (role_arn : string) (context : EvaluationContext) : bool :=
  match List.find (λ r, bool_decide (arn r = role_arn)) roles with
  | None => false
  | Some role =>
      evaluate_statements (assume_role_policy role) "sts:AssumeRoleWithWebIdentity" "*" context false
  end.

(** [src/dfs/common/src/auth/policy.rs:128-148 evaluate] *)
Definition evaluate (roles : list Role) (action resource role_arn : string) (context : EvaluationContext)
  : bool :=
  match List.find (λ r, bool_decide (arn r = role_arn)) roles with
  | None => false
  | Some role =>
      evaluate_statements (mjoin (policy_statements <$> policies role)) action resource context false
  end.

(** `if s == "*" { true } else { principal_arn.map(|p| matches_wildcard(s, p)).unwrap_or(false) }`.
    [src/dfs/common/src/auth/bucket_policy.rs:86-93 PrincipalValue::matches] *)
Definition principal_is (principal_arn : option string) (s : string) : bool :=
  if decide (s = "*") then true
  else match principal_arn with Some p => matches_wildcard s p | None => false end.

(** [src/dfs/common/src/auth/bucket_policy.rs:83-113 PrincipalValue::matches] *)
Definition principal_matches (p : PrincipalValue) (principal_arn : option string) : bool :=
  match p with
  | Wildcard => true
  | Aws (PrincipalSingle s) | Aws (PrincipalMapSingle s) => principal_is principal_arn s
  | Aws (PrincipalMapMultiple v) => existsb (principal_is principal_arn) v
  end.

(** [src/dfs/common/src/auth/bucket_policy.rs:136-151 BucketPolicyEvaluator::evaluate] *)
Definition bucket_statement_matches (principal_arn : option string) (action resource : string)
    (stmt : BucketStatement) : bool :=
  principal_matches (principal stmt) principal_arn && action_contains (bucket_actions stmt) action &&
  match bucket_resources stmt with Some r => resource_contains r resource | None => true end.

(** [src/dfs/common/src/auth/bucket_policy.rs:127-166 BucketPolicyEvaluator::evaluate] *)
Fixpoint evaluate_bucket (statements : list BucketStatement) (principal_arn : option string)
    (action resource : string) (allow : bool) : PolicyResult :=
  match statements with
  | [] => if allow then Allow else NotApplicable
  | stmt :: statements =>
      if bucket_statement_matches principal_arn action resource stmt then
        if decide (bucket_effect stmt = "Deny") then ExplicitDeny
        else if decide (bucket_effect stmt = "Allow") then
          evaluate_bucket statements principal_arn action resource true
        else evaluate_bucket statements principal_arn action resource allow
      else evaluate_bucket statements principal_arn action resource allow
  end.

(** ** What evaluation decides *)

Definition applies_with (action resource : string) (context : EvaluationContext) (e : string) (stmt : Statement)
  : bool := statement_matches action resource context stmt && bool_decide (effect stmt = e).

Lemma evaluate_statements_spec statements action resource context allow :
  evaluate_statements statements action resource context allow =
  (allow || existsb (applies_with action resource context "Allow") statements)
  && negb (existsb (applies_with action resource context "Deny") statements).
Proof.
  revert allow. induction statements as [|stmt statements IH]; intros allow; simpl.
  { by rewrite orb_false_r, andb_true_r. }
  unfold applies_with at 1 3. destruct (statement_matches _ _ _ stmt); simpl; [|apply IH].
  destruct (decide (effect stmt = "Deny")) as [->|Hd]; simpl.
  { by rewrite andb_false_r. }
  rewrite (bool_decide_false (effect stmt = "Deny")) by done.
  destruct (decide (effect stmt = "Allow")) as [->|Ha]; simpl; rewrite IH; simpl.
  - by rewrite orb_true_r.
  - by rewrite bool_decide_false by done.
Qed.

Definition bucket_applies_with (p : option string) (action resource e : string) (stmt : BucketStatement)
  : bool := bucket_statement_matches p action resource stmt && bool_decide (bucket_effect stmt = e).

Lemma evaluate_bucket_spec statements p action resource allow :
  evaluate_bucket statements p action resource allow =
  if existsb (bucket_applies_with p action resource "Deny") statements then ExplicitDeny
  else if allow || existsb (bucket_applies_with p action resource "Allow") statements then Allow
  else NotApplicable.
Proof.
  revert allow. induction statements as [|stmt statements IH]; intros allow; simpl.
  { by rewrite orb_false_r. }
  unfold bucket_applies_with at 1 3. destruct (bucket_statement_matches _ _ _ stmt); simpl; [|apply IH].
  destruct (decide (bucket_effect stmt = "Deny")) as [->|Hd]; simpl; [done|].
  rewrite (bool_decide_false (bucket_effect stmt = "Deny")) by done. simpl.
  destruct (decide (bucket_effect stmt = "Allow")) as [->|Ha]; simpl; rewrite IH; simpl.
  - by rewrite orb_true_r.
  - by rewrite (bool_decide_false (bucket_effect stmt = "Allow")) by done.
Qed.

Lemma existsb_elem {A} (f : A → bool) l : existsb f l = true ↔ ∃ x, x ∈ l ∧ f x = true.
Proof. rewrite existsb_exists. by setoid_rewrite <- list_elem_of_In. Qed.

(** A statement of one of the role's policies that applies to the request. *)
Definition role_applies (role : Role) (action resource : string) (context : EvaluationContext)
    (stmt : Statement) : Prop :=
  (∃ p, p ∈ policies role ∧ stmt ∈ policy_statements p) ∧
  statement_matches action resource context stmt = true.

Lemma role_applies_existsb role action resource context e :
  existsb (applies_with action resource context e) (mjoin (policy_statements <$> policies role)) = true ↔
  ∃ stmt, role_applies role action resource context stmt ∧ effect stmt = e.
Proof.
  rewrite existsb_elem. setoid_rewrite list_elem_of_join. setoid_rewrite list_elem_of_fmap.
  unfold applies_with, role_applies. split.
  - intros (stmt & (l & Hs & p & -> & Hp) & [Hm He%bool_decide_eq_true]%andb_true_iff). eauto 10.
  - intros (stmt & ((p & Hp & Hs) & Hm) & He). exists stmt. split; [eauto|].
    by rewrite Hm, bool_decide_true.
Qed.

(** C38. A role may perform an action exactly when it is known, some statement of
    its policies that applies allows it, and none that applies denies it,
    whatever the order of the statements; anything not allowed is refused. *)
Theorem deny_overrides_allow roles action resource role_arn context :
  evaluate roles action resource role_arn context = true ↔
  ∃ role, List.find (λ r, bool_decide (arn r = role_arn)) roles = Some role ∧
    (∃ stmt, role_applies role action resource context stmt ∧ effect stmt = "Allow") ∧
    ¬ ∃ stmt, role_applies role action resource context stmt ∧ effect stmt = "Deny".
Proof.
  unfold evaluate. destruct (List.find _ roles) as [role|].
  - rewrite evaluate_statements_spec, andb_true_iff, negb_true_iff, <- not_true_iff_false. simpl.
    rewrite !role_applies_existsb. split; [intros [? ?]; by exists role|]. by intros (role' & [= <-] & ?).
  - split; [done|]. by intros (role & ? & _).
Qed.

End policy.
