(* ===== verification/Signing.v ===== *)
(** * Request signing (AWS Signature Version 4)

    dfs/common/src/auth/mod.rs (credentials of a request), signing.rs (the
    canonical request, the signing key and the verification) and presign.rs
    (presigned URLs), with the query and header normalisation of
    dfs/s3_server/src/auth_middleware.rs. SHA-256, HMAC and the hexadecimal
    encoder are external: parameters of the definitions. Strings are byte
    strings. *)

From stdpp Require Import pretty.
From S2P Require Import Prelude BTree Text.

(** ** Credentials *)

(** [src/dfs/common/src/auth/mod.rs:17-26 ParsedCredentials] *)
Record ParsedCredentials : Type := mkCredentials {
  access_key : string;
  date : string;
  region : string;
  service : string;
  signed_headers : list string;
  signature : string;
  timestamp : string;
}.

(** [src/dfs/common/src/auth/mod.rs:28-36 SigningInput] *)
Record SigningInput : Type := mkSigningInput {
  method : string;
  uri_path : string;
  query_string : string;
  canonical_headers : list (string * list string);
  signed_headers_list : string;
  payload_hash : string;
}.

(** [src/dfs/common/src/auth/mod.rs:38-67 AuthError] *)
Inductive AuthError : Type :=
  | MissingAuth
  | InvalidAccessKey (key : string)
  | SignatureDoesNotMatch (canonical_request string_to_sign : string)
  | RequestTimeTooSkewed
  | InvalidCredentialScope (expected received : string)
  | InsecureTransport
  | InvalidToken (why : string)
  | ExpiredToken
  | InternalError (why : string).

(** HTTP headers in order, names in lower case; a value that is not visible
    ASCII ([to_str] fails) is [None]. *)
Notation Headers := (list (string * option string)).

(** `headers.get(name)` and `headers.get_all(name)`. *)
Definition get_header (name : string) (h : Headers) : option (option string) :=
  snd <$> List.find (λ e, bool_decide (e.1 = name)) h.
Definition get_all (name : string) (h : Headers) : list (option string) :=
  (List.filter (λ e, bool_decide (e.1 = name)) h).*2.

(** The first five parts of a credential, when the fifth is "aws4_request".
    [src/dfs/common/src/auth/mod.rs:137-140 parse_credentials] *)
Definition credential_parts (cred : string) : option (string * string * string * string) :=
  match split_on "/" cred with
  | ak :: d :: r :: s :: last :: _ => if decide (last = "aws4_request") then Some (ak, d, r, s) else None
  | _ => None
  end.

(** The Authorization header. [None] is `Err(AuthError::MissingAuth)`.
    [src/dfs/common/src/auth/mod.rs:118-176 parse_credentials] *)
Definition parse_auth_header (auth : option string) (h : Headers) : option ParsedCredentials :=
  auth_str ← auth;
  if String.prefix "AWS4-HMAC-SHA256" auth_str then
    match trim <$> split_on "," auth_str with
    | p0 :: p1 :: p2 :: _ =>
        cred_entry ← List.find (String.prefix "Credential=") (split_whitespace p0);
        cred_part ← split_on "=" cred_entry !! 1;
        '(ak, d, r, s) ← credential_parts cred_part;
        signed_headers_part ← split_on "=" p1 !! 1;
        sig ← split_on "=" p2 !! 1;
        let header := match get_header "x-amz-date" h with Some v => Some v | None => get_header "date" h end in
        ts ← mjoin header;
        Some (mkCredentials ak d r s
                (List.filter (λ s, negb (bool_decide (s = ""))) (trim <$> split_on ";" (trim signed_headers_part)))
                (trim sig) ts)
    | _ => None
    end
  else None.

(** The query parameters of a presigned request.
    [src/dfs/common/src/auth/mod.rs:179-218 parse_credentials] *)
Definition parse_auth_query (query : gmap string string) : option ParsedCredentials :=
  algo ← query !! "X-Amz-Algorithm";
  if decide (algo = "AWS4-HMAC-SHA256") then
    cred_part ← query !! "X-Amz-Credential";
    '(ak, d, r, s) ← credential_parts cred_part;
    signed_headers_part ← query !! "X-Amz-SignedHeaders";
    sig ← query !! "X-Amz-Signature";
    ts ← query !! "X-Amz-Date";
    Some (mkCredentials ak d r s (split_on ";" signed_headers_part) sig ts)
  else None.

(** [src/dfs/common/src/auth/mod.rs:112-221 parse_credentials] *)
Definition parse_credentials (h : Headers) (query : gmap string string) : option ParsedCredentials :=
  match get_header "authorization" h with
  | Some auth => parse_auth_header auth h
  | None => parse_auth_query query
  end.

(** ** Normalisation *)

(** `pair.splitn(2, '=')`. *)
Definition query_pair (pair : string) : string * string :=
  let '(k, v) := split_once "=" pair in (k, default "" v).

(** Order by key, then by value. *)
Definition pair_leb (a b : string * string) : bool :=
  match String.compare a.1 b.1 with
  | Lt => true
  | Eq => String.leb a.2 b.2
  | Gt => false
  end.

(** Everything but the signature.
    [src/dfs/s3_server/src/auth_middleware.rs:564-565 normalize_query_string] *)
Definition kept_pair (s : string) : bool :=
  negb (bool_decide (s = "")) &&
  (negb (String.prefix "X-Amz-Signature=" s) && negb (bool_decide (s = "X-Amz-Signature"))).

(** [src/dfs/s3_server/src/auth_middleware.rs:561-584 normalize_query_string] *)
Definition normalize_query_string (query_string_raw : string) : string :=
  let pairs := query_pair <$> List.filter kept_pair (split_on "&" query_string_raw) in
  join "&" ((λ e, e.1 +:+ "=" +:+ e.2) <$> sort_by pair_leb pairs).

(** The values of a header, white space collapsed, joined with commas.
    [src/dfs/s3_server/src/auth_middleware.rs:685-695 build_signing_input] *)
Definition normalized_header (h : Headers) (name : string) : string :=
  join "," ((λ v, join " " (split_whitespace v)) <$> omap id (get_all name h)).

(** [src/dfs/s3_server/src/auth_middleware.rs:676-716 build_signing_input] *)
Definition build_signing_input (h : Headers) (credentials : ParsedCredentials) (meth path norm_query : string)
  : SigningInput :=
  let names := map_string lower <$> signed_headers credentials in
  let headers := foldl (λ m name, bt_insert name [normalized_header h name] m) [] names in
  let hash := default "UNSIGNED-PAYLOAD" (mjoin (get_header "x-amz-content-sha256" h)) in
  mkSigningInput meth path norm_query headers (join ";" (sort_by String.leb names)) hash.

(** ** Signatures *)

Section signing.
  Context (sha256 : string → string) (hmac_sha256 : string → string → string) (hex : string → string).

Definition nl : string := String "010" "".

(** [src/dfs/common/src/auth/signing.rs:9-44 create_canonical_request] *)
Definition create_canonical_request (input : SigningInput) : string :=
  method input +:+ nl +:+ uri_path input +:+ nl +:+ query_string input +:+ nl +:+
  foldr (λ e s, e.1 +:+ ":" +:+ join "," e.2 +:+ nl +:+ s) "" (canonical_headers input) +:+ nl +:+
  signed_headers_list input +:+ nl +:+ payload_hash input.

(** [src/dfs/common/src/auth/signing.rs:47-60 create_string_to_sign] *)
Definition create_string_to_sign (ts scope canonical_request : string) : string :=
  "AWS4-HMAC-SHA256" +:+ nl +:+ ts +:+ nl +:+ scope +:+ nl +:+ hex (sha256 canonical_request).

(** [src/dfs/common/src/auth/signing.rs:63-83 derive_signing_key] *)
Definition derive_signing_key (secret_key d r s : string) : string :=
  let k_date := hmac_sha256 ("AWS4" +:+ secret_key) d in
  let k_region := hmac_sha256 k_date r in
  let k_service := hmac_sha256 k_region s in
  hmac_sha256 k_service "aws4_request".

(** [src/dfs/common/src/auth/signing.rs:85-89 calculate_signature] *)
Definition calculate_signature (signing_key string_to_sign : string) : string :=
  hex (hmac_sha256 signing_key string_to_sign).

(** [src/dfs/common/src/auth/signing.rs:97-102 verify_signature_with_key] *)
Definition request_to_sign (input : SigningInput) (c : ParsedCredentials) : string :=
  create_string_to_sign (timestamp c)
    (date c +:+ "/" +:+ region c +:+ "/" +:+ service c +:+ "/aws4_request") (create_canonical_request input).

(** [src/dfs/common/src/auth/signing.rs:92-120 verify_signature_with_key] *)
Definition verify_signature_with_key (input : SigningInput) (c : ParsedCredentials) (signing_key : string)
  : option AuthError :=
  let string_to_sign := request_to_sign input c in
  if decide (calculate_signature signing_key string_to_sign = signature c) then None
  else Some (SignatureDoesNotMatch (create_canonical_request input) string_to_sign).

(** [src/dfs/common/src/auth/signing.rs:123-135 verify_signature] *)
Definition verify_signature (input : SigningInput) (c : ParsedCredentials) (secret_key : string)
  : option AuthError :=
  verify_signature_with_key input c (derive_signing_key secret_key (date c) (region c) (service c)).

(** ** Presigned URLs *)

(** [src/dfs/common/src/auth/presign.rs:9-18 PresignParams] *)
Record PresignParams : Type := mkPresign {
  endpoint : string;
  bucket : string;
  key : string;
  ps_method : string;
  ps_access_key : string;
  ps_secret_key : string;
  ps_region : string;
  expires_secs : N;
}.

(** The part before and the part after the first [sep]. *)
Fixpoint find_sub (sep s : string) : option (string * string) :=
  if String.prefix sep s then Some ("", String.substring (String.length sep) (String.length s) s)
  else match s with
       | EmptyString => None
       | String a s => '(b, r) ← find_sub sep s; Some (String a b, r)
       end.

(** `s.trim_end_matches('/')`. *)
Fixpoint trim_end_slash (s : string) : string :=
  match s with
  | EmptyString => ""
  | String a s => let t := trim_end_slash s in
                  if bool_decide (a = "/"%char) && bool_decide (t = "") then "" else String a t
  end.

(** [src/dfs/common/src/auth/presign.rs:48-53 generate_presigned_url] *)
Definition host_of (ep : string) : string :=
  trim_end_slash
    match find_sub "://" ep with
    | Some (_, rest) => match find_sub "://" rest with Some (h, _) => h | None => rest end
    | None => ep
    end.

(** [src/dfs/common/src/auth/presign.rs:25-39 generate_presigned_url] *)
Definition presign_params (p : PresignParams) (d datetime : string) : list (string * string) :=
  sort_by (λ a b, String.leb a.1 b.1)
    [("X-Amz-Algorithm", "AWS4-HMAC-SHA256");
     ("X-Amz-Credential", ps_access_key p +:+ "/" +:+ d +:+ "/" +:+ ps_region p +:+ "/s3/aws4_request");
     ("X-Amz-Date", datetime);
     ("X-Amz-Expires", pretty (expires_secs p));
     ("X-Amz-SignedHeaders", "host")].

(** [src/dfs/common/src/auth/presign.rs:41-45 generate_presigned_url] *)
Definition encode_pair (e : string * string) : string := uri_encode true e.1 +:+ "=" +:+ uri_encode true e.2.
Definition presign_query (p : PresignParams) (d datetime : string) : string :=
  join "&" (encode_pair <$> presign_params p d datetime).

(** [src/dfs/common/src/auth/presign.rs:56-63 generate_presigned_url] *)
Definition presign_path (p : PresignParams) : string :=
  "/" +:+ uri_encode true (bucket p) +:+ "/" +:+
  join "/" (uri_encode true <$> split_on "/" (key p)).

(** [src/dfs/common/src/auth/presign.rs:64-79 generate_presigned_url] *)
Definition presign_signature (p : PresignParams) (d datetime : string) : string :=
  let input := mkSigningInput (map_string upper (ps_method p)) (presign_path p) (presign_query p d datetime)
                 [("host", [host_of (endpoint p)])] "host" "UNSIGNED-PAYLOAD" in
  let scope := d +:+ "/" +:+ ps_region p +:+ "/s3/aws4_request" in
  let string_to_sign := create_string_to_sign datetime scope (create_canonical_request input) in
  calculate_signature (derive_signing_key (ps_secret_key p) d (ps_region p) "s3") string_to_sign.

(** The query of the URL, as the server receives it.
    [src/dfs/common/src/auth/presign.rs:81-82 generate_presigned_url] *)
Definition presigned_raw_query (p : PresignParams) (d datetime : string) : string :=
  presign_query p d datetime +:+ "&X-Amz-Signature=" +:+ presign_signature p d datetime.

(** The clock is given as its two formatted values.
    [src/dfs/common/src/auth/presign.rs:20-83 generate_presigned_url] *)
Definition generate_presigned_url (p : PresignParams) (d datetime : string) : string :=
  trim_end_slash (endpoint p) +:+ presign_path p +:+ "?" +:+ presigned_raw_query p d datetime.

(** *** A presigned URL is accepted by the server that knows the secret *)

Section presign_roundtrip.
  Context (p : PresignParams) (d datetime : string).
  (* the hexadecimal digest contains no separator *)
  Context (hex_plain : ∀ s, absent "&" (hex s) = true).

Lemma presign_params_eq :
  presign_params p d datetime =
    [("X-Amz-Algorithm", "AWS4-HMAC-SHA256");
     ("X-Amz-Credential", ps_access_key p +:+ "/" +:+ d +:+ "/" +:+ ps_region p +:+ "/s3/aws4_request");
     ("X-Amz-Date", datetime); ("X-Amz-Expires", pretty (expires_secs p)); ("X-Amz-SignedHeaders", "host")].
Proof. done. Qed.

Lemma encode_pair_absent e : absent "&" (encode_pair e) = true.
Proof.
  unfold encode_pair. rewrite !absent_app, !uri_encode_absent by (simpl; set_solver). done.
Qed.

Lemma encode_pair_split e : query_pair (encode_pair e) = (uri_encode true e.1, uri_encode true e.2).
Proof.
  unfold query_pair, encode_pair. change ("=" +:+ uri_encode true e.2) with (String "=" (uri_encode true e.2)).
  by rewrite split_once_app by (apply uri_encode_absent; set_solver).
Qed.

Lemma kept_signature sig : kept_pair ("X-Amz-Signature=" +:+ sig) = false.
Proof.
  unfold kept_pair. rewrite prefix_append. apply andb_false_r.
Qed.

Lemma kept_encoded k v :
  k ∈ ["X-Amz-Algorithm"; "X-Amz-Credential"; "X-Amz-Date"; "X-Amz-Expires"; "X-Amz-SignedHeaders"] →
  kept_pair (encode_pair (k, v)) = true.
Proof.
  intros Hk. unfold kept_pair, encode_pair. cbn [fst snd].
  repeat (apply elem_of_cons in Hk as [->|Hk]; [by rewrite !bool_decide_false by done|]).
  by apply not_elem_of_nil in Hk.
Qed.

Lemma normalize_signed v1 v2 v3 v4 v5 sig :
  let parts := encode_pair <$> [("X-Amz-Algorithm", v1); ("X-Amz-Credential", v2); ("X-Amz-Date", v3);
                                ("X-Amz-Expires", v4); ("X-Amz-SignedHeaders", v5)] in
  absent "&" sig = true →
  normalize_query_string (join "&" parts +:+ "&X-Amz-Signature=" +:+ sig) = join "&" parts.
Proof.
  intros parts Hsig. unfold normalize_query_string.
  change ("&X-Amz-Signature=" +:+ sig) with (String "&" ("X-Amz-Signature=" +:+ sig)).
  rewrite <- join_snoc, split_on_join; [|by destruct parts| |done].
  - assert (List.filter kept_pair (parts ++ ["X-Amz-Signature=" +:+ sig]) = parts) as ->.
    { rewrite List.filter_app. cbn [List.filter]. rewrite kept_signature, app_nil_r.
      subst parts. rewrite !fmap_cons. cbn [List.filter]. rewrite !kept_encoded by (simpl; set_solver). done. }
    subst parts. rewrite <- list_fmap_compose. rewrite !fmap_cons. unfold compose.
    rewrite !encode_pair_split. done.
  - subst parts. apply Forall_app. split.
    + apply Forall_fmap, Forall_true. intros e. apply encode_pair_absent.
    + apply Forall_singleton. by rewrite absent_app, Hsig.
Qed.

Lemma credential_parts_scope ak r :
  absent "/" ak = true → absent "/" d = true → absent "/" r = true →
  credential_parts (ak +:+ "/" +:+ d +:+ "/" +:+ r +:+ "/s3/aws4_request") = Some (ak, d, r, "s3").
Proof.
  intros Ha Hd Hr. unfold credential_parts.
  change ("/" +:+ d +:+ "/" +:+ r +:+ "/s3/aws4_request") with
    (String "/" (d +:+ String "/" (r +:+ String "/" "s3/aws4_request"))).
  by rewrite !split_on_app.
Qed.

Lemma presigned_verifies query :
  absent "/" (ps_access_key p) = true → absent "/" d = true → absent "/" (ps_region p) = true →
  join " " (split_whitespace (host_of (endpoint p))) = host_of (endpoint p) →
  (∀ k v, (k, v) ∈ presign_params p d datetime → query !! k = Some v) →
  query !! "X-Amz-Signature" = Some (presign_signature p d datetime) →
  let h := [("host", Some (host_of (endpoint p)))] in
  ∃ c, parse_credentials h query = Some c ∧
    verify_signature (build_signing_input h c (map_string upper (ps_method p)) (presign_path p)
      (normalize_query_string (presigned_raw_query p d datetime))) c (ps_secret_key p) = None.
Proof.
  intros Ha Hd Hr Hhost Hq Hsig h. rewrite presign_params_eq in Hq.
  exists (mkCredentials (ps_access_key p) d (ps_region p) "s3" ["host"] (presign_signature p d datetime) datetime).
  split.
  - unfold parse_credentials. simpl. unfold parse_auth_query.
    rewrite (Hq "X-Amz-Algorithm" "AWS4-HMAC-SHA256"), (Hq "X-Amz-SignedHeaders" "host"), Hsig,
      (Hq "X-Amz-Date" datetime) by set_solver.
    erewrite (Hq "X-Amz-Credential") by (right; left). simpl.
    by rewrite credential_parts_scope.
  - unfold verify_signature, verify_signature_with_key. rewrite decide_True; [done|]. simpl.
    unfold presigned_raw_query, presign_query at 1. rewrite presign_params_eq, normalize_signed by apply hex_plain.
    rewrite <- presign_params_eq. fold (presign_query p d datetime).
    unfold presign_signature, request_to_sign, build_signing_input, normalized_header. simpl.
    rewrite Hhost. done.
Qed.

(** A presigned URL is accepted: the server that receives it parses the
    credentials back out of the decoded query, rebuilds the same canonical
    request from the raw query, the path and the host header, and finds the
    signature valid under the secret the URL was made with. *)
Theorem presigned_url_verifies query :
  absent "/" (ps_access_key p) = true → absent "/" d = true → absent "/" (ps_region p) = true →
  join " " (split_whitespace (host_of (endpoint p))) = host_of (endpoint p) →
  (∀ k v, (k, v) ∈ presign_params p d datetime → query !! k = Some v) →
  query !! "X-Amz-Signature" = Some (presign_signature p d datetime) →
  let h := [("host", Some (host_of (endpoint p)))] in
  ∃ c, parse_credentials h query = Some c ∧
    verify_signature (build_signing_input h c (map_string upper (ps_method p)) (presign_path p)
      (normalize_query_string (presigned_raw_query p d datetime))) c (ps_secret_key p) = None.
Proof. apply presigned_verifies. Qed.

End presign_roundtrip.

End signing.

(** ** An example with stand-ins for the cryptography *)

Module SigningDemo.

Definition sha256 (s : string) : string := "sha(" +:+ s +:+ ")".
Definition hmac_sha256 (k m : string) : string := "mac(" +:+ k +:+ "," +:+ m +:+ ")".
Definition hex (s : string) : string :=
  map_string (λ a, if decide (a = "&"%char) then "0"%char else a) s.

Lemma hex_plain s : absent "&" (hex s) = true.
Proof.
  induction s as [|a s IH]; [done|]. unfold hex in *. simpl. rewrite IH. by case_decide; [|rewrite bool_decide_false].
Qed.

Definition params : PresignParams :=
  mkPresign "http://localhost:9000/" "my-bucket" "dir/file name" "get" "AKID" "secret" "us-east-1" 3600.

Definition query : gmap string string :=
  <["X-Amz-Signature" := presign_signature sha256 hmac_sha256 hex params "20240101" "20240101T000000Z"]>
    (list_to_map (presign_params params "20240101" "20240101T000000Z")).

End SigningDemo.

Lemma presigned_url_verifies_witness :
  let p := SigningDemo.params in
  let h := [("host", Some "localhost:9000")] in
  ∃ c, parse_credentials h SigningDemo.query = Some c ∧
    verify_signature SigningDemo.sha256 SigningDemo.hmac_sha256 SigningDemo.hex
      (build_signing_input h c "GET" "/my-bucket/dir/file%20name"
         (normalize_query_string (presigned_raw_query SigningDemo.sha256 SigningDemo.hmac_sha256 SigningDemo.hex
            p "20240101" "20240101T000000Z"))) c "secret" = None.
Proof.
  apply (presigned_url_verifies SigningDemo.sha256 SigningDemo.hmac_sha256 SigningDemo.hex SigningDemo.params
    "20240101" "20240101T000000Z" SigningDemo.hex_plain SigningDemo.query); try reflexivity.
  intros k v Hkv. unfold SigningDemo.query. rewrite lookup_insert_ne.
  - apply elem_of_list_to_map_1; [|done]. apply (bool_decide_unpack _). vm_compute. exact I.
  - intros <-. rewrite presign_params_eq in Hkv.
    repeat (apply elem_of_cons in Hkv as [Hkv|Hkv]; [by simplify_eq|]). by apply not_elem_of_nil in Hkv.
Defined.
