(* ===== verification/AuthMiddleware.v ===== *)
(** * The authentication middleware of the S3 gateway

    dfs/s3_server/src/auth_middleware.rs with the signing-key cache of
    dfs/common/src/auth/cache.rs: one request after the other is checked and
    passed on or refused, and the cache of derived signing keys is the state
    that requests share. Time parsing, form decoding, token decryption and the
    bucket policy a file holds are external and given as functions; audit
    records and metrics are left out. *)

From stdpp Require Import pretty.
From S2P Require Import Prelude BTree Text Policy Signing.

(** ** State *)

(** What a decrypted session token holds; the policy context is that of its
    claims. [src/dfs/common/src/auth/sts.rs:13-18 StsSessionData] *)
Record StsSessionData : Type := mkSession {
  session_role_arn : string;
  temp_secret_key : string;
  expiration : Z;
  session_context : EvaluationContext;
}.

(** [src/dfs/s3_server/src/state.rs:9-22 AppState] *)
Record AppState : Type := mkAppState {
  auth_enabled : bool;
  require_tls : bool;
  server_region : string;
  allow_unsigned_payload : bool;
  get_secret_key : string → option string;
  decrypt_token : option (string → StsSessionData + AuthError);
  policy_evaluator : option (list Role);
}.

(** An HTTP request; [rq_query] is the raw query string. *)
Record Request : Type := mkRequest {
  rq_method : string;
  rq_path : string;
  rq_scheme : option string;
  rq_query : option string;
  rq_headers : Headers;
}.

(** [next.run(req)] with the policy context of the session, or a response. *)
Inductive Verdict : Type :=
  | Pass (context : option EvaluationContext)
  | Refuse (e : AuthError).

(** ** The signing-key cache *)

(** SigningKeyCache: keys and expiry times by access key and date. *)
Notation KeyCache := (gmap (string * string) (string * Z)).

(** [src/dfs/common/src/auth/cache.rs:27-44 get] *)
Definition cache_get (now : Z) (ak d : string) (cache : KeyCache) : option string * KeyCache :=
  match cache !! (ak, d) with
  | Some (key, expiry) => if (now <? expiry)%Z then (Some key, cache) else (None, delete (ak, d) cache)
  | None => (None, cache)
  end.

(** Entries live for 24 hours; the clock counts milliseconds. The least recently
    used entry may make room, see [evicted] below.
    [src/dfs/common/src/auth/cache.rs:46-58 insert] *)
Definition cache_insert (now : Z) (ak d key : string) (cache : KeyCache) : KeyCache :=
  <[(ak, d) := (key, now + 24 * 3600 * 1000)%Z]> cache.

(** ** Requests *)

Definition nonempty (s : string) : bool := negb (bool_decide (s = "")).

(** [src/dfs/s3_server/src/auth_middleware.rs:821-823 bucket_from_path] *)
Definition bucket_from_path (p : string) : option string := List.find nonempty (split_on "/" p).

Definition has_key (k : string) (q : gmap string string) : bool := bool_decide (is_Some (q !! k)).

(** [src/dfs/s3_server/src/auth_middleware.rs:400-493 resolve_s3_action_and_resource_from_parts] *)
Definition resolve_s3_action_and_resource (meth p : string) (q : gmap string string) : string * string :=
  let parts := List.filter nonempty (split_on "/" p) in
  let object := "arn:dfs:s3:::" +:+ join "/" parts in
  match parts with
  | [] => if decide (meth = "GET") then ("s3:ListAllMyBuckets", "arn:dfs:s3:::*")
          else ("s3:Unknown", "arn:dfs:s3:::*")
  | [b] =>
      let resource := "arn:dfs:s3:::" +:+ b in
      if decide (meth = "GET") then
        (if has_key "acl" q then "s3:GetBucketAcl" else if has_key "tagging" q then "s3:GetBucketTagging"
         else if has_key "policy" q then "s3:GetBucketPolicy"
         else if has_key "location" q then "s3:GetBucketLocation" else "s3:ListBucket", resource)
      else if decide (meth = "PUT") then
        (if has_key "acl" q then "s3:PutBucketAcl" else if has_key "tagging" q then "s3:PutBucketTagging"
         else if has_key "policy" q then "s3:PutBucketPolicy" else "s3:CreateBucket", resource)
      else if decide (meth = "DELETE") then
        (if has_key "tagging" q then "s3:DeleteBucketTagging"
         else if has_key "policy" q then "s3:DeleteBucketPolicy" else "s3:DeleteBucket", resource)
      else if decide (meth = "HEAD") then ("s3:HeadBucket", resource)
      else if decide (meth = "POST") then
        (if has_key "uploads" q || has_key "uploadId" q then "s3:PutObject" else "s3:Unknown", object)
      else ("s3:Unknown", "arn:dfs:s3:::*")
  | _ =>
      if decide (meth = "GET") then
        (if has_key "acl" q then "s3:GetObjectAcl" else if has_key "tagging" q then "s3:GetObjectTagging"
         else "s3:GetObject", object)
      else if decide (meth = "PUT") then
        (if has_key "acl" q then "s3:PutObjectAcl" else if has_key "tagging" q then "s3:PutObjectTagging"
         else "s3:PutObject", object)
      else if decide (meth = "DELETE") then
        (if has_key "tagging" q then "s3:DeleteObjectTagging" else "s3:DeleteObject", object)
      else if decide (meth = "HEAD") then ("s3:HeadObject", object)
      else if decide (meth = "POST") then
        (if has_key "uploads" q || has_key "uploadId" q then "s3:PutObject" else "s3:Unknown", object)
      else ("s3:Unknown", "arn:dfs:s3:::*")
  end.

Section middleware.
  Context (sha256 : string → string) (hmac_sha256 : string → string → string) (hex : string → string)
    (regex_is_match : string → string → option bool).
  (* serde_urlencoded; chrono with and without an offset, in milliseconds; `parse::<i64>` *)
  Context (form_decode : string → gmap string string) (parse_datetime parse_naive : string → option Z)
    (parse_i64 : string → option Z).
  (* the policy document stored for a bucket, when there is one that parses *)
  Context (bucket_policy : string → option (list BucketStatement)).

(** [src/dfs/s3_server/src/auth_middleware.rs:53-58 auth_middleware] *)
Definition skips_auth (rq : Request) : bool :=
  match rq_query rq with Some q => contains "Action=AssumeRoleWithWebIdentity" q | None => false end.

(** [src/dfs/s3_server/src/auth_middleware.rs:62-67 auth_middleware] *)
Definition is_tls (rq : Request) : bool :=
  bool_decide (rq_scheme rq = Some "https")
  || bool_decide (mjoin (get_header "x-forwarded-proto" (rq_headers rq)) = Some "https").

Definition query_params (rq : Request) : gmap string string := form_decode (default "" (rq_query rq)).

(** [src/dfs/s3_server/src/auth_middleware.rs:92-93 auth_middleware] *)
Definition is_presigned (q : gmap string string) : bool := has_key "X-Amz-Expires" q && has_key "X-Amz-Algorithm" q.

(** [src/dfs/s3_server/src/auth_middleware.rs:718-737 presigned_is_expired] *)
Definition presigned_is_expired (ts : string) (expires : Z) (now : Z) : bool :=
  match parse_naive ts with
  | Some t => (t + expires * 1000 <? now)%Z
  | None => true
  end.

(** Timestamp, expiry and clock skew; [None] when the request may go on.
    [src/dfs/s3_server/src/auth_middleware.rs:108-175 auth_middleware] *)
Definition check_time (now : Z) (ts : string) (q : gmap string string) : option AuthError :=
  match parse_datetime ts with
  | None => if is_presigned q then Some MissingAuth else None
  | Some t =>
      if is_presigned q then
        match q !! "X-Amz-Expires" ≫= parse_i64 with
        | Some n =>
            if (n <=? 0)%Z then Some MissingAuth
            else if (604800 <? n)%Z then Some MissingAuth
            else if presigned_is_expired ts n now then Some ExpiredToken
            else None
        | None => Some MissingAuth
        end
      else if (15 <? Z.abs (Z.quot (now - t) 60000))%Z then Some RequestTimeTooSkewed
      else None
  end.

(** [src/dfs/s3_server/src/auth_middleware.rs:177-190 auth_middleware] *)
Definition check_scope (state : AppState) (c : ParsedCredentials) : option AuthError :=
  if decide (region c = server_region state ∧ service c = "s3") then None
  else Some (InvalidCredentialScope (date c +:+ "/" +:+ server_region state +:+ "/s3/aws4_request")
               (date c +:+ "/" +:+ region c +:+ "/" +:+ service c +:+ "/aws4_request")).

(** The secret, and for a session its role and context.
    [src/dfs/s3_server/src/auth_middleware.rs:611-673 resolve_secret_key] *)
Definition resolve_secret_key (state : AppState) (now : Z) (sts_token : option string) (c : ParsedCredentials)
  : (string * option (string * EvaluationContext)) + AuthError :=
  match sts_token with
  | Some token =>
      match decrypt_token state with
      | None => inr (InternalError "STS is not enabled on this server")
      | Some decrypt =>
          match decrypt token with
          | inr e => inr e
          | inl session =>
              if (expiration session <? now / 1000)%Z then inr ExpiredToken
              else inl (temp_secret_key session, Some (session_role_arn session, session_context session))
          end
      end
  | None =>
      match get_secret_key state (access_key c) with
      | Some k => inl (k, None)
      | None => inr (InvalidAccessKey (access_key c))
      end
  end.

(** [src/dfs/s3_server/src/auth_middleware.rs:212-229 auth_middleware] *)
Definition signing_key (now : Z) (c : ParsedCredentials) (secret : string) (cache : KeyCache)
  : string * KeyCache :=
  let '(hit, cache) := cache_get now (access_key c) (date c) cache in
  match hit with
  | Some k => (k, cache)
  | None =>
      let k := derive_signing_key hmac_sha256 secret (date c) (region c) (service c) in
      (k, cache_insert now (access_key c) (date c) k cache)
  end.

(** The role's policies, then the bucket's.
    [src/dfs/s3_server/src/auth_middleware.rs:262-337 auth_middleware] *)
Definition check_policies (state : AppState) (session : option (string * EvaluationContext)) (rq : Request)
  : option AuthError :=
  let q := query_params rq in
  let '(action, resource) := resolve_s3_action_and_resource (rq_method rq) (rq_path rq) q in
  let allowed :=
    match session, policy_evaluator state with
    | Some (role_arn, ctx), Some roles => evaluate regex_is_match roles action resource role_arn ctx
    | _, _ => true
    end in
  if negb allowed then Some MissingAuth
  else if has_key "policy" q then None
  else
    match bucket_from_path (rq_path rq) ≫= λ b, bucket_policy ("/" +:+ b +:+ "/.s3_bucket_policy") with
    | Some statements =>
        match evaluate_bucket regex_is_match statements (fst <$> session) action resource false with
        | ExplicitDeny => Some MissingAuth
        | _ => None
        end
    | None => None
    end.

(** The input of the signature.
    [src/dfs/s3_server/src/auth_middleware.rs:231-238 auth_middleware] *)
Definition signing_input (rq : Request) (c : ParsedCredentials) : SigningInput :=
  build_signing_input (rq_headers rq) c (rq_method rq) (rq_path rq)
    (normalize_query_string (default "" (rq_query rq))).

(** [src/dfs/s3_server/src/auth_middleware.rs:192-198 auth_middleware] *)
Definition sts_token (rq : Request) : option string :=
  match mjoin (get_header "x-amz-security-token" (rq_headers rq)) with
  | Some t => Some t
  | None => query_params rq !! "X-Amz-Security-Token"
  end.

(** [src/dfs/s3_server/src/auth_middleware.rs:19-365 auth_middleware] *)
Definition auth_middleware (state : AppState) (now : Z) (rq : Request) (cache : KeyCache) : Verdict * KeyCache :=
  if negb (auth_enabled state) then (Pass None, cache)
  else if skips_auth rq then (Pass None, cache)
  else if require_tls state && negb (is_tls rq) then (Refuse InsecureTransport, cache)
  else
    let q := query_params rq in
    match parse_credentials (rq_headers rq) q with
    | None => (Refuse MissingAuth, cache)
    | Some c =>
        match check_time now (timestamp c) q with
        | Some e => (Refuse e, cache)
        | None =>
            match check_scope state c with
            | Some e => (Refuse e, cache)
            | None =>
                match resolve_secret_key state now (sts_token rq) c with
                | inr e => (Refuse e, cache)
                | inl (secret, session) =>
                    let '(k, cache) := signing_key now c secret cache in
                    let input := signing_input rq c in
                    if bool_decide (payload_hash input = "UNSIGNED-PAYLOAD") && negb (allow_unsigned_payload state)
                       && negb (is_presigned q) then (Refuse MissingAuth, cache)
                    else
                      match verify_signature_with_key sha256 hmac_sha256 hex input c k with
                      | Some e => (Refuse e, cache)
                      | None =>
                          match check_policies state session rq with
                          | Some e => (Refuse e, cache)
                          | None => (Pass (snd <$> session), cache)
                          end
                      end
                end
            end
        end
    end.

(** ** Authenticity *)

Notation middleware := auth_middleware.
Notation verify := (verify_signature sha256 hmac_sha256 hex).

(** The time of a request, in milliseconds: a presigned request is used within
    the validity it was signed for, at most seven days after its date; another
    one is less than sixteen minutes off, when its date can be read at all. *)
Definition in_time (now : Z) (ts : string) (q : gmap string string) : Prop :=
  if is_presigned q then
    ∃ t n, parse_naive ts = Some t ∧ q !! "X-Amz-Expires" ≫= parse_i64 = Some n ∧
      (0 < n ≤ 604800 ∧ now ≤ t + n * 1000)%Z
  else ∀ t, parse_datetime ts = Some t → (Z.abs (now - t) < 16 * 60000)%Z.

Lemma check_time_sound now ts q : check_time now ts q = None → in_time now ts q.
Proof.
  unfold check_time, in_time. destruct (parse_datetime ts) as [t|]; destruct (is_presigned q); try done.
  - destruct (q !! "X-Amz-Expires" ≫= parse_i64) as [n|]; [|done]. destruct (Z.leb_spec n 0); [done|].
    destruct (Z.ltb_spec 604800 n); [done|]. unfold presigned_is_expired. destruct (parse_naive ts) as [t'|]; [|done].
    destruct (Z.ltb_spec (t' + n * 1000) now); [done|]. intros _. exists t', n. split_and!; [done|done|lia..].
  - destruct (Z.ltb_spec 15 (Z.abs (Z.quot (now - t) 60000))); [done|]. intros _ t' [= <-].
    rewrite <- Z.quot_abs in H by lia. change (Z.abs 60000) with 60000%Z in H. rewrite Z.quot_div_nonneg in H by lia.
    pose proof (Z.mod_pos_bound (Z.abs (now - t)) 60000). pose proof (Z.div_mod (Z.abs (now - t)) 60000). lia.
Qed.

(** What a request that is passed on has shown: a signature under the secret of
    its access key, the region and service of the server, a time that is not
    too far off, a signed payload unless that is waived, and no bucket policy
    that denies it. *)
Definition authentic (state : AppState) (now : Z) (rq : Request) : Prop :=
  ∃ c secret,
    parse_credentials (rq_headers rq) (query_params rq) = Some c ∧
    get_secret_key state (access_key c) = Some secret ∧
    verify (signing_input rq c) c secret = None ∧
    region c = server_region state ∧ service c = "s3" ∧
    in_time now (timestamp c) (query_params rq) ∧
    (payload_hash (signing_input rq c) ≠ "UNSIGNED-PAYLOAD" ∨ allow_unsigned_payload state = true ∨
     is_presigned (query_params rq) = true) ∧
    check_policies state None rq = None.

(** The cached keys are those of the access keys they are cached for. *)
Definition cache_ok (state : AppState) (cache : KeyCache) : Prop :=
  ∀ ak d key expiry, cache !! (ak, d) = Some (key, expiry) →
    ∃ secret, get_secret_key state ak = Some secret ∧
      key = derive_signing_key hmac_sha256 secret d (server_region state) "s3".

(** The caches a server may have: requests arrive and entries are evicted. *)
Inductive reachable (state : AppState) : KeyCache → Prop :=
  | reachable_empty : reachable state ∅
  | reachable_request now rq cache :
      reachable state cache → reachable state (middleware state now rq cache).2
  | evicted cache cache' : reachable state cache → cache' ⊆ cache → reachable state cache'.

Lemma signing_key_ok state now c secret cache :
  cache_ok state cache → get_secret_key state (access_key c) = Some secret →
  region c = server_region state → service c = "s3" →
  cache_ok state (signing_key now c secret cache).2 ∧
  (signing_key now c secret cache).1 =
    derive_signing_key hmac_sha256 secret (date c) (region c) (service c).
Proof.
  intros Hok Hsec Hr Hs. unfold signing_key, cache_get.
  assert (∀ cache', cache_ok state cache' →
    cache_ok state (cache_insert now (access_key c) (date c)
      (derive_signing_key hmac_sha256 secret (date c) (region c) (service c)) cache')) as Hins.
  { intros cache' Hok' ak d key expiry. unfold cache_insert.
    intros [[[= <- <-] [= <- _]]|[_ ?]]%lookup_insert_Some; [|by eapply Hok'].
    exists secret. by rewrite Hr, Hs. }
  destruct (cache !! (access_key c, date c)) as [[key expiry]|] eqn:Hc.
  - destruct (now <? expiry)%Z; simpl.
    + split; [done|]. destruct (Hok _ _ _ _ Hc) as (secret' & Hsec' & ->). simplify_eq. by rewrite Hr, Hs.
    + split; [|done]. apply Hins. intros ak d key' expiry' [_ ?]%lookup_delete_Some. by eapply Hok.
  - simpl. split; [by apply Hins|done].
Qed.

(** One request of a server without session tokens. *)
Lemma middleware_ok state now rq cache :
  decrypt_token state = None → cache_ok state cache →
  cache_ok state (middleware state now rq cache).2 ∧
  ∀ ctx, (middleware state now rq cache).1 = Pass ctx →
    auth_enabled state = false ∨ skips_auth rq = true ∨ authentic state now rq.
Proof.
  intros Hsts Hok. unfold auth_middleware.
  destruct (auth_enabled state); simpl; [|auto]. destruct (skips_auth rq); simpl; [auto|].
  destruct (require_tls state && negb (is_tls rq)); simpl; [done|].
  destruct (parse_credentials _ _) as [c|] eqn:Hc; simpl; [|done].
  destruct (check_time _ _ _) as [e|] eqn:Ht; simpl; [done|].
  unfold check_scope. destruct (decide _) as [[Hr Hs]|]; simpl; [|done].
  unfold resolve_secret_key. rewrite Hsts. destruct (sts_token rq); simpl; [done|].
  destruct (get_secret_key state (access_key c)) as [secret|] eqn:Hk; simpl; [|done].
  destruct (signing_key_ok state now c secret cache Hok Hk Hr Hs) as [Hok' Hkey].
  destruct (signing_key now c secret cache) as [k cache'] eqn:Ek. simpl in Hok', Hkey. subst k.
  destruct (bool_decide _ && _ && _) eqn:Hp; simpl; [done|].
  destruct (verify_signature_with_key _ _ _ _ _ _) eqn:Hv; simpl; [done|].
  destruct (check_policies state None rq) eqn:Hpol; simpl; [done|].
  split; [done|]. intros _ _. right. right. exists c, secret. split_and!; try done; [by apply check_time_sound|].
  apply andb_false_iff in Hp as [Hp|Hp%negb_false_iff]; [|auto].
  apply andb_false_iff in Hp as [Hp%bool_decide_eq_false|Hp%negb_false_iff]; auto.
Qed.

Lemma reachable_ok state cache : decrypt_token state = None → reachable state cache → cache_ok state cache.
Proof.
  intros Hsts. induction 1 as [|now rq cache _ IH|cache cache' _ IH Hsub].
  - by intros ak d key expiry ?%lookup_empty_Some.
  - by apply middleware_ok.
  - intros ak d key expiry Hl. eapply IH. by eapply lookup_weaken.
Qed.


(** A request for any path is passed on without credentials when its query
    contains the name of the token action, wherever it stands. *)
Theorem token_action_skips_auth state cache now meth p before after h :
  auth_enabled state = true →
  middleware state now
    (mkRequest meth p None (Some (before +:+ "Action=AssumeRoleWithWebIdentity" +:+ after)) h) cache =
  (Pass None, cache).
Proof.
  intros He. unfold auth_middleware. rewrite He. simpl. unfold skips_auth. simpl.
  assert (contains "Action=AssumeRoleWithWebIdentity"
    (before +:+ "Action=AssumeRoleWithWebIdentity" +:+ after) = true) as ->; [|done].
  induction before as [|a before IH].
  - change ("" +:+ ?x) with x. by rewrite contains_prefix by apply prefix_append.
  - apply orb_true_iff. by right.
Qed.

End middleware.

(** ** Examples with stand-ins for the cryptography *)

Module AuthDemo.

Definition sha256 (s : string) : string := s.
Definition hmac_sha256 (k m : string) : string := k +:+ "|" +:+ m.
Fixpoint checksum (s : string) (n : N) : N :=
  match s with
  | EmptyString => n
  | String a s => checksum s ((n * 31 + N_of_ascii a) `mod` 4294967296)%N
  end.
Definition hex (s : string) : string := pretty (checksum s 7).
Definition regex (_ _ : string) : option bool := None.

Definition session : StsSessionData := mkSession "arn:guest" "guest-secret" 9999 (mkContext "guest" [] ∅).

(** One permanent key, session tokens for a role that may do nothing. *)
Definition server (sts : bool) : AppState :=
  mkAppState true false "us-east-1" false (λ ak, if decide (ak = "ROOT") then Some "root-secret" else None)
    (if sts then Some (λ t, if decide (t = "tok") then inl session else inr (InvalidToken t)) else None) (Some []).

(** A request signed with [secret] under the access key ROOT. *)
Definition headers (sig : string) (token : Headers) : Headers :=
  [("host", Some "s3.local"); ("x-amz-date", Some "20240101T000000Z"); ("x-amz-content-sha256", Some "digest");
   ("authorization", Some ("AWS4-HMAC-SHA256 Credential=ROOT/20240101/us-east-1/s3/aws4_request, " +:+
                           "SignedHeaders=host, Signature=" +:+ sig))] ++ token.
Definition unsigned (sig : string) (token : Headers) : Request :=
  mkRequest "GET" "/bucket/object" None None (headers sig token).

Definition credentials (sig : string) : ParsedCredentials :=
  mkCredentials "ROOT" "20240101" "us-east-1" "s3" ["host"] sig "20240101T000000Z".
Definition sign (secret : string) : string :=
  calculate_signature hmac_sha256 hex (derive_signing_key hmac_sha256 secret "20240101" "us-east-1" "s3")
    (request_to_sign sha256 hex (signing_input (unsigned "" []) (credentials "")) (credentials "")).
Definition request (secret : string) (token : Headers) : Request := unsigned (sign secret) token.

Definition serve (sts : bool) (rq : Request) (cache : KeyCache) : Verdict * KeyCache :=
  auth_middleware sha256 hmac_sha256 hex regex (λ _, ∅) (λ _, Some 0%Z) (λ _, None) (λ _, None) (λ _, None)
    (server sts) 1000 rq cache.

Definition token : Headers := [("x-amz-security-token", Some "tok")].

End AuthDemo.


Lemma token_action_skips_auth_witness :
  AuthDemo.serve true (mkRequest "DELETE" "/bucket/object" None (Some "x=Action=AssumeRoleWithWebIdentity") []) ∅ =
  (Pass None, ∅).
Proof.
  exact (token_action_skips_auth AuthDemo.sha256 AuthDemo.hmac_sha256 AuthDemo.hex AuthDemo.regex (λ _, ∅)
    (λ _, Some 0%Z) (λ _, None) (λ _, None) (λ _, None) (AuthDemo.server true) ∅ 1000 "DELETE" "/bucket/object"
    "x=" "" [] eq_refl).
Defined.

(** The cache of signing keys is filled before the signature is checked and
    does not tell sessions from permanent keys: the holder of a session token
    of a role that may do nothing sends one request under a foreign access key
    and with its own token, and then passes as the owner of that access key,
    without its secret and without the policies of the role. *)
Theorem session_poisons_key_cache :
  let '(first, cache) := AuthDemo.serve true (AuthDemo.request "guest-secret" AuthDemo.token) ∅ in
  first = Refuse MissingAuth ∧
  (AuthDemo.serve true (AuthDemo.request "guest-secret" []) cache).1 = Pass None ∧
  verify_signature AuthDemo.sha256 AuthDemo.hmac_sha256 AuthDemo.hex
    (signing_input (AuthDemo.request "guest-secret" []) (AuthDemo.credentials (AuthDemo.sign "guest-secret")))
    (AuthDemo.credentials (AuthDemo.sign "guest-secret")) "root-secret" ≠ None ∧
  (AuthDemo.serve true (AuthDemo.request "guest-secret" []) ∅).1 ≠ Pass None.
Proof. vm_compute. split_and!; done. Qed.
