(* ===== verification/Erasure.v ===== *)
(** * Erasure coding of blocks

    dfs/common/src/erasure.rs: a block is padded, cut into data shards and
    extended by parity shards; any [data_shards] of them give the block back.
    The Reed-Solomon code itself is an external crate: [ReedSolomon] states what
    its documentation promises. *)

From Stdlib Require Import Strings.Byte.
From S2P Require Import Prelude.

Notation bytes := (list byte).

(** ** Cutting into chunks *)

(** `data.chunks(n)`; [n] is positive. Each step takes at least one byte, so the
    length is enough fuel. *)
Fixpoint chunks_fuel {A} (fuel n : nat) (l : list A) : list (list A) :=
  match fuel, l with
  | 0, _ | _, [] => []
  | S fuel, _ => take n l :: chunks_fuel fuel n (drop n l)
  end.
Definition chunks {A} (n : nat) (l : list A) : list (list A) := chunks_fuel (length l) n l.

(** `v.resize(n, x)`. *)
Definition resize_vec {A} (n : nat) (x : A) (l : list A) : list A := take n l ++ replicate (n - length l) x.

Section chunks.
Context {A : Type}.
Implicit Types l : list A.

Lemma chunks_fuel_enough fuel n l :
  0 < n → length l ≤ fuel → chunks_fuel fuel n l = chunks n l.
Proof.
  intros Hn. unfold chunks. remember (length l) as m eqn:Hm.
  assert (∀ f1 f2 l, length l ≤ f1 → length l ≤ f2 → chunks_fuel f1 n l = chunks_fuel f2 n l) as H.
  { clear l m Hm. induction f1 as [|f1 IH]; intros f2 l H1 H2.
    - destruct l; [by destruct f2|simpl in H1; lia].
    - destruct f2 as [|f2]; [destruct l; [done|simpl in H2; lia]|]. destruct l as [|x l]; [done|].
      cbn [chunks_fuel]. f_equal. apply IH; rewrite length_drop; simpl in *; lia. }
  intros Hf. apply H; lia.
Qed.

Lemma chunks_cons n l : 0 < n → l ≠ [] → chunks n l = take n l :: chunks n (drop n l).
Proof.
  intros Hn Hl. unfold chunks at 1. destruct l as [|x l]; [done|]. cbn [chunks_fuel length]. f_equal.
  apply chunks_fuel_enough; [done|]. rewrite length_drop. simpl. lia.
Qed.

(** The chunks of a list, by induction on what is left. *)
Lemma chunks_ind n (P : list A → list (list A) → Prop) :
  0 < n → P [] [] →
  (∀ l, l ≠ [] → P (drop n l) (chunks n (drop n l)) → P l (take n l :: chunks n (drop n l))) →
  ∀ l, P l (chunks n l).
Proof.
  intros Hn Hnil Hcons l. remember (length l) as m eqn:Hm. revert l Hm.
  induction (lt_wf m) as [m _ IH]. intros l ->. destruct (decide (l = [])) as [->|Hl]; [done|].
  rewrite chunks_cons by done. apply Hcons; [done|]. eapply IH; [|done].
  rewrite length_drop. destruct l; [done|]. simpl. lia.
Qed.

Lemma chunks_join n l : 0 < n → mjoin (chunks n l) = l.
Proof.
  intros Hn. pattern l, (chunks n l). apply chunks_ind; [done|done|].
  intros l' _ IH. simpl. rewrite IH. apply take_drop.
Qed.

Lemma chunks_exact n k l :
  0 < n → length l = n * k → length (chunks n l) = k ∧ Forall (λ c, length c = n) (chunks n l).
Proof.
  intros Hn. revert l. induction k as [|k IH]; intros l Hl.
  - destruct l; [by split|simpl in Hl; lia].
  - assert (l ≠ []) as Hne by (intros ->; simpl in Hl; lia). rewrite chunks_cons by done.
    destruct (IH (drop n l)) as [Hlen Hall]; [rewrite length_drop; lia|].
    split; [simpl; lia|]. constructor; [|done]. rewrite length_take. lia.
Qed.

End chunks.

(** ** Encoding and decoding *)

(** `ReedSolomon::new(k, m)`, its encoder and its reconstruction. The encoder
    keeps the data shards; reconstruction from at least [k] shards of an
    encoding gives all of them back. *)
Class ReedSolomon := {
  rs_new : nat → nat → bool;
  rs_encode : nat → nat → list bytes → option (list bytes);
  rs_reconstruct : nat → nat → list (option bytes) → option (list (option bytes));
  rs_encode_data k m data parity size :
    rs_new k m = true → length data = k → length parity = m → 0 < size →
    Forall (λ s, length s = size) (data ++ parity) →
    ∃ parity', rs_encode k m (data ++ parity) = Some (data ++ parity') ∧
      length parity' = m ∧ Forall (λ s, length s = size) parity';
  rs_reconstruct_all k m shards0 shards available :
    rs_new k m = true → rs_encode k m shards0 = Some shards →
    Forall2 (λ (o : option bytes) s, o = None ∨ o = Some s) available shards →
    k ≤ length (omap id available) →
    rs_reconstruct k m available = Some (Some <$> shards);
}.

Section erasure.
Context `{ReedSolomon}.

(** [src/dfs/common/src/erasure.rs:57-60 shard_len] *)
Definition shard_len (data_len data_shards : nat) : outcome nat :=
  match data_shards with
  | 0 => Panic "data_shards must be > 0"
  | _ => Ok ((data_len + data_shards - 1) / data_shards)
  end.

(** [src/dfs/common/src/erasure.rs:7-24 encode] *)
Definition encode (data : bytes) (data_shards parity_shards : nat) : outcome (list bytes) :=
  if (data_shards =? 0) || (parity_shards =? 0) then Err "data_shards and parity_shards must both be > 0"
  else if length data =? 0 then Err "data must not be empty"
  else if negb (rs_new data_shards parity_shards) then Err "RS init error"
  else
    match shard_len (length data) data_shards with
    | Ok shard_size =>
        let padded := resize_vec (shard_size * data_shards) x00 data in
        let shards := resize_vec (data_shards + parity_shards) (replicate shard_size x00) (chunks shard_size padded) in
        match rs_encode data_shards parity_shards shards with
        | Some shards => Ok shards
        | None => Err "RS encode error"
        end
    | Err e => Err e
    | Panic w => Panic w
    end.

(** The loop that concatenates the data shards.
    [src/dfs/common/src/erasure.rs:40-47 decode] *)
Fixpoint concat_shards (i : nat) (shards : list (option bytes)) : outcome bytes :=
  match shards with
  | [] => Ok []
  | None :: _ => Err ("data shard missing after reconstruction")
  | Some s :: shards =>
      match concat_shards (S i) shards with
      | Ok rest => Ok (s ++ rest)
      | e => e
      end
  end.

(** [src/dfs/common/src/erasure.rs:30-50 decode] *)
Definition decode (shards : list (option bytes)) (data_shards parity_shards original_len : nat) : outcome bytes :=
  if negb (rs_new data_shards parity_shards) then Err "RS init error"
  else
    match rs_reconstruct data_shards parity_shards shards with
    | None => Err "RS reconstruct error"
    | Some shards =>
        if length shards <? data_shards then Panic "range end index out of range"
        else
          match concat_shards 0 (take data_shards shards) with
          | Ok result => Ok (take original_len result)
          | e => e
          end
    end.

Lemma concat_shards_all i shards : concat_shards i (Some <$> shards) = Ok (mjoin shards).
Proof. revert i. induction shards as [|s shards IH]; intros i; simpl; [done|]. by rewrite IH. Qed.

(** The shards of a block: the padded block cut into equal parts, then parity. *)
Lemma encode_shape data k m shards :
  encode data k m = Ok shards →
  ∃ shards0 size parity, rs_encode k m shards0 = Some shards ∧ rs_new k m = true ∧
    size * k < length data + k ∧ length data ≤ size * k ∧
    shards = chunks size (resize_vec (size * k) x00 data) ++ parity ∧
    length (chunks size (resize_vec (size * k) x00 data)) = k ∧ length parity = m ∧
    mjoin (chunks size (resize_vec (size * k) x00 data)) = data ++ replicate (size * k - length data) x00 ∧
    Forall (λ s, length s = size) shards.
Proof.
  unfold encode. destruct (_ || _) eqn:Hz; [done|]. apply orb_false_iff in Hz as [Hk%Nat.eqb_neq Hm%Nat.eqb_neq].
  destruct (length data =? 0) eqn:Hd; [done|]. apply Nat.eqb_neq in Hd.
  destruct (rs_new k m) eqn:Hnew; [|done]. simpl.
  unfold shard_len. destruct k as [|k']; [done|]. set (k := S k') in *.
  set (size := (length data + k - 1) / k).
  assert (size * k < length data + k ∧ length data ≤ size * k ∧ 0 < size) as (Hup & Hlow & Hpos).
  { pose proof (Nat.div_mod_eq (length data + k - 1) k). pose proof (Nat.mod_upper_bound (length data + k - 1) k Hk).
    fold size in H0. split_and!; nia. }
  set (padded := resize_vec (size * k) x00 data).
  assert (padded = data ++ replicate (size * k - length data) x00) as Hpad.
  { unfold padded, resize_vec. by rewrite take_ge. }
  destruct (chunks_exact size k padded Hpos) as [Hlen Hall].
  { rewrite Hpad, length_app, length_replicate. lia. }
  unfold resize_vec at 1. rewrite take_ge, Hlen by lia. replace (k + m - k) with m by lia.
  destruct (rs_encode_data k m (chunks size padded) (replicate m (replicate size x00)) size) as (par & He & Hpl & Hps);
    [done|done|by rewrite length_replicate|done| |].
  { apply Forall_app. split; [done|]. apply Forall_replicate. by rewrite length_replicate. }
  rewrite He. intros [= <-].
  eexists _, size, par. split_and!; try done; [by rewrite chunks_join|by apply Forall_app].
Qed.

Lemma decode_encoded data k m shards available :
  encode data k m = Ok shards →
  Forall2 (λ (o : option bytes) s, o = None ∨ o = Some s) available shards →
  k ≤ length (omap id available) →
  decode available k m (length data) = Ok data.
Proof.
  intros Henc Hav Hk. destruct (encode_shape _ _ _ _ Henc)
    as (shards0 & size & par & He & Hnew & _ & Hlow & -> & Hlen & _ & Hjoin & _).
  unfold decode. rewrite Hnew. simpl. erewrite rs_reconstruct_all by done.
  rewrite (proj2 (Nat.ltb_ge _ _)) by (rewrite length_fmap, length_app; lia).
  rewrite <- fmap_take, take_app_length' by done. rewrite concat_shards_all, Hjoin.
  by rewrite take_app_length.
Qed.

Lemma shards_nonempty data k m shards s :
  encode data k m = Ok shards → s ∈ shards → s ≠ [].
Proof.
  intros Henc Hs. destruct (encode_shape _ _ _ _ Henc)
    as (shards0 & size & par & He & Hnew & _ & Hlow & E & _ & _ & _ & Hall).
  assert (length data ≠ 0) as Hd.
  { unfold encode in Henc. intros Hz. rewrite Hz in Henc. by destruct (_ || _). }
  eapply Forall_forall in Hall; [|done]. simpl in Hall. intros ->. simpl in Hall. subst size. lia.
Qed.

(** Without losses the data shards alone give the block. *)
Lemma data_shards_join data k m shards :
  encode data k m = Ok shards → take (length data) (mjoin (take k shards)) = data ∧ length shards = k + m.
Proof.
  intros Henc. destruct (encode_shape _ _ _ _ Henc)
    as (shards0 & size & par & He & Hnew & _ & Hlow & -> & Hlen & Hpar & Hjoin & _).
  rewrite take_app_length' by done. rewrite Hjoin, take_app_length. split; [done|]. rewrite length_app. lia.
Qed.

(** A block survives the loss of any parity_shards of its shards: whatever
    shards are missing, as long as data_shards of them are left, decoding gives
    the block back byte for byte, without the padding. *)
Theorem erasure_roundtrip data k m shards available :
  encode data k m = Ok shards →
  Forall2 (λ (o : option bytes) s, o = None ∨ o = Some s) available shards →
  k ≤ length (omap id available) →
  decode available k m (length data) = Ok data.
Proof. apply decode_encoded. Qed.

End erasure.

(** ** An instance: one data shard and its copies *)

Definition mirror_encode (k m : nat) (l : list bytes) : option (list bytes) :=
  match l with d :: _ => Some (d :: replicate m d) | [] => None end.
Definition mirror_reconstruct (k m : nat) (available : list (option bytes)) : option (list (option bytes)) :=
  match omap id available with s :: _ => Some (replicate (length available) (Some s)) | [] => None end.

Lemma mirror_present (available : list (option bytes)) shards d s rest :
  Forall2 (λ (o : option bytes) s, o = None ∨ o = Some s) available shards → Forall (.= d) shards →
  omap id available = s :: rest → s = d.
Proof.
  induction 1 as [|o s' av sh [->| ->] _ IH]; intros Hd; simpl; [done|..]; apply Forall_cons in Hd as [-> Hd].
  - by apply IH.
  - by intros [= <- _].
Qed.

#[refine] Definition mirror : ReedSolomon := {|
  rs_new := λ k m, k =? 1;
  rs_encode := mirror_encode;
  rs_reconstruct := mirror_reconstruct;
|}.
Proof.
  - intros k m data parity size ->%Nat.eqb_eq Hd Hp Hpos Hall. destruct data as [|d [|]]; simplify_eq/=.
    exists (replicate (length parity) d). split; [done|]. split; [apply length_replicate|].
    apply Forall_replicate. by apply Forall_cons in Hall as [? _].
  - intros k m shards0 shards available ->%Nat.eqb_eq He Hav Hk. unfold mirror_encode in He.
    destruct shards0 as [|d shards0]; [done|]. injection He as <-. unfold mirror_reconstruct.
    destruct (omap id available) as [|s rest] eqn:Hs; [simpl in Hk; lia|].
    assert (s = d) as ->.
    { eapply mirror_present; [done| |done]. constructor; [done|]. by apply Forall_replicate. }
    rewrite (Forall2_length _ _ _ Hav). simpl. by rewrite length_replicate, fmap_replicate.
Defined.

Lemma erasure_roundtrip_witness :
  @decode mirror [None; None; Some [x41; x42]] 1 2 2 = Ok [x41; x42].
Proof.
  apply (@erasure_roundtrip mirror [x41; x42] 1 2 [[x41; x42]; [x41; x42]; [x41; x42]]).
  - reflexivity.
  - repeat (apply Forall2_cons; split; [auto|]). apply Forall2_nil. exact I.
  - simpl. lia.
Defined.
