(* ===== verification/ChunkServer.v ===== *)
(** * The chunk server: blocks, checksums and reads

    dfs/chunkserver/src/chunkserver.rs: blocks and their checksum files in the
    hot and the cold directory, the block cache, fencing by the master's term,
    writes, reads with verification and recovery, and the scrubber. CRC-32 is
    an external crate and a parameter. The file system holds what was written
    to it; the data other replicas send is an argument. *)

From Stdlib Require Import Strings.Byte.
From S2P Require Import Prelude Erasure.

(** [src/dfs/chunkserver/src/chunkserver.rs:25-41 MyChunkServer] *)
Record MyChunkServer : Type := mkChunkServer {
  hot : gmap string bytes;
  cold : option (gmap string bytes);
  block_cache : gmap string bytes;
  pending_bad_blocks : list string;
  known_term : N;
}.

Definition eta_cs (s : MyChunkServer) : MyChunkServer :=
  mkChunkServer (hot s) (cold s) (block_cache s) (pending_bad_blocks s) (known_term s).
#[global] Instance upd_hot : Upd hot := ltac:(upd_tac eta_cs hot).
#[global] Instance upd_cold : Upd cold := ltac:(upd_tac eta_cs cold).
#[global] Instance upd_cache : Upd block_cache := ltac:(upd_tac eta_cs block_cache).
#[global] Instance upd_bad : Upd pending_bad_blocks := ltac:(upd_tac eta_cs pending_bad_blocks).
#[global] Instance upd_term : Upd known_term := ltac:(upd_tac eta_cs known_term).

(** ** Checksum files *)

Definition CHECKSUM_CHUNK_SIZE : nat := 512.

(** `u32::to_be_bytes` and `u32::from_be_bytes`. *)
Definition byte_of (n : N) : byte := default x00 (Byte.of_N (n `mod` 256)).
Definition to_be_bytes (n : N) : bytes :=
  [byte_of (n / 16777216); byte_of (n / 65536); byte_of (n / 256); byte_of n]%N.
Definition from_be_bytes (a b c d : byte) : N :=
  (Byte.to_N a * 16777216 + Byte.to_N b * 65536 + Byte.to_N c * 256 + Byte.to_N d)%N.

(** `meta_data.chunks_exact(4).map(..)`: an incomplete last chunk is dropped. *)
Fixpoint decode_checksums (meta : bytes) : list N :=
  match meta with
  | a :: b :: c :: d :: meta => from_be_bytes a b c d :: decode_checksums meta
  | _ => []
  end.

(** `format!("{}.meta", block_id)`. *)
Definition meta_name (block_id : string) : string := block_id +:+ ".meta".

Section chunk_server.
  Context (crc32 : bytes → N).

(** [src/dfs/chunkserver/src/chunkserver.rs:182-190 calculate_checksums] *)
Definition calculate_checksums (data : bytes) : list N := crc32 <$> chunks CHECKSUM_CHUNK_SIZE data.

(** [src/dfs/chunkserver/src/chunkserver.rs:192-209 write_block_async] *)
Definition write_block_async (block_id : string) (data : bytes) (s : MyChunkServer) : MyChunkServer :=
  let meta_bytes := mjoin (to_be_bytes <$> calculate_checksums data) in
  s <| hot := <[meta_name block_id := meta_bytes]> (<[block_id := data]> (hot s)) |>.

(** The contents of the file [name]: the hot directory first, then the cold one.
    [src/dfs/chunkserver/src/chunkserver.rs:110-122 block_path] *)
Definition lookup_file (name : string) (s : MyChunkServer) : option bytes :=
  match hot s !! name with
  | Some d => Some d
  | None => cold s ≫= λ c, c !! name
  end.

(** [src/dfs/chunkserver/src/chunkserver.rs:211-236 read_block_async] *)
Definition read_block_async (block_id : string) (offset len : nat) (s : MyChunkServer) : outcome bytes :=
  match lookup_file block_id s with
  | None => Err "NotFound"
  | Some data =>
      if length data <=? offset then Err "Offset exceeds file size"
      else Ok (take (min len (length data - offset)) (drop offset data))
  end.

(** [None] is `Ok(())`; the number of the chunk is left out of the message.
    [src/dfs/chunkserver/src/chunkserver.rs:238-292 verify_block] *)
Definition verify_block (block_id : string) (data : bytes) (s : MyChunkServer) : option string :=
  match lookup_file (meta_name block_id) s with
  | None => Some "Checksum file missing"
  | Some meta_data =>
      let expected := decode_checksums meta_data in
      let actual := calculate_checksums data in
      if negb (length expected =? length actual) then Some "Checksum count mismatch"
      else if decide (expected = actual) then None
      else Some "Checksum mismatch at chunk"
  end.

(** The chunks of the range in turn; the checksum file may have fewer entries.
    A file that ends before a chunk cannot be read: the length of the chunk
    wraps around in the release build and is cut to a whole chunk.
    [src/dfs/chunkserver/src/chunkserver.rs:331-348 verify_partial_read] *)
Fixpoint verify_chunks (all_checksums : list N) (data : bytes) (ixs : list nat) : option string :=
  match ixs with
  | [] => None
  | i :: ixs =>
      match all_checksums !! i with
      | None => None
      | Some expected =>
          let chunk_offset := i * CHECKSUM_CHUNK_SIZE in
          if length data <? chunk_offset then Some "failed to fill whole buffer"
          else if (crc32 (take CHECKSUM_CHUNK_SIZE (drop chunk_offset data)) =? expected)%N
          then verify_chunks all_checksums data ixs
          else Some "Checksum mismatch at chunk"
      end
  end.

(** Only the hot directory is looked at.
    [src/dfs/chunkserver/src/chunkserver.rs:296-351 verify_partial_read] *)
Definition verify_partial_read (block_id : string) (offset len : nat) (s : MyChunkServer) : option string :=
  match hot s !! meta_name block_id with
  | None => Some "Checksum file missing"
  | Some meta_data =>
      let start_chunk := offset / CHECKSUM_CHUNK_SIZE in
      let end_chunk := (offset + len - 1) / CHECKSUM_CHUNK_SIZE in
      match hot s !! block_id with
      | None => Some "No such file or directory"
      | Some data =>
          verify_chunks (decode_checksums meta_data) data (seq start_chunk (S end_chunk - start_chunk))
      end
  end.

(** The replicas' answers in the order they are asked; [None] stands for a
    replica that cannot be reached or refuses.
    [src/dfs/chunkserver/src/chunkserver.rs:401-459 recover_block] *)
Fixpoint recover_from (block_id : string) (replies : list (option bytes)) (s : MyChunkServer)
  : outcome unit * MyChunkServer :=
  match replies with
  | [] => (Err "Failed to recover block from any replica", s)
  | Some data :: replies =>
      match verify_block block_id data s with
      | None => (Ok tt, write_block_async block_id data s)
      | Some _ => recover_from block_id replies s
      end
  | None :: replies => recover_from block_id replies s
  end.

(** [found] says whether a master knew a location of the block.
    [src/dfs/chunkserver/src/chunkserver.rs:353-460 recover_block] *)
Definition recover_block (block_id : string) (found : bool) (replies : list (option bytes)) (s : MyChunkServer)
  : outcome unit * MyChunkServer :=
  if negb found then (Err "No replica locations found for block", s)
  else recover_from block_id replies s.

(** ** Requests *)

(** Fencing, with the term [known] that the request has loaded: [None] when the
    request is from a stale leader. The load and the store are two operations.
    [src/dfs/chunkserver/src/chunkserver.rs:735-743 write_block] *)
Definition fence (known req_term : N) (s : MyChunkServer) : option MyChunkServer :=
  if ((0 <? req_term) && (req_term <? known))%N then None
  else if (known <? req_term)%N then Some (s <| known_term := req_term |>) else Some s.

(** What a write answers. *)
Inductive WriteResponse : Type :=
  | Written (replicas_written : Z)
  | WriteFailed (error_message : string)
  | StaleTerm.

(** A write after it has loaded the known term. [downstream]: the replicas written
    by the next server, [None] without one or when forwarding fails.
    [src/dfs/chunkserver/src/chunkserver.rs:735-829 write_block] *)
Definition write_block_after (known : N) (block_id : string) (data : bytes) (expected_checksum req_term : N)
    (downstream : option Z) (s : MyChunkServer) : WriteResponse * MyChunkServer :=
  match fence known req_term s with
  | None => (StaleTerm, s)
  | Some s =>
      if (negb (expected_checksum =? 0) && negb (crc32 data =? expected_checksum))%N
      then (WriteFailed "Checksum mismatch", s)
      else (Written (1 + default 0%Z downstream), write_block_async block_id data s)
  end.

(** A write that no other request interrupts.
    [src/dfs/chunkserver/src/chunkserver.rs:723-829 write_block] *)
Definition write_block (block_id : string) (data : bytes) (expected_checksum req_term : N)
    (downstream : option Z) (s : MyChunkServer) : WriteResponse * MyChunkServer :=
  write_block_after (known_term s) block_id data expected_checksum req_term downstream s.

(** The same steps for a block that another chunk server forwards.
    [src/dfs/chunkserver/src/chunkserver.rs:995-1088 replicate_block] *)
Definition replicate_block_after (known : N) (block_id : string) (data : bytes) (expected_checksum req_term : N)
    (downstream : option Z) (s : MyChunkServer) : WriteResponse * MyChunkServer :=
  match fence known req_term s with
  | None => (StaleTerm, s)
  | Some s =>
      if (negb (expected_checksum =? 0) && negb (crc32 data =? expected_checksum))%N
      then (WriteFailed "Replication checksum mismatch", s)
      else (Written (1 + default 0%Z downstream), write_block_async block_id data s)
  end.

(** [src/dfs/chunkserver/src/chunkserver.rs:983-1088 replicate_block] *)
Definition replicate_block (block_id : string) (data : bytes) (expected_checksum req_term : N)
    (downstream : option Z) (s : MyChunkServer) : WriteResponse * MyChunkServer :=
  replicate_block_after (known_term s) block_id data expected_checksum req_term downstream s.

(** The term that a heartbeat brings back, after the known term was loaded.
    [src/dfs/chunkserver/src/bin/chunkserver.rs:258-268 main] *)
Definition heartbeat_term_after (known master_term : N) (s : MyChunkServer) : MyChunkServer :=
  if (known <? master_term)%N then s <| known_term := master_term |> else s.

(** What a read answers. *)
Inductive ReadResponse : Type :=
  | ReadOk (data : bytes) (bytes_read total_size : nat)
  | ReadNotFound
  | ReadOutOfRange
  | DataLoss
  | ReadInternal.

(** [found] and [replies] serve the recovery of a corrupted block. A failed
    verification of a partial read only starts a recovery in the background
    ([recovers_in_background]), which is a step of its own.
    [src/dfs/chunkserver/src/chunkserver.rs:831-981 read_block] *)
Definition read_block (block_id : string) (offset req_length : nat) (found : bool) (replies : list (option bytes))
    (s : MyChunkServer) : ReadResponse * MyChunkServer :=
  match lookup_file block_id s with
  | None => (ReadNotFound, s)
  | Some stored =>
      let total_size := length stored in
      let len := if req_length =? 0 then total_size - offset else req_length in
      if total_size <=? offset then (ReadOutOfRange, s)
      else
        let bytes_to_read := min len (total_size - offset) in
        let is_full_block_read := (offset =? 0) && (bytes_to_read =? total_size) in
        match (if is_full_block_read then block_cache s !! block_id else None) with
        | Some cached => (ReadOk cached (length cached) total_size, s)
        | None =>
            match read_block_async block_id offset bytes_to_read s with
            | Ok data =>
                if is_full_block_read then
                  match verify_block block_id data s with
                  | None =>
                      (ReadOk data bytes_to_read total_size,
                       s <| block_cache := <[block_id := data]> (block_cache s) |>)
                  | Some _ =>
                      match recover_block block_id found replies s with
                      | (Ok _, s') =>
                          match read_block_async block_id offset bytes_to_read s' with
                          | Ok recovered =>
                              match verify_block block_id recovered s' with
                              | None => (ReadOk recovered bytes_to_read total_size, s')
                              | Some _ => (DataLoss, s')
                              end
                          | _ => (ReadInternal, s')
                          end
                      | (_, s') => (DataLoss, s')
                      end
                  end
                else (ReadOk data bytes_to_read total_size, s)
            | Err _ => (ReadInternal, s)
            | Panic _ => (ReadInternal, s)
            end
        end
  end.

(** Whether a read starts a recovery in the background: a part of the block was
    read and its chunks do not match their checksums.
    [src/dfs/chunkserver/src/chunkserver.rs:892-911 read_block] *)
Definition recovers_in_background (block_id : string) (offset req_length : nat) (s : MyChunkServer) : bool :=
  match lookup_file block_id s with
  | None => false
  | Some stored =>
      let total_size := length stored in
      let len := if req_length =? 0 then total_size - offset else req_length in
      let bytes_to_read := min len (total_size - offset) in
      (offset <? total_size) && negb ((offset =? 0) && (bytes_to_read =? total_size)) &&
      bool_decide (is_Some (verify_partial_read block_id offset bytes_to_read s))
  end.

(** Both files move; the `.meta` file only when it exists.
    [src/dfs/chunkserver/src/chunkserver.rs:125-143 move_block_to_cold] *)
Definition move_block_to_cold (block_id : string) (s : MyChunkServer) : outcome unit * MyChunkServer :=
  match cold s with
  | None => (Err "cold_storage_dir not configured", s)
  | Some c =>
      match hot s !! block_id with
      | None => (Err "NotFound", s)
      | Some d =>
          let s := s <| hot := delete block_id (hot s) |> <| cold := Some (<[block_id := d]> c) |> in
          match hot s !! meta_name block_id with
          | None => (Ok tt, s)
          | Some m => (Ok tt, s <| hot := delete (meta_name block_id) (hot s) |>
                               <| cold := Some (<[meta_name block_id := m]> (<[block_id := d]> c)) |>)
          end
      end
  end.

(** `path.extension() == Some("meta")`. *)
Definition is_meta (name : string) : bool :=
  (5 <? String.length name) &&
  bool_decide (String.substring (String.length name - 5) 5 name = ".meta").

(** The blocks of the hot directory that do not match their checksums.
    [src/dfs/chunkserver/src/chunkserver.rs:652-690 run_background_scrubber] *)
Definition corrupted_blocks `{HashOrder} (s : MyChunkServer) : list string :=
  (filter (λ e, is_meta e.1 = false ∧ verify_block e.1 e.2 s ≠ None) (entries (hot s))).*1.

(** One interval; [peers] answers the recovery of each block.
    [src/dfs/chunkserver/src/chunkserver.rs:642-717 run_background_scrubber] *)
Definition scrub `{HashOrder} (peers : string → bool * list (option bytes)) (s : MyChunkServer) : MyChunkServer :=
  let bad := corrupted_blocks s in
  let s := s <| pending_bad_blocks := pending_bad_blocks s ++ bad |> in
  foldl (λ s b, (recover_block b (peers b).1 (peers b).2 s).2) s bad.

(** ** Checksums round-trip *)

Lemma byte_of_to_N n : Byte.to_N (byte_of n) = (n `mod` 256)%N.
Proof.
  unfold byte_of. destruct (Byte.of_N (n `mod` 256)) as [b|] eqn:E; simpl.
  - by apply Byte.to_of_N.
  - apply Byte.of_N_None_iff in E. pose proof (N.mod_upper_bound n 256). lia.
Qed.

Lemma be_bytes_roundtrip n :
  (n < 4294967296)%N →
  from_be_bytes (byte_of (n / 16777216)) (byte_of (n / 65536)) (byte_of (n / 256)) (byte_of n) = n.
Proof.
  intros Hn. unfold from_be_bytes. rewrite !byte_of_to_N.
  rewrite (N.mod_small (n / 16777216)) by (apply N.Div0.div_lt_upper_bound; lia).
  pose proof (N.div_mod n 256). pose proof (N.div_mod (n / 256) 256). pose proof (N.div_mod (n / 65536) 256).
  rewrite N.Div0.div_div in * by lia. change (256 * 256)%N with 65536%N in *.
  change (65536 * 256)%N with 16777216%N in *. lia.
Qed.

Context (crc32_bound : ∀ d, (crc32 d < 4294967296)%N).

Lemma decode_checksums_of data :
  decode_checksums (mjoin (to_be_bytes <$> calculate_checksums data)) = calculate_checksums data.
Proof.
  unfold calculate_checksums. induction (chunks CHECKSUM_CHUNK_SIZE data) as [|c cs IH]; [done|].
  cbn. rewrite be_bytes_roundtrip by done. f_equal. exact IH.
Qed.

Lemma meta_name_ne b : meta_name b ≠ b.
Proof.
  unfold meta_name. induction b as [|a b IH]; [done|]. intros [= H]. by apply IH.
Qed.

Lemma write_lookup b data s : lookup_file b (write_block_async b data s) = Some data.
Proof.
  unfold lookup_file. simpl. rewrite lookup_insert_ne by apply meta_name_ne. by rewrite lookup_insert_eq.
Qed.

Lemma write_verifies b data s : verify_block b data (write_block_async b data s) = None.
Proof.
  unfold verify_block, lookup_file. simpl. rewrite lookup_insert_eq, decode_checksums_of, Nat.eqb_refl. simpl.
  by rewrite decide_True.
Qed.

(** A server that holds a block with its checksums, and no other version of it
    in the cache, serves it. *)
Definition holds (b : string) (data : bytes) (s : MyChunkServer) : Prop :=
  lookup_file b s = Some data ∧ verify_block b data s = None ∧
  (block_cache s !! b = None ∨ block_cache s !! b = Some data).

Lemma write_holds b data s : block_cache s !! b = None → holds b data (write_block_async b data s).
Proof. intros Hc. split; [apply write_lookup|]. split; [apply write_verifies|by left]. Qed.

Lemma holds_read_range b data s offset len found replies :
  holds b data s → offset < length data →
  let wanted := if len =? 0 then drop offset data else take len (drop offset data) in
  (read_block b offset len found replies s).1 = ReadOk wanted (length wanted) (length data).
Proof.
  intros (Hl & Hv & Hc) Hoff wanted. unfold read_block. rewrite Hl, (proj2 (Nat.leb_gt _ _)) by done.
  set (len' := if len =? 0 then _ else _). set (k := len' `min` (length data - offset)).
  assert (take k (drop offset data) = wanted ∧ length wanted = k) as [Hk Hlen].
  { subst wanted k len'. destruct (len =? 0).
    - rewrite Nat.min_id, length_drop. split; [|done]. apply take_ge. by rewrite length_drop.
    - split; [|rewrite length_take, length_drop; lia]. rewrite <- (length_drop data offset) at 1.
      destruct (decide (len ≤ length (drop offset data))); [by rewrite Nat.min_l|].
      rewrite Nat.min_r by lia. by rewrite !take_ge by lia. }
  assert (read_block_async b offset k s = Ok wanted) as Hread.
  { unfold read_block_async. rewrite Hl, (proj2 (Nat.leb_gt _ _)) by done. rewrite Nat.min_l by lia. by rewrite Hk. }
  destruct ((offset =? 0) && (k =? length data)) eqn:Hfull.
  - apply andb_true_iff in Hfull as [->%Nat.eqb_eq Hkd%Nat.eqb_eq].
    assert (wanted = data) as -> by (rewrite <- Hk, drop_0; apply take_ge; lia).
    destruct Hc as [Hc|Hc]; rewrite Hc; [|done]. rewrite Hread, Hv. simpl. by rewrite Hkd.
  - rewrite Hread. simpl. by rewrite Hlen.
Qed.

(** Reading a block a server holds keeps it: nothing has to be recovered. *)
Lemma read_keeps_own b data s offset len found replies :
  holds b data s → holds b data (read_block b offset len found replies s).2.
Proof.
  intros Hh. pose proof Hh as (Hl & Hv & Hc). unfold read_block. rewrite Hl. case_if; [done|].
  set (k := min _ _). set (full := _ && _). destruct (if full then _ else _) as [cached|]; [done|].
  unfold read_block_async. rewrite Hl, Hif. destruct full eqn:Hfull; [|done].
  subst full. apply andb_true_iff in Hfull as [->%Nat.eqb_eq Hkd%Nat.eqb_eq].
  rewrite Nat.sub_0_r, Hkd, Nat.min_id, drop_0, take_ge, Hv by done. simpl.
  split; [done|]. split; [done|]. right. apply lookup_insert_eq.
Qed.

(** Reads of any block keep what a server holds, when no recovery interferes. *)
Lemma read_keeps_holds b data s b' offset len replies :
  holds b data s → holds b data (read_block b' offset len false replies s).2.
Proof.
  intros Hh. unfold read_block. destruct (lookup_file b' s) as [stored|] eqn:Hl; [|done].
  case_if; [done|]. set (k := min _ _). set (full := _ && _). destruct (if full then _ else _) as [cached|]; [done|].
  destruct (read_block_async b' offset k s) as [d|e|why] eqn:Hr; [|done|done].
  destruct full eqn:Hfull; [|done]. destruct (verify_block b' d s) eqn:Hv; [done|]. simpl.
  destruct Hh as (H1 & H2 & H3). split; [done|]. split; [done|]. destruct (decide (b' = b)) as [->|Hne].
  - right. simpl. rewrite lookup_insert_eq. rewrite H1 in Hl. injection Hl as <-.
    subst full. apply andb_true_iff in Hfull as [->%Nat.eqb_eq Hkd%Nat.eqb_eq].
    unfold read_block_async in Hr. rewrite H1, Hif, Nat.sub_0_r, Hkd, Nat.min_id, drop_0, take_ge in Hr by done.
    by injection Hr as ->.
  - simpl. by rewrite lookup_insert_ne.
Qed.

(** ** Partial verification *)

Lemma chunks_lookup {A} n (l : list A) i :
  0 < n → chunks n l !! i = if decide (i * n < length l) then Some (take n (drop (i * n) l)) else None.
Proof.
  intros Hn. revert l. induction i as [|i IH]; intros l.
  - destruct (decide (l = [])) as [->|Hl]; [done|]. rewrite chunks_cons by done. simpl.
    rewrite decide_True; [done|]. destruct l; [done|]. simpl. lia.
  - destruct (decide (l = [])) as [->|Hl]; [by rewrite decide_False by (simpl; lia)|].
    rewrite chunks_cons by done. cbn [lookup list_lookup]. rewrite IH, length_drop, drop_drop.
    replace (n + i * n) with (S i * n) by lia. destruct (decide (i * n < length l - n)).
    + by rewrite decide_True by lia.
    + by rewrite decide_False by lia.
Qed.

(** Chunk [i] of a block. *)
Definition chunk_at (i : nat) (data : bytes) : bytes :=
  take CHECKSUM_CHUNK_SIZE (drop (i * CHECKSUM_CHUNK_SIZE) data).

Lemma verify_chunks_spec orig data ixs :
  length data = length orig → Forall (λ i, i * CHECKSUM_CHUNK_SIZE < length orig) ixs →
  verify_chunks (calculate_checksums orig) data ixs = None ↔
  ∀ i, i ∈ ixs → crc32 (chunk_at i data) = crc32 (chunk_at i orig).
Proof.
  intros Hlen. induction 1 as [|i ixs Hi Hixs IH]; simpl; [split; [by intros _ ? ?%not_elem_of_nil|done]|].
  unfold calculate_checksums at 1. rewrite list_lookup_fmap, chunks_lookup, decide_True by (done || (unfold CHECKSUM_CHUNK_SIZE; lia)).
  simpl. rewrite (proj2 (Nat.ltb_ge _ _)) by lia. fold (chunk_at i data) (chunk_at i orig).
  destruct (N.eqb_spec (crc32 (chunk_at i data)) (crc32 (chunk_at i orig))) as [E|E].
  - rewrite IH. split; [intros Hall j [->|Hj]%elem_of_cons; auto|]. intros Hall j Hj. apply Hall. by right.
  - split; [done|]. intros Hall. destruct E. apply Hall. by left.
Qed.

(** Partial verification: for a block in the hot directory whose bytes may
    have been damaged since it was written, the check of a range that was read
    passes exactly when every chunk that overlaps the range still has the
    checksum it was written with. *)
Theorem partial_read_verified b orig data offset len s :
  hot s !! meta_name b = Some (mjoin (to_be_bytes <$> calculate_checksums orig)) →
  hot s !! b = Some data → length data = length orig → 0 < len → offset + len ≤ length data →
  verify_partial_read b offset len s = None ↔
  ∀ i, offset < S i * CHECKSUM_CHUNK_SIZE → i * CHECKSUM_CHUNK_SIZE < offset + len →
    crc32 (chunk_at i data) = crc32 (chunk_at i orig).
Proof.
  intros Hm Hd Hlen Hpos Hend. unfold verify_partial_read. rewrite Hm, Hd, decode_checksums_of.
  set (n := CHECKSUM_CHUNK_SIZE). assert (0 < n) as Hn by (unfold n, CHECKSUM_CHUNK_SIZE; lia).
  assert (∀ i, i ∈ seq (offset / n) (S ((offset + len - 1) / n) - offset / n) ↔
    offset < S i * n ∧ i * n < offset + len) as Hin.
  { intros i. rewrite elem_of_seq. pose proof (Nat.div_mod_eq offset n). pose proof (Nat.mod_upper_bound offset n).
    pose proof (Nat.div_mod_eq (offset + len - 1) n). pose proof (Nat.mod_upper_bound (offset + len - 1) n).
    assert (offset / n ≤ (offset + len - 1) / n) by (apply Nat.Div0.div_le_mono; lia).
    split; intros [? ?]; split; nia. }
  rewrite verify_chunks_spec; [|done|].
  - split; [intros Hall i ? ?; apply Hall, Hin; auto|]. intros Hall i [? ?]%Hin. auto.
  - apply Forall_forall. intros i [_ Hi]%Hin. fold n. lia.
Qed.

(** A block that was just written passes both checks. *)
Lemma write_passes_partial b data offset len s :
  offset < length data → recovers_in_background b offset len (write_block_async b data s) = false.
Proof.
  intros Hoff. unfold recovers_in_background. rewrite write_lookup. set (k := min _ _).
  destruct ((offset <? length data) && negb ((offset =? 0) && (k =? length data))) eqn:Hp; [|done]. cbn [andb].
  apply bool_decide_eq_false. rewrite <- eq_None_not_Some. destruct (decide (0 < k)) as [Hk|Hk].
  - apply (partial_read_verified b data data); try done.
    + unfold write_block_async. simpl. apply lookup_insert_eq.
    + unfold write_block_async. simpl. rewrite lookup_insert_ne by apply meta_name_ne. apply lookup_insert_eq.
    + unfold k in *. lia.
  - exfalso. unfold k in Hk. destruct (Nat.eqb_spec len 0); lia.
Qed.

(** C29. A block that was written is read back, when no older copy of it is in the
    cache: any range that starts inside the block returns exactly its bytes, the
    whole block passes the checksums of its chunks, and a part of it passes those
    of the chunks it touches, so that no recovery is started. *)
Theorem write_read_roundtrip b data checksum term downstream n s s' :
  write_block b data checksum term downstream s = (Written n, s') → block_cache s !! b = None →
  verify_block b data s' = None ∧
  ∀ offset len found replies, offset < length data →
    let wanted := if len =? 0 then drop offset data else take len (drop offset data) in
    (read_block b offset len found replies s').1 = ReadOk wanted (length wanted) (length data) ∧
    recovers_in_background b offset len s' = false.
Proof.
  intros Hw Hc. unfold write_block, write_block_after in Hw.
  destruct (fence (known_term s) term s) as [s1|] eqn:Hf; [|done]. destruct (_ && _); [done|]. injection Hw as _ <-.
  assert (block_cache s1 !! b = None) as Hc1 by (unfold fence in Hf; by repeat case_match; simplify_eq/=).
  pose proof (write_holds b data s1 Hc1) as Hh. split; [apply Hh|]. intros offset len found replies Hoff. split.
  - by apply holds_read_range.
  - by apply write_passes_partial.
Qed.

(** A block in the cold directory has no checksum file in the hot one: every
    partial read of it starts a recovery, and a replica that answers puts the
    block back into the hot directory. *)
Lemma cold_block_rewarmed b data c s offset len :
  hot s !! b = None → hot s !! meta_name b = None → cold s = Some c → c !! b = Some data →
  verify_block b data s = None → 0 < offset → offset < length data →
  recovers_in_background b offset len s = true ∧
  hot (recover_block b true [Some data] s).2 !! b = Some data.
Proof.
  intros Hb Hm Hc Hd Hv Hpos Hoff. split.
  - unfold recovers_in_background, lookup_file. rewrite Hb, Hc. simpl. rewrite Hd.
    rewrite (proj2 (Nat.ltb_lt _ _)) by done. rewrite (proj2 (Nat.eqb_neq offset 0)) by lia. simpl.
    unfold verify_partial_read. by rewrite Hm.
  - unfold recover_block. simpl. rewrite Hv. simpl. rewrite lookup_insert_ne by apply meta_name_ne. apply lookup_insert_eq.
Qed.

(** ** Fencing *)

(** What happens to a chunk server. The cache is an LRU cache of a hundred
    blocks: that it drops one is an event. *)
Inductive Event : Type :=
  | EvWrite (b : string) (data : bytes) (checksum term : N) (downstream : option Z)
  | EvReplicate (b : string) (data : bytes) (checksum term : N) (downstream : option Z)
  | EvRead (b : string) (offset len : nat) (found : bool) (replies : list (option bytes))
  | EvRecover (b : string) (found : bool) (replies : list (option bytes))
  | EvMoveToCold (b : string)
  | EvEvict (b : string)
  | EvScrub (peers : string → bool * list (option bytes)).

Context `{HashOrder}.

Definition handle (s : MyChunkServer) (e : Event) : MyChunkServer :=
  match e with
  | EvWrite b data checksum term down => (write_block b data checksum term down s).2
  | EvReplicate b data checksum term down => (replicate_block b data checksum term down s).2
  | EvRead b offset len found replies => (read_block b offset len found replies s).2
  | EvRecover b found replies => (recover_block b found replies s).2
  | EvMoveToCold b => (move_block_to_cold b s).2
  | EvEvict b => s <| block_cache := delete b (block_cache s) |>
  | EvScrub peers => scrub peers s
  end.

Lemma fence_term known t s s' :
  fence known t s = Some s' → ((t = 0 ∨ known ≤ t) ∧ (known_term s' = known_term s ∨ known < t ∧ known_term s' = t))%N.
Proof.
  unfold fence. intros Hf. repeat case_if; simplify_eq/=; (apply andb_false_iff in Hif as [?%N.ltb_ge|?%N.ltb_ge];
    split; try lia; (by left) || (right; split; [by apply N.ltb_lt|done])).
Qed.

Lemma recover_term b found replies s : known_term (recover_block b found replies s).2 = known_term s.
Proof.
  unfold recover_block. case_if; [done|]. induction replies as [|[data|] replies IH]; simpl; [done| |done].
  by destruct (verify_block b data s).
Qed.

Lemma scrub_term peers s : known_term (scrub peers s) = known_term s.
Proof.
  unfold scrub. set (s1 := s <| pending_bad_blocks := _ |>). change (known_term s) with (known_term s1).
  generalize (corrupted_blocks s) s1. intros l. induction l as [|b l IH]; intros s2; simpl; [done|].
  by rewrite IH, recover_term.
Qed.

Lemma read_term b offset len found replies s :
  known_term (read_block b offset len found replies s).2 = known_term s.
Proof.
  pose proof (recover_term b found replies s) as Hrec. unfold read_block.
  destruct (recover_block b found replies s) as [o s']. simpl in Hrec. by repeat case_match; simplify_eq/=.
Qed.

(** *** Requests at the same time *)

(** A request that compares terms: a write, a replication, the answer to a
    heartbeat. *)
Inductive FencedRequest : Type :=
  | ReqWrite (b : string) (data : bytes) (checksum term : N) (downstream : option Z)
  | ReqReplicate (b : string) (data : bytes) (checksum term : N) (downstream : option Z)
  | ReqHeartbeat (term : N).

Definition term_of (r : FencedRequest) : N :=
  match r with ReqWrite _ _ _ term _ | ReqReplicate _ _ _ term _ | ReqHeartbeat term => term end.

(** What a request does after it has loaded the known term, and its answer. *)
Definition finish (known : N) (r : FencedRequest) (s : MyChunkServer) : option WriteResponse * MyChunkServer :=
  match r with
  | ReqWrite b data checksum term down => let '(o, s') := write_block_after known b data checksum term down s in (Some o, s')
  | ReqReplicate b data checksum term down => let '(o, s') := replicate_block_after known b data checksum term down s in (Some o, s')
  | ReqHeartbeat term => (None, heartbeat_term_after known term s)
  end.

(** The server with the requests in flight and the term each of them has loaded.
    Requests load the known term, and go on, in any order; other work of the
    server comes in between. *)
Inductive fence_step : MyChunkServer * list (FencedRequest * N) → MyChunkServer * list (FencedRequest * N) → Prop :=
  | request_loads r s flight : fence_step (s, flight) (s, (r, known_term s) :: flight)
  | request_finishes r known s before after :
      fence_step (s, before ++ (r, known) :: after) ((finish known r s).2, before ++ after)
  | other_work e s flight :
      match e with EvWrite _ _ _ _ _ | EvReplicate _ _ _ _ _ => False | _ => True end →
      fence_step (s, flight) (handle s e, flight).

(** No request in flight is about to store a term below [t]. *)
Definition nothing_below (t : N) (flight : list (FencedRequest * N)) : Prop :=
  ∀ r known, (r, known) ∈ flight → (known < term_of r)%N → (t ≤ term_of r)%N.

Lemma finish_term known r s :
  (known_term (finish known r s).2 = known_term s ∨ known < term_of r ∧ known_term (finish known r s).2 = term_of r)%N.
Proof.
  destruct r as [b data checksum term down|b data checksum term down|term]; cbn [finish term_of].
  1-2: unfold write_block_after, replicate_block_after; destruct (fence known term s) as [s1|] eqn:Hf; [|by left];
    apply fence_term in Hf as [_ Hf]; by case_if.
  unfold heartbeat_term_after. case_if; [right|by left]. by apply N.ltb_lt in Hif.
Qed.

Lemma other_work_term e s :
  match e with EvWrite _ _ _ _ _ | EvReplicate _ _ _ _ _ => False | _ => True end → known_term (handle s e) = known_term s.
Proof.
  destruct e; simpl; try done; intros _.
  - apply read_term.
  - apply recover_term.
  - unfold move_block_to_cold. by repeat case_match.
  - apply scrub_term.
Qed.

Lemma fence_step_knows t c c' :
  fence_step c c' → (t ≤ known_term c.1)%N → nothing_below t c.2 → (t ≤ known_term c'.1)%N ∧ nothing_below t c'.2.
Proof.
  intros Hstep Ht Hfl. destruct Hstep as [r s flight|r known s before after|e s flight He]; cbn [fst snd] in *.
  - split; [done|]. intros r' known [[= -> ->]|Hin]%elem_of_cons Hlt; [lia|by eapply Hfl].
  - split.
    + destruct (finish_term known r s) as [->|[Hlt ->]]; [done|]. eapply Hfl; [|done]. apply elem_of_app. right. by left.
    + intros r' known' Hin. apply Hfl. apply elem_of_app. apply elem_of_app in Hin as [?|?]; [by left|]. right. by right.
  - by rewrite other_work_term.
Qed.

(** An accepted request of a higher term makes the server know its term. *)
Lemma accepted_term_known known r n s s' :
  finish known r s = (Some (Written n), s') → (known < term_of r)%N → known_term s' = term_of r.
Proof.
  intros Hw Hlt. assert (fence known (term_of r) s = Some (s <| known_term := term_of r |>)) as Hf.
  { unfold fence. rewrite (proj2 (N.ltb_ge _ known)), andb_false_r, (proj2 (N.ltb_lt _ _)) by lia. done. }
  destruct r as [b data checksum term down|b data checksum term down|term]; cbn [finish term_of] in *; [| |done];
    unfold write_block_after, replicate_block_after in Hw; rewrite Hf in Hw; case_if; try done; by injection Hw as _ <-.
Qed.

Lemma known_term_grows t c c' :
  rtc fence_step c c' → (t ≤ known_term c.1)%N → nothing_below t c.2 → (t ≤ known_term c'.1)%N.
Proof.
  induction 1 as [c|c c1 c2 Hs _ IH]; intros Ht Hfl; [done|].
  destruct (fence_step_knows t _ _ Hs Ht Hfl). by apply IH.
Qed.

(** C28. Fencing, with any number of requests at the same time. A write or
    replication that is accepted with a higher term than it found makes the server
    know its term. When the server knows a term and no request of an earlier term
    that compared terms before is still about to store its own, then from then on
    until the server restarts, whatever requests, recoveries, scrubs and moves are
    interleaved, every write and replication of a master of an earlier term (that
    states its term: zero stands for none) which arrives is refused without effect,
    whenever it goes on. *)
Theorem stale_masters_are_fenced :
  (∀ known r n s s', finish known r s = (Some (Written n), s') → (known < term_of r)%N → known_term s' = term_of r) ∧
  (∀ t s flight s1 flight1,
    (t ≤ known_term s)%N → nothing_below t flight → rtc fence_step (s, flight) (s1, flight1) →
    ∀ r s2, (0 < term_of r < t)%N →
      match r with ReqHeartbeat _ => False | _ => True end →
      finish (known_term s1) r s2 = (Some StaleTerm, s2)).
Proof.
  split; [apply accepted_term_known|]. intros t s flight s1 flight1 Ht Hfl Hsteps r s2 Hterm Hr.
  pose proof (known_term_grows t _ _ Hsteps Ht Hfl) as H1. cbn [fst] in H1.
  assert (fence (known_term s1) (term_of r) s2 = None) as Hf.
  { unfold fence. by rewrite (proj2 (N.ltb_lt 0 _)), (proj2 (N.ltb_lt _ (known_term s1))) by lia. }
  destruct r; [| |done]; cbn [finish term_of] in *; unfold write_block_after, replicate_block_after; by rewrite Hf.
Qed.

(** The cache keeps the first version of a block that is written again. *)
Lemma cached_block_is_stale b v1 v2 s found replies :
  v1 ≠ [] → v2 ≠ [] → block_cache s !! b = None →
  let s1 := write_block_async b v1 s in
  let s2 := (read_block b 0 0 found replies s1).2 in
  let s3 := write_block_async b v2 s2 in
  (read_block b 0 0 found replies s3).1 = ReadOk v1 (length v1) (length v2).
Proof.
  intros H1 H2 Hc s1 s2 s3.
  assert (length v1 ≠ 0) by (by destruct v1). assert (length v2 ≠ 0) by (by destruct v2).
  assert (block_cache s2 !! b = Some v1) as Hc2.
  { subst s2. unfold read_block. subst s1. rewrite write_lookup. simpl.
    rewrite (proj2 (Nat.leb_gt _ _)) by lia. rewrite Nat.sub_0_r, Nat.min_id, Nat.eqb_refl. simpl. rewrite Hc.
    unfold read_block_async. rewrite write_lookup, (proj2 (Nat.leb_gt _ _)) by lia.
    rewrite Nat.sub_0_r, Nat.min_id, drop_0, take_ge by done. rewrite write_verifies. simpl.
    apply lookup_insert_eq. }
  unfold read_block. subst s3. rewrite write_lookup. simpl.
  rewrite (proj2 (Nat.leb_gt _ _)) by lia. rewrite Nat.sub_0_r, Nat.min_id, Nat.eqb_refl. simpl. by rewrite Hc2.
Qed.

End chunk_server.

(** ** Examples *)

Definition demo_crc (d : bytes) : N := (N.of_nat (length d) `mod` 4294967296)%N.
Definition empty_server : MyChunkServer := mkChunkServer ∅ None ∅ [] 0.

Lemma write_read_roundtrip_witness :
  let s := (write_block demo_crc "b1" [x41; x42; x43] 0 5 None empty_server).2 in
  (read_block demo_crc "b1" 1 1 false [] s).1 = ReadOk [x42] 1 3 ∧ recovers_in_background demo_crc "b1" 1 1 s = false.
Proof.
  intros s.
  apply (proj2 (write_read_roundtrip demo_crc (λ d, N.mod_lt (N.of_nat (length d)) 4294967296 ltac:(discriminate))
    "b1" [x41; x42; x43] 0 5 None 1 empty_server s eq_refl eq_refl) 1 1 false []).
  simpl. lia.
Defined.

Lemma partial_read_verified_witness :
  verify_partial_read demo_crc "b1" 1 2 (write_block_async demo_crc "b1" [x41; x42; x43] empty_server) = None.
Proof.
  apply (partial_read_verified demo_crc (λ d, N.mod_lt (N.of_nat (length d)) 4294967296 ltac:(discriminate))
    "b1" [x41; x42; x43] [x41; x42; x43] 1 2); [reflexivity|reflexivity|reflexivity|simpl; lia|simpl; lia|].
  intros i _ _. reflexivity.
Defined.

(** A write of term 5 has been accepted; a heartbeat of term 7 and another write
    of term 5 are in flight, and the block is moved in between. *)
Lemma stale_masters_are_fenced_witness :
  let s := (write_block demo_crc "b1" [x41] 0 5 None empty_server).2 in
  let s1 := (finish demo_crc 5 (ReqHeartbeat 7) (handle demo_crc (H := map_order) s (EvMoveToCold "b1"))).2 in
  known_term s1 = 7%N ∧ finish demo_crc (known_term s1) (ReqWrite "b2" [x42] 0 4 None) s1 = (Some StaleTerm, s1).
Proof.
  intros s s1. split; [reflexivity|].
  assert (rtc (fence_step demo_crc (H := map_order)) (s, []) (s1, [(ReqWrite "b1" [x43] 0 5 None, 5%N)])) as Hsteps.
  { eapply rtc_l; [apply (request_loads demo_crc (H := map_order) (ReqHeartbeat 7))|].
    eapply rtc_l; [apply (request_loads demo_crc (H := map_order) (ReqWrite "b1" [x43] 0 5 None))|].
    eapply rtc_l; [apply (other_work demo_crc (H := map_order) (EvMoveToCold "b1")); exact Logic.I|].
    apply rtc_once, (request_finishes demo_crc (H := map_order) (ReqHeartbeat 7) 5 _ [(ReqWrite "b1" [x43] 0 5 None, 5%N)] []). }
  assert (5 ≤ known_term s)%N as Hk.
  { rewrite (proj1 (stale_masters_are_fenced demo_crc (H := map_order)) 0%N (ReqWrite "b1" [x41] 0 5 None) 1%Z empty_server s
      eq_refl ltac:(cbn; lia)). done. }
  apply (proj2 (stale_masters_are_fenced demo_crc (H := map_order)) 5%N s [] s1 [(ReqWrite "b1" [x43] 0 5 None, 5%N)]
    Hk ltac:(intros r k Hin; by apply not_elem_of_nil in Hin) Hsteps (ReqWrite "b2" [x42] 0 4 None)); cbn; [lia|done].
Defined.

(** Loading and storing the known term are two operations: two writes that arrive
    together lower it again, and another write of the older term is accepted
    after one of the newer term. *)
Example fence_is_not_atomic :
  let newer := ReqWrite "b" [x41] 0 7 None in
  let older := ReqWrite "b" [x42] 0 6 None in
  let s1 := (finish demo_crc 0 newer empty_server).2 in
  let s2 := (finish demo_crc 0 older s1).2 in
  rtc (fence_step demo_crc (H := map_order)) (empty_server, []) (s2, []) ∧ known_term s1 = 7%N ∧ known_term s2 = 6%N ∧
  (finish demo_crc (known_term s2) older s2).1 = Some (Written 1).
Proof.
  cbn zeta. split; [|by vm_compute].
  eapply rtc_l; [apply (request_loads demo_crc (H := map_order) (ReqWrite "b" [x41] 0 7 None))|].
  eapply rtc_l; [apply (request_loads demo_crc (H := map_order) (ReqWrite "b" [x42] 0 6 None))|].
  eapply rtc_l; [apply (request_finishes demo_crc (H := map_order) (ReqWrite "b" [x41] 0 7 None) 0 _ [(ReqWrite "b" [x42] 0 6 None, 0%N)] [])|].
  apply rtc_once, (request_finishes demo_crc (H := map_order) (ReqWrite "b" [x42] 0 6 None) 0 _ [] []).
Qed.
