(* ===== verification/Client.v ===== *)
(** * The client library

    dfs/client/src/mod.rs: routing, retries and leader hints, writing a file
    with replication or erasure coding, reading it back whole or in part, with
    hedged reads. A client operation is a program over the calls it makes; the
    other side may answer anything. TLS, message sizes and tracing are left out;
    CRC-32 and MD5 are external. *)

From Stdlib Require Import Strings.Byte.
From S2P Require Import Prelude BTree Text Sharding MasterState AppState Monitor Program Placement Healing MasterService ServiceSpec Erasure ChunkServer.

(** ** Effects *)

Inductive MasterRequest : Type :=
  | MFile (rq : FileRequest)
  | MRename (source_path dest_path : string).

(** A rename answers with a hint for the right shard as well. *)
Inductive MasterReply : Type :=
  | MFileReply (rp : FileReply)
  | MRenameReply (r : Response) (redirect_hint : string).

(** [None] is a server that cannot be reached. A read of the shard map and a
    refreshed one; [Choose] decides a race of two tasks; the refresh after a
    redirect runs in the background. *)
Inductive ClientEffect : Type → Type :=
  | CallMaster (addr : string) (rq : MasterRequest) : ClientEffect (option (MasterReply + Status))
  | WriteBlock (addr block_id : string) (data : bytes) (next_servers : list string) (checksum : N)
      (shard_index : Z) (master_term : N) : ClientEffect (option WriteResponse)
  | ReadBlock (addr block_id : string) (offset len : N) : ClientEffect (option ReadResponse)
  | FetchShardMap (addr : string) : ClientEffect (option (gmap string (list string)))
  | ReadShardMap {B} (f : ShardMap → B) : ClientEffect B
  | SetShardMap (m : ShardMap) : ClientEffect unit
  | SpawnRefresh : ClientEffect unit
  | Sleep : ClientEffect unit
  | Clock : ClientEffect N
  | Choose : ClientEffect bool.

(** `anyhow::Error` and a panic. *)
Inductive Failure : Type :=
  | Failed (message : string)
  | Panicked (why : string).

Notation CProg A := (Prog ClientEffect (A + Failure)).

(** [src/dfs/client/src/mod.rs:26-39 Client] *)
Record Client : Type := mkClient {
  master_addrs : list string;
  host_aliases : list (string * string);
  config_server_addrs : list string;
  max_retries : nat;
  has_ca_cert : bool;
  hedge_delay_ms : option N;
}.

(** [src/dfs/client/src/mod.rs:42-55 new] *)
Definition client_new (master_addrs config_server_addrs : list string) : Client :=
  mkClient master_addrs [] config_server_addrs 5 false None.

(** ** Addresses *)

(** `s.replace(pat, rep)`: occurrences from the left, not overlapping; an empty
    pattern matches at every boundary. *)
Fixpoint replace_fuel (fuel : nat) (pat rep s : string) : string :=
  match fuel, s with
  | 0, _ => s
  | _, EmptyString => if decide (pat = "") then rep else ""
  | S fuel, String c rest =>
      if decide (pat = "") then rep +:+ String c (replace_fuel fuel pat rep rest)
      else if String.prefix pat s then
        rep +:+ replace_fuel fuel pat rep (String.substring (String.length pat) (String.length s) s)
      else String c (replace_fuel fuel pat rep rest)
  end.
Definition replace (pat rep s : string) : string := replace_fuel (S (String.length s)) pat rep s.

(** How one pass over the targets ends. *)
Inductive Pass (T : Type) : Type :=
  | Returned (x : T) (addr : string)
  | Refused (s : Status)
  | Hinted (hint : string)
  | Exhausted.
Arguments Returned {T} x addr.
Arguments Refused {T} s.
Arguments Hinted {T} hint.
Arguments Exhausted {T}.

Section client.
  Context `{RS : ReedSolomon}.
  Context (ring_crc : string → N) (crc32 : bytes → N) (md5_hex : bytes → string).
  Context (self : Client).

(** [src/dfs/client/src/mod.rs:91-99 resolve_url] *)
Fixpoint resolve_aliases (aliases : list (string * string)) (url : string) : string :=
  match aliases with
  | [] => url
  | (alias, real) :: aliases => if contains alias url then replace alias real url else resolve_aliases aliases url
  end.
Definition resolve_url (url : string) : string := resolve_aliases (host_aliases self) url.

(** The URL of a chunk server. *)
Definition chunk_url (addr : string) : string := resolve_url ("http://" +:+ addr).

(** ** Calls with retries *)

Definition message (s : Status) : string :=
  match s with Internal m | FailedPrecondition m | OutOfRange m | Unavailable m | NotFound m => m end.

Definition is_unavailable (s : Status) : bool := match s with Unavailable _ => true | _ => false end.

(** What the error of a call says: a hint to follow, a reason to go on with the
    next target, or a final error.
    [src/dfs/client/src/mod.rs:1428-1468 execute_rpc_internal] *)
Definition classify (s : Status) : option string * bool :=
  let msg := message s in
  let redirect := if String.prefix "REDIRECT:" msg then snd (split_once ":" msg) else None in
  let leader := if String.prefix "Not Leader|" msg then nth_error (split_on "|" msg) 1 else None in
  match redirect with
  | Some (String _ _ as hint) => (Some hint, true)
  | _ =>
      match leader with
      | Some (String _ _ as hint) => (Some hint, false)
      | _ => (None, contains "Not Leader" msg || is_unavailable s)
      end
  end.

(** One pass. [post] is what the caller's closure does with the reply.
    [src/dfs/client/src/mod.rs:1369-1470 execute_rpc_internal] *)
Fixpoint try_targets {T} (rq : MasterRequest) (post : MasterReply → T + Status) (targets : list string)
  : Prog ClientEffect (Pass T) :=
  match targets with
  | [] => Ret Exhausted
  | master_addr :: targets =>
      if decide (master_addr = "") then try_targets rq post targets
      else
        let addr := if has_ca_cert self && String.prefix "http://" master_addr
                    then replace "http://" "https://" master_addr else master_addr in
        let on_error s :=
          match classify s with
          | (Some hint, true) => do* perform SpawnRefresh in Ret (Hinted hint)
          | (Some hint, false) => Ret (Hinted hint)
          | (None, true) => try_targets rq post targets
          | (None, false) => Ret (Refused s)
          end in
        let* r := perform (CallMaster (resolve_url addr) rq) in
        match r with
        | None => try_targets rq post targets
        | Some (inl rp) =>
            match post rp with
            | inl x => Ret (Returned x master_addr)
            | inr s => on_error s
            end
        | Some (inr s) => on_error s
        end
  end.

(** [src/dfs/client/src/mod.rs:1349-1367 execute_rpc_internal] *)
Definition with_hint (hint : option string) (masters : list string) : list string :=
  match hint with
  | Some hint =>
      (if contains "://" hint then hint
       else (if has_ca_cert self then "https://" else "http://") +:+ hint) :: masters
  | None => masters
  end.

(** [remaining] attempts are left after this one.
    [src/dfs/client/src/mod.rs:1328-1491 execute_rpc_internal] *)
Fixpoint attempts {T} (remaining : nat) (hint : option string) (masters : list string) (rq : MasterRequest)
    (post : MasterReply → T + Status) : CProg (T * string) :=
  let* pass := try_targets rq post (with_hint hint masters) in
  match pass with
  | Returned x addr => reply (x, addr)
  | Refused s => fail (Failed (message s))
  | Hinted _ | Exhausted =>
      match remaining with
      | 0 => fail (Failed "No available leader found after retries")
      | S remaining =>
          match pass with
          | Hinted hint => attempts remaining (Some hint) masters rq post
          | _ => do* perform Sleep in attempts remaining None masters rq post
          end
      end
  end.

Definition execute_rpc_internal {T} (masters : list string) (rq : MasterRequest) (post : MasterReply → T + Status)
  : CProg (T * string) := attempts (max_retries self - 1) None masters rq post.

(** [src/dfs/client/src/mod.rs:1293-1326 execute_rpc] *)
Definition execute_rpc {T} (key : string) (rq : MasterRequest) (post : MasterReply → T + Status)
  : CProg (T * string) :=
  let* peers := perform (ReadShardMap (λ m, default [] (get_shard ring_crc m key ≫= get_shard_peers m))) in
  execute_rpc_internal (match peers with [] => master_addrs self | _ => peers end) rq post.

(** gRPC decodes the response of the method that was called. *)
Definition mistyped {A} : A + Status := inr (Internal "decode error").

Definition plain_reply (rp : MasterReply) : Response + Status :=
  match rp with MFileReply (RpPlain r) => inl r | _ => mistyped end.
Definition info_reply (rp : MasterReply) : option FileMetadata + Status :=
  match rp with MFileReply (RpInfo m) => inl m | _ => mistyped end.
Definition files_reply (rp : MasterReply) : list string + Status :=
  match rp with MFileReply (RpFiles l) => inl l | _ => mistyped end.
Definition completed_reply (rp : MasterReply) : bool + Status :=
  match rp with MFileReply (RpCompleted b) => inl b | _ => mistyped end.

(** `if !inner.success && inner.error_message == "Not Leader" { return Err(unavailable(..)) }`. *)
Definition unless_not_leader (rp : MasterReply) : Response + Status :=
  match plain_reply rp with
  | inl r =>
      if negb (success r) && bool_decide (error_message r = "Not Leader")
      then inr (Unavailable ("Not Leader|" +:+ leader_hint r)) else inl r
  | inr s => inr s
  end.

(** `if inner.block.is_none() { return Err(unavailable(..)) }`. *)
Definition allocated_reply (rp : MasterReply) : (BlockInfo * AllocateBlockResponse) + Status :=
  match rp with
  | MFileReply (RpAllocated r) =>
      match resp_block r with
      | Some b => inl (b, r)
      | None => inr (Unavailable ("Not Leader|" +:+ resp_leader_hint r))
      end
  | _ => mistyped
  end.

(** ** The shard map *)

(** A map of ranges, built shard by shard in the order of their names.
    [src/dfs/client/src/mod.rs:1509-1517 refresh_shard_map] *)
Definition map_of_shards (shards : gmap string (list string)) : ShardMap :=
  foldl (λ m e, add_shard ring_crc m e.1 e.2) new_range
    (sort_by (λ x y, String.leb x.1 y.1) (map_to_list shards)).

(** [src/dfs/client/src/mod.rs:1501-1532 refresh_shard_map] *)
Fixpoint refresh_from (addrs : list string) : CProg unit :=
  match addrs with
  | [] => fail (Failed "Failed to refresh ShardMap from any Config server")
  | addr :: addrs =>
      let url := if String.prefix "http://" addr then addr else "http://" +:+ addr in
      let* shards := perform (FetchShardMap (resolve_url url)) in
      match shards with
      | Some shards => do* perform (SetShardMap (map_of_shards shards)) in reply tt
      | None => refresh_from addrs
      end
  end.

(** [src/dfs/client/src/mod.rs:1493-1533 refresh_shard_map] *)
Definition refresh_shard_map : CProg unit :=
  match config_server_addrs self with
  | [] => reply tt
  | addrs => refresh_from addrs
  end.

(** ** Reading *)

(** [src/dfs/client/src/mod.rs:921-944 read_block_from_location] *)
Definition read_block_from_location (location bid : string) (offset len : N) : CProg bytes :=
  let* r := perform (ReadBlock (chunk_url location) bid offset len) in
  match r with
  | Some (ReadOk data _ _) => reply data
  | _ => fail (Failed "read failed")
  end.

(** The locations in turn until one answers.
    [src/dfs/client/src/mod.rs:962-978 read_block_range] *)
Fixpoint read_sequentially (locations : list string) (bid : string) (offset len : N) : CProg bytes :=
  match locations with
  | [] => fail (Failed ("Failed to read block " +:+ bid +:+ " from any location"))
  | location :: locations =>
      let* r := read_block_from_location location bid offset len in
      match r with
      | inl data => reply data
      | inr _ => read_sequentially locations bid offset len
      end
  end.

(** Two requests race. The first choice tells whether the primary ends before
    the hedge delay, the second which of the two ends first.
    [src/dfs/client/src/mod.rs:980-1106 read_block_range] *)
Definition read_hedged (loc0 loc1 : string) (rest : list string) (bid : string) (offset len : N) : CProg bytes :=
  let* primary := read_block_from_location loc0 bid offset len in
  let* in_time := perform Choose in
  match in_time, primary with
  | true, inl data => reply data
  | _, _ =>
      let* hedge := read_block_from_location loc1 bid offset len in
      if in_time then
        match hedge with
        | inl data => reply data
        | inr _ => read_sequentially rest bid offset len
        end
      else
        let* primary_wins := perform Choose in
        match (if primary_wins : bool then (primary, hedge) else (hedge, primary)) with
        | (inl data, _) => reply data
        | (inr _, inl data) => reply data
        | (inr _, inr _) => read_sequentially rest bid offset len
        end
  end.

(** [src/dfs/client/src/mod.rs:948-1107 read_block_range] *)
Definition read_block_range (locations : list string) (bid : string) (offset len : N) : CProg bytes :=
  match locations, hedge_delay_ms self with
  | [], _ => fail (Failed ("Block " +:+ bid +:+ " has no locations"))
  | loc0 :: loc1 :: rest, Some _ => read_hedged loc0 loc1 rest bid offset len
  | _, _ => read_sequentially locations bid offset len
  end.

(** The shards of the locations, by position.
    [src/dfs/client/src/mod.rs:1117-1143 read_ec_block] *)
Fixpoint fetch_shards (locations : list string) (bid : string) : Prog ClientEffect (list (option bytes)) :=
  match locations with
  | [] => Ret []
  | location :: locations =>
      let* r := read_block_from_location location bid 0 0 in
      let* rest := fetch_shards locations bid in
      Ret (match r with inl data => Some data | inr _ => None end :: rest)
  end.

(** `i32 as usize`. *)
Definition usize_of (z : Z) : nat := Z.to_nat (as_usize z).

(** [src/dfs/client/src/mod.rs:1110-1167 read_ec_block] *)
Definition read_ec_block (block : BlockInfo) : CProg bytes :=
  let data_shards := usize_of (block_ec_data_shards block) in
  let parity_shards := usize_of (block_ec_parity_shards block) in
  let original_size := N.to_nat (original_size block) in
  let total := data_shards + parity_shards in
  let* fetched := fetch_shards (locations block) (block_id block) in
  let opt_shards := resize_vec total (@None bytes) fetched in
  if length (omap id opt_shards) <? data_shards
  then fail (Failed ("EC block " +:+ block_id block +:+ " unrecoverable"))
  else if forallb (λ s, bool_decide (is_Some s)) (take data_shards opt_shards) then
    reply (take original_size (mjoin (omap id (take data_shards opt_shards))))
  else
    match decode opt_shards data_shards parity_shards original_size with
    | Ok data => reply data
    | Err e => fail (Failed e)
    | Panic why => fail (Panicked why)
    end.

(** The choice between the two kinds of block. *)
Definition read_whole (block : BlockInfo) : CProg bytes :=
  if (0 <? block_ec_data_shards block)%Z then read_ec_block block
  else read_block_range (locations block) (block_id block) 0 0.

(** [src/dfs/client/src/mod.rs:1169-1179 fetch_single_block] *)
Definition fetch_single_block (block : BlockInfo) : CProg bytes :=
  match locations block with
  | [] => fail (Failed ("Block " +:+ block_id block +:+ " has no locations"))
  | _ => read_whole block
  end.

(** [src/dfs/client/src/mod.rs:679-693 get_file_info] *)
Definition get_file_info (p : string) : CProg (option FileMetadata) :=
  let? r := execute_rpc p (MFile (RqGetFileInfo p)) info_reply in reply r.1.

(** [src/dfs/client/src/mod.rs:1181-1195 exists] *)
Definition file_exists (p : string) : CProg bool :=
  let? m := get_file_info p in reply (bool_decide (is_Some m)).

Definition found (m : option FileMetadata) : CProg FileMetadata :=
  match m with Some m => reply m | None => fail (Failed "File not found") end.

(** The blocks one after the other; [read] reads one.
    [src/dfs/client/src/mod.rs:717-727 get_file] *)
Fixpoint read_blocks (read : BlockInfo → CProg bytes) (l : list BlockInfo) : CProg bytes :=
  match l with
  | [] => reply []
  | b :: l => let? data := read b in let? rest := read_blocks read l in reply (data ++ rest)
  end.

(** What is written to the local file. [src/dfs/client/src/mod.rs:695-728 get_file] *)
Definition get_file (source : string) : CProg bytes :=
  let? info := get_file_info source in
  let? metadata := found info in
  read_blocks read_whole (blocks metadata).

(** The tasks run concurrently and their results are put in the order of the
    blocks. [src/dfs/client/src/mod.rs:856-917 get_file_content] *)
Definition get_file_content (source : string) : CProg bytes :=
  let? info := get_file_info source in
  let? metadata := found info in
  read_blocks fetch_single_block (blocks metadata).

(** [full[start..end.min(full.len())]]. *)
Definition slice (full : bytes) (start stop : nat) : CProg bytes :=
  if min stop (length full) <? start then fail (Panicked "slice index starts after end")
  else reply (take (min stop (length full) - start) (drop start full)).

(** One block of a range: [None] when it lies before the range.
    [src/dfs/client/src/mod.rs:789-836 read_file_range] *)
Definition read_part (offset end_offset block_start : N) (block : BlockInfo) : CProg bytes :=
  let block_offset := (offset - block_start)%N in
  let block_read_end := N.min (block_size block) (end_offset - block_start) in
  let block_length := (block_read_end - block_offset)%N in
  if (0 <? block_ec_data_shards block)%Z then
    let? full := read_ec_block block in
    slice full (N.to_nat block_offset) (N.to_nat (block_offset + block_length))
  else read_block_range (locations block) (block_id block) block_offset block_length.

(** [src/dfs/client/src/mod.rs:771-836 read_file_range] *)
Fixpoint read_range_blocks (offset end_offset file_position : N) (l : list BlockInfo) : CProg bytes :=
  match l with
  | [] => reply []
  | block :: l =>
      let block_start := file_position in
      let block_end := wrap64 (file_position + block_size block) in
      if (block_end <=? offset)%N then read_range_blocks offset end_offset block_end l
      else if (end_offset <=? block_start)%N then reply []
      else
        let? data := read_part offset end_offset block_start block in
        let? rest := read_range_blocks offset end_offset block_end l in
        reply (data ++ rest)
  end.

(** [src/dfs/client/src/mod.rs:731-845 read_file_range] *)
Definition read_file_range (p : string) (offset len : N) : CProg bytes :=
  let? info := get_file_info p in
  let? metadata := found info in
  if (file_size metadata <=? offset)%N then fail (Failed "Offset exceeds file size")
  else
    let bytes_to_read := N.min len (file_size metadata - offset) in
    read_range_blocks offset (offset + bytes_to_read) 0 (blocks metadata).

(** ** Writing *)

(** [src/dfs/client/src/mod.rs:257-266 create_file_from_buffer] *)
Definition alloc_masters (success_addr : string) : list string :=
  foldl (λ m addr, if decide (addr ∈ m) then m else m ++ [addr]) [success_addr] (master_addrs self).

(** One shard to each server; the first failure ends the write.
    [src/dfs/client/src/mod.rs:343-379 create_file_from_buffer] *)
Fixpoint write_shards (bid : string) (term : N) (i : nat) (shards : list (bytes * string)) : CProg unit :=
  match shards with
  | [] => reply tt
  | (shard_data, cs_addr) :: shards =>
      let* r := perform (WriteBlock (chunk_url cs_addr) bid shard_data [] (crc32 shard_data) (Z.of_nat i) term) in
      match r with
      | Some (Written _) => write_shards bid term (S i) shards
      | Some (WriteFailed e) => fail (Failed ("Shard write failed: " +:+ e))
      | _ => fail (Failed "Shard write failed")
      end
  end.

Definition complete (dest : string) (size : N) (etag : string) (sums : list BlockChecksumInfo) (error : string)
  : CProg unit :=
  let* now := perform Clock in
  let? r := execute_rpc dest (MFile (RqCompleteFile dest size etag now sums)) completed_reply in
  if r.1 : bool then reply tt else fail (Failed error).

(** The erasure-coded write. [src/dfs/client/src/mod.rs:307-412 create_file_from_buffer] *)
Definition write_ec (buffer : bytes) (dest : string) (block : BlockInfo) (chunk_servers : list string)
    (data_shards parity_shards : nat) (term : N) : CProg unit :=
  if negb (length chunk_servers =? data_shards + parity_shards)
  then fail (Failed "Unexpected number of chunk servers for EC")
  else
    match encode buffer data_shards parity_shards with
    | Err e => fail (Failed e)
    | Panic why => fail (Panicked why)
    | Ok shards =>
        do? write_shards (block_id block) term 0 (zip shards chunk_servers) in
        complete dest (N.of_nat (length buffer)) ""
          [mkBlockChecksumInfo (block_id block) (crc32 buffer) (N.of_nat (length buffer))] "Failed to complete EC file"
    end.

(** The replicated write: the first server forwards to the others.
    [src/dfs/client/src/mod.rs:414-493 create_file_from_buffer] *)
Definition write_replicated (buffer : bytes) (dest : string) (block : BlockInfo) (first : string)
    (next_servers : list string) (term : N) : CProg unit :=
  let checksum := crc32 buffer in
  let* r := perform (WriteBlock (chunk_url first) (block_id block) buffer next_servers checksum (-1) term) in
  match r with
  | Some (Written _) =>
      complete dest (N.of_nat (length buffer)) (md5_hex buffer)
        [mkBlockChecksumInfo (block_id block) checksum (N.of_nat (length buffer))] "Failed to complete file"
  | Some (WriteFailed e) => fail (Failed ("Failed to write block: " +:+ e))
  | _ => fail (Failed "write_block failed")
  end.

(** Creation and allocation, shared by the two kinds of file.
    [src/dfs/client/src/mod.rs:225-298 create_file_from_buffer] *)
Definition create_and_allocate (dest : string) (ec_data ec_parity : Z) (error no_servers : string)
  : CProg (BlockInfo * AllocateBlockResponse) :=
  let? created := execute_rpc dest (MFile (RqCreateFile dest ec_data ec_parity)) unless_not_leader in
  if negb (success created.1) then fail (Failed (error +:+ error_message created.1))
  else
    let? allocated := execute_rpc_internal (alloc_masters created.2) (MFile (RqAllocateBlock dest)) allocated_reply in
    match chunk_server_addresses allocated.1.2 with
    | [] => fail (Failed no_servers)
    | _ => reply allocated.1
    end.

(** [src/dfs/client/src/mod.rs:225-494 create_file_from_buffer] *)
Definition create_file_from_buffer (buffer : bytes) (dest : string) : CProg unit :=
  let? allocated := create_and_allocate dest 0 0 "Failed to create file: " "No chunk servers available" in
  let '(block, resp) := allocated in
  if ((0 <? resp_ec_data_shards resp) && (0 <? resp_ec_parity_shards resp))%Z then
    write_ec buffer dest block (chunk_server_addresses resp) (usize_of (resp_ec_data_shards resp))
      (usize_of (resp_ec_parity_shards resp)) (master_term resp)
  else
    match chunk_server_addresses resp with
    | [] => fail (Failed "No chunk servers available")
    | first :: next_servers => write_replicated buffer dest block first next_servers (master_term resp)
    end.

(** [src/dfs/client/src/mod.rs:496-677 create_file_from_buffer_ec] *)
Definition create_file_from_buffer_ec (buffer : bytes) (dest : string) (ec_data ec_parity : Z) : CProg unit :=
  let? allocated := create_and_allocate dest ec_data ec_parity "Failed to create EC file: "
                      "No chunk servers available for EC write" in
  let '(block, resp) := allocated in
  let data_shards := usize_of (resp_ec_data_shards resp) in
  let parity_shards := usize_of (resp_ec_parity_shards resp) in
  if (data_shards =? 0) || (parity_shards =? 0) then fail (Failed "Master returned non-EC policy for EC file")
  else write_ec buffer dest block (chunk_server_addresses resp) data_shards parity_shards (master_term resp).

(** ** Other operations *)

(** [src/dfs/client/src/mod.rs:111-123 list_files] *)
Definition list_files (p : string) : CProg (list string) :=
  let? r := execute_rpc p (MFile (RqListFiles p)) files_reply in reply r.1.

(** Shard after shard; a shard without peers is skipped.
    [src/dfs/client/src/mod.rs:157-195 list_all_files] *)
Fixpoint list_shards (shards : list string) (all_files : gset string) : CProg (gset string) :=
  match shards with
  | [] => reply all_files
  | shard_id :: shards =>
      let* peers := perform (ReadShardMap (λ m, default [] (get_shard_peers m shard_id))) in
      match peers with
      | [] => list_shards shards all_files
      | _ =>
          let? r := execute_rpc_internal peers (MFile (RqListFiles "/")) files_reply in
          list_shards shards (list_to_set r.1 ∪ all_files)
      end
  end.

(** [src/dfs/client/src/mod.rs:125-200 list_all_files] *)
Definition list_all_files : CProg (gset string) :=
  do* (match config_server_addrs self with [] => Ret (inl tt) | _ => refresh_shard_map end) in
  let* shards := perform (ReadShardMap get_all_shards) in
  match shards with
  | [] =>
      let? r := execute_rpc_internal (master_addrs self) (MFile (RqListFiles "/")) files_reply in
      reply (list_to_set r.1)
  | _ => list_shards shards ∅
  end.

(** [src/dfs/client/src/mod.rs:1197-1222 delete_file] *)
Definition delete_file (p : string) : CProg unit :=
  let? r := execute_rpc p (MFile (RqDeleteFile p)) unless_not_leader in
  if success r.1 then reply tt else fail (Failed ("Failed to delete file: " +:+ error_message r.1)).

(** [src/dfs/client/src/mod.rs:1224-1260 rename_file] *)
Definition rename_file (source dest : string) : CProg unit :=
  let? r := execute_rpc source (MRename source dest) (λ rp,
    match rp with
    | MRenameReply r redirect_hint =>
        if negb (success r) && bool_decide (error_message r = "Not Leader")
        then inr (Unavailable ("Not Leader|" +:+ leader_hint r))
        else if negb (bool_decide (redirect_hint = "")) then inr (OutOfRange ("REDIRECT:" +:+ redirect_hint))
        else inl r
    | _ => mistyped
    end) in
  if success r.1 then reply tt else fail (Failed ("Failed to rename file: " +:+ error_message r.1)).

(** [src/dfs/client/src/mod.rs:1262-1291 initiate_shuffle] *)
Definition initiate_shuffle (prefix : string) : CProg unit :=
  let? r := execute_rpc prefix (MFile (RqInitiateShuffle prefix)) (λ rp,
    match unless_not_leader rp with
    | inl r => if String.prefix "REDIRECT:" (error_message r) then inr (OutOfRange (error_message r)) else inl r
    | inr s => inr s
    end) in
  if success r.1 then reply tt else fail (Failed "Failed to initiate shuffle").

End client.
