(* ===== verification/ClientRead.v ===== *)
(** * Reads of the client, against any servers

    What a read returns when the replicas that answer agree, whichever requests
    fail, are slow or win a race: the environment is any relation between a call
    and its answer. *)

From Stdlib Require Import Strings.Byte.
From S2P Require Import Prelude BTree Text Sharding MasterState AppState Program MasterService ServiceSpec Erasure ChunkServer Client.

Section reads.
  Context `{RS : ReedSolomon} (self : Client).
  Context {W : Type} (R : ∀ B, ClientEffect B → W → B → W → Prop) (I : W → W → Prop).
Notation ex := (exec R I).
Notation url := (chunk_url self).

(** What reads rely on stays true while they run, and whatever runs with them. *)
Context (Inv : W → Prop).
Context (inv_I : ∀ w w', Inv w → I w w' → Inv w').
Context (inv_read : ∀ addr bid offset len w r w', Inv w → R _ (ReadBlock addr bid offset len) w r w' → Inv w').
Context (inv_choose : ∀ w b w', Inv w → R _ Choose w b w' → Inv w').

(** A location answers with [data] if it answers, or always answers with it. *)
Definition agrees (location bid : string) (offset len : N) (data : bytes) : Prop :=
  ∀ w d n t w', Inv w → R _ (ReadBlock (url location) bid offset len) w (Some (ReadOk d n t)) w' → d = data.
Definition answers (location bid : string) (offset len : N) (data : bytes) : Prop :=
  ∀ w r w', Inv w → R _ (ReadBlock (url location) bid offset len) w r w' → ∃ n t, r = Some (ReadOk data n t).

Lemma ex_choose w b w' : Inv w → ex (perform Choose) w b w' → Inv w'.
Proof. intros Hw (w1 & b1 & w2 & HI & Hb & [-> ->]). eauto. Qed.

(** ** One block *)

Section block.
  Context (bid : string) (offset len : N) (data : bytes).

(** The outcome of a read from several locations. *)
Definition read_outcome (locations : list string) (r : bytes + Failure) (w' : W) : Prop :=
  Inv w' ∧ (r = inl data ∨ ((∃ e, r = inr e) ∧ ∀ l, l ∈ locations → ¬ answers l bid offset len data)).

Lemma ex_location location w r w' :
  Inv w → agrees location bid offset len data →
  ex (read_block_from_location self location bid offset len) w r w' → read_outcome [location] r w'.
Proof.
  intros Hw Hag (w1 & b & w2 & HI & Hb & Hk). assert (Inv w1) as Hw1 by eauto. assert (Inv w2) as Hw2 by eauto.
  assert ((∃ d n t, b = Some (ReadOk d n t)) ∨
    ((∀ d n t, b ≠ Some (ReadOk d n t)) ∧ (∃ e, r = inr e) ∧ w' = w2)) as [(d & n & t & ->)|(Hno & He & ->)].
  { destruct b as [[d n t| | | |]|]; [left; eauto|..]; right; destruct Hk as [-> ->]; (split; [done|split; [eauto|done]]). }
  - destruct Hk as [-> ->]. split; [done|]. left. by apply Hag in Hb as ->.
  - split; [done|]. right. split; [done|]. intros l ->%list_elem_of_singleton Ha.
    destruct (Ha _ _ _ Hw1 Hb) as (n & t & ->). by eapply Hno.
Qed.

Lemma ex_sequentially locations w r w' :
  Inv w → (∀ l, l ∈ locations → agrees l bid offset len data) →
  ex (read_sequentially self locations bid offset len) w r w' → read_outcome locations r w'.
Proof.
  revert w. induction locations as [|l locations IH]; intros w Hw Hag Hex.
  { destruct Hex as [-> ->]. split; [done|]. right. split; [by eexists|]. by intros l ?%not_elem_of_nil. }
  apply exec_bind in Hex as (r1 & w1 & Hl & Hk).
  apply ex_location in Hl as [Hw1 [->|[[e ->] Hna]]]; [by destruct Hk as [-> ->]; split; [|left]| |done|apply Hag; by left].
  apply IH in Hk as [Hw' [->|[He Hrest]]]; [by split; [|left]| |done|intros; apply Hag; by right].
  split; [done|]. right. split; [done|]. intros l' [->|?]%elem_of_cons; [by apply Hna; left|auto].
Qed.

Lemma ex_hedged loc0 loc1 rest w r w' :
  Inv w → (∀ l, l ∈ loc0 :: loc1 :: rest → agrees l bid offset len data) →
  ex (read_hedged self loc0 loc1 rest bid offset len) w r w' → read_outcome (loc0 :: loc1 :: rest) r w'.
Proof.
  intros Hw Hag (r0 & w1 & H0 & Hk)%exec_bind. apply ex_location in H0 as [Hw1 H0]; [|done|apply Hag; by left].
  apply exec_bind in Hk as (in_time & w2 & Hw2%ex_choose & Hk); [|done].
  assert (∀ w, Inv w → ex (read_sequentially self rest bid offset len) w r w' → read_outcome rest r w') as Hrest.
  { intros w3 Hw3. apply ex_sequentially; [done|]. intros; apply Hag; by do 2 right. }
  assert (∀ r1 w3 w4, Inv w3 → ex (read_block_from_location self loc1 bid offset len) w3 r1 w4 →
    read_outcome [loc1] r1 w4) as Hloc1.
  { intros r1 w3 w4 Hw3. apply ex_location; [done|]. apply Hag. by right; left. }
  assert (∀ w, Inv w → (∀ l, l ∈ [loc0] → ¬ answers l bid offset len data) →
    (∀ l, l ∈ [loc1] → ¬ answers l bid offset len data) → ex (read_sequentially self rest bid offset len) w r w' →
    read_outcome (loc0 :: loc1 :: rest) r w') as Hnone.
  { intros w3 Hw3 Hn0 Hn1 [Hw' [->|[He Hr]]]%Hrest; [by split; [|left]| |done]. split; [done|]. right. split; [done|].
    by intros l [->|[->|?]%elem_of_cons]%elem_of_cons; [apply Hn0; left|apply Hn1; left|apply Hr]. }
  destruct H0 as [->|[[e ->] Hn0]]; destruct in_time.
  - destruct Hk as [-> ->]. by split; [|left].
  - apply exec_bind in Hk as (r1 & w3 & H1 & Hk). apply Hloc1 in H1 as [Hw3 H1]; [|done].
    apply exec_bind in Hk as (pw & w4 & Hw4%ex_choose & Hk); [|done].
    destruct H1 as [->|[[e ->] _]]; destruct pw; destruct Hk as [-> ->]; by split; [|left].
  - apply exec_bind in Hk as (r1 & w3 & H1 & Hk). apply Hloc1 in H1 as [Hw3 H1]; [|done].
    destruct H1 as [->|[[e' ->] Hn1]]; [by destruct Hk as [-> ->]; split; [|left]|by eapply Hnone].
  - apply exec_bind in Hk as (r1 & w3 & H1 & Hk). apply Hloc1 in H1 as [Hw3 H1]; [|done].
    apply exec_bind in Hk as (pw & w4 & Hw4%ex_choose & Hk); [|done].
    destruct H1 as [->|[[e' ->] Hn1]]; [destruct pw; destruct Hk as [-> ->]; by split; [|left]|].
    by destruct pw; eapply Hnone.
Qed.

(** Reading a block succeeds when one replica can be read. *)
Lemma ex_block_range locations w r w' :
  Inv w → (∀ l, l ∈ locations → agrees l bid offset len data) →
  (∃ l, l ∈ locations ∧ answers l bid offset len data) →
  ex (read_block_range self locations bid offset len) w r w' → r = inl data ∧ Inv w'.
Proof.
  intros Hw Hag (l & Hl & Hans) Hex.
  assert (read_outcome locations r w') as [Hw' [->|[_ Hno]]]; [|done|by apply Hno in Hl].
  unfold read_block_range in Hex. destruct locations as [|l0 [|l1 rest]]; [by apply not_elem_of_nil in Hl| |].
  - by eapply ex_sequentially.
  - destruct (hedge_delay_ms self); [by eapply ex_hedged|by eapply ex_sequentially].
Qed.

End block.

(** ** Erasure-coded blocks *)

(** Each location has its shard, or none; those marked in [up] answer. *)
Lemma ex_fetch_shards bid locs shards up w r w' :
  Inv w → length locs = length shards → length up = length shards →
  (∀ i l s, locs !! i = Some l → shards !! i = Some s → agrees l bid 0 0 s) →
  (∀ i l s, locs !! i = Some l → shards !! i = Some s → up !! i = Some true → answers l bid 0 0 s) →
  ex (fetch_shards self locs bid) w r w' →
  Forall2 (λ (o : option bytes) s, o = None ∨ o = Some s) r shards ∧
  length (filter (.= true) up) ≤ length (omap id r) ∧ Inv w'.
Proof.
  revert shards up w r w'. induction locs as [|l locs IH]; intros [|s shards] [|u up] w r w' Hw Hls Hus Hag Hans Hex;
    try done.
  { destruct Hex as [-> ->]. by split. }
  apply exec_bind in Hex as (r1 & w1 & Hl & Hk). apply exec_bind in Hk as (rest & w2 & Hrest & Hk).
  destruct Hk as [-> ->]. apply (ex_location _ _ _ s) in Hl as [Hw1 Hl]; [|done|by apply (Hag 0)].
  destruct (IH shards up w1 rest w2) as (Hall & Hcount & Hw2); try done.
  { by injection Hls. } { by injection Hus. } { intros i. apply (Hag (S i)). } { intros i. apply (Hans (S i)). }
  rewrite filter_cons. destruct Hl as [->|[[e ->] Hno]].
  - split; [constructor; auto|]. change (length (omap id (Some s :: rest))) with (S (length (omap id rest))).
    split; [|done]. case_decide; simpl; lia.
  - split; [constructor; auto|]. split; [|done]. case_decide as Hu; [|done]. exfalso.
    apply (Hno l); [by left|]. apply (Hans 0); [done..|by subst u].
Qed.

(** An erasure-coded block is read back when as many of its servers answer as it
    has data shards, whichever they are. *)
Lemma ex_ec_block b data shards up w r w' :
  Inv w →
  encode data (usize_of (block_ec_data_shards b)) (usize_of (block_ec_parity_shards b)) = Ok shards →
  original_size b = N.of_nat (length data) →
  length (locations b) = length shards → length up = length shards →
  (∀ i l s, locations b !! i = Some l → shards !! i = Some s → agrees l (block_id b) 0 0 s) →
  (∀ i l s, locations b !! i = Some l → shards !! i = Some s → up !! i = Some true → answers l (block_id b) 0 0 s) →
  usize_of (block_ec_data_shards b) ≤ length (filter (.= true) up) →
  ex (read_ec_block self b) w r w' → r = inl data ∧ Inv w'.
Proof.
  intros Hw Henc Hsize Hlocs Hup Hag Hans Hk (fetched & w1 & Hf & Hex)%exec_bind.
  destruct (data_shards_join _ _ _ _ Henc) as [Hjoin Hlen].
  apply (ex_fetch_shards _ _ shards up) in Hf as (Hall & Hcount & Hw1); try done.
  assert (length fetched = length shards) as Hfl by (by eapply Forall2_length).
  revert Hex. set (k := usize_of (block_ec_data_shards b)) in *. set (m := usize_of (block_ec_parity_shards b)) in *.
  rewrite Hsize, Nat2N.id. unfold resize_vec. rewrite take_ge by lia. replace (k + m - length fetched) with 0 by lia.
  simpl. rewrite app_nil_r, (proj2 (Nat.ltb_ge _ _)) by lia. case_if.
  - intros [-> ->]. split; [|done]. f_equal. rewrite <- Hjoin at 2. f_equal.
    assert (omap id (take k fetched) = take k shards) as ->; [|done].
    clear -Hall Hif. revert Hif. generalize k as n. induction Hall as [|o s l1 l2 Ho Hall IH]; intros n; [by rewrite !take_nil|].
    destruct n as [|n]; [done|]. simpl. intros [Hs%bool_decide_eq_true Hrest]%andb_true_iff.
    destruct Ho as [->| ->]; [by destruct Hs|]. simpl. by rewrite IH.
  - by rewrite (decode_encoded _ _ _ shards) by (done || lia); intros [-> ->].
Qed.

(** ** A range of a file *)

(** The bytes of [data], which starts at [pos], between [offset] and [stop]. *)
Definition part (offset stop pos : N) (data : bytes) : bytes :=
  take (N.to_nat (stop - N.max offset pos)) (drop (N.to_nat (offset - pos)) data).

Lemma part_app offset stop pos d L :
  part offset stop pos (d ++ L) = part offset stop pos d ++ part offset stop (pos + N.of_nat (length d)) L.
Proof.
  unfold part. rewrite drop_app, take_app, length_drop. f_equal. f_equal; [lia|]. f_equal. lia.
Qed.

Lemma part_before offset stop pos d : (pos + N.of_nat (length d) ≤ offset)%N → part offset stop pos d = [].
Proof. intros Hle. unfold part. rewrite drop_ge by lia. apply take_nil. Qed.

Lemma part_after offset stop pos d : (stop ≤ pos)%N → part offset stop pos d = [].
Proof. intros Hle. unfold part. by replace (N.to_nat _) with 0 by lia. Qed.

(** The replicas of a block serve every range of [data]. *)
Definition serves (b : BlockInfo) (data : bytes) : Prop :=
  ∀ offset len, (offset < N.of_nat (length data))%N → (0 < len)%N →
    let wanted := take (N.to_nat len) (drop (N.to_nat offset) data) in
    (∀ l, l ∈ locations b → agrees l (block_id b) offset len wanted) ∧
    ∃ l, l ∈ locations b ∧ answers l (block_id b) offset len wanted.

(** What a block of a file is worth: a replicated one with its replicas, or an
    erasure-coded one that can be restored. *)
Definition readable (b : BlockInfo) (data : bytes) : Prop :=
  block_size b = N.of_nat (length data) ∧ data ≠ [] ∧
  if (0 <? block_ec_data_shards b)%Z then ∀ w r w', Inv w → ex (read_ec_block self b) w r w' → r = inl data ∧ Inv w'
  else serves b data.

Lemma ex_part b data offset stop pos w r w' :
  Inv w → readable b data → (offset < pos + N.of_nat (length data))%N → (pos < stop)%N → (offset < stop)%N →
  ex (read_part self offset stop pos b) w r w' → r = inl (part offset stop pos data) ∧ Inv w'.
Proof.
  intros Hw (Hsize & Hne & Hb) H1 H2 H3. assert (length data ≠ 0) by (by destruct data). unfold read_part. rewrite Hsize.
  set (len := (N.min _ _ - _)%N).
  assert (take (N.to_nat len) (drop (N.to_nat (offset - pos)) data) = part offset stop pos data) as Hpart.
  { unfold part, len. destruct (decide (stop - pos ≤ N.of_nat (length data))%N).
    - f_equal. lia.
    - rewrite !take_ge; [done|rewrite length_drop; lia..]. }
  destruct (0 <? block_ec_data_shards b)%Z.
  - intros (full & w1 & Hfull & Hk)%exec_try. apply Hb in Hfull as [-> Hw1]; [|done]. unfold slice in Hk.
    rewrite (proj2 (Nat.ltb_ge _ _)) in Hk by lia. destruct Hk as [-> ->]. split; [|done].
    f_equal. rewrite <- Hpart. f_equal. lia.
  - assert (0 < len)%N as Hlen by (unfold len; lia). destruct (Hb (offset - pos)%N len) as [Hag Hans]; [lia|done|].
    rewrite Hpart in Hag, Hans. by apply ex_block_range.
Qed.

Lemma ex_range_blocks offset stop pos bs datas w r w' :
  Inv w → Forall2 readable bs datas → (offset < stop)%N → (pos + N.of_nat (length (mjoin datas)) < u64_mod)%N →
  ex (read_range_blocks self offset stop pos bs) w r w' → r = inl (part offset stop pos (mjoin datas)) ∧ Inv w'.
Proof.
  intros Hw Hall Hlt. revert pos w r w' Hw. induction Hall as [|b d bs datas Hb Hall IH]; intros pos w r w' Hw Hbound Hex; simpl in *.
  { destruct Hex as [-> ->]. split; [|done]. unfold part. by rewrite drop_nil, take_nil. }
  rewrite length_app in Hbound. pose proof Hb as [Hsize _]. rewrite Hsize in Hex. unfold wrap64 in Hex.
  rewrite N.mod_small in Hex by lia. rewrite part_app. case_if.
  - apply N.leb_le in Hif. rewrite part_before by lia. apply IH in Hex; [done|done|lia].
  - apply N.leb_gt in Hif. case_if.
    + apply N.leb_le in Hif0. destruct Hex as [-> ->]. split; [|done]. by rewrite !part_after by lia.
    + apply N.leb_gt in Hif0. apply exec_try in Hex as (rd & w1 & Hd & Hk).
      apply (ex_part _ d) in Hd as [-> Hw1]; [|done|done|lia|done|done].
      apply exec_try in Hk as (rr & w2 & Hr & Hk). apply IH in Hr as [-> Hw2]; [|done|lia]. by destruct Hk as [-> ->].
Qed.

(** ** Claims *)

(** A block can be read as long as one replica can: when the replicas that
    answer agree and one of them always answers, every execution of the
    sequential or hedged read returns its bytes, whichever replicas fail,
    however slow they are and whoever wins the race. *)
Theorem read_survives_failures bid offset len data locations w r w' :
  Inv w → (∀ l, l ∈ locations → agrees l bid offset len data) →
  (∃ l, l ∈ locations ∧ answers l bid offset len data) →
  exec R I (read_block_range self locations bid offset len) w r w' → r = inl data.
Proof. intros. by eapply ex_block_range. Qed.

Context (ring_crc : string → N).

(** What the masters say of a file, up to its access statistics. *)
Definition told (p : string) (bs : list BlockInfo) (size : N) : Prop :=
  ∀ w r w', Inv w → exec R I (get_file_info ring_crc self p) w r w' →
    ∃ m, r = inl (Some m) ∧ blocks m = bs ∧ file_size m = size ∧ Inv w'.

Lemma ex_file_range p bs size datas offset len w r w' :
  Inv w → told p bs size → Forall2 readable bs datas → size = N.of_nat (length (mjoin datas)) →
  (size < u64_mod)%N → (offset < size)%N → (0 < len)%N →
  ex (read_file_range ring_crc self p offset len) w r w' →
  r = inl (take (N.to_nat len) (drop (N.to_nat offset) (mjoin datas))).
Proof.
  intros Hw Hinfo Hall Hsize Hbound Hoff Hlen (ri & w1 & Hi & Hk)%exec_try.
  apply Hinfo in Hi as (m & -> & Hbs & Hm & Hw1); [|done].
  apply exec_try in Hk as (rm & w2 & [-> ->] & Hk). rewrite Hm, Hbs in Hk. rewrite (proj2 (N.leb_gt _ _)) in Hk by done.
  apply (ex_range_blocks _ _ _ _ datas) in Hk as [-> _]; [|done|done|lia|lia]. f_equal. unfold part.
  rewrite N.sub_0_r, N.max_0_r. rewrite Hsize.
  destruct (decide (len ≤ N.of_nat (length (mjoin datas)) - offset)%N); [f_equal; lia|].
  rewrite !take_ge; [done|rewrite length_drop; lia..].
Qed.

(** A range of a file: the blocks it overlaps are cut and joined to exactly
    the bytes of the file in the range, for replicated and erasure-coded blocks
    and ranges that cross blocks or reach beyond the end. *)
Theorem read_file_range_correct p bs size datas offset len w r w' :
  Inv w → told p bs size → Forall2 readable bs datas → size = N.of_nat (length (mjoin datas)) →
  (size < u64_mod)%N → (offset < size)%N → (0 < len)%N →
  exec R I (read_file_range ring_crc self p offset len) w r w' →
  r = inl (take (N.to_nat len) (drop (N.to_nat offset) (mjoin datas))).
Proof. apply ex_file_range. Qed.

(** The blocks of a file one after the other. *)
Lemma ex_read_blocks (read : BlockInfo → CProg bytes) bs datas w r w' :
  Inv w → Forall2 (λ b d, ∀ w r w', Inv w → ex (read b) w r w' → r = inl d ∧ Inv w') bs datas →
  ex (read_blocks read bs) w r w' → r = inl (mjoin datas) ∧ Inv w'.
Proof.
  intros Hw Hall. revert w r w' Hw. induction Hall as [|b d bs datas Hb Hall IH]; intros w r w' Hw Hex.
  { by destruct Hex as [-> ->]. }
  apply exec_try in Hex as (rd & w1 & [-> Hw1]%Hb & Hk); [|done].
  apply exec_try in Hk as (rr & w2 & [-> Hw2]%IH & Hk); [|done]. by destruct Hk as [-> ->].
Qed.

Lemma ex_file_content p bs size datas w r w' :
  Inv w → told p bs size →
  Forall2 (λ b d, ∀ w r w', Inv w → ex (fetch_single_block self b) w r w' → r = inl d ∧ Inv w') bs datas →
  ex (get_file_content ring_crc self p) w r w' → r = inl (mjoin datas).
Proof.
  intros Hw Hinfo Hall (ri & w1 & Hi & Hk)%exec_try. apply Hinfo in Hi as (m & -> & Hbs & Hm & Hw1); [|done].
  apply exec_try in Hk as (rm & w2 & [-> ->] & Hk). rewrite Hbs in Hk. by eapply ex_read_blocks.
Qed.

End reads.

(** ** An example: one replica is down *)

Module ReadDemo.

Definition data : bytes := [x41; x42; x43].
Definition meta : FileMetadata :=
  mkFileMetadata "/f" 3 [mkBlockInfo "b1" 3 ["a:1"; "b:1"] 0 0 0 3] "" 0 0 0 0 0 0.
Definition client : Client := mkClient ["http://m:1"] [] [] 5 false (Some 10%N).

Definition respond {B} (e : ClientEffect B) : B :=
  match e in ClientEffect B return B with
  | CallMaster addr rq =>
      match rq with
      | MFile (RqGetFileInfo "/f") =>
          if decide (addr = "http://m:1") then Some (inl (MFileReply (RpInfo (Some meta)))) else None
      | _ => None
      end
  | ReadBlock addr bid offset len =>
      if decide (addr = "http://b:1") then
        let rest := drop (N.to_nat offset) data in
        Some (ReadOk (if (len =? 0)%N then rest else take (N.to_nat len) rest) 0 3)
      else None
  | WriteBlock _ _ _ _ _ _ _ => None
  | FetchShardMap _ => None
  | ReadShardMap f => f new_range
  | SetShardMap _ | SpawnRefresh | Sleep => tt
  | Clock => 0%N
  | Choose => false
  end.

Definition R (B : Type) (e : ClientEffect B) (w : unit) (b : B) (w' : unit) : Prop := b = respond e.

Definition demo_run {A} (p : Prog ClientEffect A) : A * unit := run (λ B e _, (respond e, tt)) p tt.

Lemma demo_exec {A} (p : Prog ClientEffect A) : exec R (λ _ _, True) p tt (demo_run p).1 (demo_run p).2.
Proof. by apply run_exec. Qed.

End ReadDemo.

Lemma read_survives_failures_witness :
  (ReadDemo.demo_run (read_block_range ReadDemo.client ["a:1"; "b:1"] "b1" 0 0)).1 = inl ReadDemo.data.
Proof.
  apply (read_survives_failures ReadDemo.client ReadDemo.R (λ _ _, True) (λ _, True) (λ _ _ _ _, I)
    (λ _ _ _ _ _ _ _ _ _, I) (λ _ _ _ _ _, I) "b1" 0 0 ReadDemo.data ["a:1"; "b:1"] tt _ (ReadDemo.demo_run (read_block_range ReadDemo.client ["a:1"; "b:1"] "b1" 0 0)).2).
  - exact I.
  - intros l [->|[->|[]%not_elem_of_nil]%elem_of_cons]%elem_of_cons w d n t w' _ H; [discriminate H|].
    by injection H as ->.
  - exists "b:1". split; [by right; left|]. intros w r' w' _ ->. by eexists _, _.
  - apply ReadDemo.demo_exec.
Defined.

Lemma read_file_range_correct_witness :
  (ReadDemo.demo_run (read_file_range (RS := mirror) (λ _, 0%N) ReadDemo.client "/f" 1 10)).1 = inl [x42; x43].
Proof.
  apply (read_file_range_correct (RS := mirror) ReadDemo.client ReadDemo.R (λ _ _, True) (λ _, True) (λ _ _ _ _, I)
    (λ _ _ _ _ _ _ _ _ _, I) (λ _ _ _ _ _, I) (λ _, 0%N) "/f" (blocks ReadDemo.meta) 3 [ReadDemo.data] 1 10 tt _
    (ReadDemo.demo_run (read_file_range (RS := mirror) (λ _, 0%N) ReadDemo.client "/f" 1 10)).2);
    [exact I| | |reflexivity..|apply ReadDemo.demo_exec].
  - intros w ri w' _ H. apply (exec_run (λ B e _, (ReadDemo.respond e, tt))) in H.
    + destruct w. vm_compute in H. exists ReadDemo.meta. by injection H as ->.
    + by intros [] [].
    + intros B e [] b [] ->. reflexivity.
  - constructor; [|constructor]. split; [reflexivity|]. split; [discriminate|]. intros offset len Hoff Hlen. split.
    + intros l [->|[->|[]%not_elem_of_nil]%elem_of_cons]%elem_of_cons w d n t w' _ H; [discriminate H|].
      unfold ReadDemo.R in H. simpl in H. rewrite (proj2 (N.eqb_neq _ _)) in H by lia. by injection H as ->.
    + exists "b:1". split; [by right; left|]. intros w r' w' _ ->. simpl.
      rewrite (proj2 (N.eqb_neq _ _)) by lia. by eexists _, _.
Defined.
