(* ===== verification/Cluster.v ===== *)
(** * A file through the whole system

    The client library, the file service of the masters, the replicated state
    machine, placement, erasure coding and the chunk servers together: a file
    that was written is read back, also when chunk servers are lost afterwards.
    [Cluster] is the environment of an undisturbed client. *)

From Stdlib Require Import Strings.Byte.
From S2P Require Import Prelude BTree Text Sharding MasterState AppState ClusterConfig RaftNode Monitor Program Placement Healing MasterService ServiceSpec Erasure ChunkServer Client ClientRead.

#[local] Arguments Nat.min : simpl never.

(** ** The cluster *)

(** The metadata of one Raft group, the masters that can be reached with what
    Raft answers them, the chunk servers by URL, and the client's shard map. *)
Record Cluster : Type := mkCluster {
  cl_master : World;
  cl_roles : gmap string Peers;
  cl_chunks : gmap string MyChunkServer;
  cl_map : ShardMap;
}.

Definition eta_cluster (c : Cluster) : Cluster := mkCluster (cl_master c) (cl_roles c) (cl_chunks c) (cl_map c).
#[global] Instance upd_cl_master : Upd cl_master := ltac:(upd_tac eta_cluster cl_master).
#[global] Instance upd_cl_chunks : Upd cl_chunks := ltac:(upd_tac eta_cluster cl_chunks).
#[global] Instance upd_cl_map : Upd cl_map := ltac:(upd_tac eta_cluster cl_map).

Definition server_url (addr : string) : string := "http://" +:+ addr.

#[global] Instance server_url_inj : Inj (=) (=) server_url.
Proof. intros x y H. by injection H. Qed.

Section cluster.
  Context `{HO : HashOrder} `{RS : ReedSolomon}.
  Context (ring_crc : string → N) (crc32 : bytes → N) (md5_hex : bytes → string).
  Context (crc32_bound : ∀ d, (crc32 d < 4294967296)%N).
  Context (shard_id : string).

(** The servers a block is forwarded to, in turn; the replicas they write. *)
Fixpoint forward (servers : list string) (bid : string) (data : bytes) (sum term : N)
    (cs : gmap string MyChunkServer) : option Z * gmap string MyChunkServer :=
  match servers with
  | [] => (None, cs)
  | a :: servers =>
      match cs !! server_url a with
      | None => (None, cs)
      | Some s =>
          match replicate_block crc32 bid data sum term None s with
          | (Written _, s') =>
              let '(downstream, cs) := forward servers bid data sum term (<[server_url a := s']> cs) in
              (Some (1 + default 0 downstream)%Z, cs)
          | (_, s') => (None, <[server_url a := s']> cs)
          end
      end
  end.

Definition write_pipeline (url bid : string) (data : bytes) (next_servers : list string) (sum term : N)
    (cs : gmap string MyChunkServer) : option WriteResponse * gmap string MyChunkServer :=
  match cs !! url with
  | None => (None, cs)
  | Some s =>
      match write_block crc32 bid data sum term None s with
      | (Written _, s') =>
          let '(downstream, cs) := forward next_servers bid data sum term (<[url := s']> cs) in
          (Some (Written (1 + default 0 downstream)%Z), cs)
      | (r, s') => (Some r, <[url := s']> cs)
      end
  end.

(** Calls of the client. Renames go to other groups and are not part of this. *)
Definition cl_step (B : Type) (e : ClientEffect B) : Cluster → B * Cluster :=
  match e in ClientEffect B return Cluster → B * Cluster with
  | CallMaster addr rq => λ c,
      match cl_roles c !! addr, rq with
      | Some peers, MFile rq =>
          let '(r, w) := run (@run_effect ring_crc peers) (serve_file ring_crc shard_id rq) (cl_master c) in
          (Some (match r with inl rp => inl (MFileReply rp) | inr s => inr s end), c <| cl_master := w |>)
      | _, _ => (None, c)
      end
  | WriteBlock url bid data next_servers sum _ term => λ c,
      let '(r, cs) := write_pipeline url bid data next_servers sum term (cl_chunks c) in (r, c <| cl_chunks := cs |>)
  | ReadBlock url bid offset len => λ c,
      match cl_chunks c !! url with
      | None => (None, c)
      | Some s =>
          let '(r, s) := read_block crc32 bid (N.to_nat offset) (N.to_nat len) false [] s in
          (Some r, c <| cl_chunks := <[url := s]> (cl_chunks c) |>)
      end
  | FetchShardMap _ => λ c, (None, c)
  | ReadShardMap f => λ c, (f (cl_map c), c)
  | SetShardMap m => λ c, (tt, c <| cl_map := m |>)
  | SpawnRefresh | Sleep => λ c, (tt, c)
  | Clock => λ c, (w_clock (cl_master c), c)
  | Choose => λ c, (true, c)
  end.

Notation crun p := (run cl_step p).

(** ** Writing blocks *)

(** A server accepts a block of [term] and has no version of it in its cache. *)
Definition accepts (cs : gmap string MyChunkServer) (bid : string) (term : N) (a : string) : Prop :=
  ∃ s, cs !! server_url a = Some s ∧ is_Some (fence (known_term s) term s) ∧ block_cache s !! bid = None.

Definition stored (cs : gmap string MyChunkServer) (bid : string) (data : bytes) (a : string) : Prop :=
  ∃ s, cs !! server_url a = Some s ∧ holds crc32 bid data s.

Lemma fence_cache known term s s' : fence known term s = Some s' → block_cache s' = block_cache s.
Proof. unfold fence. intros. repeat case_if; by simplify_eq. Qed.

Lemma write_accepted bid data term s :
  is_Some (fence (known_term s) term s) → block_cache s !! bid = None →
  ∃ s', write_block crc32 bid data (crc32 data) term None s = (Written 1, s') ∧
        replicate_block crc32 bid data (crc32 data) term None s = (Written 1, s') ∧ holds crc32 bid data s'.
Proof.
  intros [s1 Hf] Hc. unfold write_block, replicate_block, write_block_after, replicate_block_after. rewrite Hf, N.eqb_refl, andb_false_r. simpl.
  eexists. split; [done|]. split; [done|]. apply write_holds; [done|]. by rewrite (fence_cache _ _ _ _ Hf).
Qed.

Lemma forward_stores servers bid data term cs :
  NoDup servers → (∀ a, a ∈ servers → accepts cs bid term a) →
  ∃ n cs', forward servers bid data (crc32 data) term cs = (n, cs') ∧
    (∀ a, a ∈ servers → stored cs' bid data a) ∧
    ∀ u, u ∉ server_url <$> servers → cs' !! u = cs !! u.
Proof.
  revert cs. induction servers as [|a servers IH]; intros cs Hnd Hacc; simpl.
  { exists None, cs. split; [done|]. split; [by intros ? ?%not_elem_of_nil|done]. }
  apply NoDup_cons in Hnd as [Ha Hnd]. destruct (Hacc a) as (s & Hs & Hf & Hc); [by left|]. rewrite Hs.
  destruct (write_accepted bid data term s Hf Hc) as (s' & _ & -> & Hholds).
  destruct (IH (<[server_url a := s']> cs)) as (n & cs' & -> & Hst & Hout); [done| |].
  { intros b Hb. destruct (Hacc b) as (sb & Hsb & ? & ?); [by right|]. exists sb. split; [|done].
    rewrite lookup_insert_ne; [done|]. intros [=]%(inj server_url). by subst. }
  eexists _, cs'. split; [done|]. split.
  - intros b [->|Hb]%elem_of_cons; [|by apply Hst]. exists s'. split; [|done].
    rewrite Hout; [apply lookup_insert_eq|]. intros (b' & [=]%(inj server_url) & Hb')%list_elem_of_fmap. by subst.
  - intros u [Hne Hu]%not_elem_of_cons.
    rewrite Hout by done. by rewrite lookup_insert_ne.
Qed.

Lemma pipeline_stores first next_servers bid data term cs :
  NoDup (first :: next_servers) → (∀ a, a ∈ first :: next_servers → accepts cs bid term a) →
  ∃ n cs', write_pipeline (server_url first) bid data next_servers (crc32 data) term cs = (Some (Written n), cs') ∧
    ∀ a, a ∈ first :: next_servers → stored cs' bid data a.
Proof.
  intros [Ha Hnd]%NoDup_cons Hacc. unfold write_pipeline.
  destruct (Hacc first) as (s & Hs & Hf & Hc); [by left|]. rewrite Hs.
  destruct (write_accepted bid data term s Hf Hc) as (s' & -> & _ & Hholds).
  destruct (forward_stores next_servers bid data term (<[server_url first := s']> cs)) as (n & cs' & -> & Hst & Hout); [done| |].
  { intros b Hb. destruct (Hacc b) as (sb & Hsb & ? & ?); [by right|]. exists sb. split; [|done].
    rewrite lookup_insert_ne; [done|]. intros [=]%(inj server_url). by subst. }
  eexists _, cs'. split; [done|]. intros b [->|Hb]%elem_of_cons; [|by apply Hst]. exists s'. split; [|done].
  rewrite Hout; [apply lookup_insert_eq|]. intros (b' & [=]%(inj server_url) & Hb')%list_elem_of_fmap. by subst.
Qed.

(** ** Calling the masters *)

Section calls.
  Context (self : Client) (no_aliases : host_aliases self = []) (no_ca : has_ca_cert self = false).

Lemma resolve_plain url : resolve_url self url = url.
Proof. unfold resolve_url. by rewrite no_aliases. Qed.

Lemma chunk_url_plain a : chunk_url self a = server_url a.
Proof. apply resolve_plain. Qed.

(** The leader is among the targets, and those before it cannot be reached. *)
Definition reaches (c : Cluster) (targets : list string) (leader : string) : Prop :=
  ∃ pre post, targets = pre ++ leader :: post ∧ leader ≠ "" ∧ ∀ a, a ∈ pre → cl_roles c !! a = None.

Lemma targets_reach {T} c targets leader peers rq rp w' (post : MasterReply → T + Status) x :
  reaches c targets leader → cl_roles c !! leader = Some peers →
  run (@run_effect ring_crc peers) (serve_file ring_crc shard_id rq) (cl_master c) = (inl rp, w') →
  post (MFileReply rp) = inl x →
  crun (try_targets self (MFile rq) post targets) c = (Returned x leader, c <| cl_master := w' |>).
Proof.
  intros (pre & rest & -> & Hne & Hpre) Hrole Hrun Hpost. induction pre as [|a pre IH].
  - simpl. rewrite decide_False by done. rewrite no_ca, resolve_plain. simpl. rewrite Hrole, Hrun. simpl. by rewrite Hpost.
  - simpl. assert (cl_roles c !! a = None) as Ha by (apply Hpre; by left).
    assert (∀ b, b ∈ pre → cl_roles c !! b = None) as Hpre' by (intros; apply Hpre; by right).
    case_decide; [by apply IH|]. rewrite no_ca, resolve_plain. simpl. rewrite Ha. by apply IH.
Qed.

Lemma call_reaches {T} c targets leader peers rq rp w' (post : MasterReply → T + Status) x :
  reaches c targets leader → cl_roles c !! leader = Some peers →
  run (@run_effect ring_crc peers) (serve_file ring_crc shard_id rq) (cl_master c) = (inl rp, w') →
  post (MFileReply rp) = inl x →
  crun (execute_rpc_internal self targets (MFile rq) post) c = (inl (x, leader), c <| cl_master := w' |>).
Proof.
  intros Hr Hrole Hrun Hpost. unfold execute_rpc_internal. destruct (max_retries self - 1); simpl;
    rewrite run_bind, (targets_reach c targets leader peers rq rp w' post x) by done; done.
Qed.

(** The targets of a call that is routed by a path. *)
Definition targets_of (c : Cluster) (key : string) : list string :=
  let peers := default [] (get_shard ring_crc (cl_map c) key ≫= get_shard_peers (cl_map c)) in
  match peers with [] => master_addrs self | _ => peers end.

Lemma routed_call_reaches {T} c key leader peers rq rp w' (post : MasterReply → T + Status) x :
  reaches c (targets_of c key) leader → cl_roles c !! leader = Some peers →
  run (@run_effect ring_crc peers) (serve_file ring_crc shard_id rq) (cl_master c) = (inl rp, w') →
  post (MFileReply rp) = inl x →
  crun (execute_rpc ring_crc self key (MFile rq) post) c = (inl (x, leader), c <| cl_master := w' |>).
Proof. intros. unfold execute_rpc. rewrite run_bind. simpl. by eapply call_reaches. Qed.

End calls.

(** ** The master's side *)

(** A leader that owns the path and is not in safe mode. *)
Record leads (w : World) (peers : Peers) (p : string) (s : MasterState) : Prop := mk_leads {
  leads_app : w_app w = AMaster s;
  leads_owns : get_shard ring_crc (w_map w) p = Some shard_id;
  leads_open : safe_mode s = false;
  leads_commits : submit_answer peers = RaftOk;
}.

(** What a request leaves: the state and the identifiers, the rest as before. *)
Definition leaves (w : World) (s' : MasterState) (uuids : list string) (w' : World) : Prop :=
  w_app w' = AMaster s' ∧ w_map w' = w_map w ∧ w_clock w' = w_clock w ∧ w_uuids w' = uuids.

Notation mrun peers p := (run (@run_effect ring_crc peers) p).

Lemma run_owned {A} w peers p s (k : Handler (A + Status)) :
  leads w peers p s → mrun peers (do? check_shard_ownership ring_crc shard_id p in k) w = mrun peers k w.
Proof. intros []. rewrite run_try. simpl. rewrite leads_owns0, decide_True by done. by destruct w. Qed.

Lemma run_open {A} w peers p s (k : Handler (A + Status)) :
  leads w peers p s → mrun peers (do? check_safe_mode in k) w = mrun peers k w.
Proof.
  intros []. rewrite run_try. simpl. rewrite leads_app0. simpl. unfold is_in_safe_mode. rewrite leads_open0.
  by destruct w; simplify_eq/=.
Qed.

Lemma leads_monitor w peers p s m : leads w peers p s → leads (w <| w_monitor := m |>) peers p s.
Proof. by intros []. Qed.

(** The guards of the writing requests pass. *)
Lemma run_guards w peers p s :
  leads w peers p s →
  ∃ w1, leads w1 peers p s ∧ leaves w s (w_uuids w) w1 ∧
    ∀ A (k : Handler (A + Status)),
      mrun peers (do* record p in do? check_shard_ownership ring_crc shard_id p in do? check_safe_mode in k) w =
      mrun peers k w1.
Proof.
  intros Hl. exists (w <| w_monitor := record_request p 0 (w_monitor w) |>).
  pose proof (leads_monitor _ _ _ _ (record_request p 0 (w_monitor w)) Hl) as Hl'.
  split; [done|]. split; [split; [apply Hl|done]|]. intros A k.
  rewrite run_bind. cbn [run record perform run_effect fst snd].
  erewrite run_owned by done. by erewrite run_open by done.
Qed.

Lemma run_read_app {B C} peers (f : AppState → B) (k : B → Handler C) w :
  mrun peers (prog_bind (read_app f) k) w = mrun peers (k (f (w_app w))) w.
Proof. rewrite run_bind. simpl. by destruct w. Qed.

(** A submitted command is committed. *)
Lemma run_submit w peers p s c :
  leads w peers p s →
  ∃ w', leaves w (apply_master_command c s) (w_uuids w) w' ∧
    ∀ A (ok : A) refused lost, mrun peers (submit (CMaster c) ok refused lost) w = (inl ok, w').
Proof.
  intros Hl. exists (commit ring_crc (CMaster c) w).
  split; [split; [simpl; by rewrite (leads_app _ _ _ _ Hl)|done]|]. intros A ok refused lost.
  unfold submit. rewrite run_bind. simpl. by rewrite (leads_commits _ _ _ _ Hl).
Qed.

Lemma leaves_trans w s1 u1 w1 s2 u2 w2 : leaves w s1 u1 w1 → leaves w1 s2 u2 w2 → leaves w s2 u2 w2.
Proof. intros (? & ? & ? & ?) (? & ? & ? & ?). split; [done|]. split; [congruence|]. split; [congruence|done]. Qed.

Lemma leads_leaves w peers p s s' uuids w' :
  leads w peers p s → leaves w s' uuids w' → safe_mode s' = safe_mode s → leads w' peers p s'.
Proof. intros [] (? & ? & ? & ?) ?. split; congruence. Qed.

Lemma run_create w peers p d m s :
  leads w peers p s → files s !! p = None →
  ∃ w', mrun peers (serve_file ring_crc shard_id (RqCreateFile p d m)) w = (inl (RpPlain accepted), w') ∧
    leaves w (apply_master_command (CreateFile p d m) s) (w_uuids w) w'.
Proof.
  intros Hl Hf. unfold serve_file, answer. rewrite run_try. unfold create_file.
  destruct (run_guards w peers p s) as (w1 & Hl1 & Hw1 & ->); [done|]. rewrite run_read_app.
  rewrite (leads_app _ _ _ _ Hl1). simpl. rewrite bool_decide_false by (rewrite Hf; by intros []).
  rewrite decide_False by done. unfold submit_plain.
  destruct (run_submit w1 peers p s (CreateFile p d m)) as (w2 & Hw2 & ->); [done|].
  exists w2. split; [done|]. destruct Hw1 as (? & ? & ? & <-). eapply leaves_trans; [|done]. done.
Qed.

Lemma run_allocate w peers p s servers d m bid uuids :
  leads w peers p s → choose_servers p (AMaster s) = inl (servers, d, m) → w_uuids w = bid :: uuids →
  ∃ w', mrun peers (serve_file ring_crc shard_id (RqAllocateBlock p)) w =
      (inl (RpAllocated (mkAllocateBlockResponse (Some (mkBlockInfo bid 0 servers 0 d m 0)) servers "" d m
         (term_answer peers))), w') ∧
    leaves w (apply_master_command (AllocateBlock p bid servers) s) uuids w'.
Proof.
  intros Hl Hc Hu. unfold serve_file, answer. rewrite run_try. unfold MasterService.allocate_block.
  destruct (run_guards w peers p s) as (w1 & Hl1 & (? & ? & ? & Hu1) & ->); [done|]. unfold try at 1.
  rewrite run_read_app, (leads_app _ _ _ _ Hl1), Hc. rewrite run_bind. simpl. rewrite Hu1, Hu. simpl.
  rewrite (leads_commits _ _ _ _ Hl). simpl. eexists. split; [done|]. split; [|done].
  simpl. by rewrite (leads_app _ _ _ _ Hl1).
Qed.

Lemma run_complete w peers p sz etag created sums s :
  leads w peers p s →
  ∃ w', mrun peers (serve_file ring_crc shard_id (RqCompleteFile p sz etag created sums)) w = (inl (RpCompleted true), w') ∧
    leaves w (apply_master_command (CompleteFile p sz (if decide (etag = "") then None else Some etag)
      (if decide (created = 0%N) then None else Some created) sums) s) (w_uuids w) w'.
Proof.
  intros Hl. unfold serve_file, answer. rewrite run_try. unfold MasterService.complete_file. erewrite run_owned by done.
  edestruct (run_submit w peers p s) as (w2 & Hw2 & ->); [done|]. by exists w2.
Qed.

Lemma run_info w peers p s :
  leads w peers p s →
  ∃ w', mrun peers (serve_file ring_crc shard_id (RqGetFileInfo p)) w =
      (inl (RpInfo (files (apply_master_command (UpdateAccessStats p (w_clock w)) s) !! p)), w') ∧
    leaves w (apply_master_command (UpdateAccessStats p (w_clock w)) s) (w_uuids w) w'.
Proof.
  intros Hl. unfold serve_file, answer. rewrite run_try. unfold MasterService.get_file_info.
  rewrite run_bind. cbn [run record perform run_effect fst snd]. rewrite run_bind.
  cbn [run perform run_effect fst snd]. rewrite run_bind. cbn [run perform run_effect fst snd].
  rewrite (leads_commits _ _ _ _ Hl). set (w1 := commit _ _ _).
  assert (leads w1 peers p (apply_master_command (UpdateAccessStats p (w_clock w)) s)) as Hl1.
  { subst w1. destruct Hl. split; simpl; [by rewrite leads_app0|done|done|done]. }
  erewrite run_owned by done. rewrite run_try. unfold ensure_linearizable_read. rewrite run_bind. simpl.
  rewrite (leads_commits _ _ _ _ Hl). simpl. rewrite (leads_app _ _ _ _ Hl). simpl.
  eexists. split; [done|]. by split.
Qed.

(** ** Choosing servers *)

Lemma select_registered (m : gmap string ChunkServerStatus) n :
  ∃ servers, select_servers_rack_aware (entries m) n = servers ∧ NoDup servers ∧
    length servers = min n (size m) ∧ ∀ a, a ∈ servers → is_Some (m !! a).
Proof.
  destruct (select_spread (entries m) n) as (chosen & E & Hnd & Hsub & Hlen & _); [apply NoDup_entries|].
  exists chosen.*1. split; [done|]. split; [done|]. split.
  - rewrite length_fmap, Hlen. by rewrite entries_perm, length_map_to_list.
  - intros a ([a' st] & -> & Ha)%list_elem_of_fmap. apply Hsub, elem_of_entries in Ha. by exists st.
Qed.

Lemma length_entries {A} (m : gmap string A) : length (entries m) = size m.
Proof. by rewrite entries_perm, length_map_to_list. Qed.

(** The servers of a new block: up to three for a replicated file, one for each
    shard of an erasure-coded one. *)
Definition placed (s : MasterState) (n : nat) (servers : list string) : Prop :=
  NoDup servers ∧ length servers = n ∧ ∀ a, a ∈ servers → is_Some (chunk_servers s !! a).

Lemma choose_replicated p s :
  chunk_servers s ≠ ∅ →
  ∃ servers, choose_servers p (AMaster (apply_master_command (CreateFile p 0 0) s)) = inl (servers, 0%Z, 0%Z) ∧
    placed s (min 3 (size (chunk_servers s))) servers ∧ servers ≠ [].
Proof.
  intros Hne. assert (size (chunk_servers s) ≠ 0) as Hsize by (by intros ?%map_size_empty_inv).
  destruct (select_registered (chunk_servers s) (min 3 (size (chunk_servers s)))) as (servers & E & Hnd & Hlen & Hin).
  exists servers. simpl. rewrite lookup_insert_eq. simpl. rewrite length_entries, decide_False by lia. rewrite E.
  split; [done|]. split; [split; [done|split; [lia|done]]|]. intros ->. simpl in Hlen. lia.
Qed.

Lemma choose_ec p d m s :
  (0 < d)%Z → (0 < m)%Z → (d + m < 2 ^ 31)%Z → (d + m ≤ Z.of_nat (size (chunk_servers s)))%Z →
  ∃ servers, choose_servers p (AMaster (apply_master_command (CreateFile p d m) s)) = inl (servers, d, m) ∧
    placed s (Z.to_nat (d + m)) servers ∧ servers ≠ [].
Proof.
  intros Hd Hm Hmax Hle.
  destruct (select_registered (chunk_servers s) (Z.to_nat (d + m))) as (servers & E & Hnd & Hlen & Hin).
  exists servers. simpl. rewrite lookup_insert_eq. simpl. rewrite length_entries.
  rewrite (proj2 (Z.ltb_lt _ _) Hd), (proj2 (Z.ltb_lt _ _) Hm). simpl.
  assert (as_usize (wrap_i32 (d + m)) = d + m)%Z as ->.
  { unfold as_usize, wrap_i32. rewrite (Z.mod_small (d + m + 2 ^ 31)) by lia. rewrite Z.mod_small by lia. lia. }
  rewrite (proj2 (Z.ltb_ge _ _)) by done. rewrite decide_False by lia. rewrite E.
  split; [done|]. split; [split; [done|split; [lia|done]]|]. intros ->. simpl in Hlen. lia.
Qed.

(** ** Writing a file *)

Section write.
  Context (self : Client) (no_aliases : host_aliases self = []) (no_ca : has_ca_cert self = false).
  Context (dest leader : string) (peers : Peers).

(** The client can reach the leader of the shard that owns the path. *)
Definition online (c : Cluster) (s : MasterState) : Prop :=
  reaches c (targets_of self c dest) leader ∧ cl_roles c !! leader = Some peers ∧
  leads (cl_master c) peers dest s.

Lemma online_master c s w' s' uuids :
  online c s → leaves (cl_master c) s' uuids w' → safe_mode s' = safe_mode s → online (c <| cl_master := w' |>) s'.
Proof.
  intros (Hr & Hrole & Hl) Hw' Hs. split; [|split; [done|by eapply leads_leaves]].
  destruct Hr as (pre & post & E & ? & ?). by exists pre, post.
Qed.

Lemma online_chunks c s cs : online c s → online (c <| cl_chunks := cs |>) s.
Proof. intros (Hr & Hrole & Hl). split; [|by split]. destruct Hr as (pre & post & E & ? & ?). by exists pre, post. Qed.

Lemma alloc_masters_head a : ∃ rest, alloc_masters self a = a :: rest.
Proof.
  unfold alloc_masters. assert (∀ l addrs, ∃ rest, foldl (λ m addr, if decide (addr ∈ m) then m else m ++ [addr])
    (a :: l) addrs = a :: rest) as Hf; [|apply Hf].
  intros l addrs. revert l. induction addrs as [|x addrs IH]; intros l; simpl; [by eexists|]. case_decide; apply IH.
Qed.

(** The state after creation and allocation, and the metadata of the file. *)
Definition allocated_state (s : MasterState) (d m : Z) (bid : string) (servers : list string) : MasterState :=
  apply_master_command (AllocateBlock dest bid servers) (apply_master_command (CreateFile dest d m) s).

Lemma create_and_allocate_run c s d m bid uuids servers e1 e2 :
  online c s → files s !! dest = None → w_uuids (cl_master c) = bid :: uuids →
  choose_servers dest (AMaster (apply_master_command (CreateFile dest d m) s)) = inl (servers, d, m) → servers ≠ [] →
  ∃ w', crun (create_and_allocate ring_crc self dest d m e1 e2) c =
      (inl (mkBlockInfo bid 0 servers 0 d m 0,
        mkAllocateBlockResponse (Some (mkBlockInfo bid 0 servers 0 d m 0)) servers "" d m (term_answer peers)),
       c <| cl_master := w' |>) ∧
    online (c <| cl_master := w' |>) (allocated_state s d m bid servers).
Proof.
  intros (Hr & Hrole & Hl) Hf Hu Hc Hne. unfold create_and_allocate. rewrite run_try.
  destruct (run_create (cl_master c) peers dest d m s) as (w1 & Hrun1 & Hw1); [done|done|].
  erewrite (routed_call_reaches self no_aliases no_ca c dest leader peers) by done. simpl.
  rewrite run_try. set (c1 := c <| cl_master := w1 |>).
  assert (online c1 (apply_master_command (CreateFile dest d m) s)) as (Hr1 & _ & Hl1) by (by eapply online_master).
  destruct (run_allocate w1 peers dest _ servers d m bid uuids Hl1 Hc) as (w2 & Hrun2 & Hw2).
  { destruct Hw1 as (_ & _ & _ & ->). done. }
  assert (reaches c1 (alloc_masters self leader) leader) as Hra.
  { destruct (alloc_masters_head leader) as [rest ->]. destruct Hr as (_ & _ & _ & Hne' & _). exists [], rest.
    split; [done|]. split; [done|]. by intros a ?%not_elem_of_nil. }
  erewrite (call_reaches self no_aliases no_ca c1 (alloc_masters self leader) leader peers) by done. simpl.
  destruct servers as [|first next]; [done|]. exists w2. split; [done|].
  eapply (online_master c); [done| |done]. by eapply leaves_trans.
Qed.

Lemma complete_run c s size etag sums error :
  online c s →
  ∃ w' etag' created, crun (complete ring_crc self dest size etag sums error) c = (inl tt, c <| cl_master := w' |>) ∧
    online (c <| cl_master := w' |>) (apply_master_command (CompleteFile dest size etag' created sums) s).
Proof.
  intros Hon. pose proof Hon as (Hr & Hrole & Hl). unfold complete. rewrite run_bind. cbn [run perform cl_step]. rewrite run_try.
  destruct (run_complete (cl_master c) peers dest size etag (w_clock (cl_master c)) sums s Hl) as (w' & Hrun & Hw').
  erewrite (routed_call_reaches self no_aliases no_ca c dest leader peers) by done. simpl.
  eexists w', _, _. split; [done|]. by eapply online_master.
Qed.

(** What the masters know of a file. *)
Definition describes (s : MasterState) (bs : list BlockInfo) (size : N) : Prop :=
  ∃ f, files s !! dest = Some f ∧ blocks f = bs ∧ file_size f = size.

Lemma completed_describes s d m bid servers size etag created crc :
  describes (apply_master_command (CompleteFile dest size etag created [mkBlockChecksumInfo bid crc size])
    (allocated_state s d m bid servers)) [mkBlockInfo bid size servers crc d m size] size.
Proof.
  unfold describes, allocated_state. simpl. rewrite lookup_alter_eq, lookup_alter_eq, lookup_insert_eq. simpl.
  eexists. split; [done|]. unfold AppState.complete_file, AppState.allocate_block. simpl.
  destruct etag, created; simpl; by rewrite decide_True.
Qed.

Lemma create_file_run buffer c s bid uuids :
  online c s → files s !! dest = None → w_uuids (cl_master c) = bid :: uuids → chunk_servers s ≠ ∅ →
  (∀ a, is_Some (chunk_servers s !! a) → accepts (cl_chunks c) bid (term_answer peers) a) →
  ∃ c1 s1 servers, crun (create_file_from_buffer ring_crc crc32 md5_hex self buffer dest) c = (inl tt, c1) ∧
    online c1 s1 ∧ placed s (min 3 (size (chunk_servers s))) servers ∧ servers ≠ [] ∧
    describes s1 [mkBlockInfo bid (N.of_nat (length buffer)) servers (crc32 buffer) 0 0 (N.of_nat (length buffer))]
      (N.of_nat (length buffer)) ∧
    ∀ a, a ∈ servers → stored (cl_chunks c1) bid buffer a.
Proof.
  intros Hon Hf Hu Hne Hacc. destruct (choose_replicated dest s Hne) as (servers & Hc & Hpl & Hnil).
  destruct (create_and_allocate_run c s 0 0 bid uuids servers "Failed to create file: " "No chunk servers available"
    Hon Hf Hu Hc Hnil) as (w1 & Hrun1 & Hon1).
  unfold create_file_from_buffer. rewrite run_try, Hrun1. simpl. destruct servers as [|first next]; [done|].
  destruct Hpl as (Hnd & Hlen & Hin). unfold write_replicated. rewrite run_bind. simpl.
  rewrite chunk_url_plain by done.
  destruct (pipeline_stores first next bid buffer (term_answer peers) (cl_chunks c)) as (n & cs' & -> & Hst); [done|by auto|].
  simpl. set (c1 := c <| cl_master := w1 |> <| cl_chunks := cs' |>).
  destruct (complete_run c1 (allocated_state s 0 0 bid (first :: next)) (N.of_nat (length buffer)) (md5_hex buffer)
    [mkBlockChecksumInfo bid (crc32 buffer) (N.of_nat (length buffer))] "Failed to complete file")
    as (w2 & etag' & created & Hrun2 & Hon2); [by apply online_chunks|].
  eexists _, _, (first :: next). split; [exact Hrun2|]. split; [exact Hon2|]. split; [by split|]. split; [done|].
  split; [apply completed_describes|]. exact Hst.
Qed.

(** Every shard goes to its own server. *)
Lemma write_shards_run bid term i shards servers c :
  NoDup servers → length shards = length servers → (∀ a, a ∈ servers → accepts (cl_chunks c) bid term a) →
  ∃ cs', crun (write_shards crc32 self bid term i (zip shards servers)) c = (inl tt, c <| cl_chunks := cs' |>) ∧
    (∀ j a s, servers !! j = Some a → shards !! j = Some s → stored cs' bid s a) ∧
    ∀ u, u ∉ server_url <$> servers → cs' !! u = cl_chunks c !! u.
Proof.
  revert i shards c. induction servers as [|a servers IH]; intros i [|s shards] c Hnd Hlen Hacc; simplify_eq/=.
  { exists (cl_chunks c). split; [by destruct c|]. done. }
  apply NoDup_cons in Hnd as [Ha Hnd]. rewrite chunk_url_plain by done.
  destruct (pipeline_stores a [] bid s term (cl_chunks c)) as (n & cs1 & Hp & Hst).
  { by apply NoDup_singleton. } { intros b ->%list_elem_of_singleton. apply Hacc. by left. }
  rewrite Hp. assert (∀ u, u ≠ server_url a → cs1 !! u = cl_chunks c !! u) as Hout1.
  { intros u Hu. unfold write_pipeline in Hp. destruct (Hacc a) as (sa & Hsa & Hfa & Hca); [by left|].
    rewrite Hsa in Hp. destruct (write_accepted bid s term sa Hfa Hca) as (s' & Hw & _). rewrite Hw in Hp.
    injection Hp as _ <-. by rewrite lookup_insert_ne. }
  destruct (IH (S i) shards (c <| cl_chunks := cs1 |>)) as (cs' & Hrun & Hst' & Hout); [done|done| |].
  { intros b Hb. destruct (Hacc b) as (sb & Hsb & ? & ?); [by right|]. exists sb. split; [|done]. simpl.
    rewrite Hout1; [done|]. intros [=]%(inj server_url). by subst. }
  exists cs'. split; [exact Hrun|]. split.
  - intros [|j] b sh Hb Hsh; [|by eapply Hst']. simplify_eq/=. destruct (Hst b) as (sb & Hsb & Hh); [by left|].
    exists sb. split; [|done]. rewrite Hout; [done|].
    intros (b' & [=]%(inj server_url) & Hb')%list_elem_of_fmap. by subst.
  - intros u [Hne Hu]%not_elem_of_cons. rewrite Hout by done. simpl. by apply Hout1.
Qed.

Lemma usize_small z : (0 ≤ z < 2 ^ 31)%Z → usize_of z = Z.to_nat z.
Proof. intros. unfold usize_of, as_usize. by rewrite Z.mod_small by lia. Qed.

Lemma create_file_ec_run buffer shards d m c s bid uuids :
  online c s → files s !! dest = None → w_uuids (cl_master c) = bid :: uuids →
  (0 < d)%Z → (0 < m)%Z → (d + m < 2 ^ 31)%Z → (d + m ≤ Z.of_nat (size (chunk_servers s)))%Z →
  encode buffer (Z.to_nat d) (Z.to_nat m) = Ok shards →
  (∀ a, is_Some (chunk_servers s !! a) → accepts (cl_chunks c) bid (term_answer peers) a) →
  ∃ c1 s1 servers, crun (create_file_from_buffer_ec ring_crc crc32 self buffer dest d m) c = (inl tt, c1) ∧
    online c1 s1 ∧ placed s (Z.to_nat (d + m)) servers ∧
    describes s1 [mkBlockInfo bid (N.of_nat (length buffer)) servers (crc32 buffer) d m (N.of_nat (length buffer))]
      (N.of_nat (length buffer)) ∧
    ∀ i a sh, servers !! i = Some a → shards !! i = Some sh → stored (cl_chunks c1) bid sh a.
Proof.
  intros Hon Hf Hu Hd Hm Hmax Hle Henc Hacc. destruct (data_shards_join _ _ _ _ Henc) as [_ Hshards].
  destruct (choose_ec dest d m s Hd Hm Hmax Hle) as (servers & Hc & Hpl & Hnil).
  destruct (create_and_allocate_run c s d m bid uuids servers "Failed to create EC file: "
    "No chunk servers available for EC write" Hon Hf Hu Hc Hnil) as (w1 & Hrun1 & Hon1).
  unfold create_file_from_buffer_ec. rewrite run_try, Hrun1. cbn [resp_ec_data_shards resp_ec_parity_shards].
  rewrite !usize_small by lia.
  rewrite (proj2 (Nat.eqb_neq (Z.to_nat d) 0)), (proj2 (Nat.eqb_neq (Z.to_nat m) 0)) by lia. cbn [orb].
  unfold write_ec. cbn [chunk_server_addresses]. destruct Hpl as (Hnd & Hlen & Hin).
  rewrite (proj2 (Nat.eqb_eq _ _)) by lia. cbn [negb]. rewrite Henc, run_try. cbn [block_id master_term].
  destruct (write_shards_run bid (term_answer peers) 0 shards servers (c <| cl_master := w1 |>))
    as (cs' & -> & Hst & _); [done|lia|by auto|].
  destruct (complete_run (c <| cl_master := w1 |> <| cl_chunks := cs' |>) (allocated_state s d m bid servers)
    (N.of_nat (length buffer)) "" [mkBlockChecksumInfo bid (crc32 buffer) (N.of_nat (length buffer))]
    "Failed to complete EC file") as (w2 & etag' & created & Hrun2 & Hon2); [by apply online_chunks|].
  eexists _, _, servers. split; [exact Hrun2|]. split; [exact Hon2|]. split; [by split|].
  split; [apply completed_describes|]. exact Hst.
Qed.

(** ** Reading it back *)

Section read.
  Context (servers : list string) (bid : string) (datas : list bytes) (up : list bool) (bs : list BlockInfo) (size : N).

(** Each server of the block has its part of it, or is lost; the ones in [up]
    are not. *)
Record intact (c : Cluster) : Prop := mk_intact {
  intact_online : ∃ s, online c s ∧ describes s bs size;
  intact_parts i a d : servers !! i = Some a → datas !! i = Some d →
    cl_chunks c !! server_url a = None ∨ stored (cl_chunks c) bid d a;
  intact_up i a d : servers !! i = Some a → datas !! i = Some d → up !! i = Some true → stored (cl_chunks c) bid d a;
}.

Definition answers_as (B : Type) (e : ClientEffect B) (c : Cluster) (b : B) (c' : Cluster) : Prop :=
  (b, c') = cl_step B e c.
Notation ex := (exec answers_as eq).

Lemma intact_read addr bid' offset len c r c' :
  intact c → answers_as _ (ReadBlock addr bid' offset len) c r c' → intact c'.
Proof.
  intros [(s & Hon & Hd) Hparts Hup] Hr. unfold answers_as in Hr. simpl in Hr.
  destruct (cl_chunks c !! addr) as [cs|] eqn:Hcs; [|injection Hr as _ ->; split; eauto].
  pose proof (λ b d, read_keeps_holds crc32 b d cs bid' (N.to_nat offset) (N.to_nat len) []) as Hkeep.
  destruct (read_block _ _ _ _ _ _ _) as [resp cs'] eqn:Hread. simpl in Hkeep. injection Hr as _ ->.
  assert (∀ b d a, stored (cl_chunks c) b d a → stored (<[addr := cs']> (cl_chunks c)) b d a) as Hstored.
  { intros b d a (sa & Hsa & Hh). destruct (decide (addr = server_url a)) as [->|Hne].
    - exists cs'. rewrite lookup_insert_eq. split; [done|]. rewrite Hcs in Hsa. injection Hsa as <-. by apply Hkeep.
    - exists sa. by rewrite lookup_insert_ne. }
  split.
  - exists s. split; [by apply online_chunks|done].
  - intros i a d Ha Hda. destruct (Hparts i a d Ha Hda) as [Hnone|]; [|by right; apply Hstored]. left. simpl.
    rewrite lookup_insert_ne; [done|]. intros ->. congruence.
  - intros i a d Ha Hda Hi. simpl. eauto.
Qed.

Lemma intact_choose c b c' : intact c → answers_as _ Choose c b c' → intact c'.
Proof. intros Hc Hr. by injection Hr as _ ->. Qed.

Notation agrees := (agrees self answers_as intact).
Notation answers := (answers self answers_as intact).

(** What a server that holds its part of the block answers. *)
Lemma stored_answers c a d r c' offset len :
  stored (cl_chunks c) bid d a → (offset < N.of_nat (length d))%N →
  answers_as _ (ReadBlock (chunk_url self a) bid offset len) c r c' →
  ∃ n t, r = Some (ReadOk (if (len =? 0)%N then drop (N.to_nat offset) d
                           else take (N.to_nat len) (drop (N.to_nat offset) d)) n t).
Proof.
  intros (s & Hs & Hh) Hoff Hr. unfold answers_as in Hr. rewrite chunk_url_plain in Hr by done. simpl in Hr.
  rewrite Hs in Hr. pose proof (holds_read_range crc32 bid d s (N.to_nat offset) (N.to_nat len) false [] Hh) as Hread.
  destruct (read_block _ _ _ _ _ _ _) as [resp s']. injection Hr as -> _. simpl in Hread. rewrite Hread by lia.
  eexists _, _. f_equal. destruct (len =? 0)%N eqn:Hl.
  - apply N.eqb_eq in Hl as ->. done.
  - apply N.eqb_neq in Hl. by rewrite (proj2 (Nat.eqb_neq _ _)) by lia.
Qed.

Lemma part_agrees i a d offset len :
  servers !! i = Some a → datas !! i = Some d → (offset < N.of_nat (length d))%N →
  agrees a bid offset len (if (len =? 0)%N then drop (N.to_nat offset) d
                           else take (N.to_nat len) (drop (N.to_nat offset) d)).
Proof.
  intros Ha Hd Hoff c x n t c' Hc Hr. destruct (intact_parts c Hc i a d Ha Hd) as [Hnone|Hst].
  - unfold answers_as in Hr. rewrite chunk_url_plain in Hr by done. simpl in Hr. by rewrite Hnone in Hr.
  - destruct (stored_answers c a d _ c' offset len Hst Hoff Hr) as (n' & t' & [=]). done.
Qed.

Lemma part_answers i a d offset len :
  servers !! i = Some a → datas !! i = Some d → up !! i = Some true → (offset < N.of_nat (length d))%N →
  answers a bid offset len (if (len =? 0)%N then drop (N.to_nat offset) d
                            else take (N.to_nat len) (drop (N.to_nat offset) d)).
Proof.
  intros Ha Hd Hu Hoff c r c' Hc Hr. eapply stored_answers; [|done|done]. by eapply intact_up.
Qed.

(** The masters tell the blocks and the size. *)
Lemma intact_told : told self answers_as eq intact ring_crc dest bs size.
Proof.
  intros c r c' Hc Hex. apply (exec_run cl_step) in Hex; [|done|done].
  destruct Hc as [(s & Hon & f & Hf & Hb & Hsz) Hparts Hup]. pose proof Hon as (Hr & Hrole & Hl).
  revert Hex. unfold Client.get_file_info. rewrite run_try.
  destruct (run_info (cl_master c) peers dest s Hl) as (w' & Hrun & Hw').
  erewrite (routed_call_reaches self no_aliases no_ca c dest leader peers) by done. intros [= -> ->].
  simpl. rewrite lookup_alter_eq, Hf. eexists. split; [done|]. split; [done|]. split; [done|]. split; [|done|done].
  exists (apply_master_command (UpdateAccessStats dest (w_clock (cl_master c))) s).
  split; [eapply online_master; [done|exact Hw'|done]|]. unfold describes. simpl. rewrite lookup_alter_eq, Hf.
  eexists. by split_and!.
Qed.

End read.
(** Chunk servers may be lost; the rest is as it was. *)
Definition survives (c c' : Cluster) : Prop :=
  cl_master c' = cl_master c ∧ cl_roles c' = cl_roles c ∧ cl_map c' = cl_map c ∧ cl_chunks c' ⊆ cl_chunks c.

Definition alive (c : Cluster) (a : string) : Prop := is_Some (cl_chunks c !! server_url a).
#[export] Instance alive_dec c a : Decision (alive c a).
Proof. unfold alive. apply _. Defined.

Lemma survives_online c c' s : survives c c' → online c s → online c' s.
Proof.
  intros (Hm & Hr & Hmap & _) ((pre & post & E & Hne & Hpre) & Hrole & Hl).
  split; [|split; [by rewrite Hr|by rewrite Hm]]. exists pre, post. unfold targets_of. rewrite Hmap, Hr. done.
Qed.

Lemma survives_stored c c' bid d a :
  survives c c' → stored (cl_chunks c) bid d a → cl_chunks c' !! server_url a = None ∨ stored (cl_chunks c') bid d a.
Proof.
  intros (_ & _ & _ & Hsub) (s & Hs & Hh). destruct (cl_chunks c' !! server_url a) as [s'|] eqn:Hs'; [|by left].
  right. exists s'. split; [done|]. pose proof (lookup_weaken _ _ _ _ Hs' Hsub) as Hs''. rewrite Hs in Hs''.
  by injection Hs'' as ->.
Qed.

(** After a loss of servers the file is still intact, as far as they are alive. *)
Lemma survives_intact c c' s servers bid datas bs size :
  survives c c' → online c s → describes s bs size →
  (∀ i a d, servers !! i = Some a → datas !! i = Some d → stored (cl_chunks c) bid d a) →
  intact servers bid datas ((λ a, bool_decide (alive c' a)) <$> servers) bs size c'.
Proof.
  intros Hsv Hon Hd Hst. split.
  - exists s. split; [by eapply survives_online|done].
  - intros i a d Ha Hda. eapply survives_stored; eauto.
  - intros i a d Ha Hda Hu. rewrite list_lookup_fmap, Ha in Hu. injection Hu as [[s' Hs']]%bool_decide_eq_true.
    destruct (survives_stored c c' bid d a Hsv (Hst _ _ _ Ha Hda)) as [Hn|]; [|done]. congruence.
Qed.

Lemma run_of_exec {A} (p : Prog ClientEffect A) c r : 
  (∀ r' c', exec answers_as eq p c r' c' → r' = r) → (crun p c).1 = r.
Proof.
  intros Hall. eapply Hall. apply run_exec; [done|]. intros B e w. unfold answers_as. by destruct (cl_step B e w).
Qed.

(** A replicated block is read whole and in parts. *)
Lemma replicated_readable servers bid buffer crc bs size c' :
  buffer ≠ [] → servers ≠ [] → (∃ a, a ∈ servers ∧ alive c' a) →
  let b := mkBlockInfo bid (N.of_nat (length buffer)) servers crc 0 0 (N.of_nat (length buffer)) in
  let inv := intact servers bid (replicate (length servers) buffer) ((λ a, bool_decide (alive c' a)) <$> servers) bs size in
  readable self answers_as eq inv b buffer ∧
  ∀ w r w', inv w → exec answers_as eq (fetch_single_block self b) w r w' → r = inl buffer ∧ inv w'.
Proof.
  intros Hne Hnil (a & Ha & Halive) b inv. apply list_elem_of_lookup in Ha as [i Ha].
  assert (length buffer ≠ 0) by (by destruct buffer).
  assert (∀ j x, servers !! j = Some x → replicate (length servers) buffer !! j = Some buffer) as Hrep.
  { intros j x Hj. apply lookup_replicate_2. by eapply lookup_lt_Some. }
  assert (((λ a, bool_decide (alive c' a)) <$> servers) !! i = Some true) as Hup.
  { rewrite list_lookup_fmap, Ha. simpl. f_equal. by apply bool_decide_eq_true. }
  assert (∀ offset len, (offset < N.of_nat (length buffer))%N →
    let wanted := if (len =? 0)%N then drop (N.to_nat offset) buffer
                  else take (N.to_nat len) (drop (N.to_nat offset) buffer) in
    (∀ l, l ∈ servers → agrees self answers_as inv l bid offset len wanted) ∧
    ∃ l, l ∈ servers ∧ answers self answers_as inv l bid offset len wanted) as Hserve.
  { intros offset len Hoff. split.
    - intros l [j Hj]%list_elem_of_lookup. eapply part_agrees; eauto.
    - exists a. split; [by eapply list_elem_of_lookup_2|]. eapply part_answers; eauto. }
  split.
  - split; [done|]. split; [done|]. simpl. intros offset len Hoff Hlen.
    destruct (Hserve offset len Hoff) as [H1 H2]. rewrite (proj2 (N.eqb_neq _ _)) in H1, H2 by lia. done.
  - intros w r w' Hw Hex. unfold fetch_single_block, read_whole in Hex. simpl in Hex.
    destruct servers as [|s0 servers']; [done|]. destruct (Hserve 0%N 0%N) as [H1 H2]; [lia|].
    eapply (ex_block_range self answers_as eq inv); [by intros ? ? ? <-|apply intact_read|apply intact_choose|done|exact H1|exact H2|exact Hex].
Qed.

(** C8. A replicated file that is not empty, at a new path, through the whole
    system: a client that can reach the leader creates it undisturbed, on as many
    as three distinct registered chunk servers, when all registered servers are up
    and accept its block; afterwards, whichever chunk servers are lost, as long as
    one of them is left, the client reads back the file byte for byte, and any
    range of it. *)
Theorem replicated_file_survives buffer c s bid uuids :
  buffer ≠ [] → (N.of_nat (length buffer) < u64_mod)%N →
  online c s → files s !! dest = None → w_uuids (cl_master c) = bid :: uuids → chunk_servers s ≠ ∅ →
  (∀ a, is_Some (chunk_servers s !! a) → accepts (cl_chunks c) bid (term_answer peers) a) →
  ∃ c1 servers,
    run cl_step (create_file_from_buffer ring_crc crc32 md5_hex self buffer dest) c = (inl tt, c1) ∧
    placed s (min 3 (size (chunk_servers s))) servers ∧
    ∀ c2, survives c1 c2 → (∃ a, a ∈ servers ∧ alive c2 a) →
      (run cl_step (get_file_content ring_crc self dest) c2).1 = inl buffer ∧
      ∀ offset len, (offset < N.of_nat (length buffer))%N → (0 < len)%N →
        (run cl_step (read_file_range ring_crc self dest offset len) c2).1 =
        inl (take (N.to_nat len) (drop (N.to_nat offset) buffer)).
Proof.
  intros Hne Hmax Hon Hf Hu Hcs Hacc.
  destruct (create_file_run buffer c s bid uuids Hon Hf Hu Hcs Hacc) as (c1 & s1 & servers & Hrun & Hon1 & Hpl & Hnil & Hd & Hst).
  exists c1, servers. split; [done|]. split; [done|]. intros c2 Hsv Hal.
  set (b := mkBlockInfo _ _ _ _ _ _ _) in Hd.
  destruct (replicated_readable servers bid buffer (crc32 buffer) [b] (N.of_nat (length buffer)) c2 Hne Hnil Hal)
    as [Hread Hfetch].
  assert (mjoin [buffer] = buffer) as Hjoin by (simpl; apply app_nil_r).
  eassert (Hinv : intact servers bid (replicate (length servers) buffer)
    ((λ a, bool_decide (alive c2 a)) <$> servers) [b] (N.of_nat (length buffer)) c2).
  { eapply (survives_intact c1 c2 s1); [done|done|exact Hd|]. intros i a d Ha [-> _]%lookup_replicate_1.
    apply Hst. by eapply list_elem_of_lookup_2. }
  split.
  - apply run_of_exec. intros r' c' Hex. rewrite <- Hjoin.
    eapply (ex_file_content self answers_as eq) in Hex; [exact Hex|exact Hinv|apply intact_told|].
    constructor; [exact Hfetch|constructor].
  - intros offset len Hoff Hlen. apply run_of_exec. intros r' c' Hex. rewrite <- Hjoin.
    eapply (ex_file_range self answers_as eq) in Hex; [exact Hex|..].
    + by intros ? ? ? <-.
    + apply intact_read.
    + apply intact_choose.
    + exact Hinv.
    + apply intact_told.
    + constructor; [exact Hread|constructor].
    + by rewrite Hjoin.
    + done.
    + done.
    + done.
Qed.

Lemma count_up c' (servers : list string) :
  length (filter (.= true) ((λ a, bool_decide (alive c' a)) <$> servers)) = length (filter (alive c') servers).
Proof.
  induction servers as [|a servers IH]; [done|]. rewrite fmap_cons, !filter_cons.
  destruct (decide (alive c' a)) as [Ha|Ha].
  - rewrite decide_True by (by apply bool_decide_eq_true). simpl. by rewrite IH.
  - by rewrite decide_False by (by rewrite bool_decide_false by done).
Qed.

(** An erasure-coded block is read while enough of its servers are alive. *)
Lemma coded_readable servers bid buffer shards d m crc bs size c' :
  (0 < d)%Z → (0 < m)%Z → (d + m < 2 ^ 31)%Z → encode buffer (Z.to_nat d) (Z.to_nat m) = Ok shards →
  length servers = Z.to_nat (d + m) → Z.to_nat d ≤ length (filter (alive c') servers) →
  let b := mkBlockInfo bid (N.of_nat (length buffer)) servers crc d m (N.of_nat (length buffer)) in
  let inv := intact servers bid shards ((λ a, bool_decide (alive c' a)) <$> servers) bs size in
  ∀ w r w', inv w → exec answers_as eq (read_ec_block self b) w r w' → r = inl buffer ∧ inv w'.
Proof.
  intros Hd Hm Hmax Henc Hlen Hal b inv w r w' Hw. destruct (data_shards_join _ _ _ _ Henc) as [_ Hshards].
  assert (∀ i s, shards !! i = Some s → (0 < N.of_nat (length s))%N) as Hpos.
  { intros i s Hs%list_elem_of_lookup_2. pose proof (shards_nonempty _ _ _ _ _ Henc Hs). destruct s; [done|simpl; lia]. }
  apply (ex_ec_block self answers_as eq inv ltac:(by intros ? ? ? <-)
    (intact_read _ _ _ _ _ _) b buffer shards ((λ a, bool_decide (alive c' a)) <$> servers)); [done|..].
  - subst b. simpl. rewrite !usize_small by lia. exact Henc.
  - done.
  - subst b. simpl. lia.
  - rewrite length_fmap. lia.
  - intros i l s Hl Hs. apply (part_agrees servers bid shards _ bs size i l s 0 0); [done|done|by eapply Hpos].
  - intros i l s Hl Hs Hu. apply (part_answers servers bid shards _ bs size i l s 0 0); [done|done|done|by eapply Hpos].
  - subst b. simpl. rewrite usize_small by lia. by rewrite count_up.
Qed.

(** C9. An erasure-coded file at a new path through the whole system: when its
    shards can be computed and as many chunk servers are registered, all up and
    accepting its block, the shards are put on as many distinct chunk servers, and
    it is read back byte for byte, whole or in part, while as many of them are left
    as it has data shards. *)
Theorem coded_file_survives buffer shards d m c s bid uuids :
  (N.of_nat (length buffer) < u64_mod)%N →
  online c s → files s !! dest = None → w_uuids (cl_master c) = bid :: uuids →
  (0 < d)%Z → (0 < m)%Z → (d + m < 2 ^ 31)%Z → (d + m ≤ Z.of_nat (size (chunk_servers s)))%Z →
  encode buffer (Z.to_nat d) (Z.to_nat m) = Ok shards →
  (∀ a, is_Some (chunk_servers s !! a) → accepts (cl_chunks c) bid (term_answer peers) a) →
  ∃ c1 servers,
    run cl_step (create_file_from_buffer_ec ring_crc crc32 self buffer dest d m) c = (inl tt, c1) ∧
    placed s (Z.to_nat (d + m)) servers ∧
    ∀ c2, survives c1 c2 → Z.to_nat d ≤ length (filter (alive c2) servers) →
      (run cl_step (get_file_content ring_crc self dest) c2).1 = inl buffer ∧
      ∀ offset len, (offset < N.of_nat (length buffer))%N → (0 < len)%N →
        (run cl_step (read_file_range ring_crc self dest offset len) c2).1 =
        inl (take (N.to_nat len) (drop (N.to_nat offset) buffer)).
Proof.
  intros Hmax Hon Hf Hu Hd Hm Hdm Hle Henc Hacc.
  destruct (create_file_ec_run buffer shards d m c s bid uuids Hon Hf Hu Hd Hm Hdm Hle Henc Hacc)
    as (c1 & s1 & servers & Hrun & Hon1 & Hpl & Hdesc & Hst).
  exists c1, servers. split; [done|]. split; [done|]. intros c2 Hsv Hal. set (b := mkBlockInfo _ _ _ _ _ _ _) in Hdesc.
  pose proof Hpl as (_ & Hlen & _).
  pose proof (coded_readable servers bid buffer shards d m (crc32 buffer) [b] (N.of_nat (length buffer)) c2
    Hd Hm Hdm Henc Hlen Hal) as Hread.
  assert (mjoin [buffer] = buffer) as Hjoin by (simpl; apply app_nil_r).
  assert (buffer ≠ []) as Hne.
  { intros ->. unfold encode in Henc. by destruct (_ || _). }
  assert (0 <? block_ec_data_shards b = true)%Z as Hec by (by apply Z.ltb_lt).
  assert (intact servers bid shards ((λ a, bool_decide (alive c2 a)) <$> servers) [b] (N.of_nat (length buffer)) c2) as Hinv.
  { by eapply (survives_intact c1 c2 s1). }
  split.
  - apply run_of_exec. intros r' c' Hex. rewrite <- Hjoin.
    eapply (ex_file_content self answers_as eq) in Hex; [exact Hex|exact Hinv|apply intact_told|].
    constructor; [|constructor]. intros w r w' Hw. unfold fetch_single_block, read_whole. rewrite Hec. simpl.
    destruct servers; [simpl in Hlen; lia|]. by apply Hread.
  - intros offset len Hoff Hpos. apply run_of_exec. intros r' c' Hex. rewrite <- Hjoin.
    eapply (ex_file_range self answers_as eq) in Hex; [exact Hex|..].
    + by intros ? ? ? <-.
    + apply intact_read.
    + apply intact_choose.
    + exact Hinv.
    + apply intact_told.
    + constructor; [|constructor]. split; [done|]. split; [done|]. rewrite Hec. exact Hread.
    + by rewrite Hjoin.
    + done.
    + done.
    + done.
Qed.

End write.

End cluster.

(** ** An example: three chunk servers *)

Module ClusterDemo.

Definition ring_crc (s : string) : N := 0.
Definition md5_hex (d : bytes) : string := "".
Definition status (rack : string) : ChunkServerStatus := mkChunkServerStatus 0 0 100 0 rack.
Definition master : MasterState :=
  master_default <| chunk_servers := {["a:1" := status "r1"; "b:1" := status "r1"; "c:1" := status "r2"]} |>.
Definition leader : Peers := mkPeers (λ _ _, None) RaftOk Unanswered Unanswered 3.
Definition client : Client := mkClient ["http://gone:1"; "http://m:1"] [] [] 5 false None.
Definition cluster : Cluster :=
  mkCluster
    (mkWorld (AMaster master) (add_shard ring_crc new_range "shard-0" ["http://m:1"])
      (monitor_new (f64_of_N 100) (f64_of_N 1) 60 100) 5000 ["b1"; "b2"] [])
    {["http://m:1" := leader]}
    {["http://a:1" := empty_server; "http://b:1" := empty_server; "http://c:1" := empty_server]}
    (new_consistent_hash 0).

Definition crc_bound (d : bytes) : (demo_crc d < 4294967296)%N :=
  N.mod_lt (N.of_nat (length d)) 4294967296 ltac:(discriminate).

Lemma online_demo : online ring_crc "shard-0" client "/f" "http://m:1" leader cluster master.
Proof.
  split; [|split; [reflexivity|split; reflexivity]]. exists ["http://gone:1"], []. split; [reflexivity|].
  split; [discriminate|]. intros a ->%list_elem_of_singleton. reflexivity.
Qed.

Lemma accepts_demo a :
  is_Some (chunk_servers master !! a) → accepts (cl_chunks cluster) "b1" 3 a.
Proof.
  intros [st Hst]. unfold master in Hst. simpl in Hst.
  assert (a = "a:1" ∨ a = "b:1" ∨ a = "c:1") as [->|[->| ->]].
  { destruct (decide (a = "a:1")); [by left|]. rewrite lookup_insert_ne in Hst by done.
    destruct (decide (a = "b:1")); [by right; left|]. rewrite lookup_insert_ne in Hst by done.
    apply lookup_singleton_Some in Hst as [<- _]. by right; right. }
  all: exists empty_server; split; [reflexivity|]; split; [by eexists|reflexivity].
Qed.

End ClusterDemo.

Lemma replicated_file_survives_witness :
  ∃ c1 servers,
    run (cl_step (HO := map_order) ClusterDemo.ring_crc demo_crc "shard-0")
      (create_file_from_buffer (RS := mirror) ClusterDemo.ring_crc demo_crc ClusterDemo.md5_hex ClusterDemo.client
        [x41; x42] "/f") ClusterDemo.cluster = (inl tt, c1) ∧
    placed ClusterDemo.master 3 servers ∧
    ∀ c2, survives c1 c2 → (∃ a, a ∈ servers ∧ alive c2 a) →
      (run (cl_step (HO := map_order) ClusterDemo.ring_crc demo_crc "shard-0")
        (get_file_content (RS := mirror) ClusterDemo.ring_crc ClusterDemo.client "/f") c2).1 = inl [x41; x42].
Proof.
  destruct (@replicated_file_survives map_order mirror ClusterDemo.ring_crc demo_crc ClusterDemo.md5_hex
    ClusterDemo.crc_bound "shard-0" ClusterDemo.client eq_refl eq_refl "/f" "http://m:1" ClusterDemo.leader
    [x41; x42] ClusterDemo.cluster ClusterDemo.master "b1" ["b2"]) as (c1 & servers & Hrun & Hpl & Hread).
  - discriminate.
  - reflexivity.
  - apply ClusterDemo.online_demo.
  - reflexivity.
  - reflexivity.
  - discriminate.
  - apply ClusterDemo.accepts_demo.
  - exists c1, servers. split; [exact Hrun|]. split; [exact Hpl|]. intros c2 Hsv Hal. apply (Hread c2 Hsv Hal).
Defined.

Lemma coded_file_survives_witness :
  ∃ c1 servers,
    run (cl_step (HO := map_order) ClusterDemo.ring_crc demo_crc "shard-0")
      (create_file_from_buffer_ec (RS := mirror) ClusterDemo.ring_crc demo_crc ClusterDemo.client
        [x41; x42] "/f" 1 2) ClusterDemo.cluster = (inl tt, c1) ∧
    placed ClusterDemo.master 3 servers ∧
    ∀ c2, survives c1 c2 → 1 ≤ length (filter (alive c2) servers) →
      (run (cl_step (HO := map_order) ClusterDemo.ring_crc demo_crc "shard-0")
        (get_file_content (RS := mirror) ClusterDemo.ring_crc ClusterDemo.client "/f") c2).1 = inl [x41; x42].
Proof.
  destruct (@coded_file_survives map_order mirror ClusterDemo.ring_crc demo_crc
    ClusterDemo.crc_bound "shard-0" ClusterDemo.client eq_refl eq_refl "/f" "http://m:1" ClusterDemo.leader
    [x41; x42] [[x41; x42]; [x41; x42]; [x41; x42]] 1 2 ClusterDemo.cluster ClusterDemo.master "b1" ["b2"])
    as (c1 & servers & Hrun & Hpl & Hread).
  - reflexivity.
  - apply ClusterDemo.online_demo.
  - reflexivity.
  - reflexivity.
  - reflexivity.
  - reflexivity.
  - reflexivity.
  - vm_compute. discriminate.
  - reflexivity.
  - apply ClusterDemo.accepts_demo.
  - exists c1, servers. split; [exact Hrun|]. split; [exact Hpl|]. intros c2 Hsv Hal. apply (Hread c2 Hsv Hal).
Defined.
