(* ===== verification/ConfigService.v ===== *)
(** * The configuration server

    dfs/metaserver/src/config_server.rs: the RPCs that read and change the shard
    map and register masters. Each change is a command of the configuration
    group ([AppState.apply_config_command]); a split allocates the peers of the
    new shard. The last part composes the server with the shard-map refresh of
    the masters and of the client. *)

From S2P Require Import Prelude BTree Text Sharding MasterState AppState ClusterConfig RaftNode Monitor Program MasterService MasterTasks Client.

Section service.
  Context `{HashOrder} (crc : string → N).

(** ** RPCs *)

(** [src/dfs/metaserver/src/config_server.rs:23-37 ensure_linearizable_read] *)
Definition ensure_linearizable_read : Handler (unit + Status) :=
  let* r := perform ReadIndex in
  match r with
  | RaftOk => reply tt
  | RaftNotLeader hint => fail (FailedPrecondition ("Not Leader|" +:+ default "" hint))
  | RaftClosed => fail (Internal "Failed to send to Raft node: channel closed")
  | RaftLost => fail (Internal "Raft response error")
  end.

(** The peers of every shard that has an entry.
    [src/dfs/metaserver/src/config_server.rs:50-55 fetch_shard_map] *)
Definition shards_with_peers (m : ShardMap) : gmap string (list string) :=
  foldl (λ acc sid, match get_shard_peers m sid with Some peers => <[sid := peers]> acc | None => acc end)
    ∅ (get_all_shards m).

(** [src/dfs/metaserver/src/config_server.rs:42-60 fetch_shard_map] *)
Definition fetch_shard_map : Handler (gmap string (list string) + Status) :=
  do? ensure_linearizable_read in
  read_app (λ a,
    match a with
    | AConfig c => inl (shards_with_peers (shard_map c))
    | AMaster _ => inr (Internal "Wrong state type")
    end).

(** The ending all changes share: the answer of Raft as a response.
    [src/dfs/metaserver/src/config_server.rs:69-95 add_shard] *)
Definition change {A} (c : ConfigCommand) (ok : A) (refused : option string → A) : Handler (A + Status) :=
  submit (CConfig c) ok refused "Raft response error".

(** [src/dfs/metaserver/src/config_server.rs:62-96 add_shard] *)
Definition add_shard (shard_id : string) (peers : list string) : Handler (Response + Status) :=
  change (CfgAddShard shard_id peers) accepted not_leader.

(** [src/dfs/metaserver/src/config_server.rs:98-131 remove_shard] *)
Definition remove_shard (shard_id : string) : Handler (Response + Status) :=
  change (CfgRemoveShard shard_id) accepted not_leader.

(** The masters with the latest heartbeats, three at most.
    [src/dfs/metaserver/src/config_server.rs:143-153 split_shard] *)
Definition allocate_peers (a : AppState) : list string :=
  match a with
  | AConfig c =>
      info_address <$>
        take 3 (sort_by (λ x y, (info_last_heartbeat y <=? info_last_heartbeat x)%N) (entries (masters c)).*2)
  | AMaster _ => []
  end.

(** [src/dfs/metaserver/src/config_server.rs:133-201 split_shard] *)
Definition split_shard (shard_id split_key new_shard_id : string) (new_shard_peers : list string)
  : Handler (Response * list string + Status) :=
  let* new_shard_peers :=
    (match new_shard_peers with [] => read_app allocate_peers | _ => Ret new_shard_peers end) in
  match new_shard_peers with
  | [] => reply (mkResponse false "No available master nodes for new shard" "", [])
  | _ =>
      change (CfgSplitShard shard_id split_key new_shard_id new_shard_peers)
        (accepted, new_shard_peers) (λ hint, (not_leader hint, []))
  end.

(** [src/dfs/metaserver/src/config_server.rs:203-237 merge_shard] *)
Definition merge_shard (victim_shard_id retained_shard_id : string) : Handler (Response + Status) :=
  change (CfgMergeShard victim_shard_id retained_shard_id) accepted not_leader.

(** [src/dfs/metaserver/src/config_server.rs:239-273 rebalance_shard] *)
Definition rebalance_shard (old_key new_key : string) : Handler (Response + Status) :=
  change (CfgRebalanceShard old_key new_key) accepted not_leader.

(** [src/dfs/metaserver/src/config_server.rs:275-306 register_master] *)
Definition register_master (address shard_id : string) : Handler (bool + Status) :=
  change (CfgRegisterMaster address shard_id) true (λ _, false).

(** [src/dfs/metaserver/src/config_server.rs:308-339 shard_heartbeat] *)
Definition shard_heartbeat (address : string) (rps_per_prefix : gmap string f64) : Handler (bool + Status) :=
  change (CfgShardHeartbeat address rps_per_prefix) true (λ _, false).

End service.

(** ** The peers of a new shard *)

Section allocation.
  Context `{HashOrder} (crc : string → N).

(** A choice of the freshest: nothing that was left out is later, and something
    was left out only when three were taken. *)
Definition freshest (l chosen : list MasterInfo) : Prop :=
  ∃ rest, l ≡ₚ chosen ++ rest ∧ length chosen ≤ 3 ∧ (rest ≠ [] → length chosen = 3) ∧
    ∀ x y, x ∈ chosen → y ∈ rest → (info_last_heartbeat y ≤ info_last_heartbeat x)%N.

Lemma allocate_peers_freshest c :
  ∃ chosen, allocate_peers (AConfig c) = info_address <$> chosen ∧ freshest (map_to_list (masters c)).*2 chosen.
Proof.
  eexists. split; [reflexivity|]. set (leb := λ x y : MasterInfo, (info_last_heartbeat y <=? info_last_heartbeat x)%N).
  set (l := (entries (masters c)).*2). exists (drop 3 (sort_by leb l)). split_and!.
  - rewrite take_drop, sort_by_perm. unfold l. by rewrite entries_perm.
  - rewrite length_take. lia.
  - intros Hr. rewrite length_take. destruct (drop 3 (sort_by leb l)) eqn:Hd; [done|].
    apply (f_equal length) in Hd. rewrite length_drop in Hd. simpl in Hd. lia.
  - intros x y Hx Hy. assert (StronglySorted (λ x y, leb x y = true) (sort_by leb l)) as Hs.
    { apply sort_by_sorted; unfold leb; intros; rewrite ?N.leb_le in *; lia. }
    rewrite <- (take_drop 3 (sort_by leb l)) in Hs.
    apply N.leb_le. exact (StronglySorted_app_1_elem_of _ _ _ x y Hs Hx Hy).
Qed.

(** Peer allocation: in every execution, whatever runs in between, a split
    that names no peers and succeeds gave the new shard one to three registered
    masters, those with the latest heartbeats at some moment of the execution,
    and has committed a split with exactly the peers it answers. *)
Theorem split_allocates_freshest (I : World → World → Prop) sid key new w resp peers w' :
  exec (@performs crc) I (split_shard sid key new []) w (inl (resp, peers)) w' → success resp = true →
  ∃ w1 c chosen w2,
    I w w1 ∧ w_app w1 = AConfig c ∧ freshest (map_to_list (masters c)).*2 chosen ∧
    peers = info_address <$> chosen ∧ peers ≠ [] ∧
    I w1 w2 ∧ w' = commit crc (CConfig (CfgSplitShard sid key new peers)) w2.
Proof.
  intros (ps & w1 & Hread & Hk)%exec_bind Hok.
  destruct Hread as (w0 & b & w0' & HI & [-> ->] & -> & ->). simpl in *.
  assert (w0 <| w_app := w_app w0 |> = w0) as Hw by (by destruct w0). rewrite Hw in Hk.
  destruct (w_app w0) as [s|c] eqn:Ha; [by destruct Hk as [[= -> ->] _]|].
  destruct (allocate_peers_freshest c) as (chosen & Hc & Hf).
  destruct (allocate_peers (AConfig c)) as [|p ps] eqn:Hps; [by destruct Hk as [[= -> ->] _]|].
  destruct Hk as (w2 & r & w3 & HI' & Hp & Hk). destruct r; simpl in Hk; destruct Hk as [Hr ->]; simplify_eq; try done.
  exists w0, c, chosen, w2. by rewrite <- Hc.
Qed.

End allocation.

(** ** What masters and clients learn from it *)

Section refresh.
  Context `{HashOrder} (crc : string → N).

Lemma shards_with_peers_lookup m sid :
  shard_map_ok m → shards_with_peers m !! sid = get_shard_peers m sid.
Proof.
  intros [_ Hdom]. unfold shards_with_peers, get_all_shards.
  assert (∀ l (acc : gmap string (list string)), foldl (λ acc sid, match get_shard_peers m sid with Some peers => <[sid := peers]> acc | None => acc end)
    acc l !! sid = if decide (sid ∈ l) then match get_shard_peers m sid with Some ps => Some ps | None => acc !! sid end
                   else acc !! sid) as Hgo.
  { induction l as [|x l IH]; intros acc; [done|]. simpl. rewrite IH. clear IH.
    destruct (decide (x = sid)) as [->|Hne].
    - rewrite (decide_True (P := sid ∈ sid :: l)) by set_solver.
      destruct (get_shard_peers m sid); [rewrite lookup_insert_eq|]; by case_decide.
    - assert ((match get_shard_peers m x with Some ps => <[x := ps]> acc | None => acc end) !! sid = acc !! sid) as ->.
      { destruct (get_shard_peers m x); [|done]. by rewrite lookup_insert_ne. }
      destruct (decide (sid ∈ l)).
      + by rewrite (decide_True (P := sid ∈ x :: l)) by set_solver.
      + by rewrite (decide_False (P := sid ∈ x :: l)) by set_solver. }
  rewrite Hgo. case_decide as Hin; [by destruct (get_shard_peers m sid)|]. rewrite lookup_empty.
  rewrite elem_of_elements, <- Hdom in Hin. by apply not_elem_of_dom in Hin.
Qed.

(** Shards added one by one to a map of ranges. *)
Lemma add_shards_ok (l : list (string * list string)) m :
  NoDup l.*1 → shard_map_ok m → range_strategy m → (shards m ≠ ∅ → covers_all m) →
  let m' := foldl (λ m e, Sharding.add_shard crc m e.1 e.2) m l in
  shard_map_ok m' ∧ range_strategy m' ∧ (shards m' ≠ ∅ → covers_all m') ∧
  shards m' = shards m ∪ list_to_set l.*1 ∧ shard_peers m' = list_to_map l ∪ shard_peers m.
Proof.
  revert m. induction l as [|[sid ps] l IH]; intros m Hnd Hok Hr Hc; simpl.
  { split_and!; [done..| |]; [set_solver|by rewrite (left_id_L ∅ (∪))]. }
  apply NoDup_cons in Hnd as [Hnew Hnd].
  destruct (IH (Sharding.add_shard crc m sid ps)) as (? & ? & ? & Hs & Hp); [done|by apply add_shard_ok|..].
  - unfold range_strategy, Sharding.add_shard in *. case_decide; by destruct (strategy m).
  - intros _. destruct (decide (shards m = ∅)) as [He|He]; [|by apply add_shard_covers; auto].
    destruct Hok as [Hst _]. unfold Sharding.add_shard, covers_all, range_strategy in *.
    rewrite decide_False by (rewrite He; set_solver). simpl. destruct (strategy m) as [|r]; [done|].
    destruct r as [|[k o] r]; [by eexists|]. exfalso. destruct Hst as (_ & Hown & _).
    specialize (Hown k o). simpl in Hown. rewrite decide_True in Hown by done. set_solver.
  - split_and!; [done..| |].
    + rewrite Hs. unfold Sharding.add_shard. case_decide; simpl; set_solver.
    + rewrite Hp. assert (shard_peers (Sharding.add_shard crc m sid ps) = <[sid := ps]> (shard_peers m)) as ->.
      { unfold Sharding.add_shard. by case_decide. }
      rewrite <- insert_union_r by (by apply not_elem_of_list_to_map). by rewrite insert_union_l.
Qed.

Lemma refreshed_map_ok (shards0 : gmap string (list string)) :
  let m := refreshed_map crc shards0 in
  shard_map_ok m ∧ range_strategy m ∧ (shards m ≠ ∅ → covers_all m) ∧
  shards m = dom shards0 ∧ shard_peers m = shards0.
Proof.
  unfold refreshed_map. set (l := sort_by _ _).
  assert (l ≡ₚ map_to_list shards0) as Hl by apply sort_by_perm.
  assert (NoDup l.*1) as Hnd by (rewrite Hl; apply NoDup_fst_map_to_list).
  destruct (add_shards_ok l new_range Hnd) as (Hok & ? & ? & Hs & Hp); [apply new_range_ok|done..|].
  assert (shard_peers (foldl (λ m e, Sharding.add_shard crc m e.1 e.2) new_range l) = shards0) as Hp'.
  { rewrite Hp. simpl. rewrite (right_id_L ∅ (∪)). rewrite (list_to_map_proper _ (map_to_list shards0)) by done.
    apply list_to_map_to_list. }
  split_and!; [done..| |done]. by rewrite <- (proj2 Hok), Hp'.
Qed.

(** C23. Refreshing: when a configuration server that leads its group answers,
    the shard map a master installs is well formed, has exactly the shards of
    the server's map with exactly their peers, is the map a client builds from
    the same answer, and, when there is a shard, routes every path to one. *)
Theorem refresh_agrees peers cpeers addr addrs wc c w :
  w_app wc = AConfig c → shard_map_ok (shard_map c) →
  call_answer peers addr ReqFetchShardMap =
    match (run (@run_effect crc cpeers) fetch_shard_map wc).1 with
    | inl shards => Some (RespShards shards)
    | inr _ => None
    end →
  submit_answer cpeers = RaftOk →
  let m := w_map (run (@run_effect crc peers) (MasterTasks.refresh_shard_map crc (addr :: addrs)) w).2 in
  shard_map_ok m ∧ shards m = shards (shard_map c) ∧
  (∀ sid, get_shard_peers m sid = get_shard_peers (shard_map c) sid) ∧
  m = map_of_shards crc (shards_with_peers (shard_map c)) ∧
  (shards m ≠ ∅ → ∀ p, ∃ sid, get_shard crc m (String "/" p) = Some sid ∧ sid ∈ shards (shard_map c)).
Proof.
  intros Ha Hok Hcall Hlead.
  assert (call_answer peers addr ReqFetchShardMap = Some (RespShards (shards_with_peers (shard_map c)))) as Hans.
  { rewrite Hcall. unfold fetch_shard_map. rewrite run_try. simpl. rewrite Hlead. simpl. by rewrite Ha. }
  intros m. assert (m = refreshed_map crc (shards_with_peers (shard_map c))) as ->.
  { unfold m. simpl. by rewrite Hans. }
  destruct (refreshed_map_ok (shards_with_peers (shard_map c))) as (Hm & Hr & Hc & Hs & Hp).
  assert (∀ sid, get_shard_peers (refreshed_map crc (shards_with_peers (shard_map c))) sid =
    get_shard_peers (shard_map c) sid) as Hpeers.
  { intros sid. unfold get_shard_peers at 1. rewrite Hp. by apply shards_with_peers_lookup. }
  assert (shards (refreshed_map crc (shards_with_peers (shard_map c))) = shards (shard_map c)) as Hshards.
  { apply set_eq. intros sid. rewrite <- (proj2 Hm), <- (proj2 Hok), !elem_of_dom.
    specialize (Hpeers sid). unfold get_shard_peers in Hpeers. by rewrite Hpeers. }
  split_and!; [done..|]. intros Hne p.
  destruct (covering_map_routes crc _ (String "/" p) Hm Hr (Hc Hne) (absolute_path_le_max p)) as (sid & Hg & Hin & _).
  exists sid. split; [done|]. rewrite <- Hshards. by apply bool_decide_eq_true in Hin.
Qed.

End refresh.

(** ** A concrete configuration group *)

Module Demo.
#[local] Existing Instance map_order.

Definition crc (s : string) : N := 0.
Definition leads : Peers := mkPeers (λ _ _, None) RaftOk ChannelClosed ChannelClosed 0.

(** Two shards, added in the order of their names, and one master of each. *)
Definition config : ConfigStateInner :=
  foldl (λ c e, apply_config_command crc e.1 e.2 c) (mkConfigState new_range ∅)
    [(1%N, CfgRegisterMaster "m1:1" "shard-1"); (2%N, CfgRegisterMaster "m2:1" "shard-2")].
Definition world (c : ConfigStateInner) : World :=
  mkWorld (AConfig c) new_range (mkMonitor ∅ (f64_of_N 0) (f64_of_N 0) 0 0) 5 [] [].

Definition split_run : (Response * list string + Status) * World :=
  run (@run_effect crc leads) (split_shard "shard-2" "/d" "shard-3" []) (world config).

Lemma split_allocates_freshest_witness :
  ∃ w1 c chosen w2,
    world config = w1 ∧ w_app w1 = AConfig c ∧ freshest (map_to_list (masters c)).*2 chosen ∧
    ["m2:1"; "m1:1"] = info_address <$> chosen ∧ ["m2:1"; "m1:1"] ≠ [] ∧
    w1 = w2 ∧ split_run.2 = commit crc (CConfig (CfgSplitShard "shard-2" "/d" "shard-3" ["m2:1"; "m1:1"])) w2.
Proof.
  apply (split_allocates_freshest crc eq "shard-2" "/d" "shard-3" (world config) accepted ["m2:1"; "m1:1"] split_run.2);
    [|reflexivity].
  assert (split_run.1 = inl (accepted, ["m2:1"; "m1:1"])) as <- by (vm_compute; reflexivity).
  apply run_exec; [done|]. intros. apply run_effect_performs.
Defined.

(** What a master that asks [world c] installs. *)
Definition answers (c : ConfigStateInner) : Peers :=
  mkPeers (λ _ _, match (run (@run_effect crc leads) fetch_shard_map (world c)).1 with
                  | inl shards => Some (RespShards shards)
                  | inr _ => None
                  end) RaftOk ChannelClosed ChannelClosed 0.
Definition refreshed (c : ConfigStateInner) : ShardMap :=
  w_map (run (@run_effect crc (answers c)) (MasterTasks.refresh_shard_map crc ["c:1"]) (world c)).2.

Lemma config_ok : shard_map_ok (shard_map config).
Proof. unfold config. cbn [foldl fst snd]. do 2 (apply apply_config_ok; [by intros ?|]). apply new_range_ok. Qed.

Lemma refresh_agrees_witness :
  shards (refreshed config) = {["shard-1"; "shard-2"]} ∧ get_shard_peers (refreshed config) "shard-1" = Some ["m1:1"].
Proof.
  destruct (refresh_agrees crc (answers config) leads "c:1" [] (world config) config (world config))
    as (_ & Hs & Hp & _); [reflexivity|apply config_ok|reflexivity|reflexivity|].
  split; [etrans; [exact Hs|]|etrans; [exact (Hp "shard-1")|]]; vm_compute; reflexivity.
Defined.

(** The answer carries no boundaries: after a split at "/d" the server routes
    "/c" to the new shard, while every refreshed map still sends it to "shard-2". *)
Lemma refresh_loses_split :
  let c := apply_config_command crc 3 (CfgSplitShard "shard-2" "/d" "shard-3" ["m3:1"]) config in
  get_shard crc (shard_map c) "/c" = Some "shard-3" ∧ get_shard crc (refreshed c) "/c" = Some "shard-2".
Proof. by vm_compute. Qed.
End Demo.
