(* ===== verification/Repair.v ===== *)
(** * Repairs: the chunk servers carry out the commands of the master

    dfs/chunkserver/src/chunkserver.rs and dfs/chunkserver/src/bin/chunkserver.rs:
    one round of heartbeats, and the commands a heartbeat brings back: copying a
    block to another server, reconstructing a shard, moving a block to the cold
    directory. Several chunk servers are a map from their URLs. The theorems
    compose this with the healer of the master ([Healing]). *)

From Stdlib Require Import Strings.Byte.
From S2P Require Import Prelude BTree Text Sharding MasterState AppState Healing Erasure ChunkServer Client Cluster.

Notation Fleet := (gmap string MyChunkServer).

Section repair.
  Context `{HO : HashOrder} `{RS : ReedSolomon} (crc32 : bytes → N).
  (** Whether a CA certificate is configured, and what the masters and replicas
      answer a server that recovers a block. *)
  Context (has_ca : bool) (recovery : string → bool * list (option bytes)).

(** ** Addresses *)

(** The address that is dialled.
    [src/dfs/common/src/security.rs:62-84 connect_endpoint] *)
Definition endpoint_url (url : string) : string :=
  let addr_with_scheme :=
    if contains "://" url then url else (if has_ca then "https://" else "http://") +:+ url in
  if has_ca && String.prefix "http://" addr_with_scheme
  then replace "http://" "https://" addr_with_scheme else addr_with_scheme.

(** ** Commands *)

(** [self] is the URL of the server; the answer of the target counts only when
    the call fails.
    [src/dfs/chunkserver/src/chunkserver.rs:462-499 initiate_replication] *)
Definition initiate_replication (self block_id target : string) (cs : Fleet) : outcome unit * Fleet :=
  match cs !! self with
  | None => (Err "stopped", cs)
  | Some s =>
      match lookup_file block_id s with
      | None => (Err "Failed to read block", cs)
      | Some data =>
          match cs !! endpoint_url target with
          | None => (Err "Failed to connect to target", cs)
          | Some t =>
              match replicate_block crc32 block_id data 0 (known_term s) None t with
              | (StaleTerm, _) => (Err "Replication failed", cs)
              | (_, t') => (Ok tt, <[endpoint_url target := t']> cs)
              end
          end
      end
  end.

(** The URL of a source.
    [src/dfs/chunkserver/src/chunkserver.rs:533-543 reconstruct_ec_shard] *)
Definition source_url (src_addr : string) : string :=
  let addr := "http://" +:+ src_addr in
  if has_ca then replace "http://" "https://" addr else addr.

(** The shards that can be fetched, one per slot; [None] for the shard that is
    reconstructed and for sources that are not available.
    [src/dfs/chunkserver/src/chunkserver.rs:524-604 reconstruct_ec_shard] *)
Fixpoint fetch_shards (block_id : string) (shard_index i : nat) (sources : list string) (cs : Fleet)
  : list (option bytes) * Fleet :=
  match sources with
  | [] => ([], cs)
  | src_addr :: sources =>
      let '(o, cs) :=
        if bool_decide (src_addr = "") || (i =? shard_index) then (None, cs)
        else
          match cs !! source_url src_addr with
          | None => (None, cs)
          | Some s =>
              let '(r, s') := read_block crc32 block_id 0 0 (recovery src_addr).1 (recovery src_addr).2 s in
              (match r with ReadOk data _ _ => Some data | _ => None end, <[source_url src_addr := s']> cs)
          end in
      let '(os, cs) := fetch_shards block_id shard_index (S i) sources cs in
      (o :: os, cs)
  end.

(** [src/dfs/chunkserver/src/chunkserver.rs:503-640 reconstruct_ec_shard] *)
Definition reconstruct_ec_shard (self block_id : string) (shard_index data_shards parity_shards : nat)
    (sources : list string) (cs : Fleet) : outcome unit * Fleet :=
  if negb (length sources =? data_shards + parity_shards) then (Err "ec_shard_sources length != total shards", cs)
  else
    let '(opt_shards, cs) := fetch_shards block_id shard_index 0 sources cs in
    if length (omap id opt_shards) <? data_shards then (Err "not enough shards for reconstruction", cs)
    else if negb (rs_new data_shards parity_shards) then (Err "RS init error", cs)
    else
      match rs_reconstruct data_shards parity_shards opt_shards with
      | None => (Err "RS reconstruct error", cs)
      | Some opt_shards =>
          match opt_shards !! shard_index with
          | None => (Panic "index out of bounds", cs)
          | Some None => (Err "still None after reconstruct", cs)
          | Some (Some shard_data) => (Ok tt, alter (write_block_async crc32 block_id shard_data) self cs)
          end
      end.

(** One command; the code spawns a task for each. Types 1, 3 and 4 are
    REPLICATE, RECONSTRUCT_EC_SHARD and MOVE_TO_COLD, others are ignored.
    [src/dfs/chunkserver/src/bin/chunkserver.rs:270-340 main] *)
Definition execute (self : string) (cs : Fleet) (c : ChunkServerCommand) : Fleet :=
  if (cmd_type c =? 1)%Z then
    (initiate_replication self (cmd_block_id c) (target_chunk_server_address c) cs).2
  else if (cmd_type c =? 3)%Z then
    (reconstruct_ec_shard self (cmd_block_id c) (Z.to_nat (as_usize (shard_index c)))
       (Z.to_nat (as_usize (cmd_ec_data_shards c))) (Z.to_nat (as_usize (cmd_ec_parity_shards c)))
       (ec_shard_sources c) cs).2
  else if (cmd_type c =? 4)%Z then alter (λ s, (move_block_to_cold (cmd_block_id c) s).2) self cs
  else cs.

(** ** Heartbeats *)

(** The URL of a master.
    [src/dfs/chunkserver/src/bin/chunkserver.rs:196-205 main] *)
Definition master_url (master_addr : string) : string :=
  if has_ca && negb (String.prefix "https://" master_addr) then
    if String.prefix "http://" master_addr then replace "http://" "https://" master_addr
    else "https://" +:+ master_addr
  else if negb (String.prefix "http://" master_addr) && negb has_ca then "http://" +:+ master_addr
  else master_addr.

(** [src/dfs/chunkserver/src/bin/chunkserver.rs:258-268 main] *)
Definition learn_term (term : N) (s : MyChunkServer) : MyChunkServer :=
  if (known_term s <? term)%N then s <| known_term := term |> else s.

(** One round: the bad blocks are taken from the server, then every master gets
    a heartbeat; [call] is the answer, the term and the commands of the master.
    The commands run here before the next heartbeat.
    [src/dfs/chunkserver/src/bin/chunkserver.rs:165-354 main] *)
Definition heartbeat_round (my_addr rack : string) (used available chunk_count : N) (masters : list string)
    (call : string → HeartbeatRequest → option (N * list ChunkServerCommand)) (self : string) (cs : Fleet)
  : list (string * HeartbeatRequest) * Fleet :=
  let bad_blocks := default [] (pending_bad_blocks <$> cs !! self) in
  let cs := alter (λ s, s <| pending_bad_blocks := [] |>) self cs in
  foldl (λ acc master_addr,
    let '(sent, cs) := acc in
    let url := master_url master_addr in
    let req := mkHeartbeat my_addr used available chunk_count bad_blocks rack in
    (sent ++ [(url, req)],
     match call url req with
     | Some (term, commands) => foldl (execute self) (alter (learn_term term) self cs) commands
     | None => cs
     end)) ([], cs) masters.

(** The configuration servers in turn; the shards of the answer are added, in
    the order of the hash map. The first answer is whether one replied.
    [src/dfs/chunkserver/src/chunkserver.rs:145-180 refresh_shard_map] *)
Fixpoint refresh_shard_map (ring_crc : string → N) (fetch : string → option (gmap string (list string)))
    (config_server_addrs : list string) (m : ShardMap) : bool * ShardMap :=
  match config_server_addrs with
  | [] => (false, m)
  | config_addr :: addrs =>
      match fetch (endpoint_url config_addr) with
      | Some shards => (true, foldl (λ m e, add_shard ring_crc m e.1 e.2) m (entries shards))
      | None => refresh_shard_map ring_crc fetch addrs m
      end
  end.

(** ** Copies *)

Context (crc32_bound : ∀ d, (crc32 d < 4294967296)%N).

Section plain.
  Context (no_ca : has_ca = false).

Lemma endpoint_plain a : contains "://" a = false → endpoint_url a = server_url a.
Proof. unfold endpoint_url. intros ->. by rewrite no_ca. Qed.

Lemma source_plain a : source_url a = server_url a.
Proof. unfold source_url. by rewrite no_ca. Qed.

Lemma replicate_stores bid data source target cs s :
  contains "://" target = false → cs !! server_url source = Some s → holds crc32 bid data s →
  accepts cs bid (known_term s) target →
  let cs' := execute (server_url source) cs (replicate_command bid target) in
  stored crc32 cs' bid data target ∧ ∀ u, u ≠ server_url target → cs' !! u = cs !! u.
Proof.
  intros Hplain Hs Hholds (t & Ht & [t1 Hf] & Hc). unfold execute. simpl.
  unfold initiate_replication. rewrite Hs. destruct (id Hholds) as (-> & _ & _). rewrite endpoint_plain, Ht by done.
  unfold replicate_block, replicate_block_after. rewrite Hf. simpl. split; [|intros u Hu; by rewrite lookup_insert_ne].
  eexists. split; [apply lookup_insert_eq|]. apply write_holds; [done|]. by rewrite (fence_cache _ _ _ _ Hf).
Qed.

(** The copies of a block to several servers. *)
Lemma replicate_all_stores bid data source targets cs s :
  NoDup targets → source ∉ targets → (∀ t, t ∈ targets → contains "://" t = false) →
  cs !! server_url source = Some s → holds crc32 bid data s →
  (∀ t, t ∈ targets → accepts cs bid (known_term s) t) →
  let cs' := foldl (execute (server_url source)) cs (replicate_command bid <$> targets) in
  (∀ t, t ∈ targets → stored crc32 cs' bid data t) ∧
  ∀ u, u ∉ server_url <$> targets → cs' !! u = cs !! u.
Proof.
  intros Hnd Hsrc Hplain Hs Hholds Hacc. revert cs Hs Hacc.
  induction targets as [|t targets IH]; intros cs Hs Hacc; simpl; [split; [by intros ? ?%not_elem_of_nil|done]|].
  apply NoDup_cons in Hnd as [Ht Hnd]. apply not_elem_of_cons in Hsrc as [Hst Hsrc].
  destruct (replicate_stores bid data source t cs s) as [Hnew Hout]; [apply Hplain; by left|done|done|apply Hacc; by left|].
  assert (∀ a, a ≠ t → execute (server_url source) cs (replicate_command bid t) !! server_url a = cs !! server_url a) as Hkeep.
  { intros a Ha. apply Hout. by intros ?%(inj server_url). }
  destruct (IH Hnd Hsrc (λ x Hx, Hplain x (list_elem_of_further _ _ _ Hx)) (execute (server_url source) cs (replicate_command bid t)))
    as [Hrest Hout'].
  - by rewrite Hkeep.
  - intros a Ha. destruct (Hacc a) as (sa & Hsa & ?); [by right|]. exists sa. split; [|done].
    rewrite Hkeep; [done|]. by intros ->.
  - split.
    + intros a [->|Ha]%elem_of_cons; [|by apply Hrest]. destruct Hnew as (st & Hst' & ?). exists st. split; [|done].
      rewrite <- Hst'. apply Hout'. by intros (? & ->%(inj server_url) & ?)%list_elem_of_fmap.
    + intros u [Hu1 Hu2]%not_elem_of_cons. rewrite <- Hout by done. by apply Hout'.
Qed.

(** C25. Repair of replicas: after one pass of the healer, when the server it
    chooses carries out the copies it was sent, the block is on at least three
    servers that are registered and not known to be bad, or on all there are:
    the good replicas are kept, and each copy is intact. *)
Theorem healing_restores_replicas s p file block source rest data cs :
  files s !! p = Some file → block ∈ blocks file → (block_ec_data_shards block ≤ 0)%Z →
  live_locs s block = source :: rest → NoDup (locations block) →
  (∀ a, a ∈ live_locs s block → stored crc32 cs (block_id block) data a) →
  (∀ a, is_Some (chunk_servers s !! a) → a ∉ locations block →
     contains "://" a = false ∧
     ∀ src, cs !! server_url source = Some src → accepts cs (block_id block) (known_term src) a) →
  ∃ commands holders,
    (∀ c, c ∈ commands → c ∈ pending (heal_under_replicated_blocks s) source) ∧
    NoDup holders ∧
    min 3 (length (live_locs s block) + size (dom (chunk_servers s) ∖ list_to_set (locations block)))
      ≤ length holders ∧
    ∀ a, a ∈ holders →
      is_Some (chunk_servers s !! a) ∧
      stored crc32 (foldl (execute (server_url source)) cs commands) (block_id block) data a.
Proof.
  intros Hp Hb Hec Hlive Hnd Hstored Hspare.
  destruct (heal_enough s p file block source rest Hp Hb Hec Hlive) as (targets & Htnd & Hlen & Htargets).
  assert (∀ a, a ∈ live_locs s block → a ∈ locations block ∧ is_Some (chunk_servers s !! a)) as Hloc.
  { intros a. rewrite live_locs_good. intros [[Hr _] Hl]%list_elem_of_filter. done. }
  assert (source ∈ live_locs s block) as Hsrc by (rewrite Hlive; by left).
  destruct (Hstored source Hsrc) as (src & Hs & Hholds).
  destruct (replicate_all_stores (block_id block) data source targets cs src) as [Hnew Hkept]; try done.
  { intros Hin. apply Htargets in Hin as [Hn _]. by apply Hn, Hloc. }
  { intros t (? & ? & _)%Htargets. by apply Hspare. }
  { intros t (? & ? & _)%Htargets. by apply Hspare. }
  exists (replicate_command (block_id block) <$> targets), (live_locs s block ++ targets). split_and!.
  - intros c (t & -> & (_ & _ & ?)%Htargets)%list_elem_of_fmap. done.
  - apply NoDup_app. split; [rewrite live_locs_good; by apply NoDup_filter|]. split; [|done].
    intros a [Ha _]%Hloc [? _]%Htargets. done.
  - rewrite length_app, Hlen. lia.
  - intros a [Ha|Ha]%elem_of_app.
    + destruct (Hloc a Ha) as [Hl Hr]. split; [done|]. destruct (Hstored a Ha) as (sa & Hsa & ?). exists sa. split; [|done].
      rewrite Hkept; [done|]. intros (t & ->%(inj server_url) & [? _]%Htargets)%list_elem_of_fmap. done.
    + split; [by apply Htargets|]. by apply Hnew.
Qed.

(** ** Shards *)

(** Reading a block keeps it on every server that holds it. *)
Lemma read_keeps_stored bid l d found replies cs s r s' :
  cs !! server_url l = Some s → read_block crc32 bid 0 0 found replies s = (r, s') →
  ∀ a, stored crc32 cs bid d a → stored crc32 (<[server_url l := s']> cs) bid d a.
Proof.
  intros Hs Hr a (sa & Ha & Hh). destruct (decide (server_url a = server_url l)) as [E|E].
  - exists s'. rewrite E, lookup_insert_eq. split; [done|]. rewrite E, Hs in Ha. injection Ha as <-.
    pose proof (read_keeps_own crc32 bid d s 0 0 found replies Hh) as Hk. by rewrite Hr in Hk.
  - exists sa. by rewrite lookup_insert_ne.
Qed.

(** Every live source answers with its shard. *)
Lemma fetch_stored m bid idx locs shs j cs :
  Forall2 (λ l sh, live m l = true → l ≠ "" ∧ sh ≠ [] ∧ stored crc32 cs bid sh l) locs shs →
  (∀ n l, locs !! n = Some l → live m l = true → j + n ≠ idx) →
  ∃ os cs', fetch_shards bid idx j ((λ l, if live m l then l else "") <$> locs) cs = (os, cs') ∧
    Forall2 (λ (o : option bytes) s, o = None ∨ o = Some s) os shs ∧
    length (omap id os) = length (filter (λ l, live m l = true) locs) ∧
    (∀ a d, stored crc32 cs bid d a → stored crc32 cs' bid d a) ∧
    ∀ u, u ∉ server_url <$> locs → cs' !! u = cs !! u.
Proof.
  revert shs j cs. induction locs as [|l locs IH]; intros shs j cs Hall Hidx.
  { apply Forall2_nil_inv_l in Hall as ->. exists [], cs. split_and!; [done|constructor|done|done|done]. }
  apply Forall2_cons_inv_l in Hall as (sh & shs' & Hl & Hall & ->). rewrite fmap_cons.
  assert (∀ n l, locs !! n = Some l → live m l = true → S j + n ≠ idx) as Hidx'.
  { intros n l' Hn. specialize (Hidx (S n) l' Hn). intros. replace (S j + n) with (j + S n) by lia. auto. }
  destruct (live m l) eqn:Elive; cbn [fetch_shards].
  - destruct (Hl eq_refl) as (Hne & Hsh & s & Hs & Hh). rewrite bool_decide_false by done.
    rewrite (proj2 (Nat.eqb_neq j idx)) by (specialize (Hidx 0 l eq_refl Elive); lia). cbn [orb].
    rewrite source_plain, Hs.
    assert (0 < length sh) as Hpos by (destruct sh; [done|simpl; lia]).
    pose proof (holds_read_range crc32 bid sh s 0 0 (recovery l).1 (recovery l).2 Hh Hpos) as Hread.
    simpl in Hread. destruct (read_block crc32 bid 0 0 (recovery l).1 (recovery l).2 s) as [r s'] eqn:Er.
    simpl in Hread. subst r. rewrite drop_0.
    pose proof (λ d, read_keeps_stored bid l d _ _ _ _ _ _ Hs Er) as Hkeep.
    destruct (IH shs' (S j) (<[server_url l := s']> cs)) as (os & cs' & -> & Hos & Hlen & Hst & Hout); [|done|].
    { eapply Forall2_impl; [exact Hall|]. intros l' sh' H1 H2. destruct (H1 H2) as (? & ? & ?). auto. }
    exists (Some sh :: os), cs'. split; [done|]. split; [constructor; auto|]. split_and!.
    + rewrite filter_cons_True by done. cbn. f_equal. exact Hlen.
    + auto.
    + intros u [Hu1 Hu2]%not_elem_of_cons. rewrite Hout by done. by rewrite lookup_insert_ne.
  - rewrite bool_decide_true by done. cbn [orb].
    destruct (IH shs' (S j) cs) as (os & cs' & -> & Hos & Hlen & Hst & Hout); [done..|].
    exists (None :: os), cs'. split; [done|]. split; [constructor; auto|]. split_and!; [|done|].
    + rewrite filter_cons_False by (by rewrite Elive). done.
    + intros u [Hu1 Hu2]%not_elem_of_cons. by apply Hout.
Qed.

(** Reconstruction writes the shard that is missing. *)
Lemma reconstruct_stores m block target idx data shards (k n : nat) cs t :
  encode data k n = Ok shards → length (locations block) = k + n →
  Forall2 (λ l sh, live m l = true → l ≠ "" ∧ stored crc32 cs (block_id block) sh l) (locations block) shards →
  (∀ l, locations block !! idx = Some l → live m l = false) → idx < k + n →
  k ≤ length (filter (λ l, live m l = true) (locations block)) →
  target ∉ locations block → cs !! server_url target = Some t → block_cache t !! block_id block = None →
  ∃ cs' sh, reconstruct_ec_shard (server_url target) (block_id block) idx k n (shard_sources m block) cs = (Ok tt, cs') ∧
    shards !! idx = Some sh ∧ stored crc32 cs' (block_id block) sh target ∧
    ∀ a d, a ≠ target → stored crc32 cs (block_id block) d a → stored crc32 cs' (block_id block) d a.
Proof.
  intros Henc Hlen Hall Hidx Hlt Hk Hout Ht Hc. unfold reconstruct_ec_shard, shard_sources.
  rewrite (proj2 (Nat.eqb_eq _ _)) by (by rewrite length_fmap). cbn [negb].
  destruct (fetch_stored m (block_id block) idx (locations block) shards 0 cs) as (os & cs1 & -> & Hos & Hn & Hst & Hkeep).
  { apply Forall2_same_length_lookup. apply Forall2_same_length_lookup in Hall as [Hl Hall]. split; [done|].
    intros i l sh Hi Hs Hv. destruct (Hall i l sh Hi Hs Hv) as [? ?]. split; [done|]. split; [|done].
    eapply shards_nonempty; [done|]. by eapply list_elem_of_lookup_2. }
  { intros j l Hj Hv. simpl. intros ->. by rewrite (Hidx l Hj) in Hv. }
  rewrite (proj2 (Nat.ltb_ge _ _)) by (by rewrite Hn).
  destruct (encode_shape _ _ _ _ Henc) as (shards0 & size & par & He & Hnew & _). rewrite Hnew. simpl.
  erewrite rs_reconstruct_all; [|done|done|done|by rewrite Hn].
  destruct (data_shards_join _ _ _ _ Henc) as [_ Hsl].
  destruct (lookup_lt_is_Some_2 shards idx) as [sh Hsh]; [lia|]. rewrite list_lookup_fmap, Hsh. simpl.
  assert (cs1 !! server_url target = Some t) as Ht1.
  { rewrite Hkeep; [done|]. by intros (? & ->%(inj server_url) & ?)%list_elem_of_fmap. }
  eexists _, sh. split; [done|]. split; [done|]. split.
  - eexists. rewrite lookup_alter_eq, Ht1. split; [done|]. by apply write_holds.
  - intros a d Ha (sa & Hsa & Hh)%Hst. exists sa. rewrite lookup_alter_ne; [done|]. by intros ?%(inj server_url).
Qed.

(** C26. Repair of shards: when an erasure-coded block has lost a shard, enough
    of its servers are left and there is a server without one, a pass of the
    healer sends that server a command, and when it carries it out it holds the
    lost shard byte for byte, while the other shards are kept. *)
Theorem healing_restores_shard s p file block data shards d m i loc spare cs :
  files s !! p = Some file → block ∈ blocks file →
  block_ec_data_shards block = d → block_ec_parity_shards block = m → (0 < d)%Z → (0 < m)%Z → (d + m < 2 ^ 31)%Z →
  length (locations block) = Z.to_nat (d + m) → encode data (Z.to_nat d) (Z.to_nat m) = Ok shards →
  Forall2 (λ l sh, live s l = true → l ≠ "" ∧ stored crc32 cs (block_id block) sh l) (locations block) shards →
  Z.to_nat d ≤ length (filter (λ l, live s l = true) (locations block)) →
  locations block !! i = Some loc → live s loc = false →
  live s spare = true → spare ∉ locations block →
  (∀ a, live s a = true → a ∉ locations block →
     ∃ t, cs !! server_url a = Some t ∧ block_cache t !! block_id block = None) →
  ∃ target command sh,
    command ∈ pending (heal_under_replicated_blocks s) target ∧ live s target = true ∧ target ∉ locations block ∧
    shards !! i = Some sh ∧
    let cs' := execute (server_url target) cs command in
    stored crc32 cs' (block_id block) sh target ∧
    ∀ a part, a ≠ target → stored crc32 cs (block_id block) part a → stored crc32 cs' (block_id block) part a.
Proof.
  intros Hp Hb Hd Hm Hd0 Hm0 Hdm Hlen Henc Hall Hk Hi Hloc Hspare Hout Hready.
  assert (as_usize d = d ∧ as_usize m = m) as [Ed Em] by (unfold as_usize; split; apply Z.mod_small; lia).
  assert (as_usize (wrap_i32 (d + m)) = d + m)%Z as Edm.
  { unfold as_usize, wrap_i32. rewrite (Z.mod_small (d + m + 2 ^ 31)) by lia. rewrite Z.mod_small by lia. lia. }
  assert (i < length (locations block)) as Hilt by (by eapply lookup_lt_Some).
  destruct (heal_reconstructs s p file block i loc spare) as (target & Hlive & Htn & Hpend); try done.
  { by rewrite Hd. }
  { rewrite Hd, Hm, Edm. lia. }
  { rewrite Hd, Ed. lia. }
  destruct (Hready target Hlive Htn) as (t & Ht & Hc).
  destruct (reconstruct_stores s block target i data shards (Z.to_nat d) (Z.to_nat m) cs t)
    as (cs' & sh & Hrun & Hsh & Hst & Hkeep); try done; [lia|intros l Hl; by simplify_eq|lia|].
  eexists target, _, sh. split; [exact Hpend|]. split_and!; [done..|]. unfold execute. simpl.
  rewrite Hd, Hm, Ed, Em. replace (Z.to_nat (as_usize (Z.of_nat i))) with i; [by rewrite Hrun|].
  unfold as_usize. rewrite Z.mod_small by lia. lia.
Qed.

End plain.

(** ** Bad blocks *)

(** The bad blocks are taken before the heartbeats are sent: when no master
    answers, they are forgotten without having been reported. *)
Lemma unanswered_bad_blocks_lost my_addr rack used available count masters self cs s :
  cs !! self = Some s →
  (pending_bad_blocks <$> (heartbeat_round my_addr rack used available count masters (λ _ _, None) self cs).2 !! self)
  = Some [].
Proof.
  intros Hs. unfold heartbeat_round. set (bad := default [] _).
  assert (∀ sent (cs1 : Fleet), (foldl (λ acc master_addr, let '(sent, cs) := acc in
     (sent ++ [(master_url master_addr, mkHeartbeat my_addr used available count bad rack)], cs)) (sent, cs1) masters).2 = cs1) as ->.
  { induction masters as [|a masters IH]; intros sent cs1; [done|]. apply IH. }
  by rewrite lookup_alter_eq, Hs.
Qed.

End repair.

(** ** Examples *)

Module RepairDemo.
#[local] Existing Instance map_order.

Definition status : ChunkServerStatus := mkChunkServerStatus 0 0 100 0 "".
Definition data : bytes := [x41; x42].
Definition block (bid : string) (locs : list string) (d m : Z) : BlockInfo := mkBlockInfo bid 2 locs 0 d m 2.
Definition copied : BlockInfo := block "b1" ["a:1"; "gone:1"] 0 0.
Definition coded : BlockInfo := block "b2" ["a:1"; "gone:1"; "b:1"] 1 2.
Definition file (b : BlockInfo) : FileMetadata := mkFileMetadata "/f" 2 [b] "" 0 0 0 0 0 0.
Definition master (b : BlockInfo) : MasterState :=
  master_default <| files := {["/f" := file b]} |>
    <| chunk_servers := {["a:1" := status; "b:1" := status; "c:1" := status]} |>.
Definition holder (bid : string) : MyChunkServer := write_block_async demo_crc bid data empty_server.
Definition fleet : Fleet :=
  {["http://a:1" := holder "b1"; "http://b:1" := empty_server; "http://c:1" := empty_server]}.
Definition coded_fleet : Fleet :=
  {["http://a:1" := holder "b2"; "http://b:1" := holder "b2"; "http://c:1" := empty_server]}.
Definition nobody (_ : string) : bool * list (option bytes) := (false, []).

Lemma holder_holds bid : holds demo_crc bid data (holder bid).
Proof. apply write_holds; [apply ClusterDemo.crc_bound|done]. Qed.

Lemma registered a b : is_Some (chunk_servers (master b) !! a) → a ∈ ["a:1"; "b:1"; "c:1"].
Proof.
  intros [st H]. simpl in H. rewrite !lookup_insert_Some, lookup_singleton_Some in H. set_solver.
Qed.

Lemma healing_restores_replicas_witness :
  ∃ commands holders,
    (∀ c, c ∈ commands → c ∈ pending (heal_under_replicated_blocks (master copied)) "a:1") ∧
    NoDup holders ∧ 3 ≤ length holders ∧
    ∀ a, a ∈ holders →
      is_Some (chunk_servers (master copied) !! a) ∧
      stored demo_crc (foldl (execute (RS := mirror) demo_crc false nobody (server_url "a:1")) fleet commands) "b1" data a.
Proof.
  apply (healing_restores_replicas (RS := mirror) demo_crc false nobody ClusterDemo.crc_bound eq_refl
    (master copied) "/f" (file copied) copied "a:1" [] data fleet).
  - vm_compute. reflexivity.
  - left.
  - simpl. lia.
  - vm_compute. reflexivity.
  - repeat constructor; set_solver.
  - assert (live_locs (master copied) copied = ["a:1"]) as -> by (vm_compute; reflexivity).
    intros a ->%list_elem_of_singleton.
    exists (holder "b1"). split; [vm_compute; reflexivity|apply holder_holds].
  - intros a Ha%registered Hout. rewrite !elem_of_cons in Ha. simpl in Hout.
    destruct Ha as [->|[->|[->|[]%not_elem_of_nil]]]; [set_solver|..]; (split; [reflexivity|]);
      intros src _; exists empty_server; (split; [reflexivity|]); (split; [|reflexivity]);
      unfold fence; simpl; destruct (_ && _)%N eqn:Hz; repeat case_match; (apply andb_true_iff in Hz as [_ Hz%N.ltb_lt]; simpl in Hz; lia) || by eexists.
Defined.

Lemma healing_restores_shard_witness :
  ∃ target command sh,
    command ∈ pending (heal_under_replicated_blocks (master coded)) target ∧ live (master coded) target = true ∧
    target ∉ locations coded ∧ [data; data; data] !! 1 = Some sh ∧
    let cs' := execute (RS := mirror) demo_crc false nobody (server_url target) coded_fleet command in
    stored demo_crc cs' "b2" sh target ∧
    ∀ a part, a ≠ target → stored demo_crc coded_fleet "b2" part a → stored demo_crc cs' "b2" part a.
Proof.
  apply (healing_restores_shard (RS := mirror) demo_crc false nobody ClusterDemo.crc_bound eq_refl
    (master coded) "/f" (file coded) coded data [data; data; data] 1 2 1 "gone:1" "c:1" coded_fleet);
    try reflexivity; try (simpl; lia).
  - left.
  - assert (∀ l, coded_fleet !! server_url l = Some (holder "b2") → stored demo_crc coded_fleet "b2" data l) as Hst.
    { intros l Hl. exists (holder "b2"). split; [done|apply holder_holds]. }
    constructor; [|constructor; [|constructor; [|constructor]]]; intros Hl;
      [|vm_compute in Hl; discriminate Hl|]; (split; [discriminate|]); apply Hst; vm_compute; reflexivity.
  - vm_compute. lia.
  - set_solver.
  - intros a Ha Hout. apply bool_decide_eq_true, registered in Ha. simpl in Hout. rewrite !elem_of_cons in Ha.
    destruct Ha as [->|[->|[->|[]%not_elem_of_nil]]]; [set_solver..|]. exists empty_server. split; reflexivity.
Defined.

End RepairDemo.
