(* ===== verification/Sse.v ===== *)
(** * Server-side encryption

    dfs/common/src/auth/sse.rs: every object is encrypted with a fresh data key,
    which is encrypted with the key of the server and kept with the object.
    AES-256-GCM and base64 are external crates: [Aead] states what they promise.
    The random bytes are arguments. *)

From Stdlib Require Import Strings.Byte.
From S2P Require Import Prelude Erasure.

(** [seal key nonce plaintext] and [open key nonce ciphertext] of AES-256-GCM,
    whose tag has sixteen bytes, and base64. *)
Class Aead := {
  seal : bytes → bytes → bytes → option bytes;
  open : bytes → bytes → bytes → option bytes;
  base64_encode : bytes → string;
  base64_decode : string → option bytes;
  open_seal key nonce plain cipher : seal key nonce plain = Some cipher → open key nonce cipher = Some plain;
  seal_length key nonce plain cipher : seal key nonce plain = Some cipher → length cipher = length plain + 16;
  base64_roundtrip b : base64_decode (base64_encode b) = Some b;
}.

Section sse.
  Context `{Aead}.

(** [src/dfs/common/src/auth/sse.rs:10-17 SseManager] *)
Record SseManager : Type := mkSseManager { kek : bytes }.

(** `Aes256Gcm::new_from_slice`: the key has 32 bytes. *)
Definition valid_key (key : bytes) : bool := length key =? 32.

(** [src/dfs/common/src/auth/sse.rs:19-62 encrypt_object] *)
Definition encrypt_object (mgr : SseManager) (dek data_nonce kek_nonce plaintext : bytes) : outcome (bytes * string) :=
  if negb (valid_key dek) then Err "Invalid DEK"
  else
    match seal dek data_nonce plaintext with
    | None => Err "Data encryption failed"
    | Some data_ciphertext =>
        if negb (valid_key (kek mgr)) then Err "Invalid KEK"
        else
          match seal (kek mgr) kek_nonce dek with
          | None => Err "DEK encryption failed"
          | Some encrypted_dek => Ok (data_nonce ++ data_ciphertext, base64_encode (kek_nonce ++ encrypted_dek))
          end
    end.

(** [src/dfs/common/src/auth/sse.rs:64-110 decrypt_object] *)
Definition decrypt_object (mgr : SseManager) (ciphertext : bytes) (dek_b64 : string) : outcome bytes :=
  match base64_decode dek_b64 with
  | None => Err "Invalid base64 DEK"
  | Some dek_blob =>
      if length dek_blob <? 60 then Err "Encrypted DEK too short"
      else if negb (valid_key (kek mgr)) then Err "Invalid KEK"
      else
        match open (kek mgr) (take 12 dek_blob) (drop 12 dek_blob) with
        | None => Err "DEK decryption failed"
        | Some dek =>
            if negb (length dek =? 32) then Err "Decrypted DEK has wrong length"
            else if length ciphertext <? 28 then Err "Ciphertext too short"
            else
              match open dek (take 12 ciphertext) (drop 12 ciphertext) with
              | None => Err "Data decryption failed"
              | Some plaintext => Ok plaintext
              end
        end
  end.

(** What was encrypted is decrypted, whatever the random bytes. *)
Lemma decrypt_encrypted mgr dek data_nonce kek_nonce plaintext ciphertext dek_b64 :
  length data_nonce = 12 → length kek_nonce = 12 →
  encrypt_object mgr dek data_nonce kek_nonce plaintext = Ok (ciphertext, dek_b64) →
  decrypt_object mgr ciphertext dek_b64 = Ok plaintext.
Proof.
  intros Hn1 Hn2. unfold encrypt_object, valid_key. destruct (length dek =? 32) eqn:Hd; [|done]. simpl.
  destruct (seal dek data_nonce plaintext) as [c|] eqn:Hc; [|done].
  destruct (length (kek mgr) =? 32) eqn:Hk; [|done]. simpl.
  destruct (seal (kek mgr) kek_nonce dek) as [e|] eqn:He; [|done]. intros [= <- <-].
  pose proof (seal_length _ _ _ _ Hc). pose proof (seal_length _ _ _ _ He). apply Nat.eqb_eq in Hd.
  unfold decrypt_object, valid_key. rewrite base64_roundtrip.
  rewrite (proj2 (Nat.ltb_ge _ _)) by (rewrite length_app; lia). rewrite Hk. simpl.
  rewrite take_app_length', drop_app_length' by done. rewrite (open_seal _ _ _ _ He).
  rewrite (proj2 (Nat.eqb_eq _ _)) by done. simpl.
  rewrite (proj2 (Nat.ltb_ge _ _)) by (rewrite length_app; lia).
  rewrite take_app_length', drop_app_length' by done. by rewrite (open_seal _ _ _ _ Hc).
Qed.

End sse.

(** An encryption and an encoding with the promised contract, to evaluate
    examples. *)
Definition toy_aead : Aead.
Proof.
  refine {| seal := λ _ _ p, Some (p ++ replicate 16 x00);
            open := λ _ _ c, Some (take (length c - 16) c);
            base64_encode := String.string_of_list_byte; base64_decode := λ s, Some (String.list_byte_of_string s) |}.
  - intros _ _ p c [= <-]. rewrite length_app. simpl length. by rewrite Nat.add_sub, take_app_length.
  - intros _ _ p c [= <-]. by rewrite length_app.
  - intros b. by rewrite String.list_byte_of_string_of_list_byte.
Defined.
