(* ===== verification/S3Base.v ===== *)
(** * The S3 gateway: text, requests and the file store it uses

    What the handlers of dfs/s3_server/src/handlers.rs use of the standard
    library, the effects of a handler (calls of the client library, random
    bytes, the clock), its responses, and an abstract file store that answers
    the calls as the client library does when nothing fails. *)

From Stdlib Require Import Strings.Byte.
From S2P Require Import Prelude Text MasterState Erasure Program.

(** ** Strings *)

(** `s.ends_with(suf)`. *)
Fixpoint ends_with (suf s : string) : bool :=
  bool_decide (s = suf) || match s with EmptyString => false | String _ s => ends_with suf s end.

(** `s.strip_prefix(pre)` and `s.strip_suffix(suf)`. *)
Fixpoint strip_prefix (pre s : string) : option string :=
  match pre, s with
  | EmptyString, _ => Some s
  | String a pre, String b s => if decide (a = b) then strip_prefix pre s else None
  | String _ _, EmptyString => None
  end.
Fixpoint strip_suffix (suf s : string) : option string :=
  if decide (s = suf) then Some ""
  else match s with EmptyString => None | String a s => String a <$> strip_suffix suf s end.

(** `s.trim_matches(c)`. *)
Fixpoint trim_start_char (c : ascii) (s : string) : string :=
  match s with
  | EmptyString => ""
  | String a s' => if decide (a = c) then trim_start_char c s' else s
  end.
Fixpoint trim_end_char (c : ascii) (s : string) : string :=
  match s with
  | EmptyString => ""
  | String a s => let t := trim_end_char c s in if decide (a = c ∧ t = "") then "" else String a t
  end.
Definition trim_matches (c : ascii) (s : string) : string := trim_end_char c (trim_start_char c s).

(** `s.trim_end_matches(suf)`, for a suffix that is not empty: each round drops
    at least one character. *)
Fixpoint trim_end_fuel (fuel : nat) (suf s : string) : string :=
  match fuel with
  | 0 => s
  | S fuel => match strip_suffix suf s with Some p => trim_end_fuel fuel suf p | None => s end
  end.
Definition trim_end_matches (suf s : string) : string := trim_end_fuel (String.length s) suf s.

(** `s.split('/').next_back().unwrap()`. *)
Definition file_name (p : string) : string := default "" (last (split_on "/" p)).

(** `Path::new(p).parent()` of a relative path: the components without the last
    one, without empty and `.` components at the end. *)
Fixpoint trim_components (first : bool) (l : list string) : list string :=
  match l with
  | [] => []
  | x :: l =>
      let l := trim_components false l in
      if bool_decide (l = []) && (bool_decide (x = "") || (bool_decide (x = ".") && negb first)) then [] else x :: l
  end.
Definition parent (p : string) : option string :=
  match trim_components true (split_on "/" p) with
  | [] => None
  | l => Some (join "/" (trim_components true (removelast l)))
  end.

(** ** Numbers *)

(** `parse::<u64>()`, `parse::<i32>()` and `usize::from_str_radix(s, 16)`: a sign,
    then digits, at least one, and no overflow. *)
Definition digit_value (radix : N) (a : ascii) : option N :=
  match hex_value a with Some v => if (v <? radix)%N then Some v else None | None => None end.
Fixpoint digits (radix acc : N) (s : string) : option N :=
  match s with
  | EmptyString => Some acc
  | String a s => match digit_value radix a with Some v => digits radix (acc * radix + v) s | None => None end
  end.
Definition magnitude (radix : N) (s : string) : option N :=
  match s with EmptyString => None | _ => digits radix 0 s end.
Definition unsigned (radix bound : N) (s : string) : option N :=
  match (match s with String "+" s => magnitude radix s | _ => magnitude radix s end) with
  | Some n => if (n <? bound)%N then Some n else None
  | None => None
  end.
Definition parse_u64 (s : string) : option N := unsigned 10 (2 ^ 64) s.
Definition parse_usize_hex (s : string) : option N := unsigned 16 (2 ^ 64) s.
Definition parse_i32 (s : string) : option Z :=
  match s with
  | String "-" s => match magnitude 10 s with
                    | Some n => if (n <=? 2 ^ 31)%N then Some (- Z.of_N n)%Z else None
                    | None => None
                    end
  | _ => match unsigned 10 (2 ^ 31) s with Some n => Some (Z.of_N n) | None => None end
  end.

(** ** Bytes and text *)

Definition to_string (b : bytes) : string := String.string_of_list_byte b.
Definition of_string (s : string) : bytes := String.list_byte_of_string s.

(** `std::str::from_utf8(b).is_ok()`. *)
Definition continuation (b : byte) : bool := let n := Byte.to_N b in ((128 <=? n) && (n <=? 191))%N.
Definition between (lo hi : N) (b : byte) : bool := let n := Byte.to_N b in ((lo <=? n) && (n <=? hi))%N.
Fixpoint valid_utf8 (l : bytes) : bool :=
  match l with
  | [] => true
  | a :: l1 =>
      if between 0 127 a then valid_utf8 l1
      else
        match l1 with
        | [] => false
        | b :: l2 =>
            if between 194 223 a then continuation b && valid_utf8 l2
            else
              match l2 with
              | [] => false
              | c :: l3 =>
                  if between 224 239 a then
                    (if between 224 224 a then between 160 191 b
                     else if between 237 237 a then between 128 159 b else continuation b)
                    && continuation c && valid_utf8 l3
                  else
                    match l3 with
                    | [] => false
                    | d :: l4 =>
                        (if between 240 240 a then between 144 191 b
                         else if between 244 244 a then between 128 143 b
                         else between 241 243 a && continuation b)
                        && continuation c && continuation d && valid_utf8 l4
                    end
              end
        end
  end.
Definition from_utf8 (b : bytes) : option string := if valid_utf8 b then Some (to_string b) else None.

(** ** Requests and responses *)

Inductive Method : Type := GET | PUT | POST | DELETE | HEAD | OtherMethod.
#[export] Instance method_eq_dec : EqDecision Method.
Proof. solve_decision. Defined.

(** [src/dfs/s3_server/src/handlers.rs:20-41 S3Query] *)
Record S3Query : Type := mkS3Query {
  action : option string;
  uploads : option string;
  delete_param : option string;
  upload_id : option string;
  part_number : option Z;
  q_prefix : option string;
  delimiter : option string;
  list_type : option Z;
  continuation_token : option string;
  start_after : option string;
  max_keys : option Z;
  policy : option string;
}.

(** [src/dfs/s3_server/src/s3_types.rs:54-67 Object] *)
Record Object : Type := mkObject {
  obj_key : string;
  obj_last_modified : string;
  obj_etag : string;
  obj_size : N;
}.

(** [src/dfs/s3_server/src/s3_types.rs:144-169 ListBucketResultV2] *)
Record ListBucketResultV2 : Type := mkListBucketResultV2 {
  v2_name : string;
  v2_prefix : string;
  v2_max_keys : Z;
  v2_is_truncated : bool;
  v2_contents : list Object;
  v2_common_prefixes : list string;
  v2_key_count : Z;
  v2_continuation_token : option string;
  v2_next_continuation_token : option string;
  v2_start_after : option string;
}.

(** What a response carries; the XML documents are kept as the values they are
    written from. *)
Inductive Body : Type :=
  | NoBody
  | Data (b : bytes)
  | Text (s : string)
  | ListAllMyBucketsResult (names : list string)
  | ListBucketResult (name prefix : string) (contents : list Object) (common_prefixes : list string)
  | ListBucketV2 (r : ListBucketResultV2)
  | InitiateMultipartUploadResult (bucket key upload_id : string)
  | CompleteMultipartUploadResult (location bucket key etag : string)
  | CopyObjectResult (last_modified etag : string)
  | DeleteObjectsResult (deleted : list string) (errors : list (string * string))
  | BucketNotEmpty (bucket : string).

Record HttpResponse : Type := mkHttp {
  status : N;
  resp_headers : gmap string string;
  resp_body : Body;
}.

(** [src/dfs/s3_server/src/handlers.rs:44-57 xml_response] *)
Definition xml_response (status : N) (body : Body) : HttpResponse :=
  mkHttp status {["content-type" := "application/xml"]} body.
Definition empty_response (status : N) : HttpResponse := mkHttp status ∅ NoBody.

(** ** Effects *)

(** A call of the client library answers or fails with a message. *)
Notation result A := (A + string)%type.

Inductive StoreEffect : Type → Type :=
  | CreateFile (data : bytes) (dest : string) : StoreEffect (result unit)
  | DeleteFile (p : string) : StoreEffect (result unit)
  | RenameFile (src dest : string) : StoreEffect (result unit)
  | ListFiles (p : string) : StoreEffect (result (list string))
  | ListAllFiles : StoreEffect (result (list string))
  | GetFile (p : string) : StoreEffect (result bytes)
  | GetFileInfo (p : string) : StoreEffect (result (option FileMetadata))
  | FileExists (p : string) : StoreEffect (result bool)
  | ReadFileRange (p : string) (offset len : N) : StoreEffect (result bytes)
  | NewUuid : StoreEffect string
  | RandomBytes (n : nat) : StoreEffect bytes
  | UtcNow : StoreEffect N.

Notation S3 := (Prog StoreEffect).

(** ** The store *)

(** Files by path with their content, checksum and creation time. *)
Record Store : Type := mkStore {
  st_files : gmap string (bytes * string * N);
  st_uuids : list string;
  st_random : list byte;
  st_now : N;
}.

Definition eta_store (s : Store) : Store := mkStore (st_files s) (st_uuids s) (st_random s) (st_now s).
#[global] Instance upd_st_files : Upd st_files := ltac:(upd_tac eta_store st_files).
#[global] Instance upd_st_uuids : Upd st_uuids := ltac:(upd_tac eta_store st_uuids).
#[global] Instance upd_st_random : Upd st_random := ltac:(upd_tac eta_store st_random).

Section store.
  Context `{HashOrder} (md5_hex : bytes → string).

Definition info_of (p : string) (e : bytes * string * N) : FileMetadata :=
  mkFileMetadata p (N.of_nat (length e.1.1)) [] e.1.2 e.2 0 0 0 0 0.

(** The content of a file. An empty file cannot be read: the chunk server
    refuses an offset at the end of a block. *)
Definition read_store (p : string) (s : Store) : result bytes :=
  match st_files s !! p with
  | None => inr "File not found"
  | Some ([], _, _) => inr "Failed to read block from any location"
  | Some (d, _, _) => inl d
  end.

(** How the client library answers when nothing fails: a file is created once,
    listing is by prefix and in no particular order, random bytes are drawn
    from a supply that is long enough. *)
Definition store_step (B : Type) (e : StoreEffect B) : Store → B * Store :=
  match e in StoreEffect B return Store → B * Store with
  | CreateFile data dest => λ s,
      match st_files s !! dest with
      | Some _ => (inr "Failed to create file: File already exists", s)
      | None => (inl tt, s <| st_files := <[dest := (data, md5_hex data, st_now s)]> (st_files s) |>)
      end
  | DeleteFile p => λ s,
      match st_files s !! p with
      | Some _ => (inl tt, s <| st_files := delete p (st_files s) |>)
      | None => (inr "Failed to delete file: File not found", s)
      end
  | RenameFile src dest => λ s,
      match st_files s !! src, st_files s !! dest with
      | Some e, None => (inl tt, s <| st_files := <[dest := e]> (delete src (st_files s)) |>)
      | Some _, Some _ => (inr "Failed to rename file: Destination file already exists", s)
      | None, _ => (inr "Failed to rename file: Source file not found", s)
      end
  | ListFiles p => λ s, (inl (List.filter (String.prefix p) (entries (st_files s)).*1), s)
  | ListAllFiles => λ s, (inl (entries (st_files s)).*1, s)
  | GetFile p => λ s, (read_store p s, s)
  | GetFileInfo p => λ s, (inl (info_of p <$> st_files s !! p), s)
  | FileExists p => λ s, (inl (bool_decide (is_Some (st_files s !! p))), s)
  | ReadFileRange p offset len => λ s,
      (match read_store p s with
       | inl d => if (N.of_nat (length d) <=? offset)%N then inr "Offset exceeds file size"
                  else inl (take (N.to_nat len) (drop (N.to_nat offset) d))
       | inr e => inr e
       end, s)
  | NewUuid => λ s, (default "" (head (st_uuids s)), s <| st_uuids := tail (st_uuids s) |>)
  | RandomBytes n => λ s,
      (take n (st_random s ++ replicate n x00), s <| st_random := drop n (st_random s) |>)
  | UtcNow => λ s, (st_now s, s)
  end.

End store.
