(* ===== verification/S3Handlers.v ===== *)
(** * The S3 gateway: request handlers

    dfs/s3_server/src/handlers.rs: buckets and objects are files below
    /bucket/key; an object written in parts is a directory of numbered files
    with a marker; headers are kept in a JSON file beside the object. MD5, hex
    and JSON, XML input and date formats are external and parameters; temporary
    files are left out. *)

From Stdlib Require Import Strings.Byte.
From stdpp Require Import pretty.
From S2P Require Import Prelude Text MasterState Erasure Program Sse S3Base.

Definition CRLF : bytes := [x0d; x0a].

(** `windows(2).position(|w| w == b"\r\n")`. *)
Fixpoint find_crlf (l : bytes) : option nat :=
  match l with
  | a :: (b :: _) as l' =>
      if Byte.eqb a x0d && Byte.eqb b x0a then Some 0 else S <$> find_crlf l'
  | _ => None
  end.

(** The loop of the decoder; every round consumes at least the line end, so the
    length is enough fuel. The slice after the data of a chunk is out of range
    when the line end after it is missing.
    [src/dfs/s3_server/src/handlers.rs:295-318 decode_chunked_payload] *)
Fixpoint decode_chunks (fuel : nat) (result current : bytes) : outcome bytes :=
  match fuel, current with
  | 0, _ | _, [] => Ok result
  | S fuel, _ =>
      match find_crlf current with
      | None => Ok result
      | Some line_end =>
          let header_str := default "" (from_utf8 (take line_end current)) in
          let chunk_size := N.to_nat (default 0%N (parse_usize_hex (default "0" (head (split_on ";" header_str))))) in
          let current := drop (line_end + 2) current in
          if chunk_size =? 0 then Ok result
          else if chunk_size <=? length current then
            if chunk_size + 2 <=? length current
            then decode_chunks fuel (result ++ take chunk_size current) (drop (chunk_size + 2) current)
            else Panic "range start index out of range"
          else Ok result
      end
  end.

(** [src/dfs/s3_server/src/handlers.rs:291-320 decode_chunked_payload] *)
Definition decode_chunked_payload (body : bytes) : outcome bytes := decode_chunks (length body) [] body.

Section handlers.
  Context `{HashOrder} `{Aead}.
  Context (md5_hex : bytes → string) (hex_decode : string → option bytes).
  (** Writing and reading the metadata of an object; a valid policy document;
      the keys of a deletion request; `Url` decoding; dates. *)
  Context (json_of : gmap string string → option bytes) (metadata_of : string → option (gmap string string)).
  Context (valid_json valid_policy : bytes → bool) (delete_request : string → option (list string)).
  Context (percent_decode_lossy : string → string).
  Context (iso_date http_date rfc3339 : N → string).
  Context (valid_header_name valid_header_value : string → bool).
  Context (sse_manager : option SseManager).

(** `e.to_string().contains(..)` of an error. *)
Definition says (text e : string) : bool := contains text e.

Definition quote : ascii := "034"%char.
Definition quoted (s : string) : string := String quote (s +:+ String quote "").
Definition object_path (bucket key : string) : string := "/" +:+ bucket +:+ "/" +:+ key.
Definition mpu_dir (upload_id : string) : string := "/.s3_mpu/" +:+ upload_id.

(** A call whose result is dropped. *)
Definition ignore {A} (e : StoreEffect A) : S3 unit := do* perform e in Ret tt.

(** A JSON document beside an object: the old one is deleted when [replace].
    [src/dfs/s3_server/src/handlers.rs:590-597 copy_object] *)
Definition save_metadata (replace : bool) (p : string) (headers : gmap string string) : S3 unit :=
  match json_of headers with
  | Some json =>
      do* (if replace then ignore (DeleteFile (p +:+ ".meta")) else Ret tt) in
      ignore (CreateFile json (p +:+ ".meta"))
  | None => Ret tt
  end.

(** The headers kept with an object.
    [src/dfs/s3_server/src/handlers.rs:1059-1062 get_object] *)
Definition load_metadata (p : string) : S3 (option (gmap string string)) :=
  let* content := perform (GetFile (p +:+ ".meta")) in
  Ret (match content with
       | inl c => from_utf8 c ≫= metadata_of
       | inr _ => None
       end).

(** Encryption of an object with fresh keys, when a key is configured.
    [src/dfs/s3_server/src/handlers.rs:948-960 put_object] *)
Definition encrypt_body (body : bytes) : S3 (result (bytes * option string)) :=
  match sse_manager with
  | None => Ret (inl (body, None))
  | Some mgr =>
      let* dek := perform (RandomBytes 32) in
      let* data_nonce := perform (RandomBytes 12) in
      let* kek_nonce := perform (RandomBytes 12) in
      Ret (match encrypt_object mgr dek data_nonce kek_nonce body with
           | Ok (ciphertext, dek_b64) => inl (ciphertext, Some dek_b64)
           | Err e => inr e
           | Panic e => inr e
           end)
  end.

(** [src/dfs/s3_server/src/handlers.rs:543-555 copy_object] *)
Definition decrypt_body (encrypted_dek : option string) (data : bytes) : result bytes :=
  match encrypted_dek, sse_manager with
  | Some dek_b64, Some mgr =>
      match decrypt_object mgr data dek_b64 with Ok plain => inl plain | Err e => inr e | Panic e => inr e end
  | _, _ => inl data
  end.

(** ** Multipart uploads *)

(** [src/dfs/s3_server/src/handlers.rs:234-253 initiate_multipart_upload] *)
Definition initiate_multipart_upload (bucket key : string) : S3 HttpResponse :=
  let* upload_id := perform NewUuid in
  do* ignore (CreateFile [] (mpu_dir upload_id +:+ "/.s3keep")) in
  Ret (xml_response 200 (InitiateMultipartUploadResult bucket key upload_id)).

(** [src/dfs/s3_server/src/handlers.rs:255-289 upload_part] *)
Definition upload_part (upload_id : string) (part_number : Z) (body : bytes) : S3 HttpResponse :=
  let part_path := mpu_dir upload_id +:+ "/" +:+ pretty part_number in
  let etag := quoted (md5_hex body) in
  let* r := perform (CreateFile body part_path) in
  match r with
  | inl _ =>
      do* ignore (CreateFile (of_string etag) (part_path +:+ ".etag")) in
      Ret (mkHttp 200 {["etag" := etag]} NoBody)
  | inr _ => Ret (empty_response 500)
  end.

(** The checksums of the parts: the files `<number>.etag` of the upload.
    [src/dfs/s3_server/src/handlers.rs:331-353 complete_multipart_upload] *)
Fixpoint part_checksums (fs : list string) : S3 (list (Z * bytes)) :=
  match fs with
  | [] => Ret []
  | f :: fs =>
      let* here :=
        (match strip_suffix ".etag" (file_name f) ≫= parse_i32 with
         | Some num =>
             if ends_with ".etag" f then
               let* content := perform (GetFile f) in
               Ret (match content with
                    | inl c =>
                        match from_utf8 c ≫= λ s, hex_decode (trim_matches quote s) with
                        | Some md5 => [(num, md5)]
                        | None => []
                        end
                    | inr _ => []
                    end)
             else Ret []
         | None => Ret []
         end) in
      let* rest := part_checksums fs in
      Ret (here ++ rest)
  end.

(** Parts move below the object; markers and checksums do not.
    [src/dfs/s3_server/src/handlers.rs:392-408 complete_multipart_upload] *)
Definition move_part (dest_dir f : string) : S3 unit :=
  if ends_with ".s3keep" f then Ret tt
  else if ends_with ".etag" f then ignore (DeleteFile f)
  else ignore (RenameFile f (dest_dir +:+ "/" +:+ file_name f)).

(** [src/dfs/s3_server/src/handlers.rs:322-432 complete_multipart_upload] *)
Definition complete_multipart_upload (bucket key upload_id : string) : S3 HttpResponse :=
  let* listed := perform (ListFiles (mpu_dir upload_id)) in
  let* parts_info := (match listed with inl fs => part_checksums fs | inr _ => Ret [] end) in
  let parts_info := sort_by (λ x y, (x.1 <=? y.1)%Z) parts_info in
  let final_etag := quoted (md5_hex (mjoin parts_info.*2) +:+ "-" +:+ pretty (length parts_info)) in
  let dest_dir := object_path bucket key in
  let* old := perform (ListFiles dest_dir) in
  do* (match old with
       | inl fs => if decide (dest_dir ∈ fs) then ignore (DeleteFile dest_dir) else Ret tt
       | inr _ => Ret tt
       end) in
  let* marker := perform (CreateFile [] (dest_dir +:+ "/.s3_mpu_completed")) in
  match marker with
  | inr _ => Ret (empty_response 500)
  | inl _ =>
      let* listed := perform (ListFiles (mpu_dir upload_id)) in
      do* (match listed with inl fs => for_each fs (move_part dest_dir) | inr _ => Ret tt end) in
      do* ignore (DeleteFile (mpu_dir upload_id +:+ "/.s3keep")) in
      do* save_metadata false dest_dir {["ETag" := final_etag]} in
      Ret (xml_response 200 (CompleteMultipartUploadResult
             ("http://localhost:9000/" +:+ bucket +:+ "/" +:+ key) bucket key final_etag))
  end.

(** [src/dfs/s3_server/src/handlers.rs:434-447 abort_multipart_upload] *)
Definition abort_multipart_upload (upload_id : string) : S3 HttpResponse :=
  let* listed := perform (ListFiles (mpu_dir upload_id)) in
  do* (match listed with inl fs => for_each fs (λ f, ignore (DeleteFile f)) | inr _ => Ret tt end) in
  Ret (empty_response 204).

(** ** Several objects *)

(** [src/dfs/s3_server/src/handlers.rs:463-484 delete_multiple_objects] *)
Fixpoint delete_keys (bucket : string) (keys : list string) : S3 (list string * list (string * string)) :=
  match keys with
  | [] => Ret ([], [])
  | key :: keys =>
      let* r := perform (DeleteFile (object_path bucket key)) in
      let* rest := delete_keys bucket keys in
      Ret (match r with
           | inl _ => (key :: rest.1, rest.2)
           | inr e =>
               if says "not found" e || says "File not found" e then (key :: rest.1, rest.2)
               else (rest.1, (key, e) :: rest.2)
           end)
  end.

(** [src/dfs/s3_server/src/handlers.rs:449-493 delete_multiple_objects] *)
Definition delete_multiple_objects (bucket : string) (body : bytes) : S3 HttpResponse :=
  match from_utf8 body ≫= delete_request with
  | None => Ret (empty_response 400)
  | Some keys =>
      let* r := delete_keys bucket keys in
      Ret (xml_response 200 (DeleteObjectsResult r.1 r.2))
  end.

Definition dek_header : string := "x-amz-sse-encrypted-dek".

(** [src/dfs/s3_server/src/handlers.rs:495-608 copy_object] *)
Definition copy_object (bucket key source : string) : S3 HttpResponse :=
  let dest := object_path bucket key in
  let decoded_source := percent_decode_lossy source in
  let source_path := if String.prefix "/" decoded_source then decoded_source else "/" +:+ decoded_source in
  let* src := perform (GetFile source_path) in
  match src with
  | inr _ => Ret (empty_response 404)
  | inl src_body =>
      let* metadata := load_metadata source_path in
      match decrypt_body (metadata ≫= λ m, m !! dek_header) src_body with
      | inr _ => Ret (empty_response 500)
      | inl src_body =>
          let etag := quoted (md5_hex src_body) in
          let* encrypted := encrypt_body src_body in
          match encrypted with
          | inr _ => Ret (empty_response 500)
          | inl (write_body, dst_encrypted_dek) =>
              let* created := perform (CreateFile write_body dest) in
              match created with
              | inr _ => Ret (empty_response 500)
              | inl _ =>
                  do* save_metadata true dest
                        (match dst_encrypted_dek with
                         | Some dek => <[dek_header := dek]> {["ETag" := etag]}
                         | None => {["ETag" := etag]}
                         end) in
                  let* now := perform UtcNow in
                  Ret (xml_response 200 (CopyObjectResult (rfc3339 now) etag))
              end
          end
      end
  end.

(** ** Buckets *)

Definition policy_path (bucket : string) : string := "/" +:+ bucket +:+ "/.s3_bucket_policy".

(** [src/dfs/s3_server/src/handlers.rs:658-665 bucket_policy_not_found] *)
Definition bucket_policy_not_found (bucket : string) : HttpResponse :=
  xml_response 404 (Text ("<Error><Code>NoSuchBucketPolicy</Code><Message>The bucket policy does not exist</Message><BucketName>"
    +:+ bucket +:+ "</BucketName></Error>")).

(** [src/dfs/s3_server/src/handlers.rs:610-625 get_bucket_policy] *)
Definition get_bucket_policy (bucket : string) : S3 HttpResponse :=
  let* r := perform (GetFile (policy_path bucket)) in
  Ret (match r with
       | inl data => if valid_json data then mkHttp 200 {["content-type" := "application/json"]} (Data data)
                     else bucket_policy_not_found bucket
       | inr _ => bucket_policy_not_found bucket
       end).

(** [src/dfs/s3_server/src/handlers.rs:627-650 put_bucket_policy] *)
Definition put_bucket_policy (bucket : string) (body : bytes) : S3 HttpResponse :=
  if negb (valid_policy body) then Ret (xml_response 400 
      (Text "<Error><Code>MalformedPolicy</Code><Message>Bucket policy must be valid JSON</Message></Error>"))
  else
    let* r := perform (CreateFile body (policy_path bucket)) in
    Ret (match r with
         | inl _ => empty_response 204
         | inr _ => xml_response 500
             (Text "<Error><Code>InternalError</Code><Message>Failed to store bucket policy</Message></Error>")
         end).

(** [src/dfs/s3_server/src/handlers.rs:652-656 delete_bucket_policy] *)
Definition delete_bucket_policy (bucket : string) : S3 HttpResponse :=
  do* ignore (DeleteFile (policy_path bucket)) in Ret (empty_response 204).

(** [src/dfs/s3_server/src/handlers.rs:667-687 create_bucket] *)
Definition create_bucket (bucket : string) : S3 HttpResponse :=
  let* r := perform (CreateFile [] ("/" +:+ bucket +:+ "/.s3keep")) in
  Ret (match r with
       | inl _ => empty_response 200
       | inr e => empty_response (if says "already exists" e then 409 else 500)
       end).

(** [src/dfs/s3_server/src/handlers.rs:689-713 delete_bucket] *)
Definition delete_bucket (bucket : string) : S3 HttpResponse :=
  let* r := perform (ListFiles ("/" +:+ bucket)) in
  match r with
  | inl fs =>
      if (match fs with [] => true | [f] => ends_with ".s3keep" f | _ => false end) then
        do* ignore (DeleteFile ("/" +:+ bucket +:+ "/.s3keep")) in Ret (empty_response 204)
      else Ret (xml_response 409 (BucketNotEmpty bucket))
  | inr _ => Ret (empty_response 404)
  end.

(** [src/dfs/s3_server/src/handlers.rs:715-721 head_bucket] *)
Definition head_bucket (bucket : string) : S3 HttpResponse :=
  let* r := perform (ListFiles ("/" +:+ bucket)) in
  Ret (match r with inl _ => empty_response 200 | inr _ => empty_response 404 end).

(** The first component of a path.
    [src/dfs/s3_server/src/handlers.rs:91-97 list_buckets] *)
Definition bucket_of (name : string) : string := (split_once "/" (trim_matches "/" name)).1.

(** The names come out of a hash set.
    [src/dfs/s3_server/src/handlers.rs:84-130 list_buckets] *)
Definition list_buckets : S3 HttpResponse :=
  let* r := perform ListAllFiles in
  Ret (match r with
       | inl fs =>
           let unique_buckets : gset string := list_to_set (List.filter (λ b, negb (bool_decide (b = ""))) (bucket_of <$> fs)) in
           xml_response 200 (ListAllMyBucketsResult (entries (gset_to_gmap tt unique_buckets)).*1)
       | inr _ => empty_response 500
       end).

(** ** Listing objects *)

(** What a listed file is: nothing to show, a common prefix, or an object. *)
Inductive Entry : Type :=
  | Hidden
  | Common (prefix : string)
  | Shown (key : string).

Definition internal (f : string) : bool :=
  ends_with ".s3keep" f || ends_with ".s3_mpu_completed" f || ends_with ".meta" f.

(** [src/dfs/s3_server/src/handlers.rs:1591-1642 list_objects_v2] *)
Definition entry_of (bucket : string) (prefix delimiter : option string) (f : string) : Entry :=
  if internal f then Hidden
  else
    match strip_prefix ("/" +:+ bucket +:+ "/") f with
    | None => Hidden
    | Some key =>
        if (match prefix with Some p => negb (String.prefix p key) | None => false end) then Hidden
        else
          match delimiter with
          | Some d =>
              let n := String.length (default "" prefix) in
              match String.index 0 d (String.substring n (String.length key) key) with
              | Some idx => Common (String.substring 0 (n + idx + String.length d) key)
              | None => Shown key
              end
          | None => Shown key
          end
    end.

Definition empty_etag : string := quoted "d41d8cd98f00b204e9800998ecf8427e".
Definition some_date : string := "2025-01-01T00:00:00.000Z".

(** Size, checksum and date of an object.
    [src/dfs/s3_server/src/handlers.rs:1644-1661 list_objects_v2] *)
Definition object_of (f key : string) : S3 Object :=
  let* r := perform (GetFileInfo f) in
  Ret (match r with
       | inl (Some info) =>
           mkObject key (if (0 <? created_at_ms info)%N then iso_date (created_at_ms info) else some_date)
             (if decide (etag_md5 info = "") then empty_etag else quoted (etag_md5 info)) (file_size info)
       | _ => mkObject key some_date empty_etag 0
       end).

(** The directories of objects that were written in parts.
    [src/dfs/s3_server/src/handlers.rs:732-738 list_objects] *)
Definition mpu_objects_of (fs : list string) : gset string :=
  list_to_set ((λ f, trim_end_matches "/.s3_mpu_completed" (trim_matches "/" f)) <$>
                 List.filter (ends_with ".s3_mpu_completed") fs).

(** [src/dfs/s3_server/src/handlers.rs:740-852 list_objects] *)
Fixpoint list_loop (bucket : string) (params : S3Query) (mpu : gset string) (seen : gset string) (fs : list string)
  : S3 (list Object * list string) :=
  match fs with
  | [] => Ret ([], [])
  | f :: fs =>
      if (match parent (trim_matches "/" f) with Some p => bool_decide (p ∈ mpu) | None => false end)
      then list_loop bucket params mpu seen fs
      else
        match entry_of bucket (q_prefix params) (delimiter params) f with
        | Hidden => list_loop bucket params mpu seen fs
        | Common prefix =>
            let* rest := list_loop bucket params mpu ({[prefix]} ∪ seen) fs in
            Ret (if decide (prefix ∈ seen) then rest else (rest.1, prefix :: rest.2))
        | Shown key =>
            let* o := object_of f key in
            let* rest := list_loop bucket params mpu seen fs in
            Ret (o :: rest.1, rest.2)
        end
  end.

(** [src/dfs/s3_server/src/handlers.rs:854-897 list_objects] *)
Fixpoint list_mpu (bucket : string) (params : S3Query) (paths : list string) : S3 (list Object) :=
  match paths with
  | [] => Ret []
  | mpu_path :: paths =>
      match strip_prefix (bucket +:+ "/") mpu_path with
      | None => list_mpu bucket params paths
      | Some key =>
          if (match q_prefix params with Some p => negb (String.prefix p key) | None => false end)
          then list_mpu bucket params paths
          else
            let* metadata := load_metadata mpu_path in
            let etag := default (quoted "000-MPU") (metadata ≫= λ m, m !! "ETag") in
            let* rest := list_mpu bucket params paths in
            Ret (mkObject key some_date etag 0 :: rest)
      end
  end.

(** [src/dfs/s3_server/src/handlers.rs:723-916 list_objects] *)
Definition list_objects (bucket : string) (params : S3Query) : S3 HttpResponse :=
  let* r := perform (ListFiles ("/" +:+ bucket)) in
  match r with
  | inl fs =>
      let mpu := mpu_objects_of fs in
      let* listed := list_loop bucket params mpu ∅ fs in
      let* more := list_mpu bucket params (entries (gset_to_gmap tt mpu)).*1 in
      Ret (xml_response 200 (ListBucketResult bucket (default "" (q_prefix params)) (listed.1 ++ more) listed.2))
  | inr _ => Ret (empty_response 500)
  end.

(** The state of the loop of [list_objects_v2]. *)
Record Page : Type := mkPage {
  pg_objects : list Object;
  pg_prefixes : list string;
  pg_seen : gset string;
  pg_count : Z;
}.

Definition eta_page (p : Page) : Page := mkPage (pg_objects p) (pg_prefixes p) (pg_seen p) (pg_count p).
#[local] Instance upd_pg_objects : Upd pg_objects := ltac:(upd_tac eta_page pg_objects).
#[local] Instance upd_pg_prefixes : Upd pg_prefixes := ltac:(upd_tac eta_page pg_prefixes).
#[local] Instance upd_pg_seen : Upd pg_seen := ltac:(upd_tac eta_page pg_seen).
#[local] Instance upd_pg_count : Upd pg_count := ltac:(upd_tac eta_page pg_count).

(** [prev] is the file before the rest; the answer is the page and, when it was
    cut off, the token. `files.get(i - 1)` is out of range at the first index.
    [src/dfs/s3_server/src/handlers.rs:1566-1675 list_objects_v2] *)
Fixpoint page_loop (bucket : string) (params : S3Query) (limit : Z) (prev : option string) (fs : list string) (pg : Page)
  : S3 (Page * option (option string)) :=
  match fs with
  | [] => Ret (pg, None)
  | f :: fs =>
      if (limit <=? pg_count pg)%Z
      then Ret (pg, Some (prev ≫= strip_prefix ("/" +:+ bucket +:+ "/")))
      else
        match entry_of bucket (q_prefix params) (delimiter params) f with
        | Hidden => page_loop bucket params limit (Some f) fs pg
        | Common prefix =>
            page_loop bucket params limit (Some f) fs
              (if decide (prefix ∈ pg_seen pg) then pg
               else pg <| pg_seen := {[prefix]} ∪ pg_seen pg |> <| pg_prefixes := pg_prefixes pg ++ [prefix] |>)
        | Shown key =>
            let* o := object_of f key in
            page_loop bucket params limit (Some f) fs
              (pg <| pg_objects := pg_objects pg ++ [o] |> <| pg_count := (pg_count pg + 1)%Z |>)
        end
  end.

(** The files before the page and the files from its start: those after the
    marker. [src/dfs/s3_server/src/handlers.rs:1549-1564 list_objects_v2] *)
Fixpoint split_at_marker (marker_path : string) (prev : option string) (fs : list string) : option string * list string :=
  match fs with
  | [] => (prev, [])
  | f :: fs' => if negb (String.leb f marker_path) then (prev, fs) else split_at_marker marker_path (Some f) fs'
  end.

(** [src/dfs/s3_server/src/handlers.rs:1536-1697 list_objects_v2] *)
Definition list_objects_v2 (bucket : string) (params : S3Query) : S3 HttpResponse :=
  let* r := perform ListAllFiles in
  match r with
  | inl all_files =>
      let files := sort_by String.leb (List.filter (String.prefix ("/" +:+ bucket +:+ "/")) all_files) in
      let marker := default "" (match start_after params with Some m => Some m | None => continuation_token params end) in
      let '(prev, fs) :=
        if decide (marker = "") then (None, files) else split_at_marker (object_path bucket marker) None files in
      let limit := default 1000%Z (max_keys params) in
      let* page := page_loop bucket params limit prev fs (mkPage [] [] ∅ 0) in
      Ret (xml_response 200 (ListBucketV2 (mkListBucketResultV2 bucket (default "" (q_prefix params)) limit
             (bool_decide (is_Some page.2)) (pg_objects page.1) (pg_prefixes page.1) (pg_count page.1)
             (continuation_token params) (mjoin page.2) (start_after params))))
  | inr _ => Ret (empty_response 500)
  end.

(** ** Objects *)

(** The request headers; the values that are not visible ASCII have no text. *)
Notation Headers := (gmap string (option string)).

Definition header_text (headers : Headers) (name : string) : option string := mjoin (headers !! name).

(** [src/dfs/s3_server/src/handlers.rs:985-997 put_object] *)
Definition object_metadata (etag : string) (headers : Headers) (encrypted_dek : option string) : gmap string string :=
  let meta := foldl (λ m e, match e with
                            | (k, Some v) => if String.prefix "x-amz-meta-" k then <[k := v]> m else m
                            | _ => m
                            end) {["ETag" := etag]} (entries headers) in
  match encrypted_dek with Some dek => <[dek_header := dek]> meta | None => meta end.

(** Creating a file and, when there is one, replacing it.
    [src/dfs/s3_server/src/handlers.rs:969-980 put_object] *)
Definition create_or_replace (data : bytes) (dest : string) : S3 (result unit) :=
  let* created := perform (CreateFile data dest) in
  match created with
  | inr e =>
      if says "already exists" e then
        do* ignore (DeleteFile dest) in
        perform (CreateFile data dest)
      else Ret created
  | inl _ => Ret created
  end.

(** [src/dfs/s3_server/src/handlers.rs:918-1021 put_object] *)
Definition put_object (bucket key : string) (body : bytes) (headers : Headers) : S3 (outcome HttpResponse) :=
  let dest_path := object_path bucket key in
  let content_sha256 := default "unknown" (header_text headers "x-amz-content-sha256") in
  match (if decide (content_sha256 = "STREAMING-AWS4-HMAC-SHA256-PAYLOAD") then decode_chunked_payload body else Ok body) with
  | Ok body =>
      let etag := quoted (md5_hex body) in
      let* encrypted := encrypt_body body in
      match encrypted with
      | inr _ => Ret (Ok (empty_response 500))
      | inl (write_body, encrypted_dek) =>
          let* created := create_or_replace write_body dest_path in
          match created with
          | inl _ =>
              do* save_metadata true dest_path (object_metadata etag headers encrypted_dek) in
              Ret (Ok (mkHttp 200
                (match encrypted_dek with
                 | Some _ => <["x-amz-server-side-encryption" := "AES256"]> {["etag" := etag]}
                 | None => {["etag" := etag]}
                 end) NoBody))
          | inr _ => Ret (Ok (empty_response 500))
          end
      end
  | Err e => Ret (Err e)
  | Panic e => Ret (Panic e)
  end.

(** What the metadata file says: checksum, data key, user headers.
    [src/dfs/s3_server/src/handlers.rs:1063-1077 get_object] *)
Definition read_metadata (etag : string) (metadata : gmap string string)
  : string * option string * gmap string string :=
  foldl (λ acc e,
    let '(etag, dek, hs) := acc in
    let '(k, v) := e in
    if decide (k = "ETag") then (v, dek, hs)
    else if decide (k = dek_header) then (etag, Some v, hs)
    else if String.prefix "x-amz-meta-" k && valid_header_name k && valid_header_value v
    then (etag, dek, <[map_string lower k := v]> hs)
    else acc) (etag, None, ∅) (entries metadata).

Definition sse_header (encrypted_dek : option string) (hs : gmap string string) : gmap string string :=
  match encrypted_dek with Some _ => <["x-amz-server-side-encryption" := "AES256"]> hs | None => hs end.

(** `bytes=start-end` of an object of [total] bytes, in u64 arithmetic.
    [src/dfs/s3_server/src/handlers.rs:1305-1314 get_object] *)
Definition parse_range (total : N) (range_part : string) : option (N * N) :=
  match split_on "-" range_part with
  | [p0; p1] =>
      let start := default 0%N (parse_u64 p0) in
      let last := sub64 total 1 in
      let stop := N.min (default last (parse_u64 p1)) last in
      if (start <=? stop)%N then Some (start, stop) else None
  | _ => None
  end.

Definition range_of (headers : Headers) : option string :=
  header_text headers "range" ≫= strip_prefix "bytes=".

(** `data[start..=end]`. *)
Definition slice_inclusive (data : bytes) (start stop : N) : outcome bytes :=
  if (stop <? N.of_nat (length data))%N
  then Ok (take (N.to_nat (stop - start + 1)) (drop (N.to_nat start) data))
  else Panic "range end index out of range".

Definition content_range (start stop total : N) : string :=
  "bytes " +:+ pretty start +:+ "-" +:+ pretty stop +:+ "/" +:+ pretty total.

(** The body of a complete object cut to the range of the request.
    [src/dfs/s3_server/src/handlers.rs:1301-1344 get_object] *)
Definition cut_range (headers : Headers) (hs : gmap string string) (data : bytes) : outcome (N * gmap string string * bytes) :=
  let total := N.of_nat (length data) in
  match range_of headers ≫= parse_range total with
  | Some (start, stop) =>
      match slice_inclusive data start stop with
      | Ok slice => Ok (206%N, <["content-range" := content_range start stop total]> hs, slice)
      | Err e => Err e
      | Panic e => Panic e
      end
  | None => Ok (200%N, hs, data)
  end.

(** The parts of an object, in the order of their numbers.
    [src/dfs/s3_server/src/handlers.rs:1090-1104 get_object] *)
Definition parts_of (full_path : string) (fs : list string) : list (Z * string) :=
  sort_by (λ x y, (x.1 <=? y.1)%Z)
    (omap (λ f,
       if negb (String.prefix full_path f) || ends_with ".s3keep" f || ends_with ".s3_mpu_completed" f then None
       else (λ n, (n, f)) <$> parse_i32 (file_name f)) fs).

(** Parts that cannot be downloaded are left out.
    [src/dfs/s3_server/src/handlers.rs:1106-1134 get_object] *)
Fixpoint combine_parts (encrypted_dek : option string) (parts : list (Z * string)) : S3 (result bytes) :=
  match parts with
  | [] => Ret (inl [])
  | (_, p) :: parts =>
      let* r := perform (GetFile p) in
      match r with
      | inl part_bytes =>
          match decrypt_body encrypted_dek part_bytes with
          | inl data =>
              let* rest := combine_parts encrypted_dek parts in
              Ret (match rest with inl d => inl (data ++ d) | inr e => inr e end)
          | inr e => Ret (inr e)
          end
      | inr _ => combine_parts encrypted_dek parts
      end
  end.

(** [src/dfs/s3_server/src/handlers.rs:1088-1176 get_object] *)
Definition get_parts (full_path : string) (fs : list string) (headers : Headers) (encrypted_dek : option string)
    (hs : gmap string string) : S3 (outcome HttpResponse) :=
  let* combined := combine_parts encrypted_dek (parts_of full_path fs) in
  match combined with
  | inr _ => Ret (Ok (empty_response 500))
  | inl data =>
      Ret (match cut_range headers hs data with
           | Ok (206%N, hs, slice) =>
               Ok (mkHttp 206 (<["content-length" := pretty (N.of_nat (length slice))]> hs) (Data slice))
           | Ok (code, hs, slice) => Ok (mkHttp code hs (Data slice))
           | Err e => Err e
           | Panic e => Panic e
           end)
  end.

(** A range of an object that is not encrypted is read from the store; [None]
    when the complete object has to be read.
    [src/dfs/s3_server/src/handlers.rs:1181-1272 get_object] *)
Definition get_range (source_path : string) (headers : Headers) (hs : gmap string string) : S3 (option HttpResponse) :=
  match range_of headers with
  | None => Ret None
  | Some range_part =>
      let* found := perform (FileExists source_path) in
      match found, split_on "-" range_part with
      | inl true, [_; _] =>
          let* whole := perform (GetFile source_path) in
          match whole with
          | inl data =>
              let total := N.of_nat (length data) in
              match parse_range total range_part with
              | Some (start, stop) =>
                  let len := (stop - start + 1)%N in
                  let* part := perform (ReadFileRange source_path start len) in
                  Ret (match part with
                       | inl data =>
                           Some (mkHttp 206 (<["content-length" := pretty len]>
                                   (<["content-range" := content_range start stop total]> hs)) (Data data))
                       | inr _ => None
                       end)
              | None => Ret None
              end
          | inr _ => Ret None
          end
      | _, _ => Ret None
      end
  end.

(** [src/dfs/s3_server/src/handlers.rs:1274-1363 get_object] *)
Definition get_whole (source_path : string) (headers : Headers) (encrypted_dek : option string) (hs : gmap string string)
  : S3 (outcome HttpResponse) :=
  let* r := perform (GetFile source_path) in
  Ret (match r with
       | inr _ => Ok (empty_response 404)
       | inl raw_data =>
           match decrypt_body encrypted_dek raw_data with
           | inr _ => Ok (empty_response 500)
           | inl plaintext =>
               match cut_range headers hs plaintext with
               | Ok (code, hs, body) =>
                   Ok (mkHttp code (<["content-length" := pretty (N.of_nat (length body))]> hs) (Data body))
               | Err e => Err e
               | Panic e => Panic e
               end
           end
       end).

(** [src/dfs/s3_server/src/handlers.rs:1023-1363 get_object] *)
Definition get_object (bucket key : string) (headers : Headers) : S3 (outcome HttpResponse) :=
  let full_path := object_path bucket key in
  let* list_res := perform (ListFiles full_path) in
  let is_mpu :=
    match list_res with
    | inl fs => existsb (λ f, String.prefix full_path f && ends_with ".s3_mpu_completed" f) fs
    | inr _ => false
    end in
  let* info := perform (GetFileInfo full_path) in
  let '(etag, last_modified) :=
    match info with
    | inl (Some i) =>
        (if decide (etag_md5 i = "") then empty_etag else quoted (etag_md5 i),
         if (0 <? created_at_ms i)%N then http_date (created_at_ms i) else "Wed, 01 Jan 2025 00:00:00 GMT")
    | _ => (empty_etag, "Wed, 01 Jan 2025 00:00:00 GMT")
    end in
  let* metadata := load_metadata full_path in
  let '(etag, encrypted_dek, hs) := read_metadata etag (default ∅ metadata) in
  if negb (valid_header_value etag) then Ret (Panic "invalid header value")
  else
    let hs := <["last-modified" := last_modified]> (<["etag" := etag]> (sse_header encrypted_dek hs)) in
    if is_mpu then get_parts full_path (match list_res with inl fs => fs | inr _ => [] end) headers encrypted_dek hs
    else
      let* ranged := (match encrypted_dek with None => get_range full_path headers hs | Some _ => Ret None end) in
      match ranged with
      | Some r => Ret (Ok r)
      | None => get_whole full_path headers encrypted_dek hs
      end.

(** [src/dfs/s3_server/src/handlers.rs:1365-1391 delete_object] *)
Definition delete_object (bucket key : string) : S3 HttpResponse :=
  let p := object_path bucket key in
  do* ignore (DeleteFile p) in
  let* listed := perform (ListFiles p) in
  do* (match listed with
       | inl fs => for_each fs (λ f, if String.prefix p f then ignore (DeleteFile f) else Ret tt)
       | inr _ => Ret tt
       end) in
  do* ignore (DeleteFile (p +:+ ".meta")) in
  Ret (empty_response 204).

Definition head_response (etag content_length last_modified : string) (hs : gmap string string) : outcome HttpResponse :=
  if valid_header_value etag then
    Ok (mkHttp 200 (hs ∪ <["etag" := etag]> (<["content-length" := content_length]>
          (<["last-modified" := last_modified]> {["content-type" := "application/octet-stream"]}))) NoBody)
  else Panic "invalid header value".

(** [src/dfs/s3_server/src/handlers.rs:1393-1534 head_object] *)
Definition head_object (bucket key : string) : S3 (outcome HttpResponse) :=
  let p := object_path bucket key in
  let* list_res := perform (ListFiles p) in
  if (match list_res with inl fs => existsb (ends_with ".s3_mpu_completed") fs | inr _ => false end) then
    let* metadata := load_metadata p in
    let '(etag, dek, hs) := read_metadata empty_etag (default ∅ metadata) in
    let* now := perform UtcNow in
    Ret (head_response etag "0" (http_date now) (sse_header dek hs))
  else
    let* info := perform (GetFileInfo p) in
    match info with
    | inl (Some i) =>
        let* metadata := load_metadata p in
        let '(etag, dek, hs) :=
          read_metadata (if decide (etag_md5 i = "") then empty_etag else quoted (etag_md5 i)) (default ∅ metadata) in
        Ret (head_response etag (pretty (file_size i))
          (if (0 <? created_at_ms i)%N then http_date (created_at_ms i) else "Wed, 01 Jan 2025 00:00:00 GMT")
          (sse_header dek hs))
    | inl None =>
        if ends_with "/" p then
          let* listed := perform (ListFiles p) in
          Ret (Ok (match listed with
                   | inl (_ :: _) => mkHttp 200 {["content-length" := "0"]} NoBody
                   | _ => empty_response 404
                   end))
        else Ret (Ok (empty_response 404))
    | inr _ => Ret (Ok (empty_response 500))
    end.

(** ** Routing *)

Definition lift (p : S3 HttpResponse) : S3 (outcome HttpResponse) := let* r := p in Ret (Ok r).
Definition not_allowed : S3 (outcome HttpResponse) := Ret (Ok (empty_response 405)).

(** Requests on a bucket.
    [src/dfs/s3_server/src/handlers.rs:163-183 handle_request] *)
Definition handle_bucket (bucket : string) (params : S3Query) (m : Method) (body : bytes) : S3 (outcome HttpResponse) :=
  match policy params, m with
  | Some _, GET => lift (get_bucket_policy bucket)
  | Some _, PUT => lift (put_bucket_policy bucket body)
  | Some _, DELETE => lift (delete_bucket_policy bucket)
  | Some _, _ => not_allowed
  | None, PUT => lift (create_bucket bucket)
  | None, DELETE => lift (delete_bucket bucket)
  | None, HEAD => lift (head_bucket bucket)
  | None, GET =>
      lift (if decide (list_type params = Some 2%Z) then list_objects_v2 bucket params else list_objects bucket params)
  | None, _ => not_allowed
  end.

(** What the parameters of a request on an object ask for, in the order of the
    tests. [src/dfs/s3_server/src/handlers.rs:185-220 handle_request] *)
Definition handle_object (bucket key : string) (params : S3Query) (headers : Headers) (m : Method) (body : bytes)
  : S3 (outcome HttpResponse) :=
  if bool_decide (is_Some (uploads params)) && bool_decide (m = POST) then lift (initiate_multipart_upload bucket key)
  else if bool_decide (is_Some (delete_param params)) && bool_decide (m = POST)
  then lift (delete_multiple_objects bucket body)
  else
    match upload_id params, part_number params, m with
    | Some id, Some n, PUT => lift (upload_part id n body)
    | Some id, _, POST => lift (complete_multipart_upload bucket key id)
    | Some id, _, DELETE => lift (abort_multipart_upload id)
    | _, _, _ =>
        match m, headers !! "x-amz-copy-source" with
        | PUT, Some (Some source) => lift (copy_object bucket key source)
        | PUT, Some None => Ret (Panic "called unwrap on an Err value")
        | PUT, None => put_object bucket key body headers
        | GET, _ => get_object bucket key headers
        | DELETE, _ => lift (delete_object bucket key)
        | HEAD, _ => head_object bucket key
        | _, _ => not_allowed
        end
    end.

(** [src/dfs/s3_server/src/handlers.rs:133-232 handle_request] *)
Definition handle_request (p : string) (params : S3Query) (headers : Headers) (m : Method) (body : bytes)
  : S3 (outcome HttpResponse) :=
  let '(bucket, rest) := split_once "/" p in
  match default "" rest with
  | EmptyString => handle_bucket bucket params m body
  | key => handle_object bucket key params headers m body
  end.

(** Without the token service. [src/dfs/s3_server/src/handlers.rs:59-82 handle_root] *)
Definition handle_root (m : Method) : S3 (outcome HttpResponse) :=
  match m with GET => lift list_buckets | _ => not_allowed end.

End handlers.
