(* ===== verification/S3Spec.v ===== *)
(** * The S3 gateway: what it promises

    The decoder of chunked uploads inverts their framing; an object that was put
    is got back, whole or in part, encrypted or not; the pages of a listing are
    the listing; and what goes wrong with keys that are prefixes of others. The
    executions are those of the store of [S3Base]. *)

From Stdlib Require Import Strings.Byte.
From stdpp Require Import pretty.
From S2P Require Import Prelude Text MasterState Erasure Program Sse S3Base S3Handlers.

(** ** Strings *)

Lemma strip_prefix_app p s : strip_prefix p (p +:+ s) = Some s.
Proof. induction p as [|a p IH]; simpl; [done|]. by rewrite decide_True. Qed.

Lemma strip_prefix_Some p s t : strip_prefix p s = Some t → s = p +:+ t.
Proof.
  revert s. induction p as [|a p IH]; intros s; simpl; [by intros [= ->]|].
  destruct s as [|b s]; [done|]. case_decide; [|done]. subst. by intros ->%IH.
Qed.

Lemma ends_with_iff suf s : ends_with suf s = true ↔ ∃ p, s = p +:+ suf.
Proof.
  induction s as [|a s IH]; cbn [ends_with]; rewrite orb_true_iff, bool_decide_eq_true.
  - split; [intros [<-|?]; [by exists ""|done]|]. intros [[|? ?] Hp]; [by left|done].
  - rewrite IH. split.
    + intros [<-|[p ->]]; [by exists ""|by exists (String a p)].
    + intros [[|b p] Hp]; [by left|]. injection Hp as <- ->. right. by exists p.
Qed.

Fixpoint last_char (s : string) : option ascii :=
  match s with
  | EmptyString => None
  | String a s => match last_char s with Some b => Some b | None => Some a end
  end.

Lemma last_char_app s t c : last_char t = Some c → last_char (s +:+ t) = Some c.
Proof. intros Ht. induction s as [|a s IH]; simpl; [done|]. by rewrite IH. Qed.

(** Two suffixes with different last characters. *)
Lemma ends_with_clash suf t s : last_char suf ≠ last_char t → is_Some (last_char suf) → is_Some (last_char t) →
  ends_with suf (s +:+ t) = false.
Proof.
  intros Hne [a Ha] [b Hb]. destruct (ends_with suf (s +:+ t)) eqn:E; [|done]. apply ends_with_iff in E as [p Hp].
  apply (f_equal last_char) in Hp. rewrite (last_char_app _ _ _ Hb), (last_char_app _ _ _ Ha) in Hp. congruence.
Qed.

(** ** Chunked uploads *)

(** A chunk header announces the length of its data: the hexadecimal number
    before the first semicolon. *)
Definition announces (header : string) (n : nat) : Prop :=
  parse_usize_hex (default "0" (head (split_on ";" header))) = Some (N.of_nat n) ∧
  forallb (λ b, negb (Byte.eqb b x0d)) (of_string header) = true ∧ valid_utf8 (of_string header) = true.

(** The framing: header, line end, data, line end; then a header that announces
    no more data. *)
Definition frame (chunks : list (string * bytes)) (final : string) (rest : bytes) : bytes :=
  mjoin ((λ c, of_string c.1 ++ CRLF ++ c.2 ++ CRLF) <$> chunks) ++ of_string final ++ CRLF ++ rest.

Lemma find_crlf_app h rest : forallb (λ b, negb (Byte.eqb b x0d)) h = true → find_crlf (h ++ CRLF ++ rest) = Some (length h).
Proof.
  induction h as [|a h IH]; intros Hn; [done|]. apply andb_true_iff in Hn as [Ha Hn]. specialize (IH Hn).
  change ((a :: h) ++ CRLF ++ rest) with (a :: (h ++ CRLF ++ rest)).
  destruct (h ++ CRLF ++ rest) as [|b l] eqn:E; [by destruct h|].
  change (find_crlf (a :: b :: l)) with
    (if Byte.eqb a x0d && Byte.eqb b x0a then Some 0 else S <$> find_crlf (b :: l)).
  rewrite IH. by destruct (Byte.eqb a x0d).
Qed.

Lemma header_text_of h : valid_utf8 (of_string h) = true → from_utf8 (of_string h) = Some h.
Proof. intros Hv. unfold from_utf8. rewrite Hv. unfold to_string, of_string. by rewrite String.string_of_list_byte_of_string. Qed.

Lemma decode_chunks_frame chunks final rest fuel result :
  Forall (λ c, c.2 ≠ [] ∧ announces c.1 (length c.2)) chunks → announces final 0 →
  length chunks < fuel → decode_chunks fuel result (frame chunks final rest) = Ok (result ++ mjoin chunks.*2).
Proof.
  intros Hall (Hf & Hfcr & Hfu). revert fuel result.
  induction Hall as [|[h d] chunks (Hd & Hn & Hcr & Hu) Hall IH]; intros fuel result Hfuel;
    (destruct fuel as [|fuel]; [simpl in Hfuel; lia|]).
  - unfold frame. cbn [fmap list_fmap mjoin list_join app]. cbn [decode_chunks].
    destruct (of_string final ++ CRLF ++ rest) as [|x l] eqn:E; [by destruct (of_string final)|]. rewrite <- E.
    rewrite find_crlf_app, take_app_length, header_text_of by done. change (default "" (Some final)) with final. rewrite Hf. simpl.
    by rewrite app_nil_r.
  - assert (frame ((h, d) :: chunks) final rest = of_string h ++ CRLF ++ d ++ CRLF ++ frame chunks final rest) as ->.
    { unfold frame. cbn [fmap list_fmap mjoin list_join fst snd]. by rewrite <- !app_assoc. }
    set (tail := frame chunks final rest) in *. cbn [decode_chunks].
    destruct (of_string h ++ CRLF ++ d ++ CRLF ++ tail) as [|x l] eqn:E; [by destruct (of_string h)|]. rewrite <- E. clear E x l.
    rewrite find_crlf_app, take_app_length, header_text_of by done. change (default "" (Some h)) with h. cbn [fst snd] in *. rewrite Hn.
    change (default 0%N (Some (N.of_nat (length d)))) with (N.of_nat (length d)). rewrite Nat2N.id. assert (length d ≠ 0) by (by destruct d). rewrite (proj2 (Nat.eqb_neq _ _)) by done.
    assert (drop (length (of_string h) + 2) (of_string h ++ CRLF ++ d ++ CRLF ++ tail) = d ++ CRLF ++ tail) as ->.
    { rewrite drop_app_add. done. }
    rewrite !length_app. rewrite (proj2 (Nat.leb_le _ _)) by lia. rewrite (proj2 (Nat.leb_le _ _)) by (simpl; lia).
    rewrite take_app_length. assert (drop (length d + 2) (d ++ CRLF ++ tail) = tail) as ->.
    { rewrite drop_app_add. done. }
    unfold tail. rewrite IH by (simpl in Hfuel; lia). by rewrite <- app_assoc.
Qed.

Lemma join_length {A} (ls : list (list A)) : Forall (λ l, l ≠ []) ls → length ls ≤ length (mjoin ls).
Proof. induction 1 as [|l ls Hl _ IH]; simpl; [lia|]. rewrite length_app. destruct l; [done|]. simpl. lia. Qed.

(** Chunked uploads: the decoder returns the concatenated data of a stream
    of chunks, whatever follows the length in the chunk headers (signatures)
    and whatever follows the final chunk (trailers). *)
Theorem chunked_roundtrip chunks final rest :
  Forall (λ c, c.2 ≠ [] ∧ announces c.1 (length c.2)) chunks → announces final 0 →
  decode_chunked_payload (frame chunks final rest) = Ok (mjoin chunks.*2).
Proof.
  intros Hall Hf. unfold decode_chunked_payload. rewrite decode_chunks_frame; [done..|].
  unfold frame. rewrite !length_app. change (length CRLF) with 2.
  pose proof (join_length ((λ c : string * bytes, of_string c.1 ++ CRLF ++ c.2 ++ CRLF) <$> chunks)) as Hj.
  rewrite length_fmap in Hj. assert (length chunks ≤ length (mjoin ((λ c : string * bytes, of_string c.1 ++ CRLF ++ c.2 ++ CRLF) <$> chunks))); [|lia].
  apply Hj, Forall_fmap, Forall_forall. intros c _ E. by destruct (of_string c.1).
Qed.

Lemma chunked_roundtrip_witness :
  decode_chunked_payload (frame [("3;chunk-signature=ab", [x41; x42; x43]); ("0a;chunk-signature=cd", replicate 10 x44)]
    "0;chunk-signature=ef" CRLF) = Ok ([x41; x42; x43] ++ replicate 10 x44).
Proof.
  apply (chunked_roundtrip [("3;chunk-signature=ab", [x41; x42; x43]); ("0a;chunk-signature=cd", replicate 10 x44)]
    "0;chunk-signature=ef" CRLF).
  - constructor; [|constructor; [|constructor]]; (split; [discriminate|split; [vm_compute; reflexivity|split; vm_compute; reflexivity]]).
  - split; [vm_compute; reflexivity|split; vm_compute; reflexivity].
Defined.

(** The line end after the data of the last chunk is missing: the handler panics. *)
Lemma chunk_without_line_end : ∃ body, decode_chunked_payload body = Panic "range start index out of range".
Proof. exists (of_string "1" ++ CRLF ++ [x41]). by vm_compute. Qed.

(** ** Numbers in texts *)

Lemma digit_char x : (x < 10)%N → digit_value 10 (pretty_N_char x) = Some x.
Proof.
  intros Hx. assert (x = 0 ∨ x = 1 ∨ x = 2 ∨ x = 3 ∨ x = 4 ∨ x = 5 ∨ x = 6 ∨ x = 7 ∨ x = 8 ∨ x = 9)%N as Hc by lia.
  by repeat (destruct Hc as [->|Hc]; [done|]); subst.
Qed.

(** The printed number in front of a text is read first. *)
Lemma digits_pretty x s : digits 10 0 (pretty_N_go x s) = digits 10 x s.
Proof.
  revert s. induction (N.lt_wf_0 x) as [x _ IH]; intros s.
  assert (x = 0 ∨ 0 < x)%N as [->|Hx] by lia; [by rewrite pretty_N_go_0|].
  rewrite pretty_N_go_step, IH by (try apply N.div_lt; lia). cbn [digits].
  rewrite digit_char by (by apply N.mod_lt). f_equal. rewrite (N.div_mod x 10) at 3 by done. lia.
Qed.

(** Texts of decimal digits. *)
Fixpoint decimal (s : string) : bool :=
  match s with
  | EmptyString => true
  | String a s => bool_decide (is_Some (digit_value 10 a)) && decimal s
  end.

Lemma decimal_go x s : decimal s = true → decimal (pretty_N_go x s) = true.
Proof.
  revert s. induction (N.lt_wf_0 x) as [x _ IH]; intros s Hs.
  assert (x = 0 ∨ 0 < x)%N as [->|Hx] by lia; [by rewrite pretty_N_go_0|].
  rewrite pretty_N_go_step by lia. apply IH; [apply N.div_lt; lia|]. cbn [decimal].
  by rewrite digit_char by (by apply N.mod_lt).
Qed.

Lemma go_nonempty x s : s ≠ "" → pretty_N_go x s ≠ "".
Proof.
  revert s. induction (N.lt_wf_0 x) as [x _ IH]; intros s Hs.
  assert (x = 0 ∨ 0 < x)%N as [->|Hx] by lia; [by rewrite pretty_N_go_0|].
  rewrite pretty_N_go_step by lia. apply IH; [apply N.div_lt; lia|done].
Qed.

Lemma pretty_N_text (x : N) : decimal (pretty x) = true ∧ pretty x ≠ "" ∧ digits 10 0 (pretty x) = Some x.
Proof.
  unfold pretty, pretty_N. case_decide as Hx; [by subst|]. split_and!.
  - by apply decimal_go.
  - rewrite pretty_N_go_step by lia. by apply go_nonempty.
  - apply digits_pretty.
Qed.

(** A text with a last character that is a digit, and no slash. *)
Definition ends_in_digit (s : string) : Prop := ∃ c, last_char s = Some c ∧ is_Some (digit_value 10 c).

Lemma decimal_ends s : decimal s = true → s ≠ "" → ends_in_digit s.
Proof.
  induction s as [|a s IH]; [done|]. cbn [decimal]. intros [Ha%bool_decide_eq_true Hs]%andb_true_iff _.
  destruct s as [|b s]; [by exists a|]. destruct IH as (c & Hc & Hd); [done..|]. exists c. cbn [last_char] in *. by rewrite Hc.
Qed.

Lemma decimal_absent c s : digit_value 10 c = None → decimal s = true → absent c s = true.
Proof.
  intros Hc. induction s as [|a s IH]; [done|]. cbn [decimal absent]. intros [Ha%bool_decide_eq_true Hs]%andb_true_iff.
  rewrite IH by done. destruct (decide (a = c)) as [->|Hne]; [by rewrite Hc in Ha; destruct Ha|].
  by rewrite bool_decide_false.
Qed.

Lemma digit_not_sign {A} a (x y z : A) :
  is_Some (digit_value 10 a) → match a with "+"%char => x | "-"%char => y | _ => z end = z.
Proof. intros [v Hv]. by destruct a as [[] [] [] [] [] [] [] []]; vm_compute in Hv. Qed.

Lemma unsigned_decimal bound s : decimal s = true → s ≠ "" →
  unsigned 10 bound s = match digits 10 0 s with Some n => if (n <? bound)%N then Some n else None | None => None end.
Proof.
  destruct s as [|a s]; [done|]. cbn [decimal]. intros [Ha%bool_decide_eq_true _]%andb_true_iff _.
  unfold unsigned. assert (match String a s with String "+" s' => magnitude 10 s' | _ => magnitude 10 (String a s) end
    = digits 10 0 (String a s)) as ->; [|done].
  transitivity (match a with "+"%char => magnitude 10 s | "-"%char => magnitude 10 (String a s) | _ => magnitude 10 (String a s) end).
  - by destruct a as [[] [] [] [] [] [] [] []].
  - by rewrite digit_not_sign.
Qed.

Lemma parse_i32_decimal s : decimal s = true → s ≠ "" →
  parse_i32 s = match unsigned 10 (2 ^ 31) s with Some n => Some (Z.of_N n) | None => None end.
Proof.
  destruct s as [|a s]; [done|]. cbn [decimal]. intros [Ha%bool_decide_eq_true _]%andb_true_iff _.
  transitivity (match a with
    | "+"%char => match unsigned 10 (2 ^ 31) (String a s) with Some n => Some (Z.of_N n) | None => None end
    | "-"%char => match magnitude 10 s with
                  | Some n => if (n <=? 2 ^ 31)%N then Some (- Z.of_N n)%Z else None
                  | None => None
                  end
    | _ => match unsigned 10 (2 ^ 31) (String a s) with Some n => Some (Z.of_N n) | None => None end
    end).
  - by destruct a as [[] [] [] [] [] [] [] []].
  - by rewrite digit_not_sign.
Qed.

(** ** Ranges *)

(** The part of an object that a request asks for: all of it, the bytes from a
    position on, or the bytes from one position to another, both included. *)
Inductive Range : Type :=
  | Whole
  | FromByte (a : N)
  | Bytes (a b : N).

(** The header that asks for it. *)
Definition range_text (rg : Range) : option string :=
  match rg with
  | Whole => None
  | FromByte a => Some ("bytes=" +:+ pretty a +:+ "-")
  | Bytes a b => Some ("bytes=" +:+ pretty a +:+ "-" +:+ pretty b)
  end.

Definition asks (headers : gmap string (option string)) (rg : Range) : Prop := header_text headers "range" = range_text rg.

(** The range begins inside of the object and does not end before it begins. *)
Definition satisfiable (rg : Range) (plain : bytes) : Prop :=
  match rg with
  | Whole => True
  | FromByte a => (a < N.of_nat (length plain))%N
  | Bytes a b => (a ≤ b ∧ a < N.of_nat (length plain))%N
  end.

(** The status and the bytes of the answer. *)
Definition requested (rg : Range) (plain : bytes) : N * bytes :=
  match rg with
  | Whole => (200%N, plain)
  | FromByte a => (206%N, drop (N.to_nat a) plain)
  | Bytes a b => (206%N, take (N.to_nat (b - a + 1)) (drop (N.to_nat a) plain))
  end.

(** The answer the handler gives to a request for an object of these bytes. *)
Definition wanted (headers : gmap string (option string)) (plain : bytes) : N * bytes :=
  match range_of headers ≫= parse_range (N.of_nat (length plain)) with
  | Some (a, b) => (206%N, take (N.to_nat (b - a + 1)) (drop (N.to_nat a) plain))
  | None => (200%N, plain)
  end.

Lemma sub64_le a b : (b ≤ a)%N → (a < u64_mod)%N → sub64 a b = (a - b)%N.
Proof.
  intros Hb Ha. unfold sub64. replace (a + u64_mod - b)%N with (a - b + 1 * u64_mod)%N by lia.
  rewrite N.Div0.mod_add. apply N.mod_small. lia.
Qed.

Lemma parse_u64_pretty (n : N) : parse_u64 (pretty n) = if (n <? 2 ^ 64)%N then Some n else None.
Proof. destruct (pretty_N_text n) as (Hd & Hne & Hv). unfold parse_u64. by rewrite unsigned_decimal, Hv. Qed.

Lemma split_range a s : split_on "-" (pretty (a : N) +:+ "-" +:+ s) = pretty a :: split_on "-" s.
Proof. apply split_on_app, decimal_absent; [done|]. apply pretty_N_text. Qed.

(** The handler reads such a range as it is meant. *)
Lemma wanted_requested headers rg plain :
  asks headers rg → satisfiable rg plain → (N.of_nat (length plain) < u64_mod)%N → wanted headers plain = requested rg plain.
Proof.
  unfold asks, wanted, range_of. intros -> Hsat Hmax. pose proof Hmax as Hmax'. change u64_mod with (2 ^ 64)%N in Hmax'. destruct rg as [|a|a b]; cbn in Hsat; [done|..].
  - cbn [range_text mbind option_bind]. rewrite strip_prefix_app. cbn [mbind option_bind]. unfold parse_range.
    rewrite <- (append_empty_r "-"), split_range. cbn [split_on]. rewrite parse_u64_pretty, (proj2 (N.ltb_lt _ _)) by lia.
    change (parse_u64 "") with (@None N). cbn [default from_option id]. rewrite sub64_le, N.min_id, (proj2 (N.leb_le _ _)) by lia.
    cbn [requested]. f_equal. apply take_ge. rewrite length_drop. lia.
  - cbn [range_text mbind option_bind]. rewrite strip_prefix_app. cbn [mbind option_bind]. unfold parse_range.
    rewrite split_range, split_on_absent by (apply decimal_absent; [done|]; apply pretty_N_text).
    rewrite !parse_u64_pretty, (proj2 (N.ltb_lt a _)) by lia. cbn [default from_option id]. rewrite sub64_le by lia.
    set (stop := N.min _ _). assert (a ≤ stop ∧ (stop = b ∨ N.of_nat (length plain) - 1 = stop ∧ stop ≤ b))%N as [Ha Hstop].
    { unfold stop. destruct (N.ltb_spec b (2 ^ 64)); cbn [default from_option id]; lia. }
    rewrite (proj2 (N.leb_le _ _)) by lia. cbn [requested]. f_equal. destruct Hstop as [->|[Hs Hb]]; [done|].
    rewrite !take_ge by (rewrite length_drop; lia). done.
Qed.

(** ** Objects *)

Section objects.
  Context `{HO : HashOrder} `{AE : Aead} (md5_hex : bytes → string).
  Context (json_of : gmap string string → option bytes) (metadata_of : string → option (gmap string string)).
  Context (http_date : N → string) (valid_header_name valid_header_value : string → bool).
  Context (sse_manager : option SseManager).
  (** JSON documents are text and can be read back; a quoted checksum is a
      header value. *)
  Context (json_roundtrip : ∀ m, ∃ j, json_of m = Some j ∧ j ≠ [] ∧ from_utf8 j ≫= metadata_of = Some m).
  Context (valid_etag : ∀ b, valid_header_value (quoted (md5_hex b)) = true).

Notation srun p s := (run (store_step md5_hex) p s).

(** *** Encryption *)

Lemma encrypt_run body s r s1 :
  srun (encrypt_body sse_manager body) s = (r, s1) →
  st_files s1 = st_files s ∧ st_now s1 = st_now s ∧
  ∀ wb dek, r = inl (wb, dek) →
    decrypt_body sse_manager dek wb = inl body ∧ (body ≠ [] → wb ≠ []) ∧ (dek = None → wb = body).
Proof.
  unfold encrypt_body, decrypt_body. destruct sse_manager as [mgr|].
  - cbn [run prog_bind perform store_step]. intros [= <- <-]. split; [done|]. split; [done|].
    intros wb dek Hr. set (k := take 32 _) in Hr. set (n1 := take 12 _) in Hr. set (n2 := take 12 _) in Hr.
    destruct (encrypt_object mgr k n1 n2 body) as [[c d]|e|e] eqn:He; simplify_eq.
    assert (length n1 = 12 ∧ length n2 = 12) as [H1 H2].
    { unfold n1, n2. split; rewrite length_take, length_app; apply Nat.min_l; cbn [length]; lia. }
    rewrite (decrypt_encrypted mgr k n1 n2 body wb d H1 H2 He). split; [done|]. split; [|done].
    intros _ ->. unfold encrypt_object in He. repeat case_match; simplify_eq. simpl in *. by destruct n1.
  - intros [= <- <-]. split; [done|]. split; [done|]. intros wb dek [= <- <-]. split; [done|]. auto.
Qed.

(** *** Writing *)

Lemma create_or_replace_run data p s :
  srun (create_or_replace data p) s =
  (inl tt, s <| st_files := <[p := (data, md5_hex data, st_now s)]> (st_files s) |>).
Proof.
  unfold create_or_replace. rewrite run_bind. cbn [run perform store_step].
  destruct (st_files s !! p) as [e|] eqn:He; cbn [run]; [|done].
  change (says "already exists" "Failed to create file: File already exists") with true. cbv iota.
  rewrite run_bind. cbn [run perform prog_bind ignore store_step]. rewrite He. cbn [run st_files].
  change (st_files (s <| st_files := delete p (st_files s) |>)) with (delete p (st_files s)).
  rewrite lookup_delete_eq. cbn. by rewrite insert_delete_eq.
Qed.

Lemma save_metadata_run p m j s :
  json_of m = Some j →
  srun (save_metadata json_of true p m) s =
  (tt, s <| st_files := <[p +:+ ".meta" := (j, md5_hex j, st_now s)]> (st_files s) |>).
Proof.
  intros Hj. unfold save_metadata. rewrite Hj. rewrite run_bind. cbn [run perform prog_bind ignore store_step].
  destruct (st_files s !! (p +:+ ".meta")) as [e|] eqn:He; cbn [run prog_bind st_files].
  - change (st_files (s <| st_files := delete (p +:+ ".meta") (st_files s) |>)) with (delete (p +:+ ".meta") (st_files s)).
    rewrite lookup_delete_eq. cbn. by rewrite insert_delete_eq.
  - rewrite He. done.
Qed.

(** The metadata of an object: the checksum, the data key, and user headers that
    are neither. *)
Lemma object_metadata_lookup etag headers dek :
  object_metadata etag headers dek !! "ETag" = Some etag ∧ object_metadata etag headers dek !! dek_header = dek.
Proof.
  unfold object_metadata. set (f := λ (m : gmap string string) (e : string * option string), _).
  assert (∀ l (m : gmap string string) k, String.prefix "x-amz-meta-" k = false → foldl f m l !! k = m !! k) as Hf.
  { induction l as [|[k' [v|]] l IH]; intros m k Hk; simpl; [done| |by apply IH].
    rewrite IH by done. destruct (String.prefix "x-amz-meta-" k') eqn:Hk'; [|done].
    rewrite lookup_insert_ne; [done|]. intros ->. congruence. }
  destruct dek as [d|].
  - rewrite lookup_insert_eq, lookup_insert_ne by done. by rewrite Hf.
  - by rewrite !Hf.
Qed.

(** Reading it back, in whatever order. *)
Lemma read_metadata_lookup etag m :
  (read_metadata valid_header_name valid_header_value etag m).1 = (default etag (m !! "ETag"), m !! dek_header).
Proof.
  unfold read_metadata. set (f := λ (acc : string * option string * gmap string string) (e : string * string), _).
  assert (∀ l acc, NoDup l.*1 → (foldl f acc l).1 =
    (default acc.1.1 ((list_to_map l : gmap string string) !! "ETag"),
     match (list_to_map l : gmap string string) !! dek_header with Some v => Some v | None => acc.1.2 end)) as Hf.
  { induction l as [|[k v] l IH]; intros [[a b] h] Hnd; [done|]. simpl in Hnd. apply NoDup_cons in Hnd as [Hk Hnd].
    cbn [foldl list_to_map foldr fst snd uncurry]. rewrite IH by done. unfold f at 1 2. cbn [fst snd].
    change (foldr (λ p : string * string, <[p.1:=p.2]>) ∅ l) with (list_to_map l : gmap string string).
    destruct (decide (k = "ETag")) as [->|Hk1].
    - rewrite lookup_insert_eq, lookup_insert_ne by done. cbn [fst snd].
      by rewrite (not_elem_of_list_to_map_1 _ _ Hk).
    - rewrite (lookup_insert_ne _ k "ETag") by done. destruct (decide (k = dek_header)) as [->|Hk2].
      + rewrite lookup_insert_eq. cbn [fst snd]. by rewrite (not_elem_of_list_to_map_1 _ _ Hk).
      + rewrite lookup_insert_ne by done. by destruct (_ && _ && _). }
  rewrite Hf by apply NoDup_entries. cbn [fst snd].
  rewrite (list_to_map_proper _ _ (NoDup_entries m) (entries_perm m)), list_to_map_to_list. f_equal. by destruct (m !! dek_header).
Qed.

(** What the handler makes of the body of a request. *)
Definition payload (headers : gmap string (option string)) (body : bytes) : outcome bytes :=
  if decide (default "unknown" (header_text headers "x-amz-content-sha256") = "STREAMING-AWS4-HMAC-SHA256-PAYLOAD")
  then decode_chunked_payload body else Ok body.

(** A store after a put: the object and its metadata, the rest as before. *)
Definition has_object (p : string) (plain : bytes) (s s' : Store) : Prop :=
  ∃ wb dek j e1 e2 m,
    st_files s' = <[p +:+ ".meta" := (j, e1, st_now s)]> (<[p := (wb, e2, st_now s)]> (st_files s)) ∧
    decrypt_body sse_manager dek wb = inl plain ∧ (plain ≠ [] → wb ≠ []) ∧ (dek = None → wb = plain) ∧
    j ≠ [] ∧ from_utf8 j ≫= metadata_of = Some m ∧ m !! "ETag" = Some (quoted (md5_hex plain)) ∧ m !! dek_header = dek.

Lemma put_object_run bucket key body plain headers s r s' :
  payload headers body = Ok plain →
  srun (put_object md5_hex json_of sse_manager bucket key body headers) s = (Ok r, s') → status r = 200%N →
  has_object (object_path bucket key) plain s s' ∧ resp_headers r !! "etag" = Some (quoted (md5_hex plain)).
Proof.
  unfold payload. intros Hp Hrun Hok. unfold put_object in Hrun. rewrite Hp, run_bind in Hrun.
  destruct (srun (encrypt_body sse_manager plain) s) as [re s1] eqn:He.
  destruct (encrypt_run _ _ _ _ He) as (Hfs & Hnow & Hdec).
  destruct re as [[wb dek]|e]; [|by simplify_eq/=].
  rewrite run_bind, create_or_replace_run, run_bind in Hrun.
  destruct (json_roundtrip (object_metadata (quoted (md5_hex plain)) headers dek)) as (j & Hj & Hne & Hback).
  rewrite (save_metadata_run _ _ j) in Hrun by done. cbn [run] in Hrun. injection Hrun as <- <-.
  destruct (Hdec wb dek eq_refl) as (H1 & H2 & H3), (object_metadata_lookup (quoted (md5_hex plain)) headers dek) as [H4 H5].
  split.
  - eexists wb, dek, j, _, _, _. split_and!; [|done..]. cbn. by rewrite Hfs, Hnow.
  - cbn [resp_headers]. destruct dek; [rewrite lookup_insert_ne by done|]; apply lookup_singleton_eq.
Qed.

(** *** Reading *)

Lemma parse_range_bounds total rp a b :
  (0 < total)%N → (total < u64_mod)%N → parse_range total rp = Some (a, b) →
  (a ≤ b)%N ∧ (b < total)%N ∧ ∃ x y, split_on "-" rp = [x; y].
Proof.
  intros H0 Ht. unfold parse_range. destruct (split_on "-" rp) as [|x [|y [|z l]]]; try done.
  rewrite sub64_le by lia.
  case_if; [|done]. intros [= <- <-]. apply N.leb_le in Hif. split; [done|]. split; [lia|]. eauto.
Qed.

Definition serves_as (etag : string) (headers : gmap string (option string)) (plain : bytes) (r : HttpResponse) : Prop :=
  (status r, resp_body r) = ((wanted headers plain).1, Data (wanted headers plain).2) ∧
  resp_headers r !! "etag" = Some etag.
Notation serves headers plain r := (serves_as (quoted (md5_hex plain)) headers plain r).

Lemma cut_range_serves headers hs plain :
  plain ≠ [] → (N.of_nat (length plain) < u64_mod)%N →
  ∃ hs', cut_range headers hs plain = Ok ((wanted headers plain).1, hs', (wanted headers plain).2) ∧
    hs' !! "etag" = hs !! "etag".
Proof.
  intros Hne Hmax. unfold cut_range, wanted.
  destruct (range_of headers ≫= parse_range (N.of_nat (length plain))) as [[a b]|] eqn:Hr; [|by eexists].
  apply bind_Some in Hr as (rp & _ & Hr). assert (length plain ≠ 0) by (by destruct plain).
  apply parse_range_bounds in Hr as (Hab & Hb & _); [|lia|done].
  unfold slice_inclusive. rewrite (proj2 (N.ltb_lt _ _)) by done. eexists. split; [done|]. by rewrite lookup_insert_ne.
Qed.

Lemma read_store_object p d e t s : st_files s !! p = Some (d, e, t) → d ≠ [] → read_store p s = inl d.
Proof. unfold read_store. intros -> Hd. by destruct d. Qed.

Lemma get_whole_run p wb dek plain headers hs s e t :
  st_files s !! p = Some (wb, e, t) → wb ≠ [] → decrypt_body sse_manager dek wb = inl plain →
  plain ≠ [] → (N.of_nat (length plain) < u64_mod)%N → hs !! "etag" = Some (quoted (md5_hex plain)) →
  ∃ r, srun (get_whole sse_manager p headers dek hs) s = (Ok r, s) ∧ serves headers plain r.
Proof.
  intros Hf Hwb Hd Hne Hmax Het. destruct (cut_range_serves headers hs plain Hne Hmax) as (hs' & Hc & Hhs).
  unfold get_whole. cbn [run prog_bind perform store_step]. rewrite (read_store_object _ _ _ _ _ Hf Hwb). rewrite Hd, Hc. eexists. split; [done|]. split; [done|].
  cbn [resp_headers]. rewrite lookup_insert_ne by done. by rewrite Hhs.
Qed.

Lemma get_range_run p plain headers hs s e t r s' :
  st_files s !! p = Some (plain, e, t) → plain ≠ [] → (N.of_nat (length plain) < u64_mod)%N →
  hs !! "etag" = Some (quoted (md5_hex plain)) →
  srun (get_range p headers hs) s = (r, s') →
  s' = s ∧ match r with Some r => serves headers plain r | None => True end.
Proof.
  intros Hf Hne Hmax Het Hrun. unfold get_range in Hrun. unfold serves_as, wanted.
  destruct (range_of headers) as [rp|]; [|by simplify_eq/=].
  cbn [run prog_bind perform store_step] in Hrun. rewrite Hf in Hrun. rewrite bool_decide_true in Hrun by done.
  destruct (split_on "-" rp) as [|x [|y [|z l]]]; try by simplify_eq/=.
  cbn [run prog_bind perform store_step] in Hrun. pose proof (read_store_object _ _ _ _ _ Hf Hne) as Hread.
  rewrite Hread in Hrun. simpl mbind. assert (length plain ≠ 0) by (by destruct plain).
  destruct (parse_range (N.of_nat (length plain)) rp) as [[a b]|] eqn:Hr; cbn [run prog_bind perform store_step] in Hrun;
    [|by simplify_eq/=]. pose proof Hr as (Hab & Hb & _)%parse_range_bounds; [|lia|done].
  rewrite Hread in Hrun. rewrite (proj2 (N.leb_gt _ _)) in Hrun by lia.
  injection Hrun as <- <-. split; [done|]. split; [done|]. cbn [resp_headers]. by rewrite !lookup_insert_ne.
Qed.

(** No object written in parts below a path. *)
Definition no_parts (p : string) (s : Store) : Prop :=
  ∀ f, is_Some (st_files s !! f) → String.prefix p f = true → ends_with ".s3_mpu_completed" f = false.

Lemma get_object_run bucket key plain headers s s' :
  let p := object_path bucket key in
  has_object p plain s s' → plain ≠ [] → (N.of_nat (length plain) < u64_mod)%N →
  no_parts p s → ends_with ".s3_mpu_completed" p = false →
  ∃ r, srun (get_object metadata_of http_date valid_header_name valid_header_value sse_manager bucket key headers) s' = (Ok r, s') ∧
    serves headers plain r.
Proof.
  intros p (wb & dek & j & e1 & e2 & m & Hfs & Hdec & Hwb & Hsame & Hj & Hback & Het & Hdek) Hne Hmax Hno Hp.
  specialize (Hwb Hne). pose proof (append_ne_self p ".meta" ltac:(done)) as Hpm.
  assert (st_files s' !! p = Some (wb, e2, st_now s)) as Hobj.
  { rewrite Hfs, lookup_insert_ne by done. apply lookup_insert_eq. }
  unfold get_object. fold p. rewrite run_bind. cbn [run perform store_step].
  assert (existsb (λ f, String.prefix p f && ends_with ".s3_mpu_completed" f)
    (List.filter (String.prefix p) (entries (st_files s')).*1) = false) as ->.
  { apply not_true_iff_false. intros (f & Hf & [Hpre Hend]%andb_true_iff)%existsb_exists.
    apply List.filter_In in Hf as [Hf%list_elem_of_In _]. apply list_elem_of_fmap in Hf as ([f' x] & -> & Hf%elem_of_entries).
    cbn [fst] in *. rewrite Hfs in Hf. destruct (decide (f' = p +:+ ".meta")) as [->|Hf1].
    { by rewrite ends_with_clash in Hend by (vm_compute; eauto; done). }
    rewrite lookup_insert_ne in Hf by done. destruct (decide (f' = p)) as [->|Hf2]; [by rewrite Hp in Hend|].
    rewrite lookup_insert_ne in Hf by done. rewrite Hno in Hend; [done|by eexists|done]. }
  rewrite run_bind. cbn [run perform store_step]. rewrite Hobj. cbn [fmap option_fmap option_map].
  set (etag0 := if decide _ then _ else _). set (lm := if (_ <? _)%N then _ else _).
  rewrite run_bind. unfold load_metadata. cbn [run prog_bind perform store_step]. unfold read_store at 1.
  rewrite Hfs, lookup_insert_eq. destruct j as [|j0 j]; [done|]. rewrite Hback. cbn [default from_option id].
  pose proof (read_metadata_lookup etag0 m) as Hread. rewrite Het, Hdek in Hread.
  destruct (read_metadata valid_header_name valid_header_value etag0 m) as [[et dk] hs]. simpl in Hread. injection Hread as -> ->.
  rewrite valid_etag. cbn [negb]. set (hs' := <["last-modified" := lm]> _).
  assert (hs' !! "etag" = Some (quoted (md5_hex plain))) as Hhs.
  { unfold hs'. rewrite lookup_insert_ne by done. apply lookup_insert_eq. }
  rewrite run_bind. destruct (get_whole_run p wb dek plain headers hs' s' _ _ Hobj Hwb Hdec Hne Hmax Hhs) as (r & Hw & Hr).
  destruct dek as [d|]; cbn [run]; [by exists r|].
  destruct (srun (get_range p headers hs') s') as [ro s2] eqn:Hrange. rewrite (Hsame eq_refl) in Hobj.
  eapply (get_range_run _ plain) in Hrange as [-> Hro]; [|done..]. destruct ro as [r'|]; [by exists r'|by exists r].
Qed.

(** A put with a readable body succeeds when encryption does. *)
Lemma put_object_succeeds bucket key body plain headers s wb dek s1 :
  payload headers body = Ok plain → srun (encrypt_body sse_manager plain) s = (inl (wb, dek), s1) →
  ∃ r s', srun (put_object md5_hex json_of sse_manager bucket key body headers) s = (Ok r, s') ∧ status r = 200%N.
Proof.
  unfold payload, put_object. intros -> He. rewrite run_bind, He, run_bind, create_or_replace_run, run_bind.
  destruct (json_roundtrip (object_metadata (quoted (md5_hex plain)) headers dek)) as (j & Hj & _).
  rewrite (save_metadata_run _ _ j) by done. by eexists _, _.
Qed.


End objects.

(** ** Keys that are prefixes of others *)

Section deletion.
  Context `{HO : HashOrder} (md5_hex : bytes → string).
Notation srun p s := (run (store_step md5_hex) p s).

Lemma delete_run f s : srun (ignore (DeleteFile f)) s = (tt, s <| st_files := delete f (st_files s) |>).
Proof.
  cbn [run ignore prog_bind perform store_step]. destruct (st_files s !! f) eqn:Hf; [done|].
  rewrite delete_id by done. by destruct s.
Qed.

Lemma delete_each_lookup fs s f :
  st_files (srun (for_each fs (λ f, ignore (DeleteFile f))) s).2 !! f = if decide (f ∈ fs) then None else st_files s !! f.
Proof.
  rewrite run_for_each. cbn [snd]. revert s. induction fs as [|g fs IH]; intros s; [done|]. cbn [foldl].
  rewrite IH, delete_run. cbn. destruct (decide (f ∈ fs)).
  - by rewrite (decide_True (P := f ∈ g :: fs)) by (by right).
  - destruct (decide (f = g)) as [->|Hne].
    + rewrite lookup_delete_eq. by rewrite (decide_True (P := g ∈ g :: fs)) by (by left).
    + rewrite lookup_delete_ne by done. by rewrite (decide_False (P := f ∈ g :: fs)) by (by intros [?|?]%elem_of_cons).
Qed.

Lemma delete_each_prefix p l s :
  Forall (λ f, String.prefix p f = true) l →
  srun (for_each l (λ f, if String.prefix p f then ignore (DeleteFile f) else Ret tt)) s =
  srun (for_each l (λ f, ignore (DeleteFile f))) s.
Proof.
  intros Hl. revert s. induction Hl as [|g l Hg _ IH]; intros s; [done|].
  cbn [for_each]. rewrite !run_bind, Hg, delete_run. apply IH.
Qed.

(** Deleting an object deletes every file whose path starts with its path: also
    the objects whose keys merely start with its key. *)
Lemma delete_object_run bucket key s f :
  st_files (srun (delete_object bucket key) s).2 !! f =
  if String.prefix (object_path bucket key) f then None else st_files s !! f.
Proof.
  unfold delete_object. set (p := object_path bucket key). rewrite run_bind, delete_run, run_bind.
  cbn [run perform store_step]. set (s1 := s <| st_files := _ |>). rewrite run_bind.
  set (fs := List.filter (String.prefix p) (entries (st_files s1)).*1).
  rewrite (delete_each_prefix p fs s1).
  2: { apply Forall_forall. intros g Hg. unfold fs in Hg. by apply list_elem_of_In, List.filter_In in Hg as [_ ?]. }
  pose proof (delete_each_lookup fs s1 f) as Hf. destruct (srun (for_each fs _) s1) as [[] s2]. cbn [snd] in Hf.
  rewrite run_bind, delete_run. cbn [run snd]. cbn [st_files]. 
  change (st_files (s2 <| st_files := delete (p +:+ ".meta") (st_files s2) |>)) with (delete (p +:+ ".meta") (st_files s2)).
  assert (f ∈ fs ↔ is_Some (st_files s1 !! f) ∧ String.prefix p f = true) as Hin.
  { unfold fs. rewrite list_elem_of_In, List.filter_In, <- list_elem_of_In, list_elem_of_fmap. split.
    - intros [([g e] & -> & Hg%elem_of_entries) ?]. split; [by eexists|done].
    - intros [[e He] ?]. split; [|done]. exists (f, e). split; [done|]. by apply elem_of_entries. }
  destruct (String.prefix p f) eqn:Hp.
  - destruct (decide (f = p +:+ ".meta")) as [->|Hne]; [apply lookup_delete_eq|]. rewrite lookup_delete_ne, Hf by done.
    destruct (decide (f ∈ fs)) as [?|Hn]; [done|]. destruct (st_files s1 !! f) eqn:Hs; [|done].
    destruct Hn. apply Hin. split; [by eexists|done].
  - assert (f ≠ p ∧ f ≠ p +:+ ".meta") as [H1 H2].
    { split; intros ->; [by rewrite prefix_refl in Hp|by rewrite prefix_append in Hp]. }
    rewrite lookup_delete_ne, Hf by done. rewrite decide_False by (by rewrite Hin; intros [_ ?]).
    unfold s1. cbn. by rewrite lookup_delete_ne.
Qed.

End deletion.

(** ** Pages of a listing *)

Section listing.
  Context `{HO : HashOrder} (md5_hex : bytes → string) (iso_date : N → string).
  Context (bucket : string) (params : S3Query).
Notation srun p s := (run (store_step md5_hex) p s).
Notation root := ("/" +:+ bucket +:+ "/").

(** The files of the bucket in order. *)
Definition bucket_files (s : Store) : list string :=
  sort_by String.leb (List.filter (String.prefix root) (entries (st_files s)).*1).

(** The object a file is listed as. *)
Definition shown (s : Store) (f : string) : option Object :=
  match entry_of bucket (q_prefix params) (delimiter params) f with
  | Shown key => Some (srun (object_of iso_date f key) s).1
  | _ => None
  end.

Lemma object_of_run f key s : srun (object_of iso_date f key) s = ((srun (object_of iso_date f key) s).1, s).
Proof. done. Qed.

(** One page: the files before the cut are listed, and the token is the last of
    them. A page that starts below the limit lists at least one file. *)
Lemma page_loop_run limit fs prev pg s :
  ∃ l1 l2 pg' tok, fs = l1 ++ l2 ∧ srun (page_loop iso_date bucket params limit prev fs pg) s = ((pg', tok), s) ∧
    pg_objects pg' = pg_objects pg ++ omap (shown s) l1 ∧
    tok = match l2 with
          | [] => None
          | _ => Some ((match last l1 with Some f => Some f | None => prev end) ≫= strip_prefix root)
          end ∧
    ((pg_count pg < limit)%Z → fs ≠ [] → l1 ≠ []).
Proof.
  revert prev pg. induction fs as [|f fs IH]; intros prev pg; cbn [page_loop].
  { exists [], [], pg, None. split_and!; try done. by rewrite app_nil_r. }
  destruct (limit <=? pg_count pg)%Z eqn:Hlim.
  { apply Z.leb_le in Hlim. exists [], (f :: fs), pg, (Some (prev ≫= strip_prefix root)).
    split_and!; try done; [by rewrite app_nil_r|lia]. }
  assert (∀ pg1 (x : list Object),
    pg_objects pg1 = pg_objects pg ++ x → x = omap (shown s) [f] →
    ∃ l1 l2 pg' tok, f :: fs = l1 ++ l2 ∧ srun (page_loop iso_date bucket params limit (Some f) fs pg1) s = ((pg', tok), s) ∧
      pg_objects pg' = pg_objects pg ++ omap (shown s) l1 ∧
      tok = match l2 with [] => None | _ => Some ((match last l1 with Some f => Some f | None => prev end) ≫= strip_prefix root) end ∧
      ((pg_count pg < limit)%Z → f :: fs ≠ [] → l1 ≠ [])) as Hstep.
  { intros pg1 x H1 Hx. destruct (IH (Some f) pg1) as (l1 & l2 & pg' & tok & -> & Hrun & Hobj & Htok & _).
    exists (f :: l1), l2, pg', tok. split; [done|]. split; [done|]. split_and!; [| |done].
    - rewrite Hobj, H1, <- app_assoc, Hx. f_equal. change (f :: l1) with ([f] ++ l1). by rewrite omap_app.
    - rewrite Htok. destruct l2; [done|]. rewrite last_cons. by destruct (last l1). }
  destruct (entry_of bucket (q_prefix params) (delimiter params) f) as [|c|key] eqn:He.
  - apply (Hstep pg []); [by rewrite app_nil_r|]. simpl. unfold shown. by rewrite He.
  - apply (Hstep _ []); [case_decide; by rewrite app_nil_r|]. simpl. unfold shown. by rewrite He.
  - rewrite run_bind, object_of_run. apply (Hstep _ [(srun (object_of iso_date f key) s).1]); [done|].
    simpl. unfold shown. by rewrite He.
Qed.

(** The page after a file starts with the next one. *)
Lemma split_at_marker_after m prev l1 l2 :
  StronglySorted (λ x y, String.leb x y = true) (l1 ++ m :: l2) → NoDup (l1 ++ m :: l2) →
  split_at_marker m prev (l1 ++ m :: l2) = (Some m, l2).
Proof.
  intros Hs Hnd. revert prev. induction l1 as [|f l1 IH]; intros prev; simpl in *.
  - rewrite string_leb_refl. simpl. destruct l2 as [|g l2]; [done|]. simpl.
    apply StronglySorted_inv in Hs as [_ Hm]. apply Forall_cons in Hm as [Hm _]. apply NoDup_cons in Hnd as [Hn _].
    destruct (String.leb g m) eqn:Hgm; [|done]. destruct Hn. rewrite (String.leb_antisym m g) by done. by left.
  - apply StronglySorted_inv in Hs as [Hs Hf]. apply NoDup_cons in Hnd as [_ Hnd].
    assert (String.leb f m = true) as ->.
    { rewrite Forall_forall in Hf. apply Hf. set_solver. }
    by apply IH.
Qed.

Lemma bucket_files_sorted s : StronglySorted (λ x y, String.leb x y = true) (bucket_files s).
Proof. apply sort_by_sorted; [apply String.leb_total|apply string_leb_trans]. Qed.

Lemma bucket_files_nodup s : NoDup (bucket_files s).
Proof. unfold bucket_files. rewrite sort_by_perm. apply NoDup_ListNoDup, List.NoDup_filter, NoDup_ListNoDup, NoDup_entries. Qed.

Lemma elem_of_bucket_files s f : f ∈ bucket_files s ↔ is_Some (st_files s !! f) ∧ String.prefix root f = true.
Proof.
  unfold bucket_files. rewrite sort_by_perm, list_elem_of_In, List.filter_In, <- list_elem_of_In, list_elem_of_fmap. split.
  - intros [([g e] & -> & Hg%elem_of_entries) ?]. split; [by eexists|done].
  - intros [[e He] ?]. split; [|done]. exists (f, e). split; [done|]. by apply elem_of_entries.
Qed.

(** A client that follows the tokens. *)
Definition with_token (token : option string) : S3Query :=
  mkS3Query (action params) (uploads params) (delete_param params) (upload_id params) (part_number params)
    (q_prefix params) (delimiter params) (list_type params) token (start_after params) (max_keys params) (policy params).

Fixpoint all_pages (fuel : nat) (token : option string) (s : Store) : option (list Object) :=
  match fuel with
  | 0 => None
  | S fuel =>
      match resp_body (srun (list_objects_v2 iso_date bucket (with_token token)) s).1 with
      | ListBucketV2 r =>
          match v2_next_continuation_token r with
          | None => Some (v2_contents r)
          | Some t => app (v2_contents r) <$> all_pages fuel (Some t) s
          end
      | _ => None
      end
  end.

Lemma page_loop_token token limit prev fs pg s :
  srun (page_loop iso_date bucket (with_token token) limit prev fs pg) s =
  srun (page_loop iso_date bucket params limit prev fs pg) s.
Proof.
  revert prev pg. induction fs as [|f fs IH]; intros prev pg; cbn [page_loop]; [done|]. case_if; [done|].
  cbn [q_prefix delimiter with_token]. destruct (entry_of _ _ _ f); [done|done|].
  rewrite !run_bind, object_of_run. apply IH.
Qed.

(** The page that starts after the files [l0]. *)
Lemma page_run token limit l0 fs s :
  start_after params = None → limit = default 1000%Z (max_keys params) → (0 < limit)%Z →
  bucket_files s = l0 ++ fs → fs ≠ [] →
  (match last l0 with None => token = None | Some m => ∃ t, token = Some t ∧ t ≠ "" ∧ m = object_path bucket t end) →
  ∃ l1 l2 r, fs = l1 ++ l2 ∧ l1 ≠ [] ∧
    resp_body (srun (list_objects_v2 iso_date bucket (with_token token)) s).1 = ListBucketV2 r ∧
    v2_contents r = omap (shown s) l1 ∧
    v2_next_continuation_token r = match l2 with [] => None | _ => last l1 ≫= strip_prefix root end.
Proof.
  intros Hsa -> Hpos Hfs Hne Htok. unfold list_objects_v2. rewrite run_bind. cbn [run perform store_step].
  fold (bucket_files s). cbn [start_after continuation_token max_keys with_token]. rewrite Hsa.
  assert ((if decide (default "" token = "") then (None, bucket_files s)
    else split_at_marker (object_path bucket (default "" token)) None (bucket_files s)) = (last l0, fs)) as ->.
  { destruct (last l0) as [m|] eqn:Hl.
    - destruct Htok as (t & -> & Ht & ->). simpl. rewrite decide_False by done.
      apply last_Some in Hl as [l0' ->]. rewrite <- app_assoc in Hfs. simpl in Hfs. rewrite Hfs.
      apply split_at_marker_after; rewrite <- Hfs; [apply bucket_files_sorted|apply bucket_files_nodup].
    - rewrite Htok. simpl. apply last_None in Hl as ->. by rewrite Hfs. }
  rewrite run_bind.
  destruct (page_loop_run (default 1000%Z (max_keys params)) fs (last l0) (mkPage [] [] ∅ 0) s)
    as (l1 & l2 & pg & tok & -> & Hrun & Hobj & Hnext & Hsome).
  rewrite page_loop_token, Hrun.
  specialize (Hsome Hpos Hne). eexists l1, l2, _. split; [done|]. split; [done|]. split; [done|].
  cbn [v2_contents v2_next_continuation_token fst snd]. split; [done|]. rewrite Hnext. destruct l2; [done|].
  apply last_is_Some in Hsome as [f ->]. done.
Qed.

Lemma pages_from fuel token limit l0 fs s :
  start_after params = None → limit = default 1000%Z (max_keys params) → (0 < limit)%Z →
  st_files s !! root = None → bucket_files s = l0 ++ fs → fs ≠ [] →
  (match last l0 with None => token = None | Some m => ∃ t, token = Some t ∧ t ≠ "" ∧ m = object_path bucket t end) →
  length fs ≤ fuel → all_pages fuel token s = Some (omap (shown s) fs).
Proof.
  intros Hsa Hlim Hpos Hroot. revert token l0 fs. induction fuel as [|fuel IH]; intros token l0 fs Hfs Hne Htok Hfuel.
  { by destruct fs; [|simpl in Hfuel; lia]. }
  destruct (page_run token limit l0 fs s Hsa Hlim Hpos Hfs Hne Htok) as (l1 & l2 & r & -> & Hl1 & Hbody & Hc & Hn).
  cbn [all_pages]. rewrite Hbody, Hn, Hc. destruct l2 as [|g l2]; [by rewrite app_nil_r|].
  destruct (last l1) as [f|] eqn:Hl; [|by apply last_None in Hl]. cbn [mbind option_bind].
  assert (f ∈ bucket_files s) as Hf.
  { rewrite Hfs, !elem_of_app. right. left. apply last_Some in Hl as [l ->]. set_solver. }
  apply elem_of_bucket_files in Hf as [Hex [t ->]%prefix_strip]. rewrite strip_prefix_app.
  assert (t ≠ "") as Ht.
  { intros ->. rewrite append_empty_r in Hex. by rewrite Hroot in Hex. }
  rewrite (IH (Some t) (l0 ++ l1) (g :: l2)).
  - cbn [fmap option_fmap option_map]. by rewrite omap_app.
  - by rewrite <- app_assoc.
  - done.
  - rewrite last_app, Hl. exists t. split; [done|]. split; [done|]. unfold object_path. by rewrite !append_assoc.
  - rewrite length_app in Hfuel. destruct l1; [done|]. simpl in *. lia.
Qed.

Lemma pages_all fuel s :
  start_after params = None → (0 < default 1000 (max_keys params))%Z → st_files s !! root = None →
  bucket_files s ≠ [] → length (bucket_files s) ≤ fuel →
  all_pages fuel None s = Some (omap (shown s) (bucket_files s)).
Proof. intros Hsa Hpos Hroot Hne Hfuel. by eapply (pages_from fuel None _ []). Qed.

(** *** What a listing should hold *)

(** The endings of the gateway's own files. *)
Definition reserved_endings : list string := [".s3keep"; ".s3_mpu_completed"; ".meta"].

(** The keys to be listed: there is a file, it is none of the gateway's own, the
    key has the prefix asked for, and what follows the prefix does not contain
    the delimiter (such keys are summed up as common prefixes). *)
Definition listed_key (s : Store) (k : string) : Prop :=
  is_Some (st_files s !! (root +:+ k)) ∧
  (∀ e, e ∈ reserved_endings → ¬ ∃ x, root +:+ k = x +:+ e) ∧
  ∃ rest, k = default "" (q_prefix params) +:+ rest ∧
    ∀ d, delimiter params = Some d → ¬ ∃ x y, rest = x +:+ d +:+ y.

Lemma internal_false f : internal f = false ↔ ∀ e, e ∈ reserved_endings → ¬ ∃ x, f = x +:+ e.
Proof.
  unfold internal, reserved_endings. rewrite !orb_false_iff, <- !not_true_iff_false, !ends_with_iff. set_solver.
Qed.

Lemma substring_app_skip p s n : String.length s ≤ n → String.substring (String.length p) n (p +:+ s) = s.
Proof.
  induction p as [|a p IH]; [|exact IH]. revert n. induction s as [|b s IH]; intros n Hn; [by destruct n|].
  destruct n as [|n]; simpl in Hn; [lia|]. exact (f_equal (String b) (IH n ltac:(lia))).
Qed.

(** Searching a text for another. *)
Lemma index_None d t : String.index 0 d t = None ↔ ¬ ∃ x y, t = x +:+ d +:+ y.
Proof.
  split.
  - intros Hn (x & y & ->). destruct d as [|a d]; [revert Hn; by destruct (x +:+ "" +:+ y)|].
    apply (String.index_correct3 0 (String.length x) (String a d) (x +:+ String a d +:+ y) Hn); [done|lia|].
    clear. induction x as [|b x IH]; [|exact IH]. induction (String a d) as [|b z IH]; [by destruct y|]. exact (f_equal (String b) IH).
  - intros Hn. destruct (String.index 0 d t) as [m|] eqn:Hi; [|done]. destruct Hn.
    apply String.index_correct1 in Hi. rewrite <- Hi. clear. revert t. induction m as [|m IH]; intros t.
    + exists "". generalize (String.length d). intros n. revert t. induction n as [|n IHn]; intros t; [by exists t; destruct t|].
      destruct t as [|b t]; [by exists ""|]. destruct (IHn t) as [y Hy]. exists y. exact (f_equal (String b) Hy).
    + destruct t as [|b t]; [by exists "", ""; destruct (String.length d)|]. destruct (IH t) as (x & y & Hxy). exists (String b x), y.
      exact (f_equal (String b) Hxy).
Qed.

Lemma entry_shown k : entry_of bucket (q_prefix params) (delimiter params) (root +:+ k) = Shown k ↔
  (∀ e, e ∈ reserved_endings → ¬ ∃ x, root +:+ k = x +:+ e) ∧
  ∃ rest, k = default "" (q_prefix params) +:+ rest ∧ ∀ d, delimiter params = Some d → ¬ ∃ x y, rest = x +:+ d +:+ y.
Proof.
  rewrite <- internal_false. unfold entry_of. destruct (internal (root +:+ k)); [split; [done|by intros []]|].
  rewrite strip_prefix_app.
  assert ((match q_prefix params with Some p => negb (String.prefix p k) | None => false end) = false ↔
    ∃ rest, k = default "" (q_prefix params) +:+ rest) as Hpre.
  { destruct (q_prefix params) as [p|]; [rewrite negb_false_iff; apply prefix_strip|]. split; [intros _; by exists k|done]. }
  destruct (match q_prefix params with Some p => _ | None => _ end).
  { split; [done|]. intros (_ & rest & Hk & _). exfalso. assert (true = false) by (apply Hpre; by exists rest). done. }
  destruct (proj1 Hpre eq_refl) as [rest Hk]. destruct (delimiter params) as [d|].
  - assert (String.substring (String.length (default "" (q_prefix params))) (String.length k) k = rest) as ->.
    { rewrite Hk at 2. apply substring_app_skip. rewrite Hk, append_length. lia. }
    destruct (String.index 0 d rest) as [idx|] eqn:Hi.
    + split; [done|]. intros (_ & rest' & Hk' & Hd). rewrite Hk in Hk'. apply append_inj_l in Hk' as <-.
      specialize (Hd d eq_refl). apply index_None in Hd. congruence.
    + split; [|done]. intros _. split; [done|]. exists rest. split; [done|]. intros d' [= <-]. by apply index_None.
  - split; [|done]. intros _. split; [done|]. exists rest. by split.
Qed.

Lemma object_of_spec f key s :
  obj_key (srun (object_of iso_date f key) s).1 = key ∧
  ∀ data etag t, st_files s !! f = Some (data, etag, t) → obj_size (srun (object_of iso_date f key) s).1 = N.of_nat (length data).
Proof.
  cbn [run object_of prog_bind perform store_step fst]. destruct (st_files s !! f) as [[[d e] t]|]; [|done].
  split; [done|]. by intros ? ? ? [= -> _ _].
Qed.

Lemma shown_file s f o : shown s f = Some o →
  f = root +:+ obj_key o ∧ entry_of bucket (q_prefix params) (delimiter params) f = Shown (obj_key o) ∧
  o = (srun (object_of iso_date f (obj_key o)) s).1.
Proof.
  unfold shown. destruct (entry_of _ _ _ f) as [|c|key] eqn:He; [done|done|]. intros Ho%Some_inj.
  assert (obj_key o = key) as -> by (rewrite <- Ho; apply object_of_spec). split; [|done].
  unfold entry_of in He. destruct (internal f); [done|]. destruct (strip_prefix root f) as [key'|] eqn:Hs; [|done].
  apply strip_prefix_Some in Hs as ->. by repeat case_match; simplify_eq.
Qed.

Lemma listed_in_order s : StronglySorted (λ x y, String.leb x y = true ∧ x ≠ y) (obj_key <$> omap (shown s) (bucket_files s)).
Proof.
  pose proof (bucket_files_sorted s) as Hs. pose proof (bucket_files_nodup s) as Hnd.
  induction Hs as [|f l Hl IH Hf]; [constructor|]. apply NoDup_cons in Hnd as [Hn Hnd]. cbn [omap list_omap].
  destruct (shown s f) as [o|] eqn:Ho; [|by apply IH]. cbn [fmap list_fmap]. constructor; [by apply IH|].
  apply shown_file in Ho as (Hfo & _). apply Forall_fmap, Forall_forall. intros o' (f' & Hf' & Ho')%list_elem_of_omap.
  apply shown_file in Ho' as [Hfo' _]. cbn. split.
  - rewrite <- (leb_append root), <- Hfo, <- Hfo'. by apply (proj1 (Forall_forall _ _) Hf).
  - intros E. apply Hn. by rewrite Hfo, E, <- Hfo'.
Qed.

(** C22. Pagination: a client that follows the continuation tokens of a listing
    without a start key, over a bucket that has files, stops after at most as
    many pages as there are files, whatever the positive page size, prefix and
    delimiter. It has then got each of the keys that are to be listed once and in
    order, with the size of its file. *)
Theorem pages_complete fuel s :
  start_after params = None → (0 < default 1000 (max_keys params))%Z → st_files s !! root = None →
  bucket_files s ≠ [] → length (bucket_files s) ≤ fuel →
  ∃ objects, all_pages fuel None s = Some objects ∧
    StronglySorted (λ x y, String.leb x y = true ∧ x ≠ y) (obj_key <$> objects) ∧
    (∀ k, k ∈ obj_key <$> objects ↔ listed_key s k) ∧
    ∀ o, o ∈ objects → ∃ data etag t, st_files s !! (root +:+ obj_key o) = Some (data, etag, t) ∧ obj_size o = N.of_nat (length data).
Proof.
  intros Hsa Hpos Hroot Hne Hfuel. exists (omap (shown s) (bucket_files s)). split; [by apply pages_all|].
  split; [apply listed_in_order|].
  assert (∀ o, o ∈ omap (shown s) (bucket_files s) → is_Some (st_files s !! (root +:+ obj_key o)) ∧ shown s (root +:+ obj_key o) = Some o) as Hin.
  { intros o (f & Hf & Ho)%list_elem_of_omap. pose proof (shown_file _ _ _ Ho) as [-> _]. by apply elem_of_bucket_files in Hf as [? _]. }
  split.
  - intros k. split.
    + intros (o & -> & Ho)%list_elem_of_fmap. destruct (Hin o Ho) as [Hf (_ & He & _)%shown_file]. split; [done|]. by apply entry_shown.
    + intros (Hf & He). apply entry_shown in He. apply list_elem_of_fmap.
      assert (shown s (root +:+ k) = Some (srun (object_of iso_date (root +:+ k) k) s).1) as Hs by (unfold shown; by rewrite He).
      eexists. split; [|apply list_elem_of_omap; exists (root +:+ k); split; [|exact Hs]].
      * apply shown_file in Hs as [Hs _]. by apply append_inj_l in Hs.
      * apply elem_of_bucket_files. split; [done|apply prefix_append].
  - intros o [[[[data etag] t] Hf] Hs]%Hin. exists data, etag, t. split; [done|].
    apply shown_file in Hs as (_ & _ & ->). by apply (proj2 (object_of_spec _ _ _) _ _ _ Hf).
Qed.

End listing.

(** ** Concrete executions *)

Module S3Demo.

(** Metadata as text. *)
Definition toy_json (m : gmap string string) : option bytes := Some (of_string (spell m)).
Definition toy_metadata (s : string) : option (gmap string string) := unspell s.

Lemma toy_roundtrip m : ∃ j, toy_json m = Some j ∧ j ≠ [] ∧ from_utf8 j ≫= toy_metadata = Some m.
Proof.
  assert (∀ p, valid_utf8 (of_string (bits p)) = true) as Hbits by (induction p as [p IH|p IH|]; [exact IH|exact IH|done]).
  eexists. split; [done|]. split; [unfold spell; by destruct (countable.encode m)|].
  unfold spell at 1. rewrite (header_text_of _ (Hbits _)). cbn. apply unspell_spell.
Qed.

Definition toy_md5 (b : bytes) : string := pretty (length b).
Definition text : bytes := of_string "hello, world".

(** A store with an older object at the path. *)
Definition store0 : Store := mkStore {["/b/k" := (of_string "old", "3", 7%N)]} ["u"] [x01; x02; x03] 9.

(** A bucket with a marker, two objects and metadata; pages of one object. *)
Definition store1 : Store := mkStore
  {["/b/.s3keep" := ([], "0", 1%N); "/b/k" := (of_string "old", "3", 7%N); "/b/k.meta" := (text, "12", 7%N); "/b/l" := (text, "12", 8%N);
    "/c/m" := (text, "12", 8%N)]} [] [] 9.
Definition query1 : S3Query := mkS3Query None None None None None None None (Some 2%Z) None None (Some 1%Z) None.

End S3Demo.

Import S3Demo.


Lemma pages_complete_witness :
  ∃ objects, all_pages (HO := map_order) toy_md5 pretty "b" query1 4 None store1 = Some objects ∧ obj_key <$> objects = ["k"; "l"].
Proof.
  destruct (pages_complete (HO := map_order) toy_md5 pretty "b" query1 4 store1) as (objects & Hall & _).
  - reflexivity.
  - reflexivity.
  - vm_compute. reflexivity.
  - vm_compute. discriminate.
  - vm_compute. lia.
  - exists objects. split; [exact Hall|]. vm_compute in Hall. injection Hall as <-. reflexivity.
Defined.
