(* ===== verification/S3Multipart.v ===== *)
(** * The S3 gateway: objects written in parts

    An upload is a directory of numbered files; completing it moves the files
    below the path of the object. Whoever reads the object gets the parts in the
    order of their numbers, whatever the order they were written in. *)

From Stdlib Require Import Strings.Byte.
From stdpp Require Import pretty.
From S2P Require Import Prelude Text MasterState Erasure Program Sse S3Base S3Handlers S3Spec.

(** ** Part numbers as file names *)

(** Every 32-bit number is read back from its decimal text, which ends with a
    digit and has no slash. *)
Lemma part_name n : (- 2 ^ 31 ≤ n < 2 ^ 31)%Z →
  parse_i32 (pretty n) = Some n ∧ absent "/" (pretty n) = true ∧ ends_in_digit (pretty n).
Proof.
  intros Hn. destruct n as [|p|p].
  - split_and!; [done|done|by exists "0"%char].
  - change (pretty (Z.pos p)) with (pretty (N.pos p)). destruct (pretty_N_text (N.pos p)) as (Hd & Hne & Hv). split_and!.
    + rewrite parse_i32_decimal, unsigned_decimal, Hv by done. by rewrite (proj2 (N.ltb_lt _ _)) by lia.
    + by apply decimal_absent.
    + by apply decimal_ends.
  - change (pretty (Z.neg p)) with (String "-" (pretty (N.pos p))). destruct (pretty_N_text (N.pos p)) as (Hd & Hne & Hv). split_and!.
    + unfold parse_i32. assert (magnitude 10 (pretty (N.pos p)) = Some (N.pos p)) as ->.
      { rewrite <- Hv. by destruct (pretty (N.pos p)). }
      by rewrite (proj2 (N.leb_le _ _)) by lia.
    + simpl. by apply decimal_absent.
    + destruct (decimal_ends _ Hd Hne) as (c & Hc & Hdc). exists c. simpl. by rewrite Hc.
Qed.

(** What is read as a number ends with a digit. *)
Lemma digits_last acc s v : digits 10 acc s = Some v → s ≠ "" → ends_in_digit s.
Proof.
  revert acc. induction s as [|a s IH]; intros acc; [done|]. cbn [digits].
  destruct (digit_value 10 a) as [x|] eqn:Hx; [|done]. intros Hs _. destruct s as [|b s]; [by exists a; rewrite Hx|].
  destruct (IH _ Hs ltac:(done)) as (c & Hc & Hd). exists c. cbn [last_char] in *. by rewrite Hc.
Qed.

Lemma ends_in_digit_cons a s : ends_in_digit s → ends_in_digit (String a s).
Proof. intros (c & Hc & Hd). exists c. cbn [last_char]. by rewrite Hc. Qed.

Lemma magnitude_last s v : magnitude 10 s = Some v → ends_in_digit s.
Proof. destruct s as [|a s]; [done|]. intros H. by eapply digits_last. Qed.

Lemma parse_i32_last s v : parse_i32 s = Some v → ends_in_digit s.
Proof.
  assert (∀ bound t w, unsigned 10 bound t = Some w → ends_in_digit t) as Hu.
  { intros bound [|a t] w; [done|]. unfold unsigned.
    destruct (match String a t with String "+" s' => magnitude 10 s' | _ => magnitude 10 (String a t) end) as [x|] eqn:Hm; [|done].
    intros _. destruct (decide (a = "+"%char)) as [->|Hne]; [by eapply ends_in_digit_cons, magnitude_last|].
    apply (magnitude_last _ x). rewrite <- Hm. by destruct a as [[] [] [] [] [] [] [] []]. }
  destruct s as [|a s]; [done|]. unfold parse_i32. destruct (decide (a = "-"%char)) as [->|Hne].
  - destruct (magnitude 10 s) as [x|] eqn:Hm; [|done]. intros _. by eapply ends_in_digit_cons, magnitude_last.
  - intros H. assert (∃ n, unsigned 10 (2 ^ 31) (String a s) = Some n) as [n Hn]; [|by eapply Hu].
    destruct (unsigned 10 (2 ^ 31) (String a s)) as [n|]; [by exists n|].
    by destruct a as [[] [] [] [] [] [] [] []].
Qed.

(** ** Paths *)

Lemma split_on_nonempty c s : split_on c s ≠ [].
Proof. destruct s as [|a s]; [done|]. simpl. case_decide; [done|]. by destruct (split_on c s). Qed.

Lemma split_on_two d t : 2 ≤ length (split_on "/" (d +:+ String "/" t)).
Proof.
  induction d as [|b d IH].
  - change ("" +:+ String "/" t) with (String "/" t). simpl. pose proof (split_on_nonempty "/" t).
    destruct (split_on "/" t); [done|]. simpl. lia.
  - change (String b d +:+ String "/" t) with (String b (d +:+ String "/" t)). cbn [split_on]. case_decide; [simpl; lia|].
    destruct (split_on "/" (d +:+ String "/" t)); [simpl in IH; lia|done].
Qed.

Lemma last_split_dir d t : last (split_on "/" (d +:+ String "/" t)) = last (split_on "/" t).
Proof.
  assert (∀ (x : string) l, l ≠ [] → last (x :: l) = last l) as Hcons by (by intros x [|y l]).
  induction d as [|a d IH].
  - change ("" +:+ String "/" t) with (String "/" t). simpl. apply Hcons, split_on_nonempty.
  - change (String a d +:+ String "/" t) with (String a (d +:+ String "/" t)). cbn [split_on]. case_decide.
    + rewrite Hcons by apply split_on_nonempty. done.
    + rewrite <- IH. pose proof (split_on_two d t) as Hl.
      destruct (split_on "/" (d +:+ String "/" t)) as [|x [|y l]]; [simpl in Hl; lia..|done].
Qed.

Lemma file_name_dir d t : absent "/" t = true → file_name (d +:+ "/" +:+ t) = t.
Proof.
  intros Ht. change (d +:+ "/" +:+ t) with (d +:+ String "/" t). unfold file_name.
  rewrite last_split_dir, split_on_absent; done.
Qed.

Lemma file_name_suffix s t : absent "/" t = true → ∃ q, file_name (s +:+ t) = q +:+ t.
Proof.
  intros Ht. assert (∃ q, last (split_on "/" (s +:+ t)) = Some (q +:+ t)) as [q Hq].
  { induction s as [|a s [q IH]].
    - exists "". change ("" +:+ t) with t. by rewrite split_on_absent.
    - change (String a s +:+ t) with (String a (s +:+ t)). cbn [split_on].
      destruct (split_on "/" (s +:+ t)) as [|x l] eqn:E; [done|]. case_decide; [by exists q|].
      destruct l as [|y l]; [|by exists q]. injection IH as ->. by exists (String a q). }
  exists q. unfold file_name. by rewrite Hq.
Qed.

(** The first components of a path below two directories of the root. *)
Lemma prefix_top a b f : absent "/" a = true → absent "/" b = true →
  String.prefix ("/" +:+ a +:+ "/") f = true → String.prefix ("/" +:+ b +:+ "/") f = true → a = b.
Proof.
  intros Ha Hb [x ->]%prefix_strip [y Hy]%prefix_strip. rewrite !append_assoc in Hy.
  change (String "/" (a +:+ String "/" x) = String "/" (b +:+ String "/" y)) in Hy. injection Hy as Hy.
  apply (f_equal (split_once "/")) in Hy. rewrite !split_once_app in Hy by done. by injection Hy.
Qed.

Lemma prefix_app_l p t : String.prefix p (p +:+ t) = true.
Proof. apply prefix_append. Qed.

(** ** Lists sorted by number *)

Notation by_number := (λ x y, (x.1 <=? y.1)%Z).

Lemma NoDup_fst_elem {A B} (l : list (A * B)) k a b : NoDup l.*1 → (k, a) ∈ l → (k, b) ∈ l → a = b.
Proof.
  induction l as [|[x y] l IH]; [by rewrite elem_of_nil|]. cbn [fmap list_fmap fst]. intros [Hx Hnd]%NoDup_cons.
  intros [[= <- <-]|Ha]%elem_of_cons [[= ]|Hb]%elem_of_cons; [done| | |by apply IH].
  - destruct Hx. apply list_elem_of_fmap. by exists (k, b).
  - subst. destruct Hx. apply list_elem_of_fmap. by exists (x, a).
Qed.

Lemma sort_numbers_perm {A} (l1 l2 : list (Z * A)) : l1 ≡ₚ l2 → NoDup l1.*1 → sort_by by_number l1 = sort_by by_number l2.
Proof.
  intros Hp Hnd.
  assert (∀ l : list (Z * A), StronglySorted (λ x y, (x.1 <=? y.1)%Z = true) (sort_by by_number l)) as Hs.
  { intros l. apply sort_by_sorted; [intros x y|intros x y z]; rewrite !Z.leb_le; lia. }
  apply (StronglySorted_unique_strong (λ x y, (x.1 <=? y.1)%Z = true)); [|done..|by rewrite !sort_by_perm].
  intros [n a] [m b]. rewrite !sort_by_perm, <- Hp, !Z.leb_le. cbn [fst]. intros Ha Hb ? ?. assert (n = m) as <- by lia. f_equal.
  apply (NoDup_fst_elem _ _ _ _ Hnd Ha Hb).
Qed.

Lemma sort_numbers_fmap {A B} (g : Z → B) (l : list (Z * A)) :
  sort_by by_number ((λ q, (q.1, g q.1)) <$> l) = (λ q, (q.1, g q.1)) <$> sort_by by_number l.
Proof.
  induction l as [|q l IH]; [done|]. cbn [fmap list_fmap sort_by foldr] in *. unfold sort_by in IH. rewrite IH.
  generalize (foldr (insert_by (λ x y : Z * A, (x.1 <=? y.1)%Z)) [] l) as k. induction k as [|y k IHk]; [done|].
  cbn [insert_by fmap list_fmap fst]. case_if; [done|]. cbn [fmap list_fmap]. by rewrite IHk.
Qed.

(** ** An upload *)

(** A client: start the upload, write the parts in some order, complete it. *)
Fixpoint upload_parts (md5_hex : bytes → string) (u : string) (parts : list (Z * bytes)) : S3 unit :=
  match parts with
  | [] => Ret tt
  | (n, b) :: parts => let* _ := upload_part md5_hex u n b in upload_parts md5_hex u parts
  end.

Definition multipart_put (md5_hex : bytes → string) (hex_decode : string → option bytes)
    (json_of : gmap string string → option bytes) (bucket key : string) (parts : list (Z * bytes)) : S3 HttpResponse :=
  let* r := initiate_multipart_upload bucket key in
  match resp_body r with
  | InitiateMultipartUploadResult _ _ u =>
      do* upload_parts md5_hex u parts in
      complete_multipart_upload md5_hex hex_decode json_of bucket key u
  | _ => Ret r
  end.

Notation Files := (gmap string (bytes * string * N)).

Section multipart.
  Context `{HO : HashOrder} `{AE : Aead} (md5_hex : bytes → string) (hex_decode : string → option bytes).
  Context (json_of : gmap string string → option bytes) (metadata_of : string → option (gmap string string)).
  Context (http_date : N → string) (valid_header_name valid_header_value : string → bool).
  Context (sse_manager : option SseManager).
  Context (json_roundtrip : ∀ m, ∃ j, json_of m = Some j ∧ j ≠ [] ∧ from_utf8 j ≫= metadata_of = Some m).
  Context (valid_etag : ∀ b (n : nat), valid_header_value (quoted (md5_hex b +:+ "-" +:+ pretty n)) = true).
  Context (bucket key u : string).
  Context (bucket_ok : absent "/" bucket = true) (bucket_ne : bucket ≠ ".s3_mpu").

Notation srun p s := (run (store_step md5_hex) p s).
Notation dest := (object_path bucket key).
Notation part n := (mpu_dir u +:+ "/" +:+ pretty (n : Z)).
Notation keep := (mpu_dir u +:+ "/.s3keep").
Notation dst n := (dest +:+ "/" +:+ pretty (n : Z)).
Notation marker := (dest +:+ "/.s3_mpu_completed").
Notation i32 n := (- 2 ^ 31 ≤ n < 2 ^ 31)%Z.

(** The directory of the upload and the object do not overlap. *)
Lemma apart f : String.prefix (mpu_dir u) f = true → String.prefix dest f = true → False.
Proof.
  intros Hu Hd. apply bucket_ne, (prefix_top bucket ".s3_mpu" f); [done..| |].
  - apply (prefix_trans _ key). unfold object_path in Hd. by rewrite !append_assoc.
  - by apply (prefix_trans _ u).
Qed.

(** The names in the directory of an upload. *)
Lemma part_not_special n suf c : i32 n → last_char suf = Some c → digit_value 10 c = None →
  ∀ d, ends_with suf (d +:+ "/" +:+ pretty n) = false.
Proof.
  intros Hn Hs Hc d. destruct (part_name n Hn) as (_ & _ & c' & Hl & Hd). rewrite <- append_assoc.
  apply ends_with_clash; rewrite ?Hl, ?Hs; [|by eexists..]. intros [= ->]. rewrite Hc in Hd. by destruct Hd.
Qed.

Lemma part_ne_etag n m : i32 n → part n ≠ part m +:+ ".etag".
Proof.
  intros Hn E. assert (ends_with ".etag" (part n) = true) as He by (rewrite E; apply ends_with_iff; eauto).
  by rewrite (part_not_special n ".etag" "g") in He.
Qed.

Lemma part_ne_keep n : i32 n → part n ≠ keep.
Proof.
  intros Hn E. assert (ends_with ".s3keep" (part n) = true) as He.
  { rewrite E. apply ends_with_iff. exists (mpu_dir u +:+ "/"). by rewrite append_assoc. }
  by rewrite (part_not_special n ".s3keep" "p") in He.
Qed.

Lemma dir_inj d (n m : Z) : d +:+ "/" +:+ pretty n = d +:+ "/" +:+ pretty m → n = m.
Proof. intros H. apply append_inj_l, append_inj_l in H. by apply (inj pretty). Qed.

(** *** Writing the parts *)

(** The store while parts are written: the parts so far, their checksums, and
    the files outside of the directory of the upload. *)
Record uploaded (m0 : Files) (parts : list (Z * bytes)) (m : Files) : Prop := {
  up_part n b : (n, b) ∈ parts → ∃ e, m !! part n = Some (b, e.1, e.2);
  up_only f : is_Some (m !! f) → String.prefix (mpu_dir u) f = true →
    f = keep ∨ ∃ n, n ∈ parts.*1 ∧ (f = part n ∨ f = part n +:+ ".etag");
  up_frame f : String.prefix (mpu_dir u) f = false → m !! f = m0 !! f;
}.

Lemma prefix_part t : String.prefix (mpu_dir u) (mpu_dir u +:+ t) = true.
Proof. apply prefix_append. Qed.

Lemma prefix_other t f : String.prefix (mpu_dir u) f = false → f ≠ mpu_dir u +:+ t.
Proof. intros H ->. by rewrite prefix_part in H. Qed.

Lemma uploaded_insert m0 parts m n b e x :
  Forall (λ q, i32 q.1) parts → i32 n → n ∉ parts.*1 → uploaded m0 parts m →
  m !! part n = None ∧
  uploaded m0 (parts ++ [(n, b)]) (<[part n := (b, e.1, e.2)]> m) ∧
  uploaded m0 (parts ++ [(n, b)]) (<[part n +:+ ".etag" := x]> (<[part n := (b, e.1, e.2)]> m)).
Proof.
  intros Hall Hn Hnew [H1 H2 H3]. rewrite Forall_forall in Hall.
  assert (m !! part n = None) as Hnone.
  { destruct (m !! part n) as [y|] eqn:Hy; [|done].
    destruct (H2 (part n)) as [E|(k & Hk & [E|E])]; [by eexists|apply prefix_part| | |].
    - by destruct (part_ne_keep n Hn).
    - apply dir_inj in E as ->. done.
    - by destruct (part_ne_etag n k Hn). }
  assert (uploaded m0 (parts ++ [(n, b)]) (<[part n := (b, e.1, e.2)]> m)) as Hup.
  { split.
    - intros k d [Hk|[= -> ->]%list_elem_of_singleton]%elem_of_app; [|exists e; apply lookup_insert_eq].
      rewrite lookup_insert_ne; [by apply H1|]. intros <-%dir_inj. apply Hnew, list_elem_of_fmap. by exists (n, d).
    - intros f Hf Hp. rewrite fmap_app. setoid_rewrite elem_of_app. destruct (decide (f = part n)) as [->|Hne].
      + right. exists n. split; [right; by left|by left].
      + rewrite lookup_insert_ne in Hf by done. destruct (H2 f Hf Hp) as [?|(k & ? & ?)]; [by left|]. right. exists k. auto.
    - intros f Hf. rewrite lookup_insert_ne; [by apply H3|]. intros <-. by rewrite prefix_part in Hf. }
  split; [done|]. split; [done|]. destruct Hup as [G1 G2 G3]. split.
  - intros k d Hk. rewrite lookup_insert_ne; [by apply G1|]. intros E. symmetry in E. apply part_ne_etag in E; [done|].
    apply elem_of_app in Hk as [Hk|[= -> ->]%list_elem_of_singleton]; [by apply (Hall _ Hk)|done].
  - intros f Hf Hp. destruct (decide (f = part n +:+ ".etag")) as [->|Hne].
    + right. exists n. split; [|by right]. rewrite fmap_app. apply elem_of_app. right. by left.
    + rewrite lookup_insert_ne in Hf by done. by apply G2.
  - intros f Hf. rewrite lookup_insert_ne; [by apply G3|]. intros <-. rewrite append_assoc, prefix_part in Hf. done.
Qed.

Lemma upload_parts_run m0 parts todo s :
  Forall (λ q, i32 q.1) (parts ++ todo) → NoDup (parts ++ todo).*1 → uploaded m0 parts (st_files s) →
  ∃ s', srun (upload_parts md5_hex u todo) s = (tt, s') ∧ uploaded m0 (parts ++ todo) (st_files s').
Proof.
  revert parts s. induction todo as [|[n b] todo IH]; intros parts s Hall Hnd Hup.
  { exists s. by rewrite app_nil_r. }
  assert (Forall (λ q, i32 q.1) parts ∧ i32 n ∧ n ∉ parts.*1) as (Hall1 & Hn & Hnew).
  { apply Forall_app in Hall as [? [? _]%Forall_cons]. rewrite fmap_app in Hnd. apply NoDup_app in Hnd as (_ & Hnd & _).
    split; [done|]. split; [done|]. intros Hin. apply (Hnd n Hin). by left. }
  cbn [upload_parts]. unfold upload_part. rewrite !run_bind. cbn [run perform store_step].
  destruct (uploaded_insert m0 parts _ n b (md5_hex b, st_now s)
    (of_string (quoted (md5_hex b)), md5_hex (of_string (quoted (md5_hex b))), st_now s) Hall1 Hn Hnew Hup) as (-> & Hu1 & Hu2).
  cbn [fst snd] in *. rewrite run_bind. cbn [run ignore prog_bind perform store_step].
  specialize (IH (parts ++ [(n, b)])). rewrite <- app_assoc in IH. 
  set (s1 := s <| st_files := _ |>). change (st_files s1) with (<[part n := (b, md5_hex b, st_now s)]> (st_files s)).
  destruct (<[part n := (b, md5_hex b, st_now s)]> (st_files s) !! (part n +:+ ".etag")); cbn [run]; by apply IH.
Qed.

(** *** Moving the parts *)

Lemma dst_outside t f : String.prefix (mpu_dir u) f = true → f ≠ dest +:+ t.
Proof. intros Hf ->. by eapply apart; [|apply prefix_append]. Qed.

Lemma move_part_run n s e : i32 n → st_files s !! part n = Some e → st_files s !! dst n = None →
  srun (move_part dest (part n)) s = (tt, s <| st_files := <[dst n := e]> (delete (part n) (st_files s)) |>).
Proof.
  intros Hn He Hd. unfold move_part. rewrite (part_not_special n ".s3keep" "p"), (part_not_special n ".etag" "g") by done.
  destruct (part_name n Hn) as (_ & Ha & _). rewrite file_name_dir by done.
  cbn [run ignore prog_bind perform store_step]. by rewrite He, Hd.
Qed.

Lemma move_etag_run n s :
  srun (move_part dest (part n +:+ ".etag")) s = (tt, s <| st_files := delete (part n +:+ ".etag") (st_files s) |>).
Proof.
  unfold move_part. rewrite (proj2 (ends_with_iff ".etag" _)) by eauto.
  rewrite ends_with_clash by (vm_compute; eauto; done). apply delete_run.
Qed.

Lemma move_keep_run s : srun (move_part dest keep) s = (tt, s).
Proof.
  unfold move_part. rewrite (proj2 (ends_with_iff ".s3keep" _)); [done|]. exists (mpu_dir u +:+ "/"). by rewrite append_assoc.
Qed.

(** Files of an upload that can be moved. *)
Definition movable (m : Files) (f : string) : Prop :=
  f = keep ∨ ∃ n, i32 n ∧ ((f = part n ∧ is_Some (m !! part n) ∧ m !! dst n = None) ∨ f = part n +:+ ".etag").

Lemma movable_outside m f : movable m f → String.prefix (mpu_dir u) f = true.
Proof. intros [->|(n & _ & [[-> _]| ->])]; rewrite ?append_assoc; apply prefix_part. Qed.

(** What a move of one file does. *)
Record moved (m : Files) (l : list string) (m' : Files) : Prop := {
  mv_part n : i32 n → part n ∈ l → m' !! dst n = m !! part n;
  mv_gone f : f ∈ l → f ≠ keep → m' !! f = None;
  mv_frame f : f ∉ l → (∀ n, i32 n → part n ∈ l → f ≠ dst n) → m' !! f = m !! f;
}.

Lemma move_one_run f s : movable (st_files s) f →
  ∃ s', srun (move_part dest f) s = (tt, s') ∧ moved (st_files s) [f] (st_files s').
Proof.
  intros [->|(n & Hn & [(-> & [e He] & Hd)| ->])].
  - exists s. split; [apply move_keep_run|]. split; [|set_solver|done].
    intros n Hn E%list_elem_of_singleton. by apply part_ne_keep in E.
  - eexists. split; [by apply move_part_run|]. cbn. split.
    + intros k Hk E%list_elem_of_singleton%dir_inj. subst. by rewrite lookup_insert_eq, He.
    + intros f ->%list_elem_of_singleton _. rewrite lookup_insert_ne, lookup_delete_eq; [done|].
      intros E. by eapply (dst_outside _ (part n)); [apply prefix_part|].
    + intros f Hf Hne. rewrite lookup_insert_ne by (apply not_eq_sym, Hne; [done|by left]).
      rewrite lookup_delete_ne; [done|]. intros <-. apply Hf. by left.
  - eexists. split; [apply move_etag_run|]. cbn. split.
    + intros k Hk E%list_elem_of_singleton. by apply part_ne_etag in E.
    + intros f ->%list_elem_of_singleton _. apply lookup_delete_eq.
    + intros f Hf _. rewrite lookup_delete_ne; [done|]. intros <-. apply Hf. by left.
Qed.

Lemma move_keeps_movable m f m1 g : movable m f → moved m [f] m1 → f ≠ g → movable m g → movable m1 g.
Proof.
  intros Hf [_ _ Hframe] Hne [->|(n & Hn & [(-> & He & Hd)| ->])]; [by left| |right; exists n; auto].
  right. exists n. split; [done|]. left. split; [done|].
  rewrite !Hframe; [done|..].
  - intros E%list_elem_of_singleton. apply (dst_outside ("/" +:+ pretty n) f); [by eapply movable_outside|done].
  - intros k _ E%list_elem_of_singleton E'%dir_inj. by subst.
  - by intros E%list_elem_of_singleton.
  - intros k _ _. apply dst_outside, prefix_part.
Qed.

Lemma moves_run l s : NoDup l → Forall (movable (st_files s)) l →
  ∃ s', srun (for_each l (move_part dest)) s = (tt, s') ∧ moved (st_files s) l (st_files s').
Proof.
  intros Hnd. revert s. induction Hnd as [|f l Hf Hnd IH]; intros s Hall.
  { exists s. split; [done|]. split; [set_solver..|done]. }
  apply Forall_cons in Hall as [Hmf Hall]. destruct (move_one_run f s Hmf) as (s1 & H1 & M1).
  destruct (IH s1) as (s2 & H2 & [P2 G2 F2]).
  { rewrite Forall_forall in Hall |- *. intros g Hg. eapply move_keeps_movable; [exact Hmf|done| |by apply Hall]. by intros ->. }
  exists s2. cbn [for_each]. rewrite run_bind, H1, H2. split; [done|]. rewrite Forall_forall in Hall. destruct M1 as [P1 G1 F1]. split.
  - intros n Hn [E|Hin]%elem_of_cons.
    + rewrite F2, P1; [done|done|rewrite E; by left|..].
      * intros Hd. apply Hall, movable_outside in Hd. by eapply (dst_outside _ (dst n)).
      * intros k _ Hk E'%dir_inj. subst. done.
    + rewrite P2 by done. apply F1; [intros E%list_elem_of_singleton; by subst|]. intros k _ _. apply dst_outside, prefix_part.
  - intros g [->|Hg]%elem_of_cons Hk; [|by apply G2]. rewrite F2; [apply G1; [by left|done]|done|].
    intros k _ _. apply dst_outside. by eapply movable_outside.
  - intros g [Hg1 Hg2]%not_elem_of_cons Hd. rewrite F2, F1; [done|..].
    + by intros E%list_elem_of_singleton.
    + intros k Hk E%list_elem_of_singleton. apply Hd; [done|]. rewrite E. by left.
    + done.
    + intros k Hk Hin. apply Hd; [done|by right].
Qed.

(** *** Completing the upload *)

Lemma part_checksums_run fs s : ∃ l, srun (part_checksums hex_decode fs) s = (l, s).
Proof.
  induction fs as [|f fs [l IH]]; [by eexists|]. cbn [part_checksums]. rewrite run_bind.
  destruct (strip_suffix ".etag" (file_name f) ≫= parse_i32) as [num|];
    [destruct (ends_with ".etag" f)|]; cbn [run prog_bind perform store_step]; rewrite run_bind, IH; by eexists.
Qed.

Lemma elem_of_listed f p s :
  f ∈ List.filter (String.prefix p) (entries (st_files s)).*1 ↔ is_Some (st_files s !! f) ∧ String.prefix p f = true.
Proof.
  rewrite list_elem_of_In, List.filter_In, <- list_elem_of_In, list_elem_of_fmap. split.
  - intros [([g e] & -> & Hg%elem_of_entries) ?]. split; [by eexists|done].
  - intros [[e He] ?]. split; [|done]. exists (f, e). split; [done|]. by apply elem_of_entries.
Qed.

Lemma NoDup_listed p s : NoDup (List.filter (String.prefix p) (entries (st_files s)).*1).
Proof. apply NoDup_ListNoDup, List.NoDup_filter, NoDup_ListNoDup, NoDup_entries. Qed.

Lemma delete_old_run s :
  ∃ s1, srun (if decide (dest ∈ List.filter (String.prefix dest) (entries (st_files s)).*1)
              then ignore (DeleteFile dest) else Ret tt) s = (tt, s1) ∧ st_files s1 = delete dest (st_files s).
Proof.
  case_decide as Hin; [rewrite delete_run; by eexists|]. exists s. split; [done|]. rewrite delete_id; [done|].
  destruct (st_files s !! dest) eqn:Hd; [|done]. destruct Hin. apply elem_of_listed. split; [by eexists|apply prefix_refl].
Qed.

(** The store after the upload: the parts below the object, the marker and the
    metadata, nothing left of the upload, everything else as before. *)
Record completed (m0 : Files) (parts : list (Z * bytes)) (etag : string) (m : Files) : Prop := {
  co_part n b : (n, b) ∈ parts → ∃ e, m !! dst n = Some (b, e.1, e.2);
  co_only f : is_Some (m !! f) → String.prefix dest f = true →
    f = marker ∨ f = dest +:+ ".meta" ∨ ∃ n, n ∈ parts.*1 ∧ f = dst n;
  co_marker : is_Some (m !! marker);
  co_meta : ∃ j e, m !! (dest +:+ ".meta") = Some (j, e.1, e.2) ∧ j ≠ [] ∧
    from_utf8 j ≫= metadata_of = Some {["ETag" := etag]};
  co_clean f : String.prefix (mpu_dir u) f = true → m !! f = None;
  co_frame f : String.prefix (mpu_dir u) f = false → String.prefix dest f = false → m !! f = m0 !! f;
}.

Lemma dest_outside t : String.prefix (mpu_dir u) (dest +:+ t) = false.
Proof.
  destruct (String.prefix (mpu_dir u) (dest +:+ t)) eqn:E; [|done].
  by destruct (apart _ E (prefix_append dest t)).
Qed.

Lemma dst_ne_marker n : i32 n → dst n ≠ marker.
Proof.
  intros Hn E. assert (ends_with ".s3_mpu_completed" (dst n) = true) as He.
  { rewrite E. apply ends_with_iff. exists (dest +:+ "/"). by rewrite append_assoc. }
  by rewrite (part_not_special n ".s3_mpu_completed" "d") in He.
Qed.

Lemma dst_ne_meta t : dest +:+ String "/" t ≠ dest +:+ ".meta".
Proof. by intros E%append_inj_l. Qed.

Lemma uploaded_movable m0 parts s s1 f :
  Forall (λ q, i32 q.1) parts → uploaded m0 parts (st_files s) →
  (∀ f, is_Some (m0 !! f) → String.prefix dest f = true → f = dest) →
  (∀ f, f ≠ marker → f ≠ dest → st_files s1 !! f = st_files s !! f) →
  is_Some (st_files s !! f) → String.prefix (mpu_dir u) f = true → movable (st_files s1) f.
Proof.
  intros Hall [U1 U2 U3] Hfresh Hs1 Hf Hp. destruct (U2 f Hf Hp) as [->|(n & Hn & Hor)]; [by left|right].
  assert (i32 n) as Hi.
  { apply list_elem_of_fmap in Hn as ([k b] & -> & Hin). by apply (proj1 (Forall_forall _ _) Hall _ Hin). }
  exists n. split; [done|]. destruct Hor as [->| ->]; [left|by right]. split; [done|]. split.
  - rewrite Hs1; [done|by apply dst_outside|].
    intros E. apply (dst_outside "" (part n)); [apply prefix_part|]. by rewrite append_empty_r.
  - rewrite Hs1; [|by apply dst_ne_marker|by apply append_ne_self].
    rewrite U3 by apply dest_outside. destruct (m0 !! dst n) eqn:E; [|done].
    assert (dst n = dest) as E' by (apply Hfresh; [by eexists|apply prefix_append]). by apply append_ne_self in E'.
Qed.

(** The files after the moves. *)
Lemma moved_completed m0 parts m m2 m3 l x j e etag :
  Forall (λ q, i32 q.1) parts → uploaded m0 parts m →
  (∀ t, t ≠ "" → m !! (dest +:+ t) = None) → m2 = <[marker := x]> (delete dest m) →
  (∀ f, f ∈ l ↔ is_Some (m2 !! f) ∧ String.prefix (mpu_dir u) f = true) → moved m2 l m3 →
  j ≠ [] → from_utf8 j ≫= metadata_of = Some {["ETag" := etag]} →
  m3 !! (dest +:+ ".meta") = None ∧
  completed m0 parts etag (<[dest +:+ ".meta" := (j, e.1, e.2)]> (delete keep m3)).
Proof.
  intros Hall [U1 U2 U3] Hnew Hm2 Hl [M1 M2 M3] Hj Hback. rewrite Forall_forall in Hall.
  assert (∀ f, String.prefix (mpu_dir u) f = true → m2 !! f = m !! f) as Hin.
  { intros f Hf. rewrite Hm2, lookup_insert_ne by (intros <-; by rewrite dest_outside in Hf).
    rewrite lookup_delete_ne; [done|]. intros <-. rewrite <- (append_empty_r dest), dest_outside in Hf. done. }
  assert (∀ n b, (n, b) ∈ parts → i32 n ∧ part n ∈ l) as Hparts.
  { intros n b Hnb. split; [by apply (Hall _ Hnb)|]. apply Hl. destruct (U1 _ _ Hnb) as [e0 He].
    rewrite Hin, He by apply prefix_part. split; [by eexists|apply prefix_part]. }
  assert (∀ t, dest +:+ t ∉ l) as Hout by (intros t [_ Hp]%Hl; by rewrite dest_outside in Hp).
  assert (∀ f, String.prefix dest f = true → (∀ n, i32 n → part n ∈ l → f ≠ dst n) → m3 !! f = m2 !! f) as Hd3.
  { intros f [t ->]%prefix_strip Hne. by apply M3. }
  assert (∀ n, part n ∈ l → n ∈ parts.*1 ∨ ¬ i32 n) as Hback_part.
  { intros n [Hsome Hp]%Hl. destruct (decide (i32 n)) as [Hi|]; [left|by right]. rewrite Hin in Hsome by done.
    destruct (U2 _ Hsome Hp) as [E|(k & Hk & [E|E])]; [by apply part_ne_keep in E|by apply dir_inj in E as ->|by apply part_ne_etag in E]. }
  assert (∀ t, t ≠ dest +:+ ".meta" → t ≠ keep → <[dest +:+ ".meta" := (j, e.1, e.2)]> (delete keep m3) !! t = m3 !! t) as Hfin.
  { intros t H1 H2. by rewrite lookup_insert_ne, lookup_delete_ne. }
  assert (∀ t, dest +:+ t ≠ keep) as Hk.
  { intros t E. pose proof (dest_outside t) as Hp. by rewrite E, prefix_part in Hp. }
  split; [|split].
  - rewrite Hd3 by (apply prefix_append || (intros n _ _; apply not_eq_sym, dst_ne_meta)).
    rewrite Hm2, lookup_insert_ne by (apply dst_ne_meta). rewrite lookup_delete_ne; [by apply Hnew|]. by apply not_eq_sym, append_ne_self.
  - intros n b Hnb. destruct (Hparts n b Hnb) as [Hi Hpl], (U1 _ _ Hnb) as [e0 He]. exists e0.
    rewrite Hfin, M1, Hin by (done || apply dst_ne_meta || apply prefix_part). done.
  - intros f Hf Hp. destruct (decide (f = dest +:+ ".meta")) as [|Hne1]; [by right; left|].
    destruct (decide (f = marker)) as [|Hne2]; [by left|]. right. right.
    apply prefix_strip in Hp as [t ->]. rewrite Hfin in Hf by done.
    destruct (decide (Exists (λ n, dest +:+ t = dst n) parts.*1)) as [(n & ? & ?)%Exists_exists|Hno]; [by exists n|].
    exfalso. rewrite Hd3 in Hf; [|apply prefix_append|].
    + rewrite Hm2, lookup_insert_ne in Hf by done. destruct (decide (t = "")) as [->|Ht].
      * rewrite append_empty_r, lookup_delete_eq in Hf. by destruct Hf.
      * rewrite lookup_delete_ne, Hnew in Hf by (done || by apply not_eq_sym, append_ne_self). by destruct Hf.
    + intros n Hi Hpl E. apply Hno, Exists_exists. exists n. split; [|done]. by destruct (Hback_part n Hpl).
  - rewrite Hfin by (apply dst_ne_meta || apply Hk).
    rewrite Hd3 by (apply prefix_append || (intros n Hi _; by apply not_eq_sym, dst_ne_marker)). rewrite Hm2, lookup_insert_eq. by eexists.
  - exists j, e. split; [apply lookup_insert_eq|done].
  - intros f Hp. rewrite lookup_insert_ne by (intros <-; by rewrite dest_outside in Hp).
    destruct (decide (f = keep)) as [->|Hne]; [apply lookup_delete_eq|]. rewrite lookup_delete_ne by done.
    destruct (m2 !! f) eqn:E; [apply M2; [apply Hl; split; [by eexists|done]|done]|].
    rewrite M3; [done|rewrite Hl, E; by intros [[? ?] _]|]. intros n _ _. by apply dst_outside.
  - intros f H1 H2. rewrite Hfin.
    + rewrite M3; [|by intros [_ Hp]%Hl; congruence|intros n _ _ ->; by rewrite prefix_append in H2].
      rewrite Hm2, lookup_insert_ne by (intros <-; by rewrite prefix_append in H2).
      rewrite lookup_delete_ne by (intros <-; by rewrite prefix_refl in H2). by apply U3.
    + intros ->. by rewrite prefix_append in H2.
    + intros ->. by rewrite prefix_part in H1.
Qed.

Lemma complete_upload_run m0 parts s :
  Forall (λ q, i32 q.1) parts → uploaded m0 parts (st_files s) →
  (∀ f, is_Some (m0 !! f) → String.prefix dest f = true → f = dest) →
  ∃ r s' etag, srun (complete_multipart_upload md5_hex hex_decode json_of bucket key u) s = (r, s') ∧ status r = 200%N ∧
    resp_body r = CompleteMultipartUploadResult ("http://localhost:9000/" +:+ bucket +:+ "/" +:+ key) bucket key etag ∧
    valid_header_value etag = true ∧ completed m0 parts etag (st_files s').
Proof.
  intros Hall Hup Hfresh. pose proof Hup as [U1 U2 U3]. unfold complete_multipart_upload.
  rewrite run_bind. cbn [run perform store_step]. rewrite run_bind.
  destruct (part_checksums_run (List.filter (String.prefix (mpu_dir u)) (entries (st_files s)).*1) s) as [l0 ->].
  set (etag := quoted _). rewrite run_bind. cbn [run perform store_step]. rewrite run_bind.
  destruct (delete_old_run s) as (s1 & -> & Hs1). rewrite run_bind. cbn [run perform store_step].
  assert (∀ t, t ≠ "" → st_files s !! (dest +:+ t) = None) as Hnew.
  { intros t Ht. rewrite U3 by apply dest_outside. destruct (m0 !! (dest +:+ t)) eqn:E; [|done].
    assert (dest +:+ t = dest) as E' by (apply Hfresh; [by eexists|apply prefix_append]). by apply append_ne_self in E'. }
  assert (st_files s1 !! marker = None) as -> by (rewrite Hs1, lookup_delete_ne, Hnew by (done || by apply not_eq_sym, append_ne_self); done).
  set (s2 := s1 <| st_files := _ |>).
  assert (st_files s2 = <[marker := ([], md5_hex [], st_now s1)]> (delete dest (st_files s))) as Hs2 by (unfold s2; cbn; by rewrite Hs1).
  rewrite run_bind. cbn [run perform store_step]. rewrite run_bind.
  destruct (moves_run (List.filter (String.prefix (mpu_dir u)) (entries (st_files s2)).*1) s2) as (s3 & -> & [M1 M2 M3]).
  { apply NoDup_listed. }
  { apply Forall_forall. intros f [Hf Hp]%elem_of_listed. assert (f ≠ marker ∧ f ≠ dest) as [H1 H2].
    { split; intros ->; [by rewrite dest_outside in Hp|]. rewrite <- (append_empty_r dest), dest_outside in Hp. done. }
    assert (∀ g, g ≠ marker → g ≠ dest → st_files s2 !! g = st_files s !! g) as Hsame.
    { intros g ? ?. by rewrite Hs2, lookup_insert_ne, lookup_delete_ne. }
    rewrite Hsame in Hf by done. by eapply (uploaded_movable m0 parts s). }
  destruct (json_roundtrip {["ETag" := etag]}) as (j & Hj & Hne & Hback).
  destruct (moved_completed m0 parts (st_files s) (st_files s2) (st_files s3) _ _ j (md5_hex j, st_now s3) etag Hall Hup Hnew Hs2
    (λ f, elem_of_listed f (mpu_dir u) s2) (Build_moved _ _ _ M1 M2 M3) Hne Hback) as [Hmeta Hco].
  rewrite run_bind, delete_run, run_bind. unfold save_metadata. rewrite Hj. cbn [run ignore prog_bind perform store_step].
  change (st_files (s3 <| st_files := delete keep (st_files s3) |>)) with (delete keep (st_files s3)).
  rewrite lookup_delete_ne, Hmeta by (intros E; pose proof (dest_outside ".meta") as Hp; by rewrite <- E, prefix_part in Hp).
  cbn [run]. eexists _, _, etag. split; [done|]. split; [done|]. split; [done|]. split; [apply valid_etag|exact Hco].
Qed.

(** *** Reading the object *)

Lemma parts_of_completed m0 parts etag s :
  Forall (λ q, i32 q.1) parts → NoDup parts.*1 → completed m0 parts etag (st_files s) →
  parts_of dest (List.filter (String.prefix dest) (entries (st_files s)).*1) =
  (λ q, (q.1, dst q.1)) <$> sort_by by_number parts.
Proof.
  intros Hall Hnd [C1 C2 _ _ _ _]. rewrite Forall_forall in Hall. unfold parts_of.
  etrans; [|apply (sort_numbers_fmap (λ n, dst n))]. symmetry. apply sort_numbers_perm; [|by rewrite <- list_fmap_compose].
  match goal with |- _ ≡ₚ omap ?f _ => set (F := f) end.
  assert (∀ f n g, F f = Some (n, g) → f = g) as HF.
  { intros f n g. unfold F. case_if; [done|]. by destruct (parse_i32 (file_name f)); intros [= _ ->]. }
  apply NoDup_Permutation.
  - apply (NoDup_fmap_1 fst). by rewrite <- list_fmap_compose.
  - pose proof (NoDup_listed dest s) as Hl. induction Hl as [|f l Hf _ IH]; [constructor|]. cbn [omap list_omap].
    destruct (F f) as [[n g]|] eqn:Ef; [|done]. constructor; [|done]. intros (f' & Hf' & E)%list_elem_of_omap.
    apply HF in Ef as ->. apply HF in E as ->. done.
  - intros [n f]. rewrite list_elem_of_fmap, list_elem_of_omap. split.
    + intros ([k b] & [= -> ->] & Hkb). cbn [fst]. exists (dst k). pose proof (Hall _ Hkb) as Hk. cbn [fst] in Hk. split.
      * apply elem_of_listed. destruct (C1 _ _ Hkb) as [e ->]. split; [by eexists|apply prefix_append].
      * unfold F. rewrite prefix_append, (part_not_special k ".s3keep" "p"), (part_not_special k ".s3_mpu_completed" "d") by done.
        destruct (part_name k Hk) as (Hp & Ha & _). cbn [negb orb]. by rewrite file_name_dir, Hp.
    + intros (f' & [Hf' Hp]%elem_of_listed & E). pose proof (HF _ _ _ E) as ->. unfold F in E. rewrite Hp in E.
      destruct (C2 f Hf' Hp) as [->|[->|(k & Hk & ->)]].
      * rewrite (proj2 (ends_with_iff ".s3_mpu_completed" _)), orb_true_r in E; [done|]. exists (dest +:+ "/"). by rewrite append_assoc.
      * exfalso. case_if; [done|]. destruct (file_name_suffix dest ".meta") as [q Hq]; [done|].
        destruct (parse_i32 (file_name (dest +:+ ".meta"))) as [v|] eqn:Hv; [|done]. rewrite Hq in Hv.
        apply parse_i32_last in Hv as (c & Hc & Hd). rewrite (last_char_app q ".meta" "a") in Hc by done.
        injection Hc as <-. by destruct Hd.
      * apply list_elem_of_fmap in Hk as ([k' b] & -> & Hkb). pose proof (Hall _ Hkb) as Hk. cbn [fst] in *.
        destruct (part_name k' Hk) as (Hpk & Ha & _). rewrite file_name_dir, Hpk in E by done.
        case_if; [done|]. injection E as <-. by exists (k', b).
Qed.

Lemma combine_parts_run l s :
  (∀ n b, (n, b) ∈ l → ∃ e, st_files s !! dst n = Some (b, e.1, e.2)) →
  srun (combine_parts sse_manager None ((λ q, (q.1, dst q.1)) <$> l)) s = (inl (mjoin l.*2), s).
Proof.
  induction l as [|[n b] l IH]; intros Hl; [done|]. cbn [fmap list_fmap combine_parts fst snd]. rewrite run_bind.
  cbn [run perform store_step]. unfold read_store. destruct (Hl n b) as [e ->]; [by left|].
  assert (∀ n b, (n, b) ∈ l → ∃ e, st_files s !! dst n = Some (b, e.1, e.2)) as Hl' by (intros; apply Hl; by right).
  destruct b as [|b0 b]; [by rewrite IH|]. cbn [decrypt_body]. by rewrite run_bind, IH.
Qed.

Lemma get_multipart_run m0 parts etag headers s :
  Forall (λ q, i32 q.1) parts → NoDup parts.*1 → completed m0 parts etag (st_files s) → valid_header_value etag = true →
  let plain := mjoin (sort_by by_number parts).*2 in
  plain ≠ [] → (N.of_nat (length plain) < u64_mod)%N →
  ∃ r, srun (get_object metadata_of http_date valid_header_name valid_header_value sse_manager bucket key headers) s = (Ok r, s) ∧
    serves_as etag headers plain r.
Proof.
  intros Hall Hnd Hco Hvalid plain Hne Hmax. pose proof Hco as [C1 C2 C3 (j & e & Hmeta & Hj & Hback) _ _].
  unfold get_object. rewrite run_bind. cbn [run perform store_step]. rewrite run_bind. cbn [run perform store_step].
  destruct (match info_of dest <$> st_files s !! dest with Some i => _ | None => _ end) as [etag0 lm].
  unfold load_metadata. rewrite run_bind. cbn [run prog_bind perform store_step]. unfold read_store at 1. rewrite Hmeta.
  destruct j as [|j0 j]; [done|]. rewrite Hback. cbn [default from_option id].
  pose proof (read_metadata_lookup valid_header_name valid_header_value etag0 {["ETag" := etag]}) as Hread.
  destruct (read_metadata valid_header_name valid_header_value etag0 {["ETag" := etag]}) as [[et dk] hs].
  rewrite lookup_singleton_eq, lookup_singleton_ne in Hread by done. injection Hread as -> ->. rewrite Hvalid. cbn [negb].
  assert (existsb (λ f, String.prefix dest f && ends_with ".s3_mpu_completed" f)
    (List.filter (String.prefix dest) (entries (st_files s)).*1) = true) as ->.
  { apply existsb_exists. exists marker. split.
    - apply list_elem_of_In, elem_of_listed. split; [done|apply prefix_append].
    - rewrite prefix_append. apply ends_with_iff. exists (dest +:+ "/"). by rewrite append_assoc. }
  set (hs' := <["last-modified" := lm]> _). unfold get_parts. rewrite (parts_of_completed m0 parts etag) by done.
  rewrite run_bind, combine_parts_run.
  2: { intros n b Hin. rewrite sort_by_perm in Hin. by apply C1. }
  destruct (cut_range_serves headers hs' plain Hne Hmax) as (hs'' & Hcut & Hetag). fold plain. rewrite Hcut.
  assert (hs'' !! "etag" = Some etag) as He.
  { rewrite Hetag. unfold hs'. rewrite lookup_insert_ne by done. apply lookup_insert_eq. }
  unfold serves_as, wanted in *. destruct (range_of headers ≫= _) as [[a b]|]; cbn [fst snd run]; (eexists; split; [done|]); split; try done.
  cbn [resp_headers]. by rewrite lookup_insert_ne.
Qed.

(** *** The upload as a whole *)

Lemma uploaded_start m0 x : (∀ f, is_Some (m0 !! f) → String.prefix (mpu_dir u) f = false) → uploaded m0 [] (<[keep := x]> m0).
Proof.
  intros Hfresh. split.
  - intros n b. by rewrite elem_of_nil.
  - intros f Hf Hp. destruct (decide (f = keep)); [by left|]. rewrite lookup_insert_ne in Hf by done.
    by rewrite Hfresh in Hp.
  - intros f Hf. rewrite lookup_insert_ne; [done|]. intros <-. by rewrite prefix_part in Hf.
Qed.

Lemma multipart_put_run parts s :
  head (st_uuids s) = Some u →
  Forall (λ q, i32 q.1) parts → NoDup parts.*1 →
  (∀ f, is_Some (st_files s !! f) → String.prefix (mpu_dir u) f = false) →
  (∀ f, is_Some (st_files s !! f) → String.prefix dest f = true → f = dest) →
  ∃ r s' etag, srun (multipart_put md5_hex hex_decode json_of bucket key parts) s = (r, s') ∧ status r = 200%N ∧
    resp_body r = CompleteMultipartUploadResult ("http://localhost:9000/" +:+ bucket +:+ "/" +:+ key) bucket key etag ∧
    valid_header_value etag = true ∧ completed (st_files s) parts etag (st_files s').
Proof.
  intros Hu Hall Hnd Hfresh Hdest. unfold multipart_put, initiate_multipart_upload. rewrite run_bind, run_bind.
  cbn [run perform store_step]. rewrite Hu. cbn [default from_option id]. rewrite run_bind. cbn [run ignore prog_bind perform store_step].
  set (s1 := s <| st_uuids := _ |>). change (st_files s1) with (st_files s).
  assert (st_files s !! keep = None) as ->.
  { destruct (st_files s !! keep) eqn:E; [|done]. assert (String.prefix (mpu_dir u) keep = false) as Hp by (apply Hfresh; by eexists).
    by rewrite prefix_part in Hp. }
  cbn [run resp_body xml_response]. rewrite run_bind. set (s2 := s1 <| st_files := _ |>).
  destruct (upload_parts_run (st_files s) [] parts s2 Hall Hnd) as (s3 & -> & Hup); [by apply uploaded_start|].
  by apply complete_upload_run.
Qed.

End multipart.

(** C21. Multipart uploads: a client that starts an upload, writes parts with
    distinct numbers in any order and completes it succeeds. Afterwards the
    object is the parts joined in the order of their numbers, whole or in the
    range a request asks for, with the checksum the upload was answered; nothing
    is left of the upload and every file outside of the object is as before.
    The upload has a fresh name, and nothing but a file at the path of the object
    itself lies at a path that starts with it: no metadata of an object that was
    put before, no parts and no object with a longer key. *)
Theorem multipart_roundtrip `{HO : HashOrder} `{AE : Aead} md5_hex hex_decode json_of metadata_of
    http_date valid_header_name valid_header_value sse_manager bucket key u parts s :
  (∀ m, ∃ j, json_of m = Some j ∧ j ≠ [] ∧ from_utf8 j ≫= metadata_of = Some m) →
  (∀ b (n : nat), valid_header_value (quoted (md5_hex b +:+ "-" +:+ pretty n)) = true) →
  absent "/" bucket = true → bucket ≠ ".s3_mpu" →
  head (st_uuids s) = Some u →
  Forall (λ q, - 2 ^ 31 ≤ q.1 < 2 ^ 31)%Z parts → NoDup parts.*1 →
  (∀ f, is_Some (st_files s !! f) → String.prefix (mpu_dir u) f = false) →
  (∀ f, is_Some (st_files s !! f) → String.prefix (object_path bucket key) f = true → f = object_path bucket key) →
  let plain := mjoin (sort_by (λ x y, (x.1 <=? y.1)%Z) parts).*2 in
  plain ≠ [] → (N.of_nat (length plain) < u64_mod)%N →
  ∃ r s' etag,
    run (store_step md5_hex) (multipart_put md5_hex hex_decode json_of bucket key parts) s = (r, s') ∧ status r = 200%N ∧
    resp_body r = CompleteMultipartUploadResult ("http://localhost:9000/" +:+ bucket +:+ "/" +:+ key) bucket key etag ∧
    (∀ f, String.prefix (mpu_dir u) f = true → st_files s' !! f = None) ∧
    (∀ f, String.prefix (mpu_dir u) f = false → String.prefix (object_path bucket key) f = false →
       st_files s' !! f = st_files s !! f) ∧
    ∀ headers rg, asks headers rg → satisfiable rg plain → ∃ r',
      run (store_step md5_hex)
        (get_object metadata_of http_date valid_header_name valid_header_value sse_manager bucket key headers) s' = (Ok r', s') ∧
      (status r', resp_body r') = ((requested rg plain).1, Data (requested rg plain).2) ∧
      resp_headers r' !! "etag" = Some etag.
Proof.
  intros Hjson Hvalid Hb Hbne Hu Hall Hnd Hfresh Hdest plain Hne Hmax.
  destruct (multipart_put_run md5_hex hex_decode json_of metadata_of valid_header_name valid_header_value Hjson Hvalid bucket key u Hb Hbne
    parts s Hu Hall Hnd Hfresh Hdest) as (r & s' & etag & Hrun & Hok & Hbody & Hv & Hco).
  exists r, s', etag. split; [done|]. split; [done|]. split; [done|]. split; [apply Hco|]. split; [apply Hco|].
  intros headers rg Hasks Hsat. rewrite <- (wanted_requested _ _ _ Hasks Hsat Hmax). by eapply get_multipart_run.
Qed.

Import S3Demo.

(** Three parts out of order over an older object. *)
Lemma multipart_roundtrip_witness :
  ∃ r s' etag,
    run (store_step (H := map_order) toy_md5)
      (multipart_put toy_md5 (λ s, Some (of_string s)) toy_json "b" "k" [(10%Z, text); (2%Z, [x41]); (3%Z, [])]) store0 = (r, s') ∧
    status r = 200%N ∧
    resp_body r = CompleteMultipartUploadResult ("http://localhost:9000/" +:+ "b" +:+ "/" +:+ "k") "b" "k" etag ∧
    (∀ f, String.prefix (mpu_dir "u") f = true → st_files s' !! f = None) ∧
    (∀ f, String.prefix (mpu_dir "u") f = false → String.prefix (object_path "b" "k") f = false →
       st_files s' !! f = st_files store0 !! f) ∧
    ∀ headers rg, asks headers rg → satisfiable rg ([x41] ++ text) → ∃ r',
      run (store_step (H := map_order) toy_md5)
        (get_object (H := map_order) (H0 := toy_aead) toy_metadata (λ _, "") (λ _, true) (λ _, true) None "b" "k" headers) s' = (Ok r', s') ∧
      (status r', resp_body r') = ((requested rg ([x41] ++ text)).1, Data (requested rg ([x41] ++ text)).2) ∧
      resp_headers r' !! "etag" = Some etag.
Proof.
  apply (multipart_roundtrip (HO := map_order) (AE := toy_aead) toy_md5 (λ s, Some (of_string s)) toy_json toy_metadata (λ _, "") (λ _, true)
    (λ _, true) None "b" "k" "u" [(10%Z, text); (2%Z, [x41]); (3%Z, [])] store0).
  - apply toy_roundtrip.
  - reflexivity.
  - reflexivity.
  - discriminate.
  - reflexivity.
  - repeat constructor; discriminate.
  - apply (bool_decide_unpack _). vm_compute. exact I.
  - intros f [e He]. unfold store0 in He. cbn [st_files] in He. apply lookup_singleton_Some in He as [<- _]. reflexivity.
  - intros f [e He] _. unfold store0 in He. cbn [st_files] in He. apply lookup_singleton_Some in He as [<- _]. reflexivity.
  - discriminate.
  - reflexivity.
Defined.
