(* ===== verification/AuditWorker.v ===== *)
(** * The audit log of the S3 gateway

    dfs/s3_server/src/audit.rs and dfs/s3_server/src/bin/audit_reader.rs: a
    worker takes records from a channel, links each to the one before it by a
    keyed hash, and writes them in batches to a database with two indexes; an
    hourly task deletes old records; the reader queries the log and verifies the
    chain. RocksDB column families are finite maps that iterate in the order of
    the keys, whose batches are written as a whole or fail; HMAC and JSON are
    parameters. Keys are byte strings. *)

From S2P Require Import Prelude Text.

(** [src/dfs/common/src/auth/audit.rs:3-19 AuditRecord] *)
Record AuditRecord : Type := mkAuditRecord {
  timestamp : string;
  timestamp_ms : N;
  request_id : string;
  remote_ip : string;
  user_id : string;
  rec_role_arn : option string;
  rec_action : string;
  resource : string;
  status_code : N;
  error_code : option string;
  user_agent : option string;
  duration_ms : option N;
  previous_hash : option string;
  record_hash : option string;
}.

Definition eta_record (r : AuditRecord) : AuditRecord :=
  mkAuditRecord (timestamp r) (timestamp_ms r) (request_id r) (remote_ip r) (user_id r) (rec_role_arn r) (rec_action r) (resource r)
    (status_code r) (error_code r) (user_agent r) (duration_ms r) (previous_hash r) (record_hash r).
#[global] Instance upd_previous_hash : Upd previous_hash := ltac:(upd_tac eta_record previous_hash).
#[global] Instance upd_record_hash : Upd record_hash := ltac:(upd_tac eta_record record_hash).

(** ** Keys *)

(** `to_be_bytes`: the [k] bytes of a number, the most significant first. *)
Fixpoint be_bytes (k : nat) (n : N) : string :=
  match k with
  | 0 => ""
  | S k => String (ascii_of_N ((n / 256 ^ N.of_nat k) mod 256)) (be_bytes k n)
  end.
(** `u64::from_be_bytes`. *)
Fixpoint from_be (acc : N) (s : string) : N :=
  match s with EmptyString => acc | String a s => from_be (acc * 256 + N_of_ascii a) s end.
Notation u64_be n := (be_bytes 8 n).

(** The key of a record: `:<ts_be>:<req_id>`.
    [src/dfs/s3_server/src/audit.rs:343-351 flush_batch] *)
Definition log_key (key_ts : N) (r : AuditRecord) : string := ":" +:+ u64_be key_ts +:+ ":" +:+ request_id r.

(** [src/dfs/s3_server/src/audit.rs:320-328 extract_bucket_name] *)
Definition extract_bucket_name (res : string) : string :=
  let bucket_id := default res (split_on ":" res !! 5) in
  default bucket_id (head (split_on "/" bucket_id)).

(** [src/dfs/s3_server/src/audit.rs:357-360 flush_batch] *)
Definition user_key (r : AuditRecord) (key : string) : string := user_id r +:+ ":" +:+ key.
(** [src/dfs/s3_server/src/audit.rs:364-369 flush_batch] *)
Definition resource_key (r : AuditRecord) (key : string) : string := extract_bucket_name (resource r) +:+ ":" +:+ key.

(** ** The database *)

Record AuditDb : Type := mkAuditDb {
  cf_logs : gmap string string;
  cf_user : gmap string string;
  cf_resource : gmap string string;
}.

(** Iteration over a column family, in the order of the keys. *)
Definition iterate (m : gmap string string) : list (string * string) :=
  sort_by (λ x y, String.leb x.1 y.1) (map_to_list m).

Inductive BatchOp : Type :=
  | PutLog (k v : string) | PutUser (k v : string) | PutResource (k v : string)
  | DeleteUser (k : string) | DeleteResource (k : string)
  | DeleteLogRange (from to : string).

Definition apply_batch_op (db : AuditDb) (op : BatchOp) : AuditDb :=
  match op with
  | PutLog k v => mkAuditDb (<[k := v]> (cf_logs db)) (cf_user db) (cf_resource db)
  | PutUser k v => mkAuditDb (cf_logs db) (<[k := v]> (cf_user db)) (cf_resource db)
  | PutResource k v => mkAuditDb (cf_logs db) (cf_user db) (<[k := v]> (cf_resource db))
  | DeleteUser k => mkAuditDb (cf_logs db) (delete k (cf_user db)) (cf_resource db)
  | DeleteResource k => mkAuditDb (cf_logs db) (cf_user db) (delete k (cf_resource db))
  | DeleteLogRange a b =>
      mkAuditDb (filter (λ e, ¬ (String.leb a e.1 = true ∧ String.ltb e.1 b = true)) (cf_logs db)) (cf_user db) (cf_resource db)
  end.
Definition write_batch (batch : list BatchOp) (db : AuditDb) : AuditDb := foldl apply_batch_op db batch.

(** Writing a record and reading it back; the keyed hash in hexadecimal. *)
Class AuditCodec := {
  to_json : AuditRecord → option string;
  of_json : string → option AuditRecord;
  of_to_json r s : to_json r = Some s → of_json s = Some r;
  hmac_hex : string → string → string;
}.

Section audit.
  Context `{AuditCodec} (hmac_secret : string).

(** [src/dfs/s3_server/src/audit.rs:307-318 compute_hmac] *)
Definition compute_hmac (record : AuditRecord) : string :=
  hmac_hex hmac_secret (default "" (to_json (record <| record_hash := None |>))).

(** ** Writing *)

(** [src/dfs/s3_server/src/audit.rs:342-370 flush_batch] *)
Definition flush_ops (e : N * AuditRecord) : option (list BatchOp) :=
  let '(key_ts, record) := e in
  let key := log_key key_ts record in
  match to_json record with
  | Some val => Some [PutLog key val; PutUser (user_key record key) key; PutResource (resource_key record key) key]
  | None => None
  end.

(** The batch is written when every record can be serialized and the database
    accepts it ([write_ok]).
    [src/dfs/s3_server/src/audit.rs:330-378 flush_batch] *)
Definition flush_batch (write_ok : bool) (db : AuditDb) (records : list (N * AuditRecord)) : option AuditDb :=
  match mapM flush_ops records with
  | Some batch => if write_ok then Some (write_batch (mjoin batch) db) else None
  | None => None
  end.

(** The order of a batch. [src/dfs/s3_server/src/audit.rs:110-112 AuditLogger::new] *)
Definition record_leb (a b : AuditRecord) : bool :=
  (timestamp_ms a <? timestamp_ms b)%N || ((timestamp_ms a =? timestamp_ms b)%N && String.leb (request_id a) (request_id b)).

(** Keys and hashes for the records of a batch: the hash of each record covers
    the hash of the one before it.
    [src/dfs/s3_server/src/audit.rs:113-125 AuditLogger::new] *)
Fixpoint chain (temp_hash : option string) (last_ts : N) (records : list AuditRecord)
  : list (N * AuditRecord) * option string * N :=
  match records with
  | [] => ([], temp_hash, last_ts)
  | rec :: records =>
      let key_ts := N.max (timestamp_ms rec) last_ts in
      let rec := rec <| previous_hash := temp_hash |> in
      let temp_hash := Some (compute_hmac rec) in
      let rec := rec <| record_hash := temp_hash |> in
      let '(keyed, hash, ts) := chain temp_hash key_ts records in
      ((key_ts, rec) :: keyed, hash, ts)
  end.

Record AuditLogger : Type := mkAuditLogger {
  tx : list AuditRecord;
  batch_buffer : list AuditRecord;
  committed_last_hash : option string;
  global_last_ts_ms : N;
  db : AuditDb;
}.

(** Up to as many attempts as outcomes are given.
    [src/dfs/s3_server/src/audit.rs:129-150 AuditLogger::new] *)
Fixpoint flush_attempts (outcomes : list bool) (db : AuditDb) (records : list (N * AuditRecord)) : option AuditDb :=
  match outcomes with
  | [] => None
  | ok :: outcomes =>
      match flush_batch ok db records with
      | Some db => Some db
      | None => flush_attempts outcomes db records
      end
  end.

(** A batch: the hash of its last record becomes the last hash when the batch is
    written; otherwise the records are lost.
    [src/dfs/s3_server/src/audit.rs:104-155 AuditLogger::new] *)
Definition flush (outcomes : list bool) (l : AuditLogger) : AuditLogger :=
  let '(keyed_records, temp_hash, last_ts) :=
    chain (committed_last_hash l) (global_last_ts_ms l) (sort_by record_leb (batch_buffer l)) in
  match flush_attempts outcomes (db l) keyed_records with
  | Some db => mkAuditLogger (tx l) [] temp_hash last_ts db
  | None => mkAuditLogger (tx l) [] (committed_last_hash l) last_ts (db l)
  end.

(** Starting on a database: the last record in the order of the keys gives the
    last hash and time. [src/dfs/s3_server/src/audit.rs:81-95 AuditLogger::new] *)
Definition start (db : AuditDb) : AuditLogger :=
  match last (iterate (cf_logs db)) ≫= λ e, of_json e.2 with
  | Some last_rec => mkAuditLogger [] [] (record_hash last_rec) (timestamp_ms last_rec) db
  | None => mkAuditLogger [] [] None 0 db
  end.

(** A record is dropped when the channel is full.
    [src/dfs/s3_server/src/audit.rs:293-299 log] *)
Definition log_record (record : AuditRecord) (l : AuditLogger) : AuditLogger :=
  if length (tx l) <? 10000
  then mkAuditLogger (tx l ++ [record]) (batch_buffer l) (committed_last_hash l) (global_last_ts_ms l) (db l)
  else l.

(** The worker takes a record. [src/dfs/s3_server/src/audit.rs:97-160 AuditLogger::new] *)
Definition receive (batch_size : nat) (outcomes : list bool) (l : AuditLogger) : AuditLogger :=
  match tx l with
  | [] => l
  | record :: rest =>
      let l := mkAuditLogger rest (batch_buffer l ++ [record]) (committed_last_hash l) (global_last_ts_ms l) (db l) in
      if batch_size <=? length (batch_buffer l) then flush (take 3 outcomes) l else l
  end.

(** Every five seconds. [src/dfs/s3_server/src/audit.rs:161-213 AuditLogger::new] *)
Definition interval_tick (outcomes : list bool) (l : AuditLogger) : AuditLogger :=
  match batch_buffer l with [] => l | _ => flush (take 3 outcomes) l end.

(** Shutdown: what is left in the channel is written too, with one attempt.
    [src/dfs/s3_server/src/audit.rs:218-254 AuditLogger::new] *)
Definition drain (outcome : bool) (l : AuditLogger) : AuditLogger :=
  let l := mkAuditLogger [] (batch_buffer l ++ tx l) (committed_last_hash l) (global_last_ts_ms l) (db l) in
  match batch_buffer l with [] => l | _ => flush [outcome] l end.

(** ** Deleting old records *)

(** `cutoff_ms.to_be_bytes()` of a signed number.
    [src/dfs/s3_server/src/audit.rs:383-387 cleanup_old_logs] *)
Definition cutoff_key (cutoff_ms : Z) : string := ":" +:+ u64_be (Z.to_N (cutoff_ms mod 2 ^ 64)).

(** The loop over the old records: their index entries are collected in a batch
    that is written every ten thousand records. A write that fails ends it;
    writes without an outcome succeed.
    [src/dfs/s3_server/src/audit.rs:399-428 cleanup_old_logs] *)
Fixpoint cleanup_loop (entries : list (string * string)) (outcomes : list bool) (batch : list BatchOp) (deleted_count : N) (db : AuditDb)
  : AuditDb * option (list BatchOp * list bool) :=
  match entries with
  | [] => (db, Some (batch, outcomes))
  | (key, val) :: entries =>
      match of_json val with
      | Some record =>
          let batch := batch ++ [DeleteUser (user_key record key); DeleteResource (resource_key record key)] in
          let deleted_count := (deleted_count + 1)%N in
          if (deleted_count mod 10000 =? 0)%N then
            if default true (head outcomes)
            then cleanup_loop entries (tail outcomes) [] deleted_count (write_batch batch db)
            else (db, None)
          else cleanup_loop entries outcomes batch deleted_count db
      | None => cleanup_loop entries outcomes batch deleted_count db
      end
  end.

(** [src/dfs/s3_server/src/audit.rs:380-438 cleanup_old_logs] *)
Definition cleanup_old_logs (cutoff_ms : Z) (outcomes : list bool) (db : AuditDb) : AuditDb :=
  let end_key := cutoff_key cutoff_ms in
  let old := List.filter (λ e, String.ltb e.1 end_key) (iterate (cf_logs db)) in
  match cleanup_loop old outcomes [] 0 db with
  | (db, Some (batch, outcomes)) =>
      if default true (head outcomes) then write_batch (batch ++ [DeleteLogRange ":" end_key]) db else db
  | (db, None) => db
  end.

(** [src/dfs/s3_server/src/audit.rs:381-382 cleanup_old_logs] *)
Definition cutoff_of (now_ms : N) (retention_days : N) : Z := (Z.of_N now_ms - Z.of_N retention_days * 86400000)%Z.

(** ** Reading *)

(** The check of the chain; the number of records, or the request it fails at.
    [src/dfs/s3_server/src/bin/audit_reader.rs:251-279 verify_chain] *)
Fixpoint verify_loop (last_hash : option string) (verified_count : N) (vals : list string) : N + string :=
  match vals with
  | [] => inl verified_count
  | val :: vals =>
      match of_json val with
      | None => inr "invalid record"
      | Some record =>
          if (0 <? verified_count)%N && negb (bool_decide (previous_hash record = last_hash))
          then inr "Audit log hash chain is broken!"
          else if negb (bool_decide (record_hash record = Some (compute_hmac record)))
          then inr "Audit log record is tampered!"
          else verify_loop (record_hash record) (verified_count + 1) vals
      end
  end.
(** [src/dfs/s3_server/src/bin/audit_reader.rs:243-285 verify_chain] *)
Definition verify_chain (db : AuditDb) : N + string := verify_loop None 0 (iterate (cf_logs db)).*2.

(** The filters of the command line, the times in milliseconds.
    [src/dfs/s3_server/src/bin/audit_reader.rs:11-54 Args] *)
Record Args : Type := mkArgs {
  arg_user : option string;
  arg_resource : option string;
  arg_action : option string;
  arg_status : option N;
  arg_start_ms : N;
  arg_end_ms : N;
  arg_limit : nat;
}.

(** [src/dfs/s3_server/src/bin/audit_reader.rs:287-316 filter_record] *)
Definition filter_record (args : Args) (record : AuditRecord) : bool :=
  match arg_user args with Some u => bool_decide (user_id record = u) | None => true end &&
  match arg_action args with Some a => bool_decide (rec_action record = a) | None => true end &&
  match arg_status args with Some s => bool_decide (status_code record = s) | None => true end &&
  match arg_resource args with Some r => bool_decide (extract_bucket_name (resource record) = r) | None => true end.

(** The record of an index entry, when it is in the time range and passes the
    filter; an error ends the program, and the records printed before it are left
    out of the results below.
    [src/dfs/s3_server/src/bin/audit_reader.rs:212-241 process_primary_key] *)
Definition process_primary_key (args : Args) (db : AuditDb) (primary_key : string) : (option AuditRecord) + string :=
  if (9 <? String.length primary_key) && String.prefix ":" primary_key then
    let ts := from_be 0 (String.substring 1 8 primary_key) in
    if (ts <? arg_start_ms args)%N || (arg_end_ms args <? ts)%N then inl None
    else
      match cf_logs db !! primary_key with
      | Some val =>
          match of_json val with
          | Some record => inl (if filter_record args record then Some record else None)
          | None => inr "invalid record"
          end
      | None => inl None
      end
  else inl None.

(** The entries of an index from a key on.
    [src/dfs/s3_server/src/bin/audit_reader.rs:131-142 main] *)
Fixpoint scan_index (args : Args) (db : AuditDb) (start_key : string) (count : nat) (entries : list (string * string))
  : list AuditRecord + string :=
  match entries with
  | [] => inl []
  | (key, primary_key) :: entries =>
      if negb (String.prefix start_key key) then inl []
      else
        match process_primary_key args db primary_key with
        | inr e => inr e
        | inl None => scan_index args db start_key count entries
        | inl (Some r) =>
            if arg_limit args <=? S count then inl [r]
            else match scan_index args db start_key (S count) entries with inl rs => inl (r :: rs) | inr e => inr e end
        end
  end.

(** The records in the order of time.
    [src/dfs/s3_server/src/bin/audit_reader.rs:181-203 main] *)
Fixpoint scan_logs (args : Args) (count : nat) (entries : list (string * string)) : list AuditRecord + string :=
  match entries with
  | [] => inl []
  | (key, val) :: entries =>
      if negb (String.prefix ":" key) then inl []
      else
        match of_json val with
        | None => inr "invalid record"
        | Some record =>
            if (arg_end_ms args <? timestamp_ms record)%N then inl []
            else if (timestamp_ms record <? arg_start_ms args)%N then scan_logs args count entries
            else if filter_record args record then
              if arg_limit args <=? S count then inl [record]
              else match scan_logs args (S count) entries with inl rs => inl (record :: rs) | inr e => inr e end
            else scan_logs args count entries
        end
  end.

(** `IteratorMode::From(start_key, Forward)`. *)
Definition iterate_from (start_key : string) (m : gmap string string) : list (string * string) :=
  List.filter (λ e, String.leb start_key e.1) (iterate m).

(** What the reader prints, up to the check of the chain.
    [src/dfs/s3_server/src/bin/audit_reader.rs:119-204 main] *)
Definition read_log (args : Args) (db : AuditDb) : list AuditRecord + string :=
  match arg_user args, arg_resource args with
  | Some u, _ =>
      let start_key := u +:+ ":" in scan_index args db start_key 0 (iterate_from start_key (cf_user db))
  | None, Some r =>
      let start_key := r +:+ ":" in scan_index args db start_key 0 (iterate_from start_key (cf_resource db))
  | None, None =>
      let start_key := ":" +:+ (if (0 <? arg_start_ms args)%N then u64_be (arg_start_ms args) else "") in
      scan_logs args 0 (iterate_from start_key (cf_logs db))
  end.

(** ** Executions *)

(** Requests are logged, the worker takes records and ticks, the hourly cleanup
    runs, the process is shut down or crashes and starts again. *)
Inductive AuditEvent : Type :=
  | Log (r : AuditRecord)
  | Receive (outcomes : list bool)
  | Tick (outcomes : list bool)
  | Cleanup (cutoff_ms : Z) (outcomes : list bool)
  | Shutdown (outcome : bool)
  | Crash.

Definition audit_step (batch_size : nat) (l : AuditLogger) (e : AuditEvent) : AuditLogger :=
  match e with
  | Log r => log_record r l
  | Receive outcomes => receive batch_size outcomes l
  | Tick outcomes => interval_tick outcomes l
  | Cleanup cutoff_ms outcomes =>
      mkAuditLogger (tx l) (batch_buffer l) (committed_last_hash l) (global_last_ts_ms l) (cleanup_old_logs cutoff_ms outcomes (db l))
  | Shutdown outcome => start (db (drain outcome l))
  | Crash => start (db l)
  end.

Definition audit_run (batch_size : nat) (l : AuditLogger) (es : list AuditEvent) : AuditLogger :=
  foldl (audit_step batch_size) l es.

End audit.
