(* ===== verification/AuditLog.v ===== *)
(** * The audit log: keys, chain and indexes

    Keys sort as the times they are made of; a batch that is newer than the log
    is appended to it with its hashes and index entries; a cleanup cuts off the
    oldest records and their entries. *)

From S2P Require Import Prelude Text AuditWorker.

(** ** Keys in the order of time *)

Lemma compare_lex p a b c d : (b < p)%N → (d < p)%N →
  (b + p * a ?= d + p * c)%N = match (a ?= c)%N with Eq => (b ?= d)%N | r => r end.
Proof.
  intros Hb Hd. destruct (N.compare_spec a c) as [->|Hac|Hac].
  - destruct (N.compare_spec b d) as [->|H|H]; [apply N.compare_refl|apply N.compare_lt_iff; lia|apply N.compare_gt_iff; lia].
  - apply N.compare_lt_iff. assert (p * (a + 1) ≤ p * c)%N by (apply N.mul_le_mono_l; lia). lia.
  - apply N.compare_gt_iff. assert (p * (c + 1) ≤ p * a)%N by (apply N.mul_le_mono_l; lia). lia.
Qed.

Lemma byte_lt x : (x mod 256 < 256)%N.
Proof. by apply N.mod_lt. Qed.

(** The bytes of two numbers compare as the numbers. *)
Lemma be_bytes_compare k n m s t :
  String.compare (be_bytes k n +:+ s) (be_bytes k m +:+ t) =
  match (n mod 256 ^ N.of_nat k ?= m mod 256 ^ N.of_nat k)%N with Eq => String.compare s t | c => c end.
Proof.
  induction k as [|k IH]; [by rewrite !N.mod_1_r|].
  replace (256 ^ N.of_nat (S k))%N with (256 ^ N.of_nat k * 256)%N by (rewrite Nat2N.inj_succ, N.pow_succ_r'; lia).
  rewrite !N.Div0.mod_mul_r, compare_lex by (apply N.mod_lt, N.pow_nonzero; lia).
  cbn [be_bytes]. change (String.compare (String ?a ?x +:+ s) (String ?b ?y +:+ t)) with
    (match Ascii.compare a b with Eq => String.compare (x +:+ s) (y +:+ t) | c => c end).
  unfold Ascii.compare. rewrite !N_ascii_embedding by apply byte_lt. rewrite IH.
  by destruct ((n / 256 ^ N.of_nat k) mod 256 ?= (m / 256 ^ N.of_nat k) mod 256)%N.
Qed.

Notation u64 n := (n < 2 ^ 64)%N.

Lemma log_key_compare t1 r1 t2 r2 : u64 t1 → u64 t2 →
  String.compare (log_key t1 r1) (log_key t2 r2) =
  match (t1 ?= t2)%N with Eq => String.compare (request_id r1) (request_id r2) | c => c end.
Proof.
  intros H1 H2. unfold log_key.
  transitivity (String.compare (u64_be t1 +:+ ":" +:+ request_id r1) (u64_be t2 +:+ ":" +:+ request_id r2)); [done|].
  rewrite be_bytes_compare. change (256 ^ N.of_nat 8)%N with (2 ^ 64)%N. by rewrite !N.mod_small.
Qed.

Lemma log_key_leb t1 r1 t2 r2 : u64 t1 → u64 t2 → String.leb (log_key t1 r1) (log_key t2 r2) = true →
  (t1 < t2)%N ∨ (t1 = t2 ∧ String.leb (request_id r1) (request_id r2) = true).
Proof.
  intros H1 H2. unfold String.leb. rewrite log_key_compare by done. destruct (N.compare_spec t1 t2) as [->|H|H]; auto. done.
Qed.

Lemma log_key_lt t1 r1 t2 r2 : u64 t1 → u64 t2 → (t1 < t2)%N →
  String.leb (log_key t1 r1) (log_key t2 r2) = true ∧ log_key t1 r1 ≠ log_key t2 r2.
Proof.
  intros H1 H2 Hlt. assert (String.compare (log_key t1 r1) (log_key t2 r2) = Lt) as Hc.
  { rewrite log_key_compare by done. by rewrite (proj2 (N.compare_lt_iff _ _)). }
  unfold String.leb. split; [by rewrite Hc|]. intros E. by rewrite E, string_compare_refl in Hc.
Qed.

Lemma log_key_inj t1 r1 t2 r2 : u64 t1 → u64 t2 → log_key t1 r1 = log_key t2 r2 → t1 = t2 ∧ request_id r1 = request_id r2.
Proof.
  intros H1 H2 E. pose proof (log_key_compare t1 r1 t2 r2 H1 H2) as Hc. rewrite E, string_compare_refl in Hc.
  destruct (N.compare_spec t1 t2); [|done..]. split; [done|]. by apply String.compare_eq_iff.
Qed.

(** ** Iteration *)

Notation key_order := (λ x y : string * string, String.leb x.1 y.1 = true).

Lemma iterate_perm m : iterate m ≡ₚ map_to_list m.
Proof. apply sort_by_perm. Qed.

Lemma iterate_sorted m : StronglySorted key_order (iterate m).
Proof. apply sort_by_sorted; [intros x y; apply String.leb_total|intros x y z; apply string_leb_trans]. Qed.

Lemma elem_of_iterate m k v : (k, v) ∈ iterate m ↔ m !! k = Some v.
Proof. by rewrite iterate_perm, elem_of_map_to_list. Qed.

Lemma iterate_nodup m : NoDup (iterate m).*1.
Proof. rewrite iterate_perm. apply NoDup_fst_map_to_list. Qed.

(** The iteration is the only sorted list of the entries. *)
Lemma iterate_unique m l :
  StronglySorted key_order l → NoDup l.*1 → (∀ k v, (k, v) ∈ l ↔ m !! k = Some v) → iterate m = l.
Proof.
  intros Hs Hnd Hin.
  assert (iterate m ≡ₚ l) as Hp.
  { apply NoDup_Permutation; [by eapply NoDup_fmap_1, iterate_nodup|by eapply NoDup_fmap_1|].
    intros [k v]. by rewrite elem_of_iterate, Hin. }
  eapply StronglySorted_unique_strong; [|apply iterate_sorted|done|done].
  intros [k1 v1] [k2 v2] H1 H2 Hle Hge. rewrite elem_of_iterate in H1. rewrite Hin in H2. simpl in *.
  pose proof (String.leb_antisym _ _ Hle Hge) as <-. congruence.
Qed.

(** Keys that come after all others are added at the end. *)
Lemma iterate_insert_last m k v :
  (∀ k', is_Some (m !! k') → String.leb k' k = true) → m !! k = None → iterate (<[k := v]> m) = iterate m ++ [(k, v)].
Proof.
  intros Hmax Hnew. apply iterate_unique.
  - assert (Forall (λ x, String.leb x.1 k = true) (iterate m)) as Hall.
    { apply Forall_forall. intros [k' v'] He%elem_of_iterate. apply Hmax. by eexists. }
    pose proof (iterate_sorted m) as Hs. induction Hs as [|x l Hl IH Hx]; [by repeat constructor|].
    apply Forall_cons in Hall as [Hx1 Hall]. constructor; [by apply IH|]. apply Forall_app. split; [done|by constructor].
  - rewrite fmap_app. apply NoDup_app. split; [apply iterate_nodup|]. split; [|apply NoDup_singleton].
    intros k' ([k1 v'] & -> & He%elem_of_iterate)%list_elem_of_fmap E%list_elem_of_singleton. simpl in E. congruence.
  - intros k' v'. rewrite elem_of_app, elem_of_iterate, list_elem_of_singleton, lookup_insert_Some. split.
    + intros [He|[= -> ->]]; [right; split; [congruence|done]|by left].
    + intros [[-> ->]|[_ ?]]; [by right|by left].
Qed.

Lemma NoDup_fmap_filter {A B} (f : A → B) (P : A → Prop) `{∀ x, Decision (P x)} (l : list A) :
  NoDup (f <$> l) → NoDup (f <$> filter P l).
Proof.
  induction l as [|x l IH]; [done|]. cbn [fmap list_fmap]. intros [Hx Hnd]%NoDup_cons. rewrite filter_cons.
  case_decide; [|by apply IH]. cbn [fmap list_fmap]. constructor; [|by apply IH].
  intros (y & Hy & [_ Hin]%list_elem_of_filter)%list_elem_of_fmap. apply Hx. rewrite Hy. apply list_elem_of_fmap. by exists y.
Qed.

Lemma iterate_filter (P : string * string → Prop) `{∀ x, Decision (P x)} m : iterate (filter P m) = filter P (iterate m).
Proof.
  apply iterate_unique.
  - pose proof (iterate_sorted m) as Hs. induction Hs as [|x l Hl IH Hx]; [constructor|].
    rewrite filter_cons. case_decide; [|done]. constructor; [done|]. apply Forall_forall. intros y [_ Hy]%list_elem_of_filter.
    by apply (proj1 (Forall_forall _ _) Hx).
  - apply NoDup_fmap_filter, iterate_nodup.
  - intros k v. rewrite list_elem_of_filter, elem_of_iterate, map_lookup_filter_Some. tauto.
Qed.

(** A condition that holds from some key on keeps the rest of the list. *)
Lemma filter_suffix (P : string * string → Prop) `{∀ x, Decision (P x)} l :
  StronglySorted key_order l → (∀ x y, P x → key_order x y → P y) → l = filter (λ x, ¬ P x) l ++ filter P l.
Proof.
  intros Hs Hup. induction Hs as [|x l Hl IH Hx]; [done|]. rewrite !filter_cons. destruct (decide (P x)) as [Hp|Hp].
  - rewrite decide_False by tauto. assert (Forall P l) as Hall.
    { eapply Forall_impl; [exact Hx|]. intros y Hy. by eapply Hup. }
    assert (filter (λ x, ¬ P x) l = [] ∧ filter P l = l) as [-> ->]; [|done].
    clear -Hall. induction Hall as [|y l Hy _ [IH1 IH2]]; [done|]. rewrite !filter_cons, IH1, IH2.
    by rewrite (decide_False (P := ¬ P y)), (decide_True (P := P y)) by tauto.
  - rewrite decide_True by done. simpl. by rewrite <- IH.
Qed.

(** ** The chain *)

Section spec.
  Context `{AuditCodec} (secret : string).

Notation ts r := (timestamp_ms r).
Notation key r := (log_key (ts r) r).
Notation hash r := (compute_hmac secret r).

(** Each record covers the hash of the one before it; the first one that of [h]. *)
Fixpoint linked (h : option string) (recs : list AuditRecord) : Prop :=
  match recs with
  | [] => True
  | r :: recs => previous_hash r = h ∧ record_hash r = Some (hash r) ∧ linked (record_hash r) recs
  end.

Definition last_hash (h : option string) (recs : list AuditRecord) : option string :=
  match last recs with Some r => record_hash r | None => h end.

Lemma last_hash_cons h r recs : last_hash h (r :: recs) = last_hash (record_hash r) recs.
Proof. unfold last_hash. rewrite last_cons. by destruct (last recs). Qed.

Lemma linked_app h l1 l2 : linked h (l1 ++ l2) ↔ linked h l1 ∧ linked (last_hash h l1) l2.
Proof.
  revert h. induction l1 as [|r l1 IH]; intros h; [by split; [|intros [_ ?]]|].
  cbn [app linked]. rewrite IH, last_hash_cons. tauto.
Qed.

Lemma last_hash_app h l1 l2 : last_hash h (l1 ++ l2) = last_hash (last_hash h l1) l2.
Proof. unfold last_hash. rewrite last_app. by destruct (last l2). Qed.

Lemma verify_linked h n recs vals :
  Forall2 (λ v r, to_json r = Some v) vals recs → linked h recs →
  verify_loop secret (if (0 <? n)%N then h else None) n vals = inl (n + N.of_nat (length recs))%N.
Proof.
  intros Hall. revert h n. induction Hall as [|v r vals recs Hv Hall IH]; intros h n; cbn [verify_loop linked length].
  { intros _. f_equal. lia. }
  intros (Hp & Hr & Hl). rewrite (of_to_json _ _ Hv).
  destruct (0 <? n)%N eqn:Hn; cbn [andb]; rewrite ?bool_decide_true by done; cbn [negb];
    specialize (IH _ (n + 1)%N Hl); rewrite (proj2 (N.ltb_lt _ _)) in IH by lia; rewrite IH; f_equal; lia.
Qed.

(** The hash of a record does not cover itself. *)
Lemma compute_hmac_own r h : compute_hmac secret (r <| record_hash := h |>) = hash r.
Proof. by destruct r. Qed.

(** What a record says, without its hashes. *)
Definition content (r : AuditRecord) : AuditRecord := r <| previous_hash := None |> <| record_hash := None |>.

(** The records of a batch that is newer than everything before it keep their
    times and contents and continue the chain. *)
Lemma chain_spec h g rs : StronglySorted (λ a b, record_leb a b = true) rs → Forall (λ r, (g < ts r)%N) rs →
  ∃ rs', chain secret h g rs = ((λ r, (ts r, r)) <$> rs', last_hash h rs', match last rs' with Some r => ts r | None => g end) ∧
    content <$> rs' = content <$> rs ∧ linked h rs'.
Proof.
  intros Hs. revert h g. assert (∀ r rs, StronglySorted (λ a b, record_leb a b = true) (r :: rs) → Forall (λ r', (ts r ≤ ts r')%N) rs) as Hle.
  { intros r l [_ Hr]%StronglySorted_inv. eapply Forall_impl; [exact Hr|]. intros r' Hr'. unfold record_leb in Hr'.
    apply orb_true_iff in Hr' as [?%N.ltb_lt|[?%N.eqb_eq _]%andb_true_iff]; lia. }
  assert (∀ rs, StronglySorted (λ a b, record_leb a b = true) rs → ∀ h g, Forall (λ r, (g ≤ ts r)%N) rs →
    ∃ rs', chain secret h g rs = ((λ r, (ts r, r)) <$> rs', last_hash h rs', match last rs' with Some r => ts r | None => g end) ∧
      content <$> rs' = content <$> rs ∧ linked h rs') as Hmain.
  { clear Hs rs. induction 1 as [|r rs Hs IH Hr]; intros h g Hg; [by exists []|]. apply Forall_cons in Hg as [Hgr _].
    cbn [chain]. rewrite N.max_l by done. set (r1 := r <| previous_hash := h |>). set (r2 := r1 <| record_hash := Some (hash r1) |>).
    destruct (IH (Some (hash r1)) (ts r)) as (rs' & Hc & Hcont & Hl); [by apply Hle; constructor|]. rewrite Hc.
    exists (r2 :: rs'). split; [|split].
    - rewrite last_hash_cons, last_cons. cbn. by destruct (last rs').
    - cbn [fmap list_fmap]. by rewrite Hcont.
    - cbn [linked]. split; [by destruct r|]. split; [by unfold r2; rewrite compute_hmac_own|done]. }
  intros h g Hg. apply Hmain; [done|]. eapply Forall_impl; [exact Hg|]. simpl. lia.
Qed.

(** ** What the database holds *)

(** The log is these records in this order, under their times. *)
Definition log_ok (recs : list AuditRecord) (d : AuditDb) : Prop :=
  Forall2 (λ kv r, kv.1 = key r ∧ to_json r = Some kv.2) (iterate (cf_logs d)) recs ∧ Forall (λ r, u64 (ts r)) recs.

(** The indexes list them by user and by bucket. *)
Definition index_ok (recs : list AuditRecord) (d : AuditDb) : Prop :=
  (∀ k v, cf_user d !! k = Some v ↔ ∃ r, r ∈ recs ∧ v = key r ∧ k = user_key r v) ∧
  (∀ k v, cf_resource d !! k = Some v ↔ ∃ r, r ∈ recs ∧ v = key r ∧ k = resource_key r v).

Definition put_record (d : AuditDb) (r : AuditRecord) (v : string) : AuditDb :=
  mkAuditDb (<[key r := v]> (cf_logs d)) (<[user_key r (key r) := key r]> (cf_user d)) (<[resource_key r (key r) := key r]> (cf_resource d)).

Lemma log_ok_lookup recs d k v : log_ok recs d → cf_logs d !! k = Some v → ∃ r, r ∈ recs ∧ k = key r ∧ to_json r = Some v.
Proof.
  intros [Hall _] Hk%elem_of_iterate. apply list_elem_of_lookup in Hk as [i Hi].
  destruct (Forall2_lookup_l _ _ _ _ _ Hall Hi) as (r & Hr & [E ?]). simpl in E. exists r. split; [by eapply list_elem_of_lookup_2|done].
Qed.

(** A record that is newer than all others. *)
Definition newer (recs : list AuditRecord) (r : AuditRecord) : Prop :=
  u64 (ts r) ∧ Forall (λ r', String.leb (key r') (key r) = true ∧ key r' ≠ key r) recs.

Lemma log_ok_put recs d r v : log_ok recs d → newer recs r → to_json r = Some v → log_ok (recs ++ [r]) (put_record d r v).
Proof.
  intros Hok [Hu Hn] Hv. pose proof Hok as [Hall Hu64]. rewrite Forall_forall in Hn. split.
  - unfold put_record. cbn [cf_logs]. rewrite iterate_insert_last.
    + apply Forall2_app; [done|]. by repeat constructor.
    + intros k [v' Hk]. destruct (log_ok_lookup _ _ _ _ Hok Hk) as (r' & Hr' & -> & _). by apply Hn.
    + destruct (cf_logs d !! key r) as [v'|] eqn:Hk; [|done]. destruct (log_ok_lookup _ _ _ _ Hok Hk) as (r' & Hr' & E & _).
      by destruct (Hn r' Hr').
  - apply Forall_app. split; [done|by constructor].
Qed.

(** Request identifiers are UUIDs: they have the same length. *)
Definition uuid (r : AuditRecord) : Prop := String.length (request_id r) = 36.

Lemma be_bytes_length k n : String.length (be_bytes k n) = k.
Proof. induction k as [|k IH]; [done|]. simpl. by rewrite IH. Qed.

Lemma key_length r : uuid r → String.length (key r) = 46.
Proof. unfold uuid, log_key. intros Hr. rewrite !append_length, be_bytes_length, Hr. done. Qed.

Lemma index_key_inj u r u' r' : uuid r → uuid r' → u +:+ ":" +:+ key r = u' +:+ ":" +:+ key r' → u = u' ∧ key r = key r'.
Proof.
  intros Hr Hr' E. apply append_inj_length in E as [-> E].
  - split; [done|]. by apply append_inj_l in E.
  - by rewrite !append_length, !key_length.
Qed.

(** Adding an entry to an index. *)
Lemma index_insert (m : gmap string string) (pre : AuditRecord → string) recs r :
  Forall uuid recs → uuid r → newer recs r →
  (∀ k v, m !! k = Some v ↔ ∃ r', r' ∈ recs ∧ v = key r' ∧ k = pre r' +:+ ":" +:+ v) →
  ∀ k v, <[pre r +:+ ":" +:+ key r := key r]> m !! k = Some v ↔ ∃ r', r' ∈ recs ++ [r] ∧ v = key r' ∧ k = pre r' +:+ ":" +:+ v.
Proof.
  intros Hall Hr [_ Hn] Hm k v. rewrite Forall_forall in Hall, Hn. rewrite lookup_insert_Some, Hm. setoid_rewrite elem_of_app. split.
  - intros [[<- <-]|[_ (r' & Hr' & -> & ->)]]; [exists r; set_solver|exists r'; set_solver].
  - intros (r' & [Hr'| ->%list_elem_of_singleton] & -> & ->); [right|by left]. split; [|by exists r'].
    intros E. apply index_key_inj in E as [_ E]; [|done|by apply Hall]. by destruct (Hn r' Hr').
Qed.

Lemma index_ok_put recs d r v : Forall uuid recs → uuid r → newer recs r → index_ok recs d → index_ok (recs ++ [r]) (put_record d r v).
Proof.
  intros Hall Hr Hn [H1 H2]. split.
  - by apply (index_insert _ user_id).
  - by apply (index_insert _ (λ r, extract_bucket_name (resource r))).
Qed.

(** A batch of records, each newer than the ones before it. *)
Fixpoint all_newer (recs new : list AuditRecord) : Prop :=
  match new with [] => True | r :: new => newer recs r ∧ all_newer (recs ++ [r]) new end.

Lemma flush_batch_ok recs new d d' :
  flush_batch true d ((λ r, (ts r, r)) <$> new) = Some d' → all_newer recs new → log_ok recs d →
  log_ok (recs ++ new) d' ∧ (Forall uuid (recs ++ new) → index_ok recs d → index_ok (recs ++ new) d').
Proof.
  unfold flush_batch. destruct (mapM flush_ops _) as [batch|] eqn:Hb; [|done]. intros [= <-].
  revert recs d batch Hb. induction new as [|r new IH]; intros recs d batch Hb Hn Hok.
  { injection Hb as <-. by rewrite app_nil_r. }
  apply mapM_Some, Forall2_cons_inv_l in Hb as (ops & batch' & Hops & Hb' & ->). destruct Hn as [Hn Hrest].
  unfold flush_ops in Hops. destruct (to_json r) as [v|] eqn:Hv; [|done]. injection Hops as <-. apply mapM_Some in Hb'.
  rewrite cons_middle, app_assoc. cbn [mjoin list_join]. unfold write_batch. rewrite foldl_app.
  destruct (IH (recs ++ [r]) (put_record d r v) batch' Hb' Hrest) as [I1 I2]; [by apply log_ok_put|]. split; [exact I1|].
  intros Hall Hi. apply I2; [done|]. apply Forall_app in Hall as [Hall _]. apply Forall_app in Hall as [Hall1 Hr].
  apply index_ok_put; [done| |done|done]. by apply Forall_cons in Hr as [? _].
Qed.

(** ** Batches *)

(** The order of a batch is that of the time and request identifier. *)
Notation stamp := (λ r, (timestamp_ms r, request_id r)).
Definition stamp_leb (x y : N * string) : bool := (x.1 <? y.1)%N || ((x.1 =? y.1)%N && String.leb x.2 y.2).

Lemma record_leb_stamp a b : record_leb a b = stamp_leb (stamp a) (stamp b).
Proof. done. Qed.

Lemma stamps_of_content (rs rs' : list AuditRecord) : content <$> rs' = content <$> rs → stamp <$> rs' = stamp <$> rs.
Proof. intros E%(f_equal (fmap stamp)). by rewrite <- !list_fmap_compose in E. Qed.

Lemma record_leb_total a b : record_leb a b = true ∨ record_leb b a = true.
Proof.
  unfold record_leb. destruct (N.lt_trichotomy (ts a) (ts b)) as [Hlt|[->|Hlt]].
  - left. by rewrite (proj2 (N.ltb_lt _ _)).
  - rewrite N.eqb_refl. destruct (String.leb_total (request_id a) (request_id b)) as [->| ->]; rewrite !orb_true_r; auto.
  - right. by rewrite (proj2 (N.ltb_lt _ _)).
Qed.

Lemma record_leb_trans a b c : record_leb a b = true → record_leb b c = true → record_leb a c = true.
Proof.
  unfold record_leb. rewrite !orb_true_iff, !andb_true_iff, !N.ltb_lt, !N.eqb_eq.
  intros [?|[? H1]] [?|[? H2]]; [left; lia..|right]. split; [lia|by eapply string_leb_trans].
Qed.

Lemma sorted_fmap {A B} (f : A → B) (R : B → B → Prop) l : StronglySorted R (f <$> l) ↔ StronglySorted (λ x y, R (f x) (f y)) l.
Proof.
  induction l as [|x l IH]; [by split; constructor|]. cbn [fmap list_fmap].
  split; intros [H1 H2]%StronglySorted_inv; constructor; (by apply IH) || by apply Forall_fmap.
Qed.

Lemma sorted_content (rs rs' : list AuditRecord) : content <$> rs' = content <$> rs →
  StronglySorted (λ a b, record_leb a b = true) rs → StronglySorted (λ a b, record_leb a b = true) rs'.
Proof.
  intros Hst%stamps_of_content Hs. apply (sorted_fmap stamp (λ x y, stamp_leb x y = true)) in Hs. rewrite <- Hst in Hs.
  by apply (sorted_fmap stamp (λ x y, stamp_leb x y = true)).
Qed.

Lemma sorted_last rs : StronglySorted (λ a b, record_leb a b = true) rs →
  Forall (λ r, (ts r ≤ match last rs with Some r' => ts r' | None => 0 end)%N) rs.
Proof.
  induction 1 as [|r new Hs IH Hr]; [constructor|]. rewrite last_cons. destruct (last new) as [r'|] eqn:Hlr.
  - constructor; [|done]. apply last_Some in Hlr as [l' ->]. apply Forall_app in Hr as [_ Hr]. apply Forall_cons in Hr as [Hr _].
    unfold record_leb in Hr. apply orb_true_iff in Hr as [?%N.ltb_lt|[?%N.eqb_eq _]%andb_true_iff]; lia.
  - apply last_None in Hlr as ->. by repeat constructor.
Qed.

(** A batch is newer than what was written before it, and its records are distinct. *)
Definition fresh (g : N) (rs : list AuditRecord) : Prop := Forall (λ r, (g < ts r)%N ∧ u64 (ts r)) rs ∧ NoDup (stamp <$> rs).

Lemma all_newer_intro recs new :
  Forall (λ r, u64 (ts r)) new → Forall (λ r, u64 (ts r)) recs → (∀ r r', r ∈ recs → r' ∈ new → (ts r < ts r')%N) →
  StronglySorted (λ a b, stamp_leb (stamp a) (stamp b) = true) new → NoDup (stamp <$> new) → all_newer recs new.
Proof.
  intros Hu Hur Hlt Hs Hnd.
  assert (∀ pre, Forall (λ r, u64 (ts r)) pre → Forall (λ r', Forall (λ r, stamp_leb (stamp r) (stamp r') = true ∧ stamp r ≠ stamp r') pre) new →
    all_newer (recs ++ pre) new) as Hmain.
  2: { specialize (Hmain []). rewrite app_nil_r in Hmain. apply Hmain; [done|]. by apply Forall_forall. }
  revert Hlt. induction Hs as [|r new Hs IH Hr]; intros Hlt pre Hup Hpre; [done|].
  apply Forall_cons in Hu as [Hur' Hu]. cbn [fmap list_fmap] in Hnd. apply NoDup_cons in Hnd as [Hn Hnd]. apply Forall_cons in Hpre as [Hpre Hrest].
  cbn [all_newer]. split.
  - split; [done|]. apply Forall_app. split; rewrite Forall_forall in *.
    + intros r' Hr'. apply log_key_lt; [by apply Hur|done|]. apply Hlt; [done|by left].
    + intros r' Hr'. destruct (Hpre r' Hr') as [Hle Hne]. unfold stamp_leb in Hle. cbn [fst snd] in Hle.
      apply orb_true_iff in Hle as [?%N.ltb_lt|[E%N.eqb_eq Hid]%andb_true_iff]; [apply log_key_lt; [by apply Hup|done..]|].
      split.
      * unfold String.leb. rewrite log_key_compare by (done || by apply Hup). rewrite E, N.compare_refl. done.
      * intros [? ?]%log_key_inj; [|by apply Hup|done]. apply Hne. congruence.
  - rewrite <- app_assoc. apply IH; [done..| | |].
    + intros a b Ha Hb. apply Hlt; [done|by right].
    + apply Forall_app. split; [done|by constructor].
    + rewrite Forall_forall in *. intros r' Hr'. apply Forall_app. split; [by apply Hrest|]. constructor; [|constructor].
      split; [by apply Hr|]. intros E. apply Hn. rewrite E. apply list_elem_of_fmap. by exists r'.
Qed.

(** ** The invariant *)

Record audit_ok (recs : list AuditRecord) (l : AuditLogger) : Prop := {
  ok_log : log_ok recs (db l);
  ok_linked : ∃ h, linked h recs ∧ last_hash h recs = committed_last_hash l;
  ok_time : Forall (λ r, (ts r ≤ global_last_ts_ms l)%N) recs;
}.

Lemma flush_attempts_ok outcomes d recs d' : flush_attempts outcomes d recs = Some d' → flush_batch true d recs = Some d'.
Proof.
  induction outcomes as [|ok outcomes IH]; [done|]. cbn [flush_attempts]. destruct (flush_batch ok d recs) as [d1|] eqn:Hf; [|done].
  intros [= <-]. unfold flush_batch in *. destruct (mapM flush_ops recs); [|done]. by destruct ok.
Qed.

(** A batch is written as a whole after the log, or is lost. *)
Lemma flush_ok recs l outcomes : audit_ok recs l → fresh (global_last_ts_ms l) (batch_buffer l) →
  ∃ new, audit_ok (recs ++ new) (flush secret outcomes l) ∧ (new = [] ∨ content <$> new ≡ₚ content <$> batch_buffer l) ∧
    (Forall uuid (recs ++ new) → index_ok recs (db l) → index_ok (recs ++ new) (db (flush secret outcomes l))).
Proof.
  intros [Hlog (h & Hlink & Hlast) Htime] [Hg Hnd]. unfold flush.
  set (rs := sort_by record_leb (batch_buffer l)).
  assert (rs ≡ₚ batch_buffer l) as Hperm by apply sort_by_perm.
  assert (StronglySorted (λ a b, record_leb a b = true) rs) as Hs by (apply sort_by_sorted; [apply record_leb_total|apply record_leb_trans]).
  assert (Forall (λ r, (global_last_ts_ms l < ts r)%N ∧ u64 (ts r)) rs) as Hg' by (by rewrite Hperm).
  destruct (chain_spec (committed_last_hash l) (global_last_ts_ms l) rs Hs) as (new & Hc & Hcont & Hl).
  { eapply Forall_impl; [exact Hg'|]. by intros r [? _]. }
  rewrite Hc. pose proof (stamps_of_content _ _ Hcont) as Hst.
  assert (Forall (λ r, (global_last_ts_ms l < ts r)%N ∧ u64 (ts r)) new) as Hnew.
  { assert (Forall (λ x : N * string, (global_last_ts_ms l < x.1)%N ∧ u64 x.1) (stamp <$> new)) as Hx by (rewrite Hst; by apply Forall_fmap).
    by apply Forall_fmap in Hx. }
  assert (global_last_ts_ms l ≤ match last new with Some r => ts r | None => global_last_ts_ms l end)%N as Hge.
  { destruct (last new) as [r|] eqn:Hlr; [|done]. apply last_Some in Hlr as [l' ->]. apply Forall_app in Hnew as [_ Hnew].
    apply Forall_cons in Hnew as [[? _] _]. lia. }
  destruct (flush_attempts outcomes (db l) ((λ r, (ts r, r)) <$> new)) as [d'|] eqn:Hf.
  - apply flush_attempts_ok in Hf.
    assert (all_newer recs new) as Hall.
    { apply all_newer_intro.
      - eapply Forall_impl; [exact Hnew|]. by intros r [_ ?].
      - apply Hlog.
      - intros r r' Hr Hr'. rewrite Forall_forall in Htime, Hnew. specialize (Htime r Hr). destruct (Hnew r' Hr'). lia.
      - by apply (sorted_content rs).
      - rewrite Hst, Hperm. done. }
    destruct (flush_batch_ok recs new (db l) d' Hf Hall Hlog) as [F1 F2]. exists new. split; [split|split].
    + done.
    + exists h. rewrite linked_app, last_hash_app, Hlast. by split.
    + cbn. apply Forall_app. split; [eapply Forall_impl; [exact Htime|simpl; lia]|].
      eapply Forall_impl; [by apply sorted_last, (sorted_content rs)|]. intros r. simpl. destruct (last new); [done|lia].
    + right. by rewrite Hcont, Hperm.
    + done.
  - exists []. rewrite app_nil_r. split; [split|split]; [done|by exists h| |by left|done].
    eapply Forall_impl; [exact Htime|simpl; lia].
Qed.

(** *** Deleting old records *)

Lemma string_ltb_leb x y : String.ltb x y = negb (String.leb y x).
Proof. unfold String.ltb, String.leb. rewrite (String.compare_antisym x y). by destruct (String.compare y x). Qed.

(** The entries of the indexes for some records. *)
Definition index_deletes (recs : list AuditRecord) : list BatchOp :=
  mjoin ((λ r, [DeleteUser (user_key r (key r)); DeleteResource (resource_key r (key r))]) <$> recs).

Definition spares_log (op : BatchOp) : Prop := match op with DeleteUser _ | DeleteResource _ => True | _ => False end.

Lemma write_spares_log batch d : Forall spares_log batch → cf_logs (write_batch batch d) = cf_logs d.
Proof. intros Hall. revert d. induction Hall as [|op batch Hop _ IH]; intros d; [done|]. simpl. rewrite IH. by destruct op. Qed.

Lemma cleanup_loop_spares_log es outcomes batch n d : Forall spares_log batch →
  cf_logs (cleanup_loop es outcomes batch n d).1 = cf_logs d ∧
  ∀ b o, (cleanup_loop es outcomes batch n d).2 = Some (b, o) → Forall spares_log b.
Proof.
  revert outcomes batch n d. induction es as [|[k v] es IH]; intros outcomes batch n d Hb; cbn [cleanup_loop].
  { split; [done|]. by intros b o [= <- <-]. }
  destruct (of_json v) as [r|]; [|by apply IH].
  assert (Forall spares_log (batch ++ [DeleteUser (user_key r k); DeleteResource (resource_key r k)])) as Hb'
    by (apply Forall_app; split; [done|by repeat constructor]).
  destruct (((n + 1) mod 10000 =? 0)%N); [|by apply IH].
  destruct (default true (head outcomes)); [|done].
  destruct (IH (tail outcomes) [] (n + 1)%N (write_batch (batch ++ [DeleteUser (user_key r k); DeleteResource (resource_key r k)]) d)) as [I1 I2]; [done|].
  split; [|done]. by rewrite I1, write_spares_log.
Qed.

(** Without failures every entry of an index is deleted once. *)
Lemma cleanup_loop_deletes es recs batch n d : Forall2 (λ kv r, kv.1 = key r ∧ to_json r = Some kv.2) es recs →
  ∃ b1 b2, cleanup_loop es [] batch n d = (write_batch b1 d, Some (b2, [])) ∧ b1 ++ b2 = batch ++ index_deletes recs.
Proof.
  intros Hall. revert batch n d. induction Hall as [|[k v] r es recs [Hk Hv] _ IH]; intros batch n d; cbn [cleanup_loop fst snd] in *.
  { exists [], batch. by rewrite app_nil_r. }
  subst k. rewrite (of_to_json _ _ Hv). change (index_deletes (r :: recs)) with
    ([DeleteUser (user_key r (key r)); DeleteResource (resource_key r (key r))] ++ index_deletes recs). rewrite app_assoc.
  set (batch' := batch ++ _). destruct (((n + 1) mod 10000 =? 0)%N); [|apply IH].
  destruct (IH [] (n + 1)%N (write_batch batch' d)) as (b1 & b2 & Hl & Hb). exists (batch' ++ b1), b2.
  change (tail (@nil bool)) with (@nil bool). cbn [default from_option head]. rewrite Hl. unfold write_batch. rewrite foldl_app. split; [done|].
  by rewrite <- app_assoc, Hb.
Qed.

Definition is_new (cutoff : string) (e : string * string) : Prop := String.leb cutoff e.1 = true.
#[local] Instance is_new_dec cutoff e : Decision (is_new cutoff e).
Proof. unfold is_new. apply _. Defined.

Lemma log_keys_colon recs d k : log_ok recs d → is_Some (cf_logs d !! k) → String.leb ":" k = true.
Proof. intros Hok [v Hk]. destruct (log_ok_lookup _ _ _ _ Hok Hk) as (r & _ & -> & _). apply string_leb_app. Qed.

(** The log is cut at the first record that is not old. *)
Lemma log_split cutoff recs d : log_ok recs d →
  ∃ r1 r2, recs = r1 ++ r2 ∧
    Forall2 (λ kv r, kv.1 = key r ∧ to_json r = Some kv.2) (List.filter (λ e, String.ltb e.1 cutoff) (iterate (cf_logs d))) r1 ∧
    Forall2 (λ kv r, kv.1 = key r ∧ to_json r = Some kv.2) (filter (is_new cutoff) (iterate (cf_logs d))) r2.
Proof.
  intros [Hall Hu]. rewrite (filter_suffix (is_new cutoff) (iterate (cf_logs d))) in Hall;
    [|apply iterate_sorted|intros x y Hx Hxy; by eapply string_leb_trans].
  apply Forall2_app_inv_l in Hall as (r1 & r2 & H1 & H2 & ->). exists r1, r2. split; [done|]. split; [|done].
  assert (∀ l, List.filter (λ e, String.ltb e.1 cutoff) l = filter (λ e, ¬ is_new cutoff e) l) as ->; [|done].
  induction l as [|e l IH]; [done|]. rewrite filter_cons. cbn [List.filter]. rewrite IH, string_ltb_leb.
  destruct (String.leb cutoff e.1) eqn:E.
  - rewrite decide_False; [done|]. intros Hn. by apply Hn.
  - rewrite decide_True; [done|]. unfold is_new. by rewrite E.
Qed.

(** The log after the final deletion. *)
Lemma delete_range_logs cutoff recs d : log_ok recs d →
  iterate (cf_logs (apply_batch_op d (DeleteLogRange ":" cutoff))) = filter (is_new cutoff) (iterate (cf_logs d)).
Proof.
  intros Hok. cbn [apply_batch_op cf_logs]. rewrite <- iterate_filter. f_equal. apply map_filter_ext. intros k v Hk. unfold is_new. cbn [fst].
  rewrite (log_keys_colon recs d k), string_ltb_leb by (done || by eexists).
  destruct (String.leb cutoff k); naive_solver.
Qed.

Lemma cleanup_logs cutoff_ms outcomes recs d : log_ok recs d → ∃ r1 r2, recs = r1 ++ r2 ∧ log_ok r2 (cleanup_old_logs cutoff_ms outcomes d).
Proof.
  intros Hok. unfold cleanup_old_logs. set (old := List.filter _ _).
  destruct (cleanup_loop_spares_log old outcomes [] 0 d ltac:(constructor)) as [Hl Hb].
  destruct (cleanup_loop old outcomes [] 0 d) as [d' [[b o]|]]; cbn [fst snd] in *.
  2: { exists [], recs. split; [done|]. unfold log_ok. by rewrite Hl. }
  specialize (Hb b o eq_refl). destruct (default true (head o)).
  2: { exists [], recs. split; [done|]. unfold log_ok. by rewrite Hl. }
  unfold write_batch. rewrite foldl_app. set (d2 := foldl apply_batch_op d' b).
  assert (cf_logs d2 = cf_logs d) as Hd2 by (rewrite <- Hl; by apply write_spares_log).
  destruct (log_split (cutoff_key cutoff_ms) recs d Hok) as (r1 & r2 & -> & _ & H2). exists r1, r2. split; [done|].
  destruct Hok as [Hall Hu]. split; [|by apply Forall_app in Hu as [_ ?]]. cbn [foldl].
  rewrite (delete_range_logs _ (r1 ++ r2)), Hd2; [done|]. unfold log_ok. by rewrite Hd2.
Qed.

(** *** Starting again *)

Lemma log_ok_keys recs d : log_ok recs d → (iterate (cf_logs d)).*1 = (λ r, key r) <$> recs.
Proof.
  intros [Hall _]. revert recs Hall. induction (iterate (cf_logs d)) as [|kv l IH]; intros recs Hall.
  - by apply Forall2_nil_inv_l in Hall as ->.
  - apply Forall2_cons_inv_l in Hall as (r & recs' & [Hk _] & Hall & ->). cbn [fmap list_fmap]. by rewrite Hk, (IH recs').
Qed.

Lemma log_ok_sorted recs d : log_ok recs d → StronglySorted (λ a b, String.leb (key a) (key b) = true) recs.
Proof.
  intros Hok. apply (sorted_fmap (λ r, key r) (λ x y, String.leb x y = true)). rewrite <- (log_ok_keys recs d Hok).
  apply (sorted_fmap fst (λ x y, String.leb x y = true)). apply iterate_sorted.
Qed.

Lemma log_ok_last recs d r : log_ok recs d → last recs = Some r → Forall (λ r', (ts r' ≤ ts r)%N) recs.
Proof.
  intros Hok [l ->]%last_Some. pose proof (log_ok_sorted _ _ Hok) as Hs. destruct Hok as [_ Hu].
  apply Forall_app. split; [|by constructor]. rewrite Forall_forall. intros r' Hr'.
  assert (String.leb (key r') (key r) = true) as Hle.
  { clear -Hs Hr'. induction l as [|x l IH]; [by apply elem_of_nil in Hr'|]. apply StronglySorted_inv in Hs as [Hs Hx].
    apply elem_of_cons in Hr' as [->|Hr']; [|by apply IH]. rewrite Forall_forall in Hx. apply Hx, elem_of_app. right. by left. }
  rewrite Forall_forall in Hu.
  apply log_key_leb in Hle as [?|[-> _]]; [lia|done|apply Hu, elem_of_app; by left|apply Hu, elem_of_app; right; by left].
Qed.

Lemma start_ok h recs d : log_ok recs d → linked h recs → audit_ok recs (start d).
Proof.
  intros Hok Hl. unfold start. pose proof Hok as [Hall _]. destruct (last recs) as [r|] eqn:Hr.
  - pose proof Hr as [l ->]%last_Some. apply Forall2_app_inv_r in Hall as (l1 & l2 & _ & H2 & ->).
    apply Forall2_cons_inv_r in H2 as (kv & l2' & [Hk Hv] & Hnil & ->). apply Forall2_nil_inv_r in Hnil as ->.
    rewrite last_snoc. cbn [mbind option_bind]. rewrite (of_to_json _ _ Hv). split; [done| |].
    + exists h. split; [done|]. unfold last_hash. by rewrite Hr.
    + cbn. by eapply log_ok_last.
  - apply last_None in Hr as ->. apply Forall2_nil_inv_r in Hall as ->. cbn. split; [done| |constructor]. by exists None.
Qed.

(** *** The indexes after a cleanup *)

Lemma index_delete (m m' : gmap string string) (pre : AuditRecord → string) r1 r2 :
  Forall uuid (r1 ++ r2) → NoDup ((λ r, key r) <$> (r1 ++ r2)) →
  (∀ k v, m !! k = Some v ↔ ∃ r, r ∈ r1 ++ r2 ∧ v = key r ∧ k = pre r +:+ ":" +:+ v) →
  (∀ k, m' !! k = if decide (k ∈ ((λ r, pre r +:+ ":" +:+ key r) <$> r1)) then None else m !! k) →
  ∀ k v, m' !! k = Some v ↔ ∃ r, r ∈ r2 ∧ v = key r ∧ k = pre r +:+ ":" +:+ v.
Proof.
  intros Hu Hnd Hm Hm' k v. rewrite Hm'. rewrite Forall_forall in Hu. rewrite fmap_app in Hnd. apply NoDup_app in Hnd as (_ & Hnd & _).
  case_decide as Hk.
  - split; [done|]. intros (r & Hr & -> & ->). apply list_elem_of_fmap in Hk as (r' & E & Hr').
    apply index_key_inj in E as [_ E]; [|apply Hu, elem_of_app; auto..]. exfalso. apply (Hnd (key r')); apply list_elem_of_fmap; eauto.
  - rewrite Hm. setoid_rewrite elem_of_app. split.
    + intros (r & [Hr|Hr] & -> & ->); [|by exists r]. destruct Hk. apply list_elem_of_fmap. by exists r.
    + intros (r & Hr & -> & ->). exists r. auto.
Qed.

Lemma index_deletes_lookup recs d k :
  cf_user (write_batch (index_deletes recs) d) !! k =
    (if decide (k ∈ (λ r, user_key r (key r)) <$> recs) then None else cf_user d !! k) ∧
  cf_resource (write_batch (index_deletes recs) d) !! k =
    (if decide (k ∈ (λ r, resource_key r (key r)) <$> recs) then None else cf_resource d !! k).
Proof.
  assert (∀ {V} (m : gmap string V) (a : string) l (X : option V),
    (X = if decide (k ∈ l) then None else delete a m !! k) → X = if decide (k ∈ a :: l) then None else m !! k) as Hcons.
  { intros V m a l X ->. destruct (decide (k ∈ l)) as [Hl|Hl]; [by rewrite decide_True by (by right)|].
    destruct (decide (k = a)) as [->|Hne]; [rewrite lookup_delete_eq, decide_True by (by left); done|].
    by rewrite lookup_delete_ne, decide_False by (done || by intros [?|?]%elem_of_cons). }
  revert d. induction recs as [|r recs IH]; intros d; [done|].
  change (write_batch (index_deletes (r :: recs)) d) with (write_batch (index_deletes recs)
    (mkAuditDb (cf_logs d) (delete (user_key r (key r)) (cf_user d)) (delete (resource_key r (key r)) (cf_resource d)))).
  destruct (IH (mkAuditDb (cf_logs d) (delete (user_key r (key r)) (cf_user d)) (delete (resource_key r (key r)) (cf_resource d)))) as [I1 I2].
  split; by apply Hcons.
Qed.

Lemma cleanup_index cutoff_ms r d : log_ok r d → Forall uuid r → index_ok r d →
  ∃ r1 r2, r = r1 ++ r2 ∧ log_ok r2 (cleanup_old_logs cutoff_ms [] d) ∧ index_ok r2 (cleanup_old_logs cutoff_ms [] d).
Proof.
  intros Hok Hu [X1 X2]. destruct (log_split (cutoff_key cutoff_ms) r d Hok) as (r1 & r2 & -> & H1 & H2). exists r1, r2. split; [done|].
  unfold cleanup_old_logs. destruct (cleanup_loop_deletes _ r1 [] 0 d H1) as (b1 & b2 & -> & Hb). cbn [default from_option head].
  assert (NoDup ((λ r, key r) <$> (r1 ++ r2))) as Hnd by (rewrite <- (log_ok_keys _ _ Hok); apply iterate_nodup).
  assert (write_batch (b2 ++ [DeleteLogRange ":" (cutoff_key cutoff_ms)]) (write_batch b1 d) =
    apply_batch_op (write_batch (index_deletes r1) d) (DeleteLogRange ":" (cutoff_key cutoff_ms))) as ->.
  { unfold write_batch. rewrite foldl_app, <- (foldl_app apply_batch_op b1 b2). by rewrite Hb. }
  assert (cf_logs (write_batch (index_deletes r1) d) = cf_logs d) as Hlogs.
  { apply write_spares_log. clear. induction r1; [constructor|]. by repeat constructor. }
  split.
  - split; [|destruct Hok as [_ Hok]; by apply Forall_app in Hok as [_ ?]].
    rewrite (delete_range_logs _ (r1 ++ r2)), Hlogs; [done|]. unfold log_ok. by rewrite Hlogs.
  - split.
    + apply (index_delete (cf_user d) _ user_id r1 r2); [done..|]. intros k. apply index_deletes_lookup.
    + apply (index_delete (cf_resource d) _ (λ r, extract_bucket_name (resource r)) r1 r2); [done..|]. intros k. apply index_deletes_lookup.
Qed.

End spec.
