(* ===== verification/AuditSpec.v ===== *)
(** * The audit log: what it promises

    The chain of the log verifies after any execution in which every batch is
    newer than the log; a log that verifies cannot have been changed without
    changing its last hash; the reader finds exactly the records asked for,
    with and without an index. *)

From S2P Require Import Prelude Text AuditWorker AuditLog.

Section executions.
  Context `{AuditCodec} (secret : string) (batch_size : nat).

Notation ts r := (timestamp_ms r).
Notation step := (audit_step secret batch_size).
Notation steps := (audit_run secret batch_size).

(** The batch an event writes. *)
Definition batch_of (l : AuditLogger) (e : AuditEvent) : list AuditRecord :=
  match e with
  | Receive _ =>
      match tx l with
      | [] => []
      | r :: _ => let b := batch_buffer l ++ [r] in if batch_size <=? length b then b else []
      end
  | Tick _ => batch_buffer l
  | Shutdown _ => batch_buffer l ++ tx l
  | _ => []
  end.

(** Every batch is newer than the log when it is written. *)
Fixpoint timely (l : AuditLogger) (es : list AuditEvent) : Prop :=
  match es with
  | [] => True
  | e :: es => fresh (global_last_ts_ms l) (batch_of l e) ∧ timely (step l e) es
  end.

(** Request identifiers are UUIDs and no cleanup fails. *)
Definition regular (e : AuditEvent) : Prop :=
  match e with Log r => uuid r | Cleanup _ outcomes => outcomes = [] | _ => True end.

Definition all_uuid (recs : list AuditRecord) (l : AuditLogger) : Prop :=
  Forall uuid recs ∧ Forall uuid (batch_buffer l) ∧ Forall uuid (tx l).

Lemma uuid_content r r' : content r = content r' → uuid r → uuid r'.
Proof. intros E. unfold uuid. change (request_id r') with (request_id (content r')). by rewrite <- E. Qed.

Lemma uuid_batch (new rs : list AuditRecord) : content <$> new ≡ₚ content <$> rs → Forall uuid rs → Forall uuid new.
Proof.
  intros E Hall. rewrite Forall_forall in *. intros r Hr.
  assert (content r ∈ content <$> rs) as Hin by (rewrite <- E; by apply list_elem_of_fmap_2).
  apply list_elem_of_fmap in Hin as (r' & Hc & Hr'). eapply uuid_content; [by symmetry|by apply Hall].
Qed.

(** What one event does to the log. *)
Lemma flush_step recs l outcomes :
  audit_ok secret recs l → fresh (global_last_ts_ms l) (batch_buffer l) →
  ∃ recs', audit_ok secret recs' (flush secret outcomes l) ∧
    (all_uuid recs l → index_ok recs (db l) →
     all_uuid recs' (flush secret outcomes l) ∧ index_ok recs' (db (flush secret outcomes l))).
Proof.
  intros Hok Hf. destruct (flush_ok secret recs l outcomes Hok Hf) as (new & Hok' & Hnew & Hidx). exists (recs ++ new). split; [done|].
  intros (U1 & U2 & U3) Hi. assert (Forall uuid (recs ++ new)) as Hu.
  { apply Forall_app. split; [done|]. destruct Hnew as [->|Hnew]; [constructor|by eapply uuid_batch]. }
  split; [|by apply Hidx]. split; [done|]. unfold flush. destruct (chain _ _ _ _) as [[? ?] ?].
  destruct (flush_attempts _ _ _); cbn; split; done || constructor.
Qed.

Lemma set_buffer_ok recs l b t : audit_ok secret recs l →
  audit_ok secret recs (mkAuditLogger t b (committed_last_hash l) (global_last_ts_ms l) (db l)).
Proof. by intros [? ? ?]. Qed.

Lemma start_uuid recs d : Forall uuid recs → all_uuid recs (start d).
Proof. intros Hr. split; [done|]. unfold start. by destruct (last _ ≫= _). Qed.

Lemma start_db d : db (start d) = d.
Proof. unfold start. by destruct (last _ ≫= _). Qed.

Lemma log_ok_fun r r' d : log_ok r d → log_ok r' d → r = r'.
Proof.
  intros [H1 _] [H2 _]. revert r r' H1 H2. induction (iterate (cf_logs d)) as [|kv l IH]; intros r r' H1 H2.
  - apply Forall2_nil_inv_l in H1 as ->, H2 as ->. done.
  - apply Forall2_cons_inv_l in H1 as (x & r1 & [_ Hx] & H1 & ->). apply Forall2_cons_inv_l in H2 as (y & r2 & [_ Hy] & H2 & ->).
    apply of_to_json in Hx, Hy. f_equal; [congruence|by apply IH].
Qed.

Lemma step_ok recs l e :
  audit_ok secret recs l → fresh (global_last_ts_ms l) (batch_of l e) →
  ∃ recs', audit_ok secret recs' (step l e) ∧
    (regular e → all_uuid recs l → index_ok recs (db l) → all_uuid recs' (step l e) ∧ index_ok recs' (db (step l e))).
Proof.
  intros Hok Hf. destruct e as [r|o|o|c o|o|]; cbn [audit_step batch_of regular] in *.
  - exists recs. unfold log_record. case_if; [|by split; [|intros ? (? & ? & ?) ?]]. split; [by apply set_buffer_ok|].
    intros Hr (? & ? & ?) ?. split; [|done]. split; [done|]. split; [done|]. cbn. apply Forall_app. split; [done|by constructor].
  - unfold receive. destruct (tx l) as [|r rest] eqn:Htx; [exists recs; by split|].
    set (l1 := mkAuditLogger rest (batch_buffer l ++ [r]) _ _ _). cbn [batch_buffer l1].
    assert (audit_ok secret recs l1) as Hok1 by (by apply set_buffer_ok).
    assert (all_uuid recs l → all_uuid recs l1) as Hu1.
    { intros (? & ? & Ht). rewrite Htx in Ht. apply Forall_cons in Ht as [? ?]. split; [done|]. split; [|done]. cbn. apply Forall_app. split; [done|by constructor]. }
    case_if; [|exists recs; split; [done|auto]].
    destruct (flush_step recs l1 (take 3 o) Hok1) as (recs' & Hok' & Hi); [exact Hf|]. exists recs'. split; [done|]. auto.
  - unfold interval_tick. destruct (batch_buffer l) as [|r b] eqn:Hb; [exists recs; by split|]. rewrite <- Hb in Hf.
    destruct (flush_step recs l (take 3 o) Hok Hf) as (recs' & Hok' & Hi). exists recs'. split; [done|auto].
  - destruct Hok as [Hlog (h & Hl & Hh) Ht].
    assert (∀ r1 r2, recs = r1 ++ r2 → log_ok r2 (cleanup_old_logs c o (db l)) → audit_ok secret r2
      (mkAuditLogger (tx l) (batch_buffer l) (committed_last_hash l) (global_last_ts_ms l) (cleanup_old_logs c o (db l)))) as Hcut.
    { intros r1 r2 -> Hok2. apply linked_app in Hl as [_ Hl2]. rewrite last_hash_app in Hh.
      split; [done|by exists (last_hash h r1)|]. by apply Forall_app in Ht as [_ ?]. }
    destruct (cleanup_logs c o recs (db l) Hlog) as (r1 & r2 & Hr & Hok2). exists r2. split; [by eapply Hcut|].
    intros -> (U1 & U2 & U3) Hi. destruct (cleanup_index c recs (db l) Hlog U1 Hi) as (r1' & r2' & Hr' & Hok2' & Hi').
    rewrite (log_ok_fun r2 r2' (cleanup_old_logs c [] (db l))) by done. split; [|done]. split; [|done].
    rewrite Hr' in U1. by apply Forall_app in U1 as [_ ?].
  - unfold drain. set (l1 := mkAuditLogger [] _ _ _ _). assert (audit_ok secret recs l1) as Hok1 by (by apply set_buffer_ok).
    assert (all_uuid recs l → all_uuid recs l1) as Hu1.
    { intros (? & ? & ?). split; [done|]. split; [|constructor]. cbn. by apply Forall_app. }
    assert (∃ recs', audit_ok secret recs' (match batch_buffer l1 with [] => l1 | _ => flush secret [o] l1 end) ∧
      (all_uuid recs l1 → index_ok recs (db l1) → all_uuid recs' (match batch_buffer l1 with [] => l1 | _ => flush secret [o] l1 end) ∧
        index_ok recs' (db (match batch_buffer l1 with [] => l1 | _ => flush secret [o] l1 end)))) as (recs' & Hok' & Hi).
    { destruct (batch_buffer l1) eqn:Hb; [exists recs; by split|]. by apply flush_step. }
    exists recs'. destruct Hok' as [Hlog' (h & Hl & _) _]. split; [by eapply start_ok|]. intros _ Hu Hidx.
    destruct (Hi (Hu1 Hu) Hidx) as [(V1 & _) V4]. split; [by apply start_uuid|by rewrite start_db].
  - exists recs. destruct Hok as [Hlog (h & Hl & _) _]. split; [by eapply start_ok|]. intros _ (U1 & _) Hi.
    split; [by apply start_uuid|by rewrite start_db].
Qed.

Definition empty_db : AuditDb := mkAuditDb ∅ ∅ ∅.

Lemma empty_ok : audit_ok secret [] (start empty_db) ∧ index_ok [] empty_db.
Proof.
  split; [apply (start_ok secret None); [|done]|].
  - split; [|constructor]. replace (iterate (cf_logs empty_db)) with (@nil (string * string)); [constructor|]. done.
  - split; intros k v; cbn [cf_user cf_resource empty_db]; rewrite lookup_empty; (split; [done|]); intros (r & Hr & _); by apply elem_of_nil in Hr.
Qed.

Lemma run_ok recs l es : audit_ok secret recs l → timely l es →
  ∃ recs', audit_ok secret recs' (steps l es) ∧
    (Forall regular es → all_uuid recs l → index_ok recs (db l) → all_uuid recs' (steps l es) ∧ index_ok recs' (db (steps l es))).
Proof.
  revert recs l. induction es as [|e es IH]; intros recs l Hok Ht; [exists recs; by split|]. destruct Ht as [Hf Ht].
  destruct (step_ok recs l e Hok Hf) as (r1 & Hok1 & Hi1). destruct (IH r1 _ Hok1 Ht) as (r2 & Hok2 & Hi2). exists r2. split; [done|].
  intros [He Hes]%Forall_cons Hu Hi. destruct (Hi1 He Hu Hi). by apply Hi2.
Qed.

(** The records of a database in order. *)
Definition records (d : AuditDb) : list AuditRecord := omap of_json (iterate (cf_logs d)).*2.

Lemma log_ok_records recs d : log_ok recs d → records d = recs.
Proof.
  intros [Hall _]. unfold records. induction Hall as [|kv r l recs [_ Hv] _ IH]; [done|].
  cbn. rewrite (of_to_json _ _ Hv). by rewrite IH.
Qed.

Lemma log_ok_vals recs d : log_ok recs d → Forall2 (λ v r, to_json r = Some v) (iterate (cf_logs d)).*2 recs.
Proof. intros [Hall _]. apply Forall2_fmap_l. eapply Forall2_impl; [exact Hall|]. by intros kv r [_ ?]. Qed.

(** C31. The audit log: whatever batches fail to be written, however often the
    process crashes or is shut down and started again and whenever old records
    are deleted, the chain of the log verifies, as long as every batch is newer
    than the log when it is written. *)
Theorem audit_chain_verifies es :
  timely (start empty_db) es →
  let d := db (steps (start empty_db) es) in
  verify_chain secret d = inl (N.of_nat (length (iterate (cf_logs d)))).
Proof.
  intros Ht. destruct (run_ok [] _ es (proj1 empty_ok) Ht) as (recs & [Hlog (h & Hl & _) _] & _). cbn zeta. unfold verify_chain.
  pose proof (verify_linked secret h 0 recs _ (log_ok_vals _ _ Hlog) Hl) as Hv. cbn [N.ltb N.compare] in Hv.
  rewrite Hv, N.add_0_l. destruct Hlog as [Hall _].
  by rewrite (Forall2_length _ _ _ Hall).
Qed.

(** ** Tamper evidence *)

(** A log that verifies is a chain. *)
Lemma verified_linked n h vals k : verify_loop secret (if (0 <? n)%N then h else None) n vals = inl k →
  ∃ recs, Forall2 (λ v r, of_json v = Some r) vals recs ∧ ∃ h', linked secret h' recs ∧ ((0 < n)%N → h' = h).
Proof.
  revert n h. induction vals as [|v vals IH]; intros n h; cbn [verify_loop].
  { intros _. exists []. split; [constructor|]. by exists h. }
  destruct (of_json v) as [r|] eqn:Hv; [|done]. destruct (_ && _) eqn:Hp; [done|].
  destruct (bool_decide (record_hash r = _)) eqn:Hr; cbn [negb]; [|done]. apply bool_decide_eq_true in Hr. intros Hrest.
  assert ((0 <? n + 1)%N = true) as Hn1 by (apply N.ltb_lt; lia).
  specialize (IH (n + 1)%N (record_hash r)). rewrite Hn1 in IH. destruct (IH Hrest) as (recs & Hall & h' & Hl & Hh).
  rewrite Hh in Hl by lia. exists (r :: recs). split; [by constructor|]. exists (previous_hash r). split; [done|].
  intros Hn. apply N.ltb_lt in Hn. rewrite Hn in Hp. cbn [andb] in Hp. by apply negb_false_iff, bool_decide_eq_true in Hp.
Qed.

Lemma same_record x y : x <| record_hash := None |> = y <| record_hash := None |> → record_hash x = record_hash y → x = y.
Proof. destruct x, y. cbn. intros [=] ->. by subst. Qed.

(** What the hash of a record is computed from. *)
Definition hashed_text (r : AuditRecord) : string := default "" (to_json (r <| record_hash := None |>)).

(** Two records, one of each log, whose different texts have the same keyed hash:
    a collision of HMAC-SHA256 under the secret. *)
Definition collision (a b : list AuditRecord) : Prop :=
  ∃ x y, x ∈ a ∧ y ∈ b ∧ hashed_text x ≠ hashed_text y ∧ hmac_hex secret (hashed_text x) = hmac_hex secret (hashed_text y).

Lemma collision_mono a b a' b' : collision a b → a ⊆ a' → b ⊆ b' → collision a' b'.
Proof. intros (x & y & Hx & Hy & ?) Ha Hb. exists x, y. auto. Qed.

(** Records with the same text and the same hash are the same. *)
Lemma hashed_text_inj x y :
  (∀ r, is_Some (to_json r)) → record_hash x = record_hash y → hashed_text x = hashed_text y → x = y.
Proof.
  intros Hjson Hh. unfold hashed_text. destruct (Hjson (x <| record_hash := None |>)) as [jx Hjx], (Hjson (y <| record_hash := None |>)) as [jy Hjy].
  rewrite Hjx, Hjy. change (jx = jy → x = y). intros ->. apply of_to_json in Hjx, Hjy. apply same_record; [congruence|done].
Qed.

(** The chains that end with the same hash. *)
Lemma linked_same_end a b h1 h2 :
  (∀ r, is_Some (to_json r)) →
  linked secret h1 a → linked secret h2 b → a ≠ [] → length a ≤ length b → last_hash h1 a = last_hash h2 b →
  (∃ pre, b = pre ++ a) ∨ collision a b.
Proof.
  intros Hjson. revert b. induction a as [|x a IH] using rev_ind; [done|]. intros b Ha Hb _ Hlen Hend.
  destruct b as [|y b _] using rev_ind; [rewrite length_app in Hlen; simpl in Hlen; lia|].
  rewrite linked_app in Ha, Hb. destruct Ha as [Ha (Hpx & Hhx & _)], Hb as [Hb (Hpy & Hhy & _)].
  rewrite !last_hash_app in Hend. cbn in Hend. pose proof Hend as Hmac. rewrite Hhx, Hhy in Hmac. injection Hmac as Hmac.
  destruct (decide (hashed_text x = hashed_text y)) as [Ht|Ht].
  2: { right. exists x, y. split; [set_solver|]. split; [set_solver|]. by split. }
  apply (hashed_text_inj _ _ Hjson Hend) in Ht as <-.
  destruct a as [|z a]; [left; by exists b|]. rewrite !length_app in Hlen. cbn [length] in Hlen.
  destruct (IH b) as [[pre ->]|Hc]; [done..|simpl in *; lia|congruence| |].
  - left. exists pre. by rewrite app_assoc.
  - right. eapply collision_mono; [exact Hc|set_solver|set_solver].
Qed.

(** C32. Tamper evidence: of two logs that verify under the secret and end with
    the same hash, the shorter one is the end of the longer one, or two of their
    records exhibit a collision of the keyed hash. Whoever remembers the last
    hash of a log notices every change, insertion, deletion and reordering of
    its records except for the deletion of the oldest ones, unless a collision
    was found. Every record can be serialized. *)
Theorem tampering_is_detected d1 d2 n1 n2 r1 r2 :
  (∀ r, is_Some (to_json r)) →
  verify_chain secret d1 = inl n1 → verify_chain secret d2 = inl n2 →
  last (records d1) = Some r1 → last (records d2) = Some r2 → record_hash r1 = record_hash r2 →
  length (records d1) ≤ length (records d2) →
  (∃ oldest, records d2 = oldest ++ records d1) ∨ collision (records d1) (records d2).
Proof.
  intros Hjson V1 V2 L1 L2 Hh Hlen.
  assert (∀ d n, verify_chain secret d = inl n → ∃ h, linked secret h (records d)) as Hrec.
  { intros d n V. destruct (verified_linked 0 None _ _ V) as (recs & Hall & h & Hl & _). exists h.
    replace (records d) with recs; [done|]. unfold records. clear V Hl. induction Hall as [|v r vs rs Hv _ IH]; [done|]. cbn. by rewrite Hv, IH. }
  destruct (Hrec _ _ V1) as [h1 C1], (Hrec _ _ V2) as [h2 C2]. eapply (linked_same_end _ _ h1 h2); [done..| |done|].
  - intros E. by rewrite E in L1.
  - unfold last_hash. by rewrite L1, L2.
Qed.

End executions.
