(* ===== verification/AuditQuery.v ===== *)
(** * The audit log: queries

    The reader finds the records of a user, of a bucket or of a time range,
    whether it walks an index or the log. *)

From stdpp Require Import pretty.
From S2P Require Import Prelude Text AuditWorker AuditLog AuditSpec.

(** ** Keys and prefixes *)

(** The keys with a prefix follow it without a gap. *)
Lemma prefix_between p x y : String.leb p x = true → String.leb x y = true → String.prefix p y = true → String.prefix p x = true.
Proof.
  intros Hpx Hxy [t ->]%prefix_strip. revert x Hpx Hxy. induction p as [|a p IH]; intros x Hpx Hxy; [by destruct x|].
  destruct x as [|b x]; [done|]. change (String a p +:+ t) with (String a (p +:+ t)) in Hxy. unfold String.leb in *. cbn [String.compare] in *.
  destruct (Ascii.compare a b) eqn:Hab; [| |done].
  - apply ascii_compare_eq in Hab as <-. rewrite ascii_compare_refl in Hxy. cbn [String.prefix]. destruct (ascii_dec a a); [|done]. by apply IH.
  - rewrite Ascii.compare_antisym, Hab in Hxy. done.
Qed.

Lemma from_be_bytes k n acc : from_be acc (be_bytes k n) = (acc * 256 ^ N.of_nat k + n mod 256 ^ N.of_nat k)%N.
Proof.
  revert acc. induction k as [|k IH]; intros acc; [cbn; rewrite N.mod_1_r; lia|]. cbn [be_bytes from_be]. rewrite IH.
  rewrite N_ascii_embedding by apply byte_lt.
  replace (256 ^ N.of_nat (S k))%N with (256 ^ N.of_nat k * 256)%N by (rewrite Nat2N.inj_succ, N.pow_succ_r'; lia).
  rewrite N.Div0.mod_mul_r. lia.
Qed.

Lemma substring_app a b : String.substring 0 (String.length a) (a +:+ b) = a.
Proof. induction a as [|c a IH]; [by destruct b|]. exact (f_equal (String c) IH). Qed.

Lemma time_of_key t r : u64 t → from_be 0 (String.substring 1 8 (log_key t r)) = t.
Proof.
  intros Ht. unfold log_key. change (String.substring 1 8 (":" +:+ u64_be t +:+ ":" +:+ request_id r))
    with (String.substring 0 (String.length (u64_be t)) (u64_be t +:+ ":" +:+ request_id r)).
  rewrite substring_app, from_be_bytes. change (256 ^ N.of_nat 8)%N with (2 ^ 64)%N. by rewrite N.mod_small.
Qed.

(** ** Lists *)

Lemma omap_filter {A B} (f : A → option B) (Q : A → Prop) `{∀ x, Decision (Q x)} (l : list A) :
  (∀ x, x ∈ l → ¬ Q x → f x = None) → omap f l = omap f (filter Q l).
Proof.
  induction l as [|x l IH]; intros Hl; [done|]. rewrite filter_cons. case_decide as Hq; cbn.
  - rewrite IH; [done|]. intros y Hy. apply Hl. by right.
  - rewrite (Hl x) by (by left || done). apply IH. intros y Hy. apply Hl. by right.
Qed.

Section queries.
  Context `{AuditCodec}.
Notation ts r := (timestamp_ms r).
Notation key r := (log_key (ts r) r).

(** What a query asks for. *)
Definition matches (args : Args) (r : AuditRecord) : bool :=
  (arg_start_ms args <=? ts r)%N && (ts r <=? arg_end_ms args)%N && filter_record args r.

(** The first record is printed before the limit is tested. *)
Definition answer (args : Args) (recs : list AuditRecord) : list AuditRecord :=
  take (Nat.max 1 (arg_limit args)) (filter (λ r, matches args r = true) recs).

Lemma process_record args recs d r : log_ok recs d → r ∈ recs → uuid r →
  process_primary_key args d (key r) = inl (if matches args r then Some r else None).
Proof.
  intros Hok Hr Hu. unfold process_primary_key. rewrite key_length by done. change (9 <? 46) with true.
  assert (String.prefix ":" (key r) = true) as -> by exact (prefix_append ":" (u64_be (ts r) +:+ ":" +:+ request_id r)). cbn [andb].
  pose proof Hok as [Hall Hu64]. rewrite Forall_forall in Hu64. rewrite time_of_key by (by apply Hu64).
  unfold matches. rewrite (N.leb_antisym (ts r) (arg_start_ms args)), (N.leb_antisym (arg_end_ms args) (ts r)).
  destruct ((ts r <? arg_start_ms args)%N); [done|]. destruct ((arg_end_ms args <? ts r)%N); [done|]. cbn [orb negb andb].
  apply list_elem_of_lookup in Hr as [i Hi]. destruct (Forall2_lookup_r _ _ _ _ _ Hall Hi) as ([k v] & He & [Hk Hv]). cbn [fst snd] in *.
  apply list_elem_of_lookup_2, elem_of_iterate in He. rewrite <- Hk, He, (of_to_json _ _ Hv). done.
Qed.

(** Walking an index up to the limit. *)
Lemma scan_index_spec args d p (f : string * string → option AuditRecord) e1 e2 n :
  Forall (λ e, String.prefix p e.1 = true ∧ process_primary_key args d e.2 = inl (f e)) e1 →
  (∀ e, head e2 = Some e → String.prefix p e.1 = false) →
  scan_index args d p n (e1 ++ e2) = inl (take (Nat.max 1 (arg_limit args - n)) (omap f e1)).
Proof.
  intros Hall He2. revert n. induction Hall as [|[k v] e1 [Hp Hf] _ IH]; intros n.
  { cbn [app omap list_omap]. rewrite take_nil. destruct e2 as [|[k v] e2]; [done|]. cbn [scan_index].
    specialize (He2 (k, v) eq_refl). cbn [fst] in He2. by rewrite He2. }
  cbn [app scan_index fst snd] in *. rewrite Hp, Hf. cbn [negb]. cbn [omap list_omap]. destruct (f (k, v)) as [r|]; [|apply IH].
  destruct (arg_limit args <=? S n) eqn:Hlim.
  - apply Nat.leb_le in Hlim. replace (Nat.max 1 (arg_limit args - n)) with 1 by lia. done.
  - apply Nat.leb_gt in Hlim. rewrite IH. replace (Nat.max 1 (arg_limit args - n)) with (S (Nat.max 1 (arg_limit args - S n))) by lia. done.
Qed.

Definition has_prefix (p : string) (e : string * string) : Prop := String.prefix p e.1 = true.
#[local] Instance has_prefix_dec p e : Decision (has_prefix p e).
Proof. unfold has_prefix. apply _. Defined.

(** The entries of an index from a prefix on. *)
Lemma index_from p m : ∃ e2, iterate_from p m = filter (has_prefix p) (iterate m) ++ e2 ∧
  ∀ e, head e2 = Some e → String.prefix p e.1 = false.
Proof.
  unfold iterate_from. set (l := List.filter _ _).
  assert (StronglySorted (λ x y, String.leb x.1 y.1 = true) l) as Hs.
  { unfold l. pose proof (iterate_sorted m) as Hs. induction Hs as [|x k Hk IH Hx]; [constructor|]. cbn [List.filter]. case_match; [|done].
    constructor; [done|]. apply Forall_forall. intros y [Hy _]%list_elem_of_In%List.filter_In. apply list_elem_of_In in Hy.
    by apply (proj1 (Forall_forall _ _) Hx). }
  assert (Forall (λ e, String.leb p e.1 = true) l) as Hge.
  { apply Forall_forall. intros e [_ ?]%list_elem_of_In%List.filter_In. done. }
  assert (filter (has_prefix p) (iterate m) = filter (has_prefix p) l) as ->.
  { unfold l. clear. induction (iterate m) as [|x k IH]; [done|]. rewrite filter_cons. cbn [List.filter].
    destruct (String.leb p x.1) eqn:Hle; [rewrite filter_cons; case_decide; by rewrite IH|].
    rewrite decide_False; [done|]. intros [t Ht]%prefix_strip. rewrite Ht, string_leb_app in Hle. done. }
  exists (filter (λ e, ¬ has_prefix p e) l). split.
  - clear -Hs Hge. induction Hs as [|x l Hl IH Hx]; [done|]. apply Forall_cons in Hge as [Hpx Hge]. rewrite !filter_cons.
    destruct (decide (has_prefix p x)) as [Hp|Hp].
    + rewrite decide_False by tauto. simpl. f_equal. by apply IH.
    + rewrite decide_True by done. assert (Forall (λ e, ¬ has_prefix p e) l) as Hno.
      { eapply Forall_impl; [exact Hx|]. intros y Hxy Hy. exact (Hp (prefix_between p x.1 y.1 Hpx Hxy Hy)). }
      assert (filter (has_prefix p) l = [] ∧ filter (λ e, ¬ has_prefix p e) l = l) as [-> ->]; [|done].
      clear -Hno. induction Hno as [|y l Hy _ [IH1 IH2]]; [done|]. rewrite !filter_cons, IH1, IH2.
      by rewrite (decide_True (P := ¬ has_prefix p y)), (decide_False (P := has_prefix p y)).
  - intros e He. apply not_true_iff_false. assert (e ∈ filter (λ e, ¬ has_prefix p e) l) as [? _]%list_elem_of_filter; [|done].
    destruct (filter (λ e, ¬ has_prefix p e) l); [done|]. injection He as ->. by left.
Qed.

(** An index finds the records of its kind in the order of time. *)
Lemma index_entries m (pre : AuditRecord → string) u recs d :
  log_ok recs d → Forall uuid recs →
  (∀ k v, m !! k = Some v ↔ ∃ r, r ∈ recs ∧ v = key r ∧ k = pre r +:+ ":" +:+ v) →
  filter (λ e, e.1 = u +:+ ":" +:+ e.2) (iterate m) = (λ r, (u +:+ ":" +:+ key r, key r)) <$> filter (λ r, pre r = u) recs.
Proof.
  intros Hok Hu Hm. rewrite <- iterate_filter. apply iterate_unique.
  - apply (sorted_fmap _ (λ x y, String.leb x.1 y.1 = true)). pose proof (log_ok_sorted _ _ Hok) as Hs. clear Hok Hm Hu.
    induction Hs as [|r l Hl IH Hr]; [constructor|]. rewrite filter_cons. case_decide; [|done]. constructor; [done|].
    apply Forall_forall. intros y [_ Hy]%list_elem_of_filter. cbn [fst]. rewrite !leb_append. by apply (proj1 (Forall_forall _ _) Hr).
  - assert (NoDup ((λ k, u +:+ ":" +:+ k) <$> ((λ r, key r) <$> filter (λ r, pre r = u) recs))) as Hnd.
    { apply NoDup_fmap_2; [intros x y E; by apply append_inj_l, append_inj_l in E|]. apply NoDup_fmap_filter.
      rewrite <- (log_ok_keys _ _ Hok). apply iterate_nodup. }
    rewrite <- list_fmap_compose in Hnd. rewrite <- list_fmap_compose. exact Hnd.
  - intros k v. rewrite map_lookup_filter_Some, Hm, list_elem_of_fmap. cbn [fst snd]. rewrite Forall_forall in Hu. split.
    + intros (r & [= -> ->] & [Hp Hr]%list_elem_of_filter). split; [|done]. exists r. by rewrite Hp.
    + intros [(r & Hr & -> & Hk) Hk']. exists r. rewrite Hk in Hk'. apply index_key_inj in Hk' as [Hp _]; [|by apply Hu..].
      rewrite Hk, Hp. split; [done|]. by apply list_elem_of_filter.
Qed.

(** Querying through an index. *)
Lemma scan_index_answer args m (pre : AuditRecord → string) u recs d :
  log_ok recs d → Forall uuid recs →
  (∀ k v, m !! k = Some v ↔ ∃ r, r ∈ recs ∧ v = key r ∧ k = pre r +:+ ":" +:+ v) →
  (∀ r, filter_record args r = true → pre r = u) →
  scan_index args d (u +:+ ":") 0 (iterate_from (u +:+ ":") m) = inl (answer args recs).
Proof.
  intros Hok Hu Hm Hpre. destruct (index_from (u +:+ ":") m) as (e2 & -> & He2).
  set (f := λ e : string * string, match process_primary_key args d e.2 with inl o => o | inr _ => None end).
  assert (∀ k v, (k, v) ∈ iterate m → ∃ r, r ∈ recs ∧ v = key r ∧ k = pre r +:+ ":" +:+ v ∧
    process_primary_key args d v = inl (if matches args r then Some r else None)) as Hproc.
  { intros k v (r & Hr & -> & ->)%elem_of_iterate%Hm. exists r. split_and!; try done. apply (process_record args recs); [done..|].
    by apply (proj1 (Forall_forall _ _) Hu). }
  rewrite (scan_index_spec args d (u +:+ ":") f); [|apply Forall_forall; intros [k v] [Hp Hin]%list_elem_of_filter|done].
  2: { split; [exact Hp|]. destruct (Hproc k v Hin) as (r & _ & _ & _ & Hr). unfold f. cbn [snd]. by rewrite Hr. }
  rewrite Nat.sub_0_r. f_equal. unfold answer. f_equal.
  assert (∀ e, e ∈ iterate m → ¬ (e.1 = u +:+ ":" +:+ e.2) → f e = None) as Hnone.
  { intros [k v] Hin Hne. destruct (Hproc k v Hin) as (r & _ & -> & -> & Hr). unfold f. cbn [snd fst] in *. rewrite Hr.
    destruct (matches args r) eqn:Hmr; [|done]. destruct Hne. apply andb_true_iff in Hmr as [_ Hmr]. by rewrite (Hpre r Hmr). }
  rewrite (omap_filter f (λ e, e.1 = u +:+ ":" +:+ e.2)).
  2: { intros e [_ Hin]%list_elem_of_filter Hne. by apply Hnone. }
  rewrite list_filter_filter_l.
  2: { intros [k v] E. cbn [fst snd] in E. unfold has_prefix. cbn [fst]. rewrite E, <- append_assoc. apply prefix_append. }
  rewrite (index_entries m pre u recs d Hok Hu Hm).
  assert (∀ l : list AuditRecord, (∀ r, r ∈ l → r ∈ recs) → omap f ((λ r, (u +:+ ":" +:+ key r, key r)) <$> filter (λ r, pre r = u) l) =
    filter (λ r, matches args r = true) l) as Hl; [|by apply Hl].
  induction l as [|r l IH]; intros Hl; [done|].
  assert (f (u +:+ ":" +:+ key r, key r) = if matches args r then Some r else None) as Hf.
  { assert (r ∈ recs) as Hr by (apply Hl; by left). unfold f. cbn [snd].
    by rewrite (process_record args recs d r Hok Hr (proj1 (Forall_forall _ _) Hu r Hr)). }
  rewrite !filter_cons. destruct (decide (pre r = u)) as [Hp|Hp].
  - cbn [fmap list_fmap omap list_omap]. rewrite Hf, IH by (intros; apply Hl; by right).
    destruct (matches args r); [by rewrite decide_True|by rewrite decide_False].
  - rewrite IH by (intros; apply Hl; by right). destruct (matches args r) eqn:Hmr; [|by rewrite decide_False].
    destruct Hp. apply andb_true_iff in Hmr as [_ Hmr]. by apply Hpre.
Qed.

(** Walking the log. *)
Lemma scan_logs_spec args l recs n :
  Forall2 (λ kv r, kv.1 = key r ∧ to_json r = Some kv.2) l recs → StronglySorted (λ a b, (ts a ≤ ts b)%N) recs →
  scan_logs args n l = inl (take (Nat.max 1 (arg_limit args - n)) (filter (λ r, matches args r = true) recs)).
Proof.
  intros Hall. revert n. induction Hall as [|[k v] r l recs [Hk Hv] Hall IH]; intros n Hs; cbn [scan_logs].
  { by rewrite filter_nil, take_nil. }
  apply StronglySorted_inv in Hs as [Hs Hr]. cbn [fst snd] in *. subst k. rewrite (of_to_json _ _ Hv).
  assert (String.prefix ":" (key r) = true) as -> by exact (prefix_append ":" (u64_be (ts r) +:+ ":" +:+ request_id r)). cbn [negb].
  rewrite filter_cons. assert (matches args r = negb (ts r <? arg_start_ms args)%N && negb (arg_end_ms args <? ts r)%N && filter_record args r) as Hm.
  { unfold matches. by rewrite (N.leb_antisym (ts r) (arg_start_ms args)), (N.leb_antisym (arg_end_ms args) (ts r)). }
  destruct ((arg_end_ms args <? ts r)%N) eqn:Hend.
  - rewrite decide_False by (rewrite Hm; cbn [negb]; by rewrite andb_false_r).
    replace (filter (λ r, matches args r = true) recs) with (@nil AuditRecord); [by rewrite take_nil|].
    symmetry. apply N.ltb_lt in Hend. clear -Hr Hend. induction Hr as [|x l Hx _ IH]; [done|]. rewrite filter_cons, decide_False; [done|].
    unfold matches. rewrite (proj2 (N.leb_gt (ts x) (arg_end_ms args))) by lia. by rewrite andb_false_r.
  - destruct ((ts r <? arg_start_ms args)%N); cbn [negb andb] in Hm; [rewrite decide_False by (by rewrite Hm); by apply IH|].
    destruct (filter_record args r); [|rewrite decide_False by (by rewrite Hm); by apply IH]. rewrite decide_True by done.
    destruct (arg_limit args <=? S n) eqn:Hlim.
    + apply Nat.leb_le in Hlim. replace (Nat.max 1 (arg_limit args - n)) with 1 by lia. done.
    + apply Nat.leb_gt in Hlim. rewrite IH by done. replace (Nat.max 1 (arg_limit args - n)) with (S (Nat.max 1 (arg_limit args - S n))) by lia. done.
Qed.


(** The log from a time on. *)
Lemma logs_from s recs d : log_ok recs d → u64 s →
  Forall2 (λ kv r, kv.1 = key r ∧ to_json r = Some kv.2)
    (iterate_from (":" +:+ (if (0 <? s)%N then u64_be s else "")) (cf_logs d)) (filter (λ r, (s ≤ ts r)%N) recs).
Proof.
  intros [Hall Hu] Hs. unfold iterate_from. revert Hu. induction Hall as [|[k v] r l recs [Hk Hv] _ IH]; intros Hu; [constructor|].
  apply Forall_cons in Hu as [Hr Hu]. cbn [List.filter fst snd] in *. subst k. rewrite filter_cons.
  assert (String.leb (":" +:+ (if (0 <? s)%N then u64_be s else "")) (key r) = (s <=? ts r)%N) as ->.
  { unfold log_key. rewrite leb_append. destruct (N.ltb_spec 0 s) as [H0|H0].
    - rewrite <- (append_empty_r (u64_be s)). unfold String.leb. rewrite be_bytes_compare. change (256 ^ N.of_nat 8)%N with (2 ^ 64)%N.
      rewrite !N.mod_small by done. unfold N.leb. by destruct (s ?= ts r)%N.
    - rewrite (proj2 (N.leb_le s (ts r))) by lia. exact (string_leb_app "" _). }
  destruct (N.leb_spec s (ts r)); [rewrite decide_True by done; by constructor; [|apply IH]|].
  rewrite decide_False by lia. by apply IH.
Qed.

Lemma times_sorted recs d : log_ok recs d → StronglySorted (λ a b, (ts a ≤ ts b)%N) recs.
Proof.
  intros Hok. pose proof (log_ok_sorted _ _ Hok) as Hs. destruct Hok as [_ Hu].
  induction Hs as [|r l Hl IH Hr]; [constructor|]. apply Forall_cons in Hu as [Hur Hu]. constructor; [by apply IH|].
  rewrite Forall_forall in *. intros y Hy. destruct (log_key_leb (ts r) r (ts y) y) as [?|[-> _]]; [done|by apply Hu|by apply Hr|lia|lia].
Qed.

Lemma read_log_answer args recs d :
  log_ok recs d → Forall uuid recs → index_ok recs d → u64 (arg_start_ms args) → read_log args d = inl (answer args recs).
Proof.
  intros Hok Hu [X1 X2] Hs. unfold read_log. destruct (arg_user args) as [u|] eqn:Hau; [|destruct (arg_resource args) as [b|] eqn:Har].
  - apply (scan_index_answer args (cf_user d) user_id u recs d Hok Hu X1). intros r. unfold filter_record. rewrite Hau.
    intros [[[H1 _]%andb_true_iff _]%andb_true_iff _]%andb_true_iff. by apply bool_decide_eq_true in H1.
  - apply (scan_index_answer args (cf_resource d) (λ r, extract_bucket_name (resource r)) b recs d Hok Hu X2). intros r. unfold filter_record.
    rewrite Har. intros [_ H1]%andb_true_iff. by apply bool_decide_eq_true in H1.
  - rewrite (scan_logs_spec args _ (filter (λ r, (arg_start_ms args ≤ ts r)%N) recs)).
    + rewrite Nat.sub_0_r. unfold answer. rewrite list_filter_filter_l; [done|]. intros r Hr. unfold matches in Hr.
      apply andb_true_iff in Hr as [[Hr _]%andb_true_iff _]. by apply N.leb_le.
    + by apply logs_from.
    + pose proof (times_sorted recs d Hok) as Hts. clear -Hts. induction Hts as [|r l Hl IH Hr]; [constructor|]. rewrite filter_cons.
      case_decide; [|done]. constructor; [done|]. apply Forall_forall. intros y [_ Hy]%list_elem_of_filter. by apply (proj1 (Forall_forall _ _) Hr).
Qed.

(** The log and its indexes after an execution. *)
Lemma run_log_ok secret batch_size es :
  timely secret batch_size (start empty_db) es → Forall regular es →
  let d := db (audit_run secret batch_size (start empty_db) es) in
  log_ok (records d) d ∧ Forall uuid (records d) ∧ index_ok (records d) d.
Proof.
  intros Ht Hreg. cbn zeta. destruct (run_ok secret batch_size [] _ es (proj1 (empty_ok secret)) Ht) as (recs & [Hlog _ _] & Hidx).
  destruct Hidx as [(Hu & _) Hi]; [done| |by rewrite start_db; apply (empty_ok secret)|].
  { by apply start_uuid. }
  by rewrite (log_ok_records _ _ Hlog).
Qed.

(** C33. Queries: after any execution in which every batch is newer than the log
    and no cleanup fails, the reader prints exactly the records of the log that
    match the query, in the order of time and up to the limit, whether it walks
    the index of the users, the index of the buckets or the log itself. *)
Theorem audit_queries_correct secret batch_size es args :
  timely secret batch_size (start empty_db) es → Forall regular es → u64 (arg_start_ms args) →
  let d := db (audit_run secret batch_size (start empty_db) es) in
  read_log args d = inl (answer args (records d)).
Proof.
  intros Ht Hreg Hs. destruct (run_log_ok secret batch_size es Ht Hreg) as (Hok & Hu & Hi). by apply read_log_answer.
Qed.

End queries.

(** ** Concrete executions *)

Module AuditDemo.

Definition opt (o : option string) : string := match o with Some s => String "S" s | None => "" end.
Definition unopt (s : string) : option string := match s with EmptyString => None | String _ s => Some s end.
Definition fields (r : AuditRecord) : list string :=
  [timestamp r; spell (timestamp_ms r); request_id r; remote_ip r; user_id r; opt (rec_role_arn r); rec_action r; resource r;
   spell (status_code r); opt (error_code r); opt (user_agent r); spell (duration_ms r); opt (previous_hash r); opt (record_hash r)].
Definition of_fields (l : list string) : option AuditRecord :=
  match l with
  | [a; b; c; d; e; f; g; h; i; j; k; l; m; n] =>
      b ← unspell b; i ← unspell i; l ← unspell l;
      Some (mkAuditRecord a b c d e (unopt f) g h i (unopt j) (unopt k) l (unopt m) (unopt n))
  | _ => None
  end.

Lemma unopt_opt o : unopt (opt o) = o.
Proof. by destruct o. Qed.

Definition toy_codec (h : string → string → string) : AuditCodec.
Proof.
  refine {| to_json := λ r, Some (spell (fields r)); of_json := λ s, unspell s ≫= of_fields; hmac_hex := h |}.
  intros r s [= <-]. rewrite unspell_spell. cbn. rewrite !unspell_spell. cbn. rewrite !unopt_opt. by destruct r.
Defined.
Definition short : AuditCodec := toy_codec (λ _ p, pretty (String.length p)).
Definition long : AuditCodec := toy_codec (λ _ p, p).

(** Identifiers of 36 characters. *)
Definition id (c : ascii) : string := String c "2345678-1234-1234-1234-123456789abc".
Definition record (t : N) (c : ascii) (user : string) : AuditRecord :=
  mkAuditRecord "" t (id c) "" user None "" "" 200 None None None None None.

(** Two batches, one of them out of order, with a crash in between. *)
Definition events : list AuditEvent :=
  [Log (record 7 "b" "u"); Log (record 5 "a" "v"); Receive []; Receive [false; true]; Crash;
   Log (record 9 "a" "u"); Receive []; Tick [true]; Cleanup 6 []].

(** A log of two records, and the log after the first was deleted. *)
Definition small (t : N) : AuditRecord := mkAuditRecord "" t "" "" "" None "" "" 0 None None None None None.
Definition two : list AuditEvent := [Log (small 1); Receive [true]; Log (small 2); Receive [true]].
Definition log2 : AuditDb := db (audit_run (H := long) "s" 1 (start (H := long) empty_db) two).
Definition log1 : AuditDb := cleanup_old_logs (H := long) 2 [] log2.

(** Two batches within the same millisecond: the keys sort by the request
    identifiers, and the chain of a log nobody touched does not verify. *)
Lemma same_millisecond_breaks_chain :
  verify_chain (H := short) "s" (db (audit_run (H := short) "s" 1 (start (H := short) empty_db)
    [Log (record 7 "b" "u"); Receive [true]; Log (record 7 "a" "v"); Receive [true]])) = inr "Audit log hash chain is broken!".
Proof. vm_compute. reflexivity. Qed.

(** A retention time of a hundred years: the cutoff is before 1970, its bytes are
    those of a large number, and every record is deleted. *)
Lemma long_retention_deletes_all :
  cf_logs (db (audit_run (H := short) "s" 1 (start (H := short) empty_db)
    [Log (record 1700000000000 "b" "u"); Receive [true]; Cleanup (cutoff_of 1700000000001 36500) []])) = ∅.
Proof. vm_compute. reflexivity. Qed.

End AuditDemo.

Import AuditDemo.

Lemma audit_chain_verifies_witness :
  verify_chain (H := short) "s" (db (audit_run (H := short) "s" 2 (start (H := short) empty_db) events)) = inl 2%N.
Proof.
  rewrite (audit_chain_verifies (H := short) "s" 2 events).
  - vm_compute. reflexivity.
  - cbn [timely events]. split_and!; try exact I; (split; [apply (bool_decide_unpack _); vm_compute; exact I|apply (bool_decide_unpack _); vm_compute; exact I]).
Defined.

Lemma audit_queries_correct_witness :
  read_log (H := short) (mkArgs (Some "u") None None None 8 100 10) (db (audit_run (H := short) "s" 2 (start (H := short) empty_db) events)) =
  inl (answer (mkArgs (Some "u") None None None 8 100 10) (records (H := short) (db (audit_run (H := short) "s" 2 (start (H := short) empty_db) events)))).
Proof.
  apply (audit_queries_correct (H := short) "s" 2 events (mkArgs (Some "u") None None None 8 100 10)).
  - cbn [timely events]. split_and!; try exact I; (split; [apply (bool_decide_unpack _); vm_compute; exact I|apply (bool_decide_unpack _); vm_compute; exact I]).
  - repeat constructor.
  - reflexivity.
Defined.

(** A digest of one character: two logs of one record that collide. *)
Definition weak : AuditCodec := toy_codec (λ _ p, "0").
Definition weak_log (t : N) : AuditDb := db (audit_run (H := weak) "s" 1 (start (H := weak) empty_db) [Log (small t); Receive [true]]).

(** A log of two records and its end; and two logs whose records collide. *)
Lemma tampering_is_detected_witness :
  ((∃ oldest, records (H := long) log2 = oldest ++ records (H := long) log1) ∨
   collision (H := long) "s" (records (H := long) log1) (records (H := long) log2)) ∧
  ((∃ oldest, records (H := weak) (weak_log 2) = oldest ++ records (H := weak) (weak_log 1)) ∨
   collision (H := weak) "s" (records (H := weak) (weak_log 1)) (records (H := weak) (weak_log 2))).
Proof.
  split.
  - eapply (tampering_is_detected (H := long) "s" log1 log2);
      [intros r; by eexists|vm_compute; reflexivity..|reflexivity|apply Nat.leb_le; vm_compute; reflexivity].
  - eapply (tampering_is_detected (H := weak) "s" (weak_log 1) (weak_log 2));
      [intros r; by eexists|vm_compute; reflexivity..|reflexivity|apply Nat.leb_le; vm_compute; reflexivity].
Defined.
