(* ===== verification/AuditReader.v ===== *)
(** * The audit reader

    dfs/s3_server/src/bin/audit_reader.rs, [main] and [print_record]: the
    bounds of the time range, the choice between the check of the chain and a
    query, and the lines that are printed. Widths count bytes, which are
    characters for ASCII texts. *)

From stdpp Require Import pretty.
From S2P Require Import Prelude Text AuditWorker AuditLog AuditSpec AuditQuery.

(** ** The command line *)

(** The arguments of the command, the times as they are written.
    [src/dfs/s3_server/src/bin/audit_reader.rs:10-54 Args] *)
Record ReaderArgs : Type := mkReaderArgs {
  by_user : option string;
  by_resource : option string;
  by_action : option string;
  by_status : option N;
  start_time : option string;
  end_time : option string;
  json : bool;
  limit : nat;
  chain_secret : option string;
}.

(** `timestamp_millis() as u64`. *)
Definition millis_u64 (ms : Z) : N := Z.to_N (ms mod 2 ^ 64).

(** `{:<w}`. *)
Definition spaces (n : nat) : string := String.concat "" (replicate n " ").
Definition pad_right (w : nat) (s : string) : string := s +:+ spaces (w - String.length s).

(** `s.split(':').next_back().unwrap_or(s)`. *)
Definition last_part (s : string) : string := default s (last (split_on ":" s)).

(** `{:<25} {:<15} {:<15} {:<20} {:<10} {:<10}`. *)
Definition row (a b c d e f : string) : string :=
  pad_right 25 a +:+ " " +:+ pad_right 15 b +:+ " " +:+ pad_right 15 c +:+ " " +:+ pad_right 20 d +:+ " " +:+
  pad_right 10 e +:+ " " +:+ pad_right 10 f.

(** [src/dfs/s3_server/src/bin/audit_reader.rs:106-112 main] *)
Definition table_header : list string :=
  [row "Timestamp" "User" "Action" "Resource" "Status" "Duration"; String.concat "" (replicate 95 "-")].

Definition none_found : string := "No audit records found matching criteria.".

Section reader.
  Context `{AuditCodec}.

(** `DateTime::parse_from_rfc3339(s)?.timestamp_millis()`. *)
Context (parse_from_rfc3339 : string → option Z).

(** A time of the command line, or the default.
    [src/dfs/s3_server/src/bin/audit_reader.rs:90-104 main] *)
Definition time_bound (d : N) (arg : option string) : N + string :=
  match arg with
  | None => inl d
  | Some s => match parse_from_rfc3339 s with Some ms => inl (millis_u64 ms) | None => inr "invalid time" end
  end.

(** [src/dfs/s3_server/src/bin/audit_reader.rs:318-344 print_record] *)
Definition print_record (as_json : bool) (r : AuditRecord) : string + string :=
  if as_json then match to_json r with Some s => inl s | None => inr "cannot serialize" end
  else
    let user := match rec_role_arn r with Some role => last_part role | None => user_id r end in
    let duration := match duration_ms r with Some d => pretty d +:+ "ms" | None => "-" end in
    inl (row (timestamp r) user (rec_action r) (last_part (resource r)) (pretty (status_code r)) duration).

(** The lines of the records, until one cannot be printed. *)
Fixpoint print_records (as_json : bool) (rs : list AuditRecord) : list string + string :=
  match rs with
  | [] => inl []
  | r :: rs =>
      match print_record as_json r with
      | inr e => inr e
      | inl l => match print_records as_json rs with inl ls => inl (l :: ls) | inr e => inr e end
      end
  end.

(** The whole command: the lines it prints, or the error it ends with, which the
    lines printed so far precede. [db] is the database it opens for reading.
    [src/dfs/s3_server/src/bin/audit_reader.rs:70-208 main] *)
Definition reader_main (args : ReaderArgs) (db : AuditDb) : list string + string :=
  match chain_secret args with
  | Some secret =>
      match verify_chain secret db with
      | inl n => inl ["Verifying Hash Chain..."; "✅ Hash Chain Verification Successful!"; "✅ Total " +:+ pretty n +:+ " records verified."]
      | inr e => inr e
      end
  | None =>
      match time_bound 0 (start_time args), time_bound (2 ^ 64 - 1) (end_time args) with
      | inr e, _ | inl _, inr e => inr e
      | inl start_ms, inl end_ms =>
          let query := mkArgs (by_user args) (by_resource args) (by_action args) (by_status args) start_ms end_ms (limit args) in
          match read_log query db with
          | inr e => inr e
          | inl rs =>
              match print_records (json args) rs with
              | inr e => inr e
              | inl ls =>
                  inl ((if json args then [] else table_header) ++ ls ++
                       (if negb (json args) && bool_decide (length rs = 0) then [none_found] else []))
              end
          end
      end
  end.

(** ** What is printed *)

(** The query of a command line whose times are valid. *)
Definition query_of (args : ReaderArgs) (start_ms end_ms : N) : Args :=
  mkArgs (by_user args) (by_resource args) (by_action args) (by_status args) start_ms end_ms (limit args).

Lemma millis_u64_bound ms : (millis_u64 ms < 2 ^ 64)%N.
Proof. unfold millis_u64. pose proof (Z.mod_pos_bound ms (2 ^ 64)). lia. Qed.

Lemma time_bound_u64 d arg n : (d < 2 ^ 64)%N → time_bound d arg = inl n → (n < 2 ^ 64)%N.
Proof.
  intros Hd. unfold time_bound. destruct arg as [s|]; [|by intros [= <-]].
  destruct (parse_from_rfc3339 s); [|done]. intros [= <-]. apply millis_u64_bound.
Qed.

(** A record that was read is printed, in either form: the log holds its text. *)
Lemma print_records_total as_json rs :
  Forall (λ r, is_Some (to_json r)) rs →
  ∃ ls, print_records as_json rs = inl ls ∧ Forall2 (λ r l, print_record as_json r = inl l) rs ls.
Proof.
  induction 1 as [|r rs [v Hv] _ (ls & IH & Hls)]; [by exists []|]. cbn [print_records]. rewrite IH.
  destruct (print_record as_json r) as [l|e] eqn:Hl.
  - exists (l :: ls). split; [done|]. by constructor.
  - exfalso. revert Hl. unfold print_record. rewrite Hv. by destruct as_json.
Qed.

(** A log with complete indexes. *)
Lemma reader_prints_log args recs d start_ms end_ms :
  log_ok recs d → Forall uuid recs → index_ok recs d → chain_secret args = None →
  time_bound 0 (start_time args) = inl start_ms → time_bound (2 ^ 64 - 1) (end_time args) = inl end_ms →
  let found := answer (query_of args start_ms end_ms) recs in
  ∃ ls, Forall2 (λ r l, print_record (json args) r = inl l) found ls ∧
    reader_main args d = inl ((if json args then [] else table_header) ++ ls ++
      (if negb (json args) && bool_decide (found = []) then [none_found] else [])).
Proof.
  intros Hok Hu Hi Hc Hs He found. unfold reader_main. rewrite Hc, Hs, He. fold (query_of args start_ms end_ms).
  rewrite (read_log_answer _ recs) by (done || (by apply (time_bound_u64 0 (start_time args)))). fold found.
  destruct (print_records_total (json args) found) as (ls & -> & Hls).
  { apply Forall_forall. intros r Hr. assert (r ∈ recs) as Hin.
    { unfold found, answer in Hr. apply elem_of_take in Hr as (i & Hi' & _). apply list_elem_of_lookup_2, list_elem_of_filter in Hi' as [_ Hi']. exact Hi'. }
    apply list_elem_of_lookup in Hin as [i Hri]. destruct (Forall2_lookup_r _ _ _ _ _ (proj1 Hok) Hri) as (kv & _ & _ & Hj).
    by eexists. }
  exists ls. split; [done|]. by rewrite (bool_decide_ext (length found = 0) (found = []) (length_zero_iff_nil found)).
Qed.

(** After any execution of the audit worker in which every batch is newer than
    the log and no cleanup fails, the command prints one line for each record of
    the log that the query asks for, in the order of time and up to the limit,
    below the header of the table; and the notice exactly when there is none. *)
Theorem reader_prints_answer secret batch_size es args start_ms end_ms :
  timely secret batch_size (start empty_db) es → Forall regular es → chain_secret args = None →
  time_bound 0 (start_time args) = inl start_ms → time_bound (2 ^ 64 - 1) (end_time args) = inl end_ms →
  let d := db (audit_run secret batch_size (start empty_db) es) in
  let found := answer (query_of args start_ms end_ms) (records d) in
  ∃ ls, Forall2 (λ r l, print_record (json args) r = inl l) found ls ∧
    reader_main args d = inl ((if json args then [] else table_header) ++ ls ++
      (if negb (json args) && bool_decide (found = []) then [none_found] else [])).
Proof.
  intros Ht Hreg. destruct (run_log_ok secret batch_size es Ht Hreg) as (Hok & Hu & Hi).
  by apply reader_prints_log.
Qed.

(** A start before 1970 is a large number as an unsigned one: the command
    finds none of the records, although all of them are later. *)
Theorem early_start_finds_nothing secret batch_size es args s ms end_ms :
  timely secret batch_size (start empty_db) es → Forall regular es → chain_secret args = None → json args = false →
  start_time args = Some s → parse_from_rfc3339 s = Some ms → (- 2 ^ 63 ≤ ms < 0)%Z →
  time_bound (2 ^ 64 - 1) (end_time args) = inl end_ms →
  let d := db (audit_run secret batch_size (start empty_db) es) in
  Forall (λ r, (timestamp_ms r < 2 ^ 63)%N) (records d) →
  reader_main args d = inl (table_header ++ [none_found]).
Proof.
  intros Ht Hreg Hc Hj Hs Hp Hms He d Hlate. destruct (run_log_ok secret batch_size es Ht Hreg) as (Hok & Hu & Hi).
  fold d in Hok, Hu, Hi. set (recs := records d) in *.
  assert (time_bound 0 (start_time args) = inl (millis_u64 ms)) as Hb by (unfold time_bound; by rewrite Hs, Hp).
  assert (answer (query_of args (millis_u64 ms) end_ms) recs = []) as Ha.
  { assert (2 ^ 63 ≤ millis_u64 ms)%N as Hbig.
    { unfold millis_u64. rewrite <- (Z.mod_add ms 1), Z.mod_small by lia. lia. }
    unfold answer. replace (filter _ recs) with (@nil AuditRecord); [apply take_nil|].
    clear -Hlate Hbig. induction Hlate as [|r l Hr _ IH]; [done|]. rewrite filter_cons, decide_False; [exact IH|].
    unfold matches. cbn [query_of arg_start_ms]. rewrite (proj2 (N.leb_gt _ _)) by lia. done. }
  destruct (reader_prints_log args recs d _ _ Hok Hu Hi Hc Hb He) as (ls & Hls & ->).
  rewrite Ha in *. apply Forall2_nil_inv_l in Hls as ->. by rewrite Hj.
Qed.
End reader.

(** ** A concrete log *)

Import AuditDemo.

(** The log of [AuditDemo.events] as a table, from a time on and from a time
    before 1970. *)
Definition reader_demo (from : string) : list string + string :=
  reader_main (H := short) (λ s, if decide (s = "1970-01-01T00:00:00.006Z") then Some 6%Z else Some (-1)%Z)
    (mkReaderArgs None None None None (Some from) None false 100 None)
    (db (audit_run (H := short) "s" 2 (start (H := short) empty_db) events)).

Example reader_demo_lines :
  ∃ l1 l2, reader_demo "1970-01-01T00:00:00.006Z" = inl (table_header ++ [l1; l2]) ∧
    reader_demo "1969-12-31T23:59:59.999Z" = inl (table_header ++ [none_found]).
Proof. vm_compute. do 2 eexists. split; reflexivity. Qed.
