(* ===== verification/Tokens.v ===== *)
(** * Identities, session tokens and the token service

    dfs/common/src/auth/credentials.rs, oidc.rs, sts.rs and chunked.rs and
    dfs/s3_server/src/sts_handler.rs: a client shows a web identity token, the
    gateway validates it with the keys of the issuer, checks the trust policy of
    the role and hands out temporary credentials, whose session token is the
    encrypted session. JSON, AES-GCM, base64, JSON web tokens and dates are
    external; random values, clocks and the answers of the issuer are arguments.
    Metrics are left out. *)

From Stdlib Require Import Strings.Byte.
From stdpp Require Import pretty.
From S2P Require Import Prelude Text MasterState Erasure Policy Signing AuthMiddleware Sse S3Base AuditWorker.

(** ** Errors *)

(** The texts of the errors, the times of a skewed request left out.
    [src/dfs/common/src/auth/mod.rs:38-67 AuthError] *)
Definition error_text (e : AuthError) : string :=
  match e with
  | MissingAuth => "Missing or malformed Authorization header or query parameters"
  | InvalidAccessKey k => "Invalid Access Key ID: " +:+ k
  | SignatureDoesNotMatch canonical_request string_to_sign =>
      "Signature mismatch. CanonicalRequest: " +:+ canonical_request +:+ ", StringToSign: " +:+ string_to_sign
  | RequestTimeTooSkewed => "Request time too skewed."
  | InvalidCredentialScope expected received => "Invalid Credential Scope. Expected: " +:+ expected +:+ ", Received: " +:+ received
  | InsecureTransport => "Insecure transport. SigV4 requires TLS"
  | InvalidToken why => "Invalid token: " +:+ why
  | ExpiredToken => "Token has expired"
  | InternalError why => "Internal authentication error: " +:+ why
  end.

(** ** Permanent credentials *)

(** [src/dfs/common/src/auth/credentials.rs:7-10 EnvCredentialProvider] *)
Record EnvCredentialProvider : Type := mkEnvProvider {
  env_access_key : option string;
  env_secret_key : option string;
}.

(** [src/dfs/common/src/auth/credentials.rs:12-19 new] *)
Definition env_provider (vars : string → option string) : EnvCredentialProvider :=
  mkEnvProvider (vars "S3_ACCESS_KEY") (vars "S3_SECRET_KEY").

(** [src/dfs/common/src/auth/credentials.rs:27-34 get_secret_key] *)
Definition env_secret (p : EnvCredentialProvider) (access_key : string) : option string :=
  match env_access_key p, env_secret_key p with
  | Some ak, Some sk => if decide (access_key = ak) then Some sk else None
  | _, _ => None
  end.

(** ** Web identities *)

(** [src/dfs/common/src/auth/oidc.rs:7-18 Claims] *)
Record Claims : Type := mkClaims {
  sub : string;
  aud : string;
  iss : string;
  exp : N;
  iat : N;
  claim_groups : list string;
  extra : string;
}.

(** [src/dfs/common/src/auth/oidc.rs:21-35 to_policy_context] *)
Definition to_policy_context (c : Claims) : EvaluationContext :=
  mkContext (sub c) (claim_groups c) (<["iss" := iss c]> (<["sub" := sub c]> ∅)).

(** JSON web tokens: the key identifier in the header of a token, the keys of an
    issuer, and the check of a token with a key, for an audience and an issuer. *)
Class Jwt := {
  Jwk : Type;
  JwkSet : Type;
  DecodingKey : Type;
  decode_header : string → option string + string;
  jwk_find : string → JwkSet → option Jwk;
  from_jwk : Jwk → DecodingKey + string;
  jwt_decode : string → DecodingKey → string → string → Claims + string;
  jwt_decode_ok token key audience issuer c : jwt_decode token key audience issuer = inl c → aud c = audience ∧ iss c = issuer;
}.

(** [src/dfs/common/src/auth/oidc.rs:38-51 OidcValidator] *)
Record OidcValidator : Type := mkOidcValidator {
  issuer_url : string;
  client_id : string;
}.

Section tokens.
  Context `{Jwt}.

(** The issuer: the address of its keys in its configuration, when it has one,
    and the keys at an address; or an error. *)
Record Issuer : Type := mkIssuer {
  get_config : string → option string + string;
  get_jwks : string → JwkSet + string;
}.

(** [src/dfs/common/src/auth/oidc.rs:53-79 fetch_jwks] *)
Definition fetch_jwks (issuer : Issuer) (v : OidcValidator) : JwkSet + AuthError :=
  let config_url := trim_end_char "/" (issuer_url v) +:+ "/.well-known/openid-configuration" in
  match get_config issuer config_url with
  | inr e => inr (InternalError e)
  | inl None => inr (InternalError "Missing jwks_uri in OIDC config")
  | inl (Some jwks_uri) =>
      match get_jwks issuer jwks_uri with
      | inl jwks => inl jwks
      | inr e => inr (InternalError e)
      end
  end.

(** The keys are fetched when there are none or the one that is asked for is
    missing; the new keys are kept.
    [src/dfs/common/src/auth/oidc.rs:81-131 validate_token] *)
Definition validate_token (issuer : Issuer) (v : OidcValidator) (token : string) (jwks : option JwkSet)
  : (Claims + AuthError) * option JwkSet :=
  match decode_header token with
  | inr e => (inr (InvalidToken ("Invalid JWT header: " +:+ e)), jwks)
  | inl None => (inr (InvalidToken "Missing kid in JWT header"), jwks)
  | inl (Some kid) =>
      let needs_fetch := match jwks ≫= jwk_find kid with Some _ => false | None => true end in
      let jwks := if needs_fetch then match fetch_jwks issuer v with inl new => Some new | inr _ => jwks end else jwks in
      (match jwks with
       | None => inr (InternalError "JWKS is not available")
       | Some keys =>
           match jwk_find kid keys with
           | None => inr (InvalidToken ("kid " +:+ kid +:+ " not found in JWKS"))
           | Some jwk =>
               match from_jwk jwk with
               | inr e => inr (InternalError ("Failed to create decoding key from JWK: " +:+ e))
               | inl key =>
                   match jwt_decode token key (client_id v) (issuer_url v) with
                   | inl claims => inl claims
                   | inr e => inr (InvalidToken ("Token validation failed: " +:+ e))
                   end
               end
           end
       end, jwks)
  end.

End tokens.

(** ** Session tokens

    The texts of errors of the external crates are left out. *)

(** [src/dfs/common/src/auth/sts.rs:13-19 StsSessionData] *)
Record SessionData : Type := mkSessionData {
  sd_role_arn : string;
  sd_temp_secret_key : string;
  sd_expiration : N;
  sd_claims : Claims;
}.

Class SessionCodec := {
  session_to_json : SessionData → option bytes;
  session_of_json : bytes → option SessionData;
  session_of_to_json d b : session_to_json d = Some b → session_of_json b = Some d;
}.

(** [src/dfs/common/src/auth/sts.rs:21-29 StsTokenManager] *)
Record StsTokenManager : Type := mkStsTokenManager {
  sts_keys : gmap N bytes;
  active_kid : N;
}.

Section sessions.
  Context `{Aead} `{SessionCodec}.

(** [src/dfs/common/src/auth/sts.rs:31-58 generate_token] *)
Definition generate_token (mgr : StsTokenManager) (nonce : bytes) (data : SessionData) : string + AuthError :=
  match sts_keys mgr !! active_kid mgr with
  | None => inr (InternalError ("Active KID " +:+ pretty (active_kid mgr) +:+ " not found"))
  | Some key =>
      match session_to_json data with
      | None => inr (InternalError "Failed to serialize STS data")
      | Some plaintext =>
          if negb (valid_key key) then inr (InternalError "Invalid AES key")
          else
            match seal key nonce plaintext with
            | None => inr (InternalError "Encryption failed")
            | Some ciphertext => inl (base64_encode (of_string (be_bytes 4 (active_kid mgr)) ++ nonce ++ ciphertext))
            end
      end
  end.

(** [src/dfs/common/src/auth/sts.rs:60-95 decrypt_token] *)
Definition decrypt_session (mgr : StsTokenManager) (token : string) : SessionData + AuthError :=
  match base64_decode token with
  | None => inr (InvalidToken "Invalid base64")
  | Some combined =>
      if length combined <? 16 then inr (InvalidToken "Token too short")
      else
        let kid := from_be 0 (to_string (take 4 combined)) in
        let rest := drop 4 combined in
        match sts_keys mgr !! kid with
        | None => inr (InvalidToken ("Unknown KID: " +:+ pretty kid))
        | Some key =>
            if negb (valid_key key) then inr (InternalError "Invalid AES key")
            else
              match open key (take 12 rest) (drop 12 rest) with
              | None => inr (InvalidToken "Decryption failed")
              | Some plaintext =>
                  match session_of_json plaintext with
                  | None => inr (InvalidToken "Failed to parse decrypted STS data")
                  | Some data => inl data
                  end
              end
        end
  end.

(** What the middleware takes from a session. *)
Definition session_of (d : SessionData) : StsSessionData :=
  mkSession (sd_role_arn d) (sd_temp_secret_key d) (Z.of_N (sd_expiration d)) (to_policy_context (sd_claims d)).
Definition decrypt_with (mgr : StsTokenManager) (token : string) : StsSessionData + AuthError :=
  match decrypt_session mgr token with inl d => inl (session_of d) | inr e => inr e end.

End sessions.

(** ** Signed chunks *)

(** [src/dfs/common/src/auth/chunked.rs:5-25 ChunkVerifier] *)
Record ChunkVerifier : Type := mkChunkVerifier {
  cv_signing_key : string;
  cv_timestamp : string;
  cv_scope : string;
  prev_signature : string;
}.

Section chunks.
  Context (sha256 : string → string) (hmac_sha256 : string → string → string) (hex : string → string).

Definition newline : string := String "010" "".

(** [src/dfs/common/src/auth/chunked.rs:29-47 verify_chunk] *)
Definition chunk_signature (v : ChunkVerifier) (chunk_data : string) : string :=
  hex (hmac_sha256 (cv_signing_key v)
    ("AWS4-HMAC-SHA256-PAYLOAD" +:+ newline +:+ cv_timestamp v +:+ newline +:+ cv_scope v +:+ newline +:+ prev_signature v +:+ newline
     +:+ "e3b0c44298fc1c149afbf4c8996fb92427ae41e4649b934ca495991b7852b855" +:+ newline +:+ hex (sha256 chunk_data))).

(** [src/dfs/common/src/auth/chunked.rs:27-57 verify_chunk] *)
Definition verify_chunk (chunk_data expected_signature : string) (v : ChunkVerifier) : bool * ChunkVerifier :=
  let signature := chunk_signature v chunk_data in
  if decide (signature = expected_signature)
  then (true, mkChunkVerifier (cv_signing_key v) (cv_timestamp v) (cv_scope v) signature)
  else (false, v).

Fixpoint verify_chunk_list (chunks : list (string * string)) (v : ChunkVerifier) : bool :=
  match chunks with
  | [] => true
  | (data, signature) :: chunks => let '(ok, v) := verify_chunk data signature v in ok && verify_chunk_list chunks v
  end.

(** The signatures of a list of chunks, each covering the one before it. *)
Fixpoint sign_chunks (chunks : list string) (v : ChunkVerifier) : list (string * string) :=
  match chunks with
  | [] => []
  | data :: chunks =>
      let signature := chunk_signature v data in
      (data, signature) :: sign_chunks chunks (mkChunkVerifier (cv_signing_key v) (cv_timestamp v) (cv_scope v) signature)
  end.

(** The verifier accepts exactly the chain of signatures. *)
Lemma verify_chunk_list_iff chunks v : verify_chunk_list chunks v = true ↔ chunks = sign_chunks chunks.*1 v.
Proof.
  revert v. induction chunks as [|[d s] chunks IH]; intros v; [done|]. cbn [verify_chunk_list sign_chunks fmap list_fmap fst].
  unfold verify_chunk. case_decide as Hs.
  - cbn [andb]. rewrite IH, <- Hs. split; [by intros <-|]. by intros [= E].
  - cbn [andb]. split; [done|]. intros [= E _]. by destruct Hs.
Qed.

End chunks.
