(* ===== verification/TokenService.v ===== *)
(** * The token service

    dfs/s3_server/src/sts_handler.rs: AssumeRoleWithWebIdentity, and what the
    credentials it hands out are worth to the authentication middleware. *)

From Stdlib Require Import Strings.Byte.
From stdpp Require Import pretty.
From S2P Require Import Prelude Text MasterState Erasure Policy Signing AuthMiddleware Sse S3Base AuditWorker AuditLog AuditQuery Tokens.

(** ** Requests and replies *)

(** [src/dfs/s3_server/src/sts_handler.rs:15-27 StsQueryParams] *)
Record StsQueryParams : Type := mkStsParams {
  sts_action : option string;
  duration_seconds : option N;
  role_arn : option string;
  role_session_name : option string;
  web_identity_token : option string;
}.

(** [src/dfs/s3_server/src/sts_handler.rs:35-63 AssumeRoleWithWebIdentityResult] *)
Record AssumedRole : Type := mkAssumedRole {
  access_key_id : string;
  secret_access_key : string;
  session_token : string;
  credentials_expiration : string;
  subject : string;
  assumed_role_id : string;
  assumed_role_arn : string;
}.

Inductive StsReply : Type :=
  | StsCredentials (r : AssumedRole)
  | StsError (status : N) (code message : string)
  | StsStatus (status : N).

(** The parts of the server that the service uses. *)
Record StsConfig : Type := mkStsConfig {
  sts_oidc : option OidcValidator;
  sts_manager : option StsTokenManager;
  sts_roles : option (list Role);
  sts_audited : bool;
}.

(** What a request meets: its connection, the clocks at its start and end, and
    the random values it draws. *)
Record StsEnv : Type := mkStsEnv {
  env_request_id : string;
  env_remote_ip : string;
  env_user_agent : option string;
  env_start_ms : N;
  env_end_ms : N;
  env_now_secs : N;
  env_temp_secret : string;
  env_uuid : string;
  env_nonce : bytes;
}.

(** `uuid.replace("-", "")`. *)
Fixpoint without_dashes (s : string) : string :=
  match s with EmptyString => "" | String a s => if decide (a = "-"%char) then without_dashes s else String a (without_dashes s) end.

(** `x as i64` of an unsigned number. *)
Definition as_i64 (n : N) : Z := let z := Z.of_N (wrap64 n) in if (z <? 2 ^ 63)%Z then z else (z - 2 ^ 64)%Z.

Section service.
  Context `{JW : Jwt} `{AE : Aead} `{SC : SessionCodec}.
  Context (regex_is_match : string → string → option bool).
  (* dates: in milliseconds as RFC 3339; in seconds, when chrono can represent it *)
  Context (rfc3339 : N → string) (from_timestamp : Z → option string).

(** [src/dfs/s3_server/src/sts_handler.rs:80-105 handle_sts] *)
Definition log_audit (cfg : StsConfig) (env : StsEnv) (status : N) (error : option string) (action user : string) (role : option string)
  : list AuditRecord :=
  if sts_audited cfg then
    [mkAuditRecord (rfc3339 (env_end_ms env)) (env_end_ms env) (env_request_id env) (env_remote_ip env) user role action "arn:dfs:sts:::*"
       status error (env_user_agent env) (Some (sub64 (env_end_ms env) (env_start_ms env))) None None]
  else [].

(** The last component of a role. *)
Definition role_name (arn : string) : string := default "role" (last (split_on "/" arn)).

(** The names of a session.
    [src/dfs/s3_server/src/sts_handler.rs:291-296 handle_sts] *)
Definition access_key_of (uuid : string) : string :=
  map_string upper ("ASIA" +:+ String.substring 0 16 (without_dashes uuid)).

(** The session a request is given.
    [src/dfs/s3_server/src/sts_handler.rs:275-303 handle_sts] *)
Definition session_for (env : StsEnv) (params : StsQueryParams) (role : string) (claims : Claims) : SessionData :=
  mkSessionData role (env_temp_secret env) (wrap64 (env_now_secs env + default 3600%N (duration_seconds params))) claims.

(** The reply with its audit record, and the keys of the issuer. The sum of the
    clock and the duration is that of a release build; the reply is taken to be
    serialized.
    [src/dfs/s3_server/src/sts_handler.rs:65-395 handle_sts] *)
Definition handle_sts (cfg : StsConfig) (issuer : Issuer) (env : StsEnv) (params : StsQueryParams) (jwks : option JwkSet)
  : outcome StsReply * list AuditRecord * option JwkSet :=
  let action := default "Unknown" (sts_action params) in
  let refuse status code message := (Ok (StsError status code message), log_audit cfg env status (Some code) action "anonymous" None, jwks) in
  if decide (sts_action params ≠ Some "AssumeRoleWithWebIdentity")
  then (Ok (StsStatus 400), log_audit cfg env 400 (Some "InvalidAction") action "anonymous" None, jwks)
  else
    match sts_oidc cfg with
    | None => refuse 500%N "OIDC_NOT_ENABLED" "OIDC validation is not enabled on this server."
    | Some oidc =>
        match sts_manager cfg with
        | None => refuse 500%N "STS_NOT_ENABLED" "STS is not enabled on this server."
        | Some mgr =>
            match sts_roles cfg with
            | None => refuse 500%N "IAM_NOT_ENABLED" "IAM policy evaluation is not enabled on this server."
            | Some roles =>
                match web_identity_token params with
                | None => refuse 400%N "MissingToken" "WebIdentityToken is required"
                | Some token =>
                    match role_arn params with
                    | None => refuse 400%N "MissingRole" "RoleArn is required"
                    | Some role =>
                        let '(validated, jwks) := validate_token issuer oidc token jwks in
                        match validated with
                        | inr e =>
                            (Ok (StsError 403 "InvalidIdentityToken" (error_text e)),
                             log_audit cfg env 403 (Some "InvalidIdentityToken") action "anonymous" (Some role), jwks)
                        | inl claims =>
                            if negb (can_assume_role regex_is_match roles role (to_policy_context claims)) then
                              (Ok (StsError 403 "AccessDenied" "User is not authorized to assume this role."),
                               log_audit cfg env 403 (Some "AccessDenied") action (sub claims) (Some role), jwks)
                            else
                              let data := session_for env params role claims in
                              match generate_token mgr (env_nonce env) data with
                              | inr e =>
                                  (Ok (StsError 500 "InternalError" (error_text e)),
                                   log_audit cfg env 500 (Some "InternalError") action (sub claims) (Some role), jwks)
                              | inl session =>
                                  match from_timestamp (as_i64 (sd_expiration data)) with
                                  | None => (Panic "called unwrap on a None value", [], jwks)
                                  | Some expires =>
                                      let name := default "session" (role_session_name params) in
                                      (Ok (StsCredentials (mkAssumedRole (access_key_of (env_uuid env)) (env_temp_secret env) session expires
                                             (sub claims) (role_name role +:+ ":" +:+ name)
                                             ("arn:dfs:sts:::assumed-role/" +:+ role_name role +:+ "/" +:+ name))),
                                       log_audit cfg env 200 None action (sub claims) (Some role), jwks)
                                  end
                              end
                        end
                    end
                end
            end
        end
    end.

(** ** Tokens are read back *)

Lemma of_string_length s : length (of_string s) = String.length s.
Proof. unfold of_string, String.list_byte_of_string. rewrite length_map. induction s as [|a s IH]; [done|]. simpl. by rewrite IH. Qed.

(** A session token is read back by every server that has the key it was made
    with, also after another key became the active one. *)
Lemma token_roundtrip mgr mgr' nonce data token :
  length nonce = 12 → (active_kid mgr < 2 ^ 32)%N → sts_keys mgr' !! active_kid mgr = sts_keys mgr !! active_kid mgr →
  generate_token mgr nonce data = inl token → decrypt_session mgr' token = inl data.
Proof.
  intros Hn Hkid Hkeys. unfold generate_token, decrypt_session. destruct (sts_keys mgr !! active_kid mgr) as [key|]; [|done].
  destruct (session_to_json data) as [plain|] eqn:Hj; [|done]. destruct (valid_key key) eqn:Hk; [|done]. cbn [negb].
  destruct (seal key nonce plain) as [cipher|] eqn:Hs; [|done]. intros E.
  assert (token = base64_encode (of_string (be_bytes 4 (active_kid mgr)) ++ nonce ++ cipher)) as -> by congruence. rewrite base64_roundtrip.
  assert (length (of_string (be_bytes 4 (active_kid mgr))) = 4) as H4 by (rewrite of_string_length; apply be_bytes_length).
  rewrite (proj2 (Nat.ltb_ge _ _)) by (rewrite !length_app, H4; lia).
  rewrite (take_app_length' _ _ 4), (drop_app_length' _ _ 4) by done.
  assert (from_be 0 (to_string (of_string (be_bytes 4 (active_kid mgr)))) = active_kid mgr) as ->.
  { unfold to_string, of_string. rewrite String.string_of_list_byte_of_string, from_be_bytes.
    change (256 ^ N.of_nat 4)%N with (2 ^ 32)%N. by rewrite N.mod_small. }
  rewrite Hkeys, Hk. cbn [negb]. rewrite take_app_length', drop_app_length' by done. rewrite (open_seal _ _ _ _ Hs).
  by rewrite (session_of_to_json _ _ Hj).
Qed.

(** ** Who gets credentials *)

Lemma validate_token_ok issuer v token jwks c : (validate_token issuer v token jwks).1 = inl c → aud c = client_id v ∧ iss c = issuer_url v.
Proof.
  unfold validate_token. intros E. repeat (case_match; simplify_eq/=); by eapply jwt_decode_ok.
Qed.

(** What a reply with credentials is based on. *)
Record granted (cfg : StsConfig) (issuer : Issuer) (env : StsEnv) (params : StsQueryParams) (jwks : option JwkSet) (r : AssumedRole)
    (mgr : StsTokenManager) (role : string) (claims : Claims) : Prop := {
  gr_manager : sts_manager cfg = Some mgr;
  gr_role : role_arn params = Some role;
  gr_identity : ∃ oidc token, sts_oidc cfg = Some oidc ∧ web_identity_token params = Some token ∧
    (validate_token issuer oidc token jwks).1 = inl claims ∧ aud claims = client_id oidc ∧ iss claims = issuer_url oidc;
  gr_trust : ∃ roles, sts_roles cfg = Some roles ∧ can_assume_role regex_is_match roles role (to_policy_context claims) = true;
  gr_secret : secret_access_key r = env_temp_secret env;
  gr_token : generate_token mgr (env_nonce env) (session_for env params role claims) = inl (session_token r);
}.

Lemma handle_sts_granted cfg issuer env params jwks r audit jwks' :
  handle_sts cfg issuer env params jwks = (Ok (StsCredentials r), audit, jwks') →
  ∃ mgr role claims, granted cfg issuer env params jwks r mgr role claims.
Proof.
  unfold handle_sts. intros E. case_decide; [done|]. destruct (sts_oidc cfg) as [oidc|] eqn:Ho; [|done].
  destruct (sts_manager cfg) as [mgr|] eqn:Hm; [|done]. destruct (sts_roles cfg) as [roles|] eqn:Hr; [|done].
  destruct (web_identity_token params) as [token|] eqn:Ht; [|done]. destruct (role_arn params) as [role|] eqn:Ha; [|done].
  destruct (validate_token issuer oidc token jwks) as [v jwks1] eqn:Hv. destruct v as [claims|]; [|done].
  destruct (can_assume_role _ roles role _) eqn:Hc; [|done]. cbn [negb] in E.
  destruct (generate_token mgr _ _) as [session|] eqn:Hg; [|done]. destruct (from_timestamp _) as [expires|]; [|done].
  injection E as <- <- <-. exists mgr, role, claims. split; try done; [|by exists roles].
  exists oidc, token. rewrite Hv. split; [done|]. split; [done|]. split; [done|]. apply (validate_token_ok issuer oidc token jwks). by rewrite Hv.
Qed.

(** Every request that is answered leaves one audit record. *)
Lemma handle_sts_audited cfg issuer env params jwks reply audit jwks' :
  handle_sts cfg issuer env params jwks = (Ok reply, audit, jwks') → sts_audited cfg = true → length audit = 1.
Proof. unfold handle_sts, log_audit. intros E Ha. rewrite Ha in E. repeat (case_match; simplify_eq/=); done. Qed.

End service.

(** ** What credentials are worth *)

Section sessions.
  Context `{JW : Jwt} `{AE : Aead} `{SC : SessionCodec}.
  Context (rfc3339 : N → string) (from_timestamp : Z → option string).
  Context (sha256 : string → string) (hmac_sha256 : string → string → string) (hex : string → string)
    (regex_is_match : string → string → option bool) (form_decode : string → gmap string string)
    (parse_datetime parse_naive : string → option Z) (parse_i64 : string → option Z)
    (bucket_policy : string → option (list BucketStatement)).
Notation middleware := (auth_middleware sha256 hmac_sha256 hex regex_is_match form_decode parse_datetime parse_naive parse_i64 bucket_policy).

(** The cached signing key of an access key and date, when there is one, belongs
    to this secret. *)
Definition own_key (c : ParsedCredentials) (secret : string) (cache : KeyCache) : Prop :=
  ∀ k expiry, cache !! (access_key c, date c) = Some (k, expiry) →
    k = derive_signing_key hmac_sha256 secret (date c) (region c) (service c).

(** A request that carries a session token and is signed with a secret: nothing
    but the session and the policies is left to check. *)
Record signed_request (state : AppState) (now : Z) (rq : Request) (c : ParsedCredentials) (token secret : string) : Prop := {
  sr_enabled : auth_enabled state = true;
  sr_no_skip : skips_auth rq = false;
  sr_tls : require_tls state && negb (is_tls rq) = false;
  sr_credentials : parse_credentials (rq_headers rq) (query_params form_decode rq) = Some c;
  sr_time : check_time parse_datetime parse_naive parse_i64 now (Signing.timestamp c) (query_params form_decode rq) = None;
  sr_scope : check_scope state c = None;
  sr_token : sts_token form_decode rq = Some token;
  sr_payload : payload_hash (signing_input rq c) ≠ "UNSIGNED-PAYLOAD" ∨ allow_unsigned_payload state = true ∨
    is_presigned (query_params form_decode rq) = true;
  sr_signature : verify_signature sha256 hmac_sha256 hex (signing_input rq c) c secret = None;
}.

(** The key that is used is the one of the secret, from the cache or derived, and
    the cache keeps it. *)
Lemma signing_key_own now c secret cache :
  own_key c secret cache →
  (signing_key hmac_sha256 now c secret cache).1 = derive_signing_key hmac_sha256 secret (date c) (region c) (service c) ∧
  own_key c secret (signing_key hmac_sha256 now c secret cache).2.
Proof.
  intros Hown. unfold signing_key, cache_get.
  assert (∀ cache', own_key c secret (cache_insert now (access_key c) (date c)
    (derive_signing_key hmac_sha256 secret (date c) (region c) (service c)) cache')) as Hins.
  { intros cache' k expiry. unfold cache_insert. rewrite lookup_insert_eq. by intros [= <- _]. }
  destruct (cache !! (access_key c, date c)) as [[k expiry]|] eqn:Hc; [|by split; [|apply Hins]].
  destruct (now <? expiry)%Z; [|by split; [|apply Hins]]. split; [by eapply Hown|done].
Qed.

(** What the policies say: those of the role, when the server has any, allow the
    action, and the policy of the bucket does not deny it; requests with a
    parameter named policy are not held against the policy of the bucket. *)
Definition permits (state : AppState) (role : string) (ctx : EvaluationContext) (rq : Request) : bool :=
  let '(action, resource) := resolve_s3_action_and_resource (rq_method rq) (rq_path rq) (query_params form_decode rq) in
  match policy_evaluator state with
  | Some roles => evaluate regex_is_match roles action resource role ctx
  | None => true
  end &&
  (has_key "policy" (query_params form_decode rq) ||
   match bucket_from_path (rq_path rq) ≫= λ b, bucket_policy ("/" +:+ b +:+ "/.s3_bucket_policy") with
   | Some statements => match evaluate_bucket regex_is_match statements (Some role) action resource false with ExplicitDeny => false | _ => true end
   | None => true
   end).

Lemma check_policies_permits state role ctx rq :
  check_policies regex_is_match form_decode bucket_policy state (Some (role, ctx)) rq =
  if permits state role ctx rq then None else Some MissingAuth.
Proof.
  unfold check_policies, permits. destruct (resolve_s3_action_and_resource _ _ _) as [action resource]. cbn [fmap option_fmap option_map fst].
  destruct (match policy_evaluator state with Some _ => _ | None => _ end); cbn [negb andb]; [|done].
  destruct (has_key "policy" _); [done|]. cbn [orb]. destruct (bucket_from_path _ ≫= _); [|done]. by destruct (evaluate_bucket _ _ _ _ _ _).
Qed.

Lemma signed_request_verdict state now rq c cache token session :
  signed_request state now rq c token (temp_secret_key session) → own_key c (temp_secret_key session) cache →
  decrypt_token state ≫= (λ decrypt, match decrypt token with inl d => Some d | inr _ => None end) = Some session →
  (middleware state now rq cache).1 =
    (if (expiration session <? now / 1000)%Z then Refuse ExpiredToken
     else if permits state (session_role_arn session) (session_context session) rq then Pass (Some (session_context session))
     else Refuse MissingAuth) ∧
  own_key c (temp_secret_key session) (middleware state now rq cache).2.
Proof.
  intros [H1 H2 H3 H4 H5 H6 H7 H8 H9] Hown Hd. unfold auth_middleware. rewrite H1, H2, H3, H4. cbn [negb]. rewrite H5, H6, H7.
  unfold resolve_secret_key. destruct (decrypt_token state) as [decrypt|]; [|done]. cbn [mbind option_bind] in Hd.
  destruct (decrypt token) as [d|]; [|done]. injection Hd as ->. case_if; [done|].
  destruct (signing_key_own now c (temp_secret_key session) cache Hown) as [Hkey Hkept].
  destruct (signing_key _ _ _ _ _) as [k cache']. cbn [fst snd] in Hkey, Hkept. subst k.
  assert (bool_decide (payload_hash (signing_input rq c) = "UNSIGNED-PAYLOAD") && negb (allow_unsigned_payload state)
    && negb (is_presigned (query_params form_decode rq)) = false) as ->.
  { destruct H8 as [Hp|[-> | ->]]; [by rewrite bool_decide_false|cbn [negb]; by rewrite andb_false_r|cbn [negb]; by rewrite !andb_false_r]. }
  unfold verify_signature in H9. rewrite H9, check_policies_permits. by destruct (permits _ _ _ _).
Qed.

(** C14. Sessions: credentials are handed out only for an identity the issuer
    vouches for, to this client, and that the trust policy of the role accepts.
    A request signed with them that carries their session token, on a server
    that has the key of the token and whose key cache holds no key of another
    secret for this access key and date, is refused as expired once the time the
    client asked for has passed, and until then accepted exactly when the
    policies of that role and of the bucket permit it for that identity; and it
    leaves the cache fit for the next request of the session. *)
Theorem issued_sessions_authenticate cfg issuer env params jwks r audit jwks' state mgr' now rq c cache :
  handle_sts regex_is_match rfc3339 from_timestamp cfg issuer env params jwks = (Ok (StsCredentials r), audit, jwks') →
  length (env_nonce env) = 12 → (env_now_secs env + default 3600 (duration_seconds params) < 2 ^ 64)%N →
  decrypt_token state = Some (decrypt_with mgr') →
  (∀ mgr, sts_manager cfg = Some mgr → (active_kid mgr < 2 ^ 32)%N ∧ sts_keys mgr' !! active_kid mgr = sts_keys mgr !! active_kid mgr) →
  signed_request state now rq c (session_token r) (secret_access_key r) → own_key c (secret_access_key r) cache →
  ∃ mgr role claims, granted regex_is_match cfg issuer env params jwks r mgr role claims ∧
    (middleware state now rq cache).1 =
      (if (Z.of_N (env_now_secs env + default 3600 (duration_seconds params))%N <? now / 1000)%Z then Refuse ExpiredToken
       else if permits state role (to_policy_context claims) rq then Pass (Some (to_policy_context claims))
       else Refuse MissingAuth) ∧
    own_key c (secret_access_key r) (middleware state now rq cache).2.
Proof.
  intros Hsts Hn Hov Hst Hkeys Hrq Hown. destruct (handle_sts_granted _ _ _ _ _ _ _ _ _ _ _ Hsts) as (mgr & role & claims & Hg).
  exists mgr, role, claims. split; [done|]. pose proof Hg as [Hm _ _ _ Hsec Htok]. destruct (Hkeys mgr Hm) as [Hkid Hkey].
  pose proof (token_roundtrip mgr mgr' _ _ _ Hn Hkid Hkey Htok) as Hd. rewrite Hsec in Hrq, Hown |- *.
  destruct (signed_request_verdict state now rq c cache (session_token r) (session_of (session_for env params role claims))) as [Hv Hk].
  - exact Hrq.
  - exact Hown.
  - rewrite Hst. cbn. unfold decrypt_with. by rewrite Hd.
  - split; [|exact Hk]. rewrite Hv. cbn. unfold wrap64. by rewrite N.mod_small.
Qed.

End sessions.

(** ** A concrete session *)

Module SessionDemo.

(** Sessions as the list of their fields. *)
Definition fields (d : SessionData) : list string :=
  let c := sd_claims d in
  [sd_role_arn d; sd_temp_secret_key d; spell (sd_expiration d); sub c; aud c; iss c; spell (exp c); spell (iat c); extra c] ++ claim_groups c.
Definition of_fields (l : list string) : option SessionData :=
  match l with
  | role :: secret :: expires :: s :: a :: i :: e :: t :: x :: groups =>
      expires ← unspell expires; e ← unspell e; t ← unspell t; Some (mkSessionData role secret expires (mkClaims s a i e t groups x))
  | _ => None
  end.

Lemma of_fields_fields d : of_fields (fields d) = Some d.
Proof. destruct d as [role secret expires [s a i e t groups x]]. cbn. by rewrite !unspell_spell. Qed.

Definition codec : SessionCodec.
Proof.
  refine {| session_to_json := λ d, Some (of_string (spell (fields d))); session_of_json := λ b, unspell (to_string b) ≫= of_fields |}.
  intros d b [= <-]. unfold to_string, of_string. rewrite String.string_of_list_byte_of_string, unspell_spell. apply of_fields_fields.
Defined.

(** An issuer that vouches for the name in the token. *)
Definition jwt : Jwt.
Proof.
  refine {| Jwk := unit; JwkSet := unit; DecodingKey := unit; decode_header := λ _, inl (Some "k"); jwk_find := λ _ _, Some tt;
            from_jwk := λ _, inl tt; jwt_decode := λ token _ audience issuer, inl (mkClaims token audience issuer 9 1 [] "") |}.
  by intros ? ? ? ? c [= <-].
Defined.

Definition issuer : Issuer (H := jwt) := mkIssuer (H := jwt) (λ _, inl (Some "u")) (λ _, inl tt).
Definition allow : Statement := mkStatement "Allow" (ActionSingle "*") None None.
Definition roles : list Role := [mkRole "r" "arn/r" [allow] [mkManagedPolicy "all" [allow]]].

(** The server that made the token has since made another key its active one. *)
Definition old_key : bytes := replicate 32 x01.
Definition manager : StsTokenManager := mkStsTokenManager {[1%N := old_key]} 1.
Definition rotated : StsTokenManager := mkStsTokenManager {[1%N := old_key; 2%N := replicate 32 x02]} 2.

Definition config : StsConfig := mkStsConfig (Some (mkOidcValidator "i" "a")) (Some manager) (Some roles) true.
Definition env : StsEnv := mkStsEnv "id" "::1" None 5 6 7 "pw" "a-b" (replicate 12 x03).
Definition params : StsQueryParams := mkStsParams (Some "AssumeRoleWithWebIdentity") None (Some "arn/r") None (Some "bob").

Definition granted_session : SessionData := session_for env params "arn/r" (mkClaims "bob" "a" "i" 9 1 [] "").
Definition session : string :=
  match generate_token (H := toy_aead) (H0 := codec) manager (env_nonce env) granted_session with inl t => t | inr _ => "" end.
Definition answer : AssumedRole :=
  mkAssumedRole (access_key_of "a-b") "pw" session "later" "bob" "r:session" "arn:dfs:sts:::assumed-role/r/session".

Definition server : AppState :=
  mkAppState true false "us-east-1" false (λ _, None) (Some (decrypt_with (H := toy_aead) (H0 := codec) rotated)) (Some roles).
Definition request : Request := AuthDemo.request "pw" [("x-amz-security-token", Some session)].

End SessionDemo.

(** A cache with the key of the session. *)
Definition demo_cache : KeyCache :=
  let c := AuthDemo.credentials (AuthDemo.sign "pw") in
  {[(access_key c, date c) := (derive_signing_key AuthDemo.hmac_sha256 "pw" (date c) (region c) (service c), 90000%Z)]}.

(** The second request of a session, whose key is in the cache. *)
Lemma issued_sessions_authenticate_witness :
  ∃ mgr role claims,
    granted (JW := SessionDemo.jwt) (AE := toy_aead) (SC := SessionDemo.codec) AuthDemo.regex SessionDemo.config SessionDemo.issuer
      SessionDemo.env SessionDemo.params None SessionDemo.answer mgr role claims ∧
    (auth_middleware AuthDemo.sha256 AuthDemo.hmac_sha256 AuthDemo.hex AuthDemo.regex (λ _, ∅) (λ _, Some 0%Z) (λ _, None) (λ _, None)
       (λ _, None) SessionDemo.server 2000 SessionDemo.request demo_cache).1 =
    (if permits AuthDemo.regex (λ _, ∅) (λ _, None) SessionDemo.server role (to_policy_context claims) SessionDemo.request
     then Pass (Some (to_policy_context claims)) else Refuse MissingAuth).
Proof.
  refine (match issued_sessions_authenticate (JW := SessionDemo.jwt) (AE := toy_aead) (SC := SessionDemo.codec) (λ _, "now") (λ _, Some "later")
    AuthDemo.sha256 AuthDemo.hmac_sha256 AuthDemo.hex AuthDemo.regex (λ _, ∅) (λ _, Some 0%Z) (λ _, None) (λ _, None) (λ _, None)
    SessionDemo.config SessionDemo.issuer SessionDemo.env SessionDemo.params None SessionDemo.answer _ _ SessionDemo.server
    SessionDemo.rotated 2000 SessionDemo.request (AuthDemo.credentials (AuthDemo.sign "pw")) demo_cache _ _ _ _ _ _ _ with
    | ex_intro _ mgr (ex_intro _ role (ex_intro _ claims (conj Hg (conj Hv _)))) => ex_intro _ mgr (ex_intro _ role (ex_intro _ claims (conj Hg Hv)))
    end).
  - reflexivity.
  - reflexivity.
  - reflexivity.
  - reflexivity.
  - intros mgr [= <-]. split; reflexivity.
  - split; try reflexivity. left. discriminate.
  - intros k expiry Hk. unfold demo_cache in Hk. apply lookup_singleton_Some in Hk as [_ Hk]. injection Hk as <- _. reflexivity.
Defined.

(** The request is served. *)
Example session_serves :
  (auth_middleware AuthDemo.sha256 AuthDemo.hmac_sha256 AuthDemo.hex AuthDemo.regex (λ _, ∅) (λ _, Some 0%Z) (λ _, None) (λ _, None)
     (λ _, None) SessionDemo.server 1000 SessionDemo.request ∅).1 = Pass (Some (mkContext "bob" [] {["sub" := "bob"; "iss" := "i"]})).
Proof. reflexivity. Qed.
