(* ===== verification/AccessLog.v ===== *)
(** * The audit trail of the gateway

    dfs/s3_server/src/auth_middleware.rs: what the middleware answers and what
    it writes to the audit log. The middleware of [AuthMiddleware] decides; here
    are the answers of its refusals and the audit record of each of its exits.
    Clocks, the request identifier and the address of the peer are arguments. *)

From S2P Require Import Prelude Text MasterState Policy Signing AuthMiddleware Erasure AuditWorker.

(** ** Answers *)

(** [src/dfs/common/src/auth/mod.rs:69-108 to_s3_error] *)
Definition to_s3_error (e : AuthError) : string * string :=
  match e with
  | MissingAuth => ("AccessDenied", "Access Denied")
  | InvalidAccessKey _ => ("InvalidAccessKeyId", "The AWS Access Key Id you provided does not exist in our records.")
  | SignatureDoesNotMatch _ _ =>
      ("SignatureDoesNotMatch", "The request signature we calculated does not match the signature you provided.")
  | RequestTimeTooSkewed => ("RequestTimeTooSkewed", "The difference between the request time and the current time is too large.")
  | InvalidCredentialScope _ _ =>
      ("AuthorizationHeaderMalformed", "The authorization header is malformed; the region or service is wrong.")
  | InsecureTransport => ("AccessDenied", "Access Denied (Insecure Transport)")
  | InvalidToken _ => ("InvalidTokenId", "The security token included in the request is invalid.")
  | ExpiredToken => ("ExpiredToken", "The provided token has expired.")
  | InternalError _ => ("InternalError", "An internal error occurred during authentication.")
  end.

(** The status of the answer to a refused request.
    [src/dfs/s3_server/src/auth_middleware.rs:367-379 s3_error_response] *)
Definition error_status (e : AuthError) : N :=
  match e with
  | InvalidCredentialScope _ _ => 400
  | InternalError _ => 500
  | _ => 403
  end.

(** An answer of the handlers, by its status, or a refusal. *)
Inductive Answer : Type :=
  | Handled (status : N)
  | Denied (e : AuthError).

Definition answer_status (a : Answer) : N := match a with Handled status => status | Denied e => error_status e end.

(** ** Audit records *)

(** What the middleware learns of a request: its identifier, the address of the
    peer when it is known, the clock at the start and at the end. *)
Record RequestMeta : Type := mkMeta {
  meta_id : string;
  meta_peer : option string;
  meta_start : N;
  meta_end : N;
}.

(** [src/dfs/s3_server/src/auth_middleware.rs:541-560 extract_remote_ip] *)
Definition extract_remote_ip (meta : RequestMeta) (h : Headers) : string :=
  match meta_peer meta with
  | Some ip => ip
  | None =>
      match mjoin (get_header "x-real-ip" h) with
      | Some s => trim s
      | None =>
          match mjoin (get_header "x-forwarded-for" h) with
          | Some s => trim (default "" (head (split_on "," s)))
          | None => "unknown"
          end
      end
  end.

Section audited.
  Context (sha256 : string → string) (hmac_sha256 : string → string → string) (hex : string → string)
    (regex_is_match : string → string → option bool).
  Context (form_decode : string → gmap string string) (parse_datetime parse_naive : string → option Z)
    (parse_i64 : string → option Z).
  Context (bucket_policy : string → option (list BucketStatement)).
  Context (rfc3339 : N → string).
Notation middleware := (auth_middleware sha256 hmac_sha256 hex regex_is_match form_decode parse_datetime parse_naive parse_i64 bucket_policy).
Notation time_ok := (check_time parse_datetime parse_naive parse_i64).

(** [logger] says whether the server has an audit log.
    [src/dfs/s3_server/src/auth_middleware.rs:496-539 AuditContext] *)
Definition audit_log (logger : bool) (meta : RequestMeta) (rq : Request) (user : string) (role : option string) (status : N)
    (code : option string) (q : gmap string string) : list AuditRecord :=
  if logger then
    let '(action, resource) := resolve_s3_action_and_resource (rq_method rq) (rq_path rq) q in
    [mkAuditRecord (rfc3339 (meta_end meta)) (meta_end meta) (meta_id meta) (extract_remote_ip meta (rq_headers rq)) user role action resource
       status code (mjoin (get_header "user-agent" (rq_headers rq))) (Some (sub64 (meta_end meta) (meta_start meta))) None None]
  else [].

(** [src/dfs/s3_server/src/auth_middleware.rs:586-605 auth_failure] *)
Definition auth_failure (logger : bool) (meta : RequestMeta) (rq : Request) (user : string) (role : option string)
    (q : gmap string string) (e : AuthError) : Answer * list AuditRecord :=
  (Denied e, audit_log logger meta rq user role (error_status e) (Some (to_s3_error e).1) q).

(** The code that is recorded when the time of a request is refused.
    [src/dfs/s3_server/src/auth_middleware.rs:108-175 auth_middleware] *)
Definition time_code (now : Z) (ts : string) (q : gmap string string) (e : AuthError) : string :=
  match parse_datetime ts with
  | None => "InvalidArgument"
  | Some _ =>
      if is_presigned q then
        match q !! "X-Amz-Expires" ≫= parse_i64 with
        | Some n =>
            if (n <=? 0)%Z then "InvalidArgument"
            else if (604800 <? n)%Z then "AuthorizationQueryParametersError"
            else (to_s3_error e).1
        | None => "InvalidArgument"
        end
      else (to_s3_error e).1
  end.

(** The audit record of a request whose secret cannot be resolved.
    [src/dfs/s3_server/src/auth_middleware.rs:619-672 resolve_secret_key] *)
Definition secret_failure (state : AppState) (logger : bool) (meta : RequestMeta) (rq : Request) (now : Z) (user : string)
    (q : gmap string string) (e : AuthError) : Answer * list AuditRecord :=
  match sts_token form_decode rq with
  | Some token =>
      match decrypt_token state with
      | None => (Denied e, [])
      | Some decrypt =>
          match decrypt token with
          | inr _ => auth_failure logger meta rq user None q e
          | inl session => auth_failure logger meta rq user (Some (session_role_arn session)) q e
          end
      end
  | None => auth_failure logger meta rq user None q e
  end.

(** [next] is the status the handlers answer with.
    [src/dfs/s3_server/src/auth_middleware.rs:19-365 auth_middleware] *)
Definition audited_middleware (state : AppState) (logger : bool) (meta : RequestMeta) (now : Z)
    (next : option EvaluationContext → N) (rq : Request) (cache : KeyCache) : Answer * list AuditRecord * KeyCache :=
  if negb (auth_enabled state) then (Handled (next None), [], cache)
  else if skips_auth rq then (Handled (next None), [], cache)
  else if require_tls state && negb (is_tls rq) then
    (Denied InsecureTransport, audit_log logger meta rq "anonymous" None (error_status InsecureTransport) (Some "AccessDenied") ∅, cache)
  else
    let q := query_params form_decode rq in
    match parse_credentials (rq_headers rq) q with
    | None => (auth_failure logger meta rq "anonymous" None q MissingAuth, cache)
    | Some c =>
        let user := access_key c in
        match time_ok now (Signing.timestamp c) q with
        | Some e =>
            (Denied e, audit_log logger meta rq user None (error_status e) (Some (time_code now (Signing.timestamp c) q e)) q, cache)
        | None =>
            match check_scope state c with
            | Some e => (auth_failure logger meta rq user None q e, cache)
            | None =>
                match resolve_secret_key state now (sts_token form_decode rq) c with
                | inr e => (secret_failure state logger meta rq now user q e, cache)
                | inl (secret, session) =>
                    let role := fst <$> session in
                    let '(k, cache) := signing_key hmac_sha256 now c secret cache in
                    let input := signing_input rq c in
                    if bool_decide (payload_hash input = "UNSIGNED-PAYLOAD") && negb (allow_unsigned_payload state)
                       && negb (is_presigned q) then (auth_failure logger meta rq user role q MissingAuth, cache)
                    else
                      match verify_signature_with_key sha256 hmac_sha256 hex input c k with
                      | Some e => (auth_failure logger meta rq user role q e, cache)
                      | None =>
                          match check_policies regex_is_match form_decode bucket_policy state session rq with
                          | Some e =>
                              (Denied e, audit_log logger meta rq user role (error_status e) (Some "AccessDenied") q, cache)
                          | None =>
                              let status := next (snd <$> session) in
                              (Handled status, audit_log logger meta rq user role status None q, cache)
                          end
                      end
                end
            end
        end
    end.

(** ** What is recorded *)

(** The answer that a verdict of the middleware leads to. *)
Definition answer_of (next : option EvaluationContext → N) (v : Verdict) : Answer :=
  match v with Pass ctx => Handled (next ctx) | Refuse e => Denied e end.

Lemma secret_failure_answer state logger meta rq now user q e : (secret_failure state logger meta rq now user q e).1 = Denied e.
Proof. unfold secret_failure. by repeat case_match. Qed.

(** The audit log does not change the decisions. *)
Lemma audited_agrees state logger meta now next rq cache :
  let '(answer, _, cache') := audited_middleware state logger meta now next rq cache in
  (answer, cache') = (answer_of next (middleware state now rq cache).1, (middleware state now rq cache).2).
Proof.
  unfold audited_middleware, auth_middleware. destruct (negb (auth_enabled state)); [done|]. destruct (skips_auth rq); [done|].
  destruct (require_tls state && _); [done|]. destruct (parse_credentials _ _) as [c|]; [|done].
  destruct (time_ok _ _ _); [done|]. destruct (check_scope state c); [done|].
  destruct (resolve_secret_key _ _ _ _) as [[secret session]|e].
  - destruct (signing_key _ _ _ _ _) as [k cache']. destruct (bool_decide _ && _ && _); [done|].
    destruct (verify_signature_with_key _ _ _ _ _ _); [done|]. by destruct (check_policies _ _ _ _ _ _).
  - destruct (secret_failure _ _ _ _ _ _ _ _) as [a rs] eqn:Hs. pose proof (secret_failure_answer state logger meta rq now (access_key c)
      (query_params form_decode rq) e) as Ha. rewrite Hs in Ha. cbn in *. by subst.
Qed.

(** A record of a refusal. *)
Definition records_refusal (meta : RequestMeta) (answer : Answer) (records : list AuditRecord) : Prop :=
  ∃ r e code, records = [r] ∧ answer = Denied e ∧ request_id r = meta_id meta ∧ status_code r = error_status e ∧ error_code r = Some code.

(** A record of a request that was handled. *)
Definition records_success (meta : RequestMeta) (rq : Request) (answer : Answer) (records : list AuditRecord) : Prop :=
  ∃ r c, records = [r] ∧ answer = Handled (status_code r) ∧ request_id r = meta_id meta ∧ error_code r = None ∧
    parse_credentials (rq_headers rq) (query_params form_decode rq) = Some c ∧ user_id r = access_key c.

Lemma audit_log_one meta rq user role status code q :
  ∃ r, audit_log true meta rq user role status code q = [r] ∧ request_id r = meta_id meta ∧ status_code r = status ∧
    error_code r = code ∧ user_id r = user.
Proof. unfold audit_log. destruct (resolve_s3_action_and_resource _ _ _). by eexists. Qed.

Lemma refusal_recorded meta rq user role e code q :
  records_refusal meta (Denied e) (audit_log true meta rq user role (error_status e) (Some code) q).
Proof.
  destruct (audit_log_one meta rq user role (error_status e) (Some code) q) as (r & -> & Hid & Hs & Hc & _). by exists r, e, code.
Qed.

Lemma secret_failure_recorded state meta rq now user q e :
  (decrypt_token state = None ∧ is_Some (sts_token form_decode rq) ∧ (secret_failure state true meta rq now user q e).2 = []) ∨
  records_refusal meta (Denied e) (secret_failure state true meta rq now user q e).2.
Proof.
  unfold secret_failure. destruct (sts_token form_decode rq) as [token|]; [|right; apply refusal_recorded].
  destruct (decrypt_token state) as [decrypt|]; [|left; eauto]. right. destruct (decrypt token); apply refusal_recorded.
Qed.

Lemma audited_records state meta now next rq cache :
  auth_enabled state = true → skips_auth rq = false →
  let '(answer, records, _) := audited_middleware state true meta now next rq cache in
  records_refusal meta answer records ∨ records_success meta rq answer records ∨
  (decrypt_token state = None ∧ is_Some (sts_token form_decode rq) ∧ records = [] ∧ ∃ e, answer = Denied e).
Proof.
  intros Hen Hsk. unfold audited_middleware. rewrite Hen, Hsk. cbn [negb].
  destruct (require_tls state && _); [left; apply refusal_recorded|]. destruct (parse_credentials _ _) as [c|] eqn:Hc; [|left; apply refusal_recorded].
  destruct (time_ok _ _ _); [left; apply refusal_recorded|]. destruct (check_scope state c); [left; apply refusal_recorded|].
  destruct (resolve_secret_key _ _ _ _) as [[secret session]|e].
  - destruct (signing_key _ _ _ _ _) as [k cache']. destruct (bool_decide _ && _ && _); [left; apply refusal_recorded|].
    destruct (verify_signature_with_key _ _ _ _ _ _); [left; apply refusal_recorded|].
    destruct (check_policies _ _ _ _ _ _); [left; apply refusal_recorded|]. right; left.
    destruct (audit_log_one meta rq (access_key c) (fst <$> session) (next (snd <$> session)) None (query_params form_decode rq))
      as (r & -> & Hid & Hs & He & Hu). exists r, c. by rewrite Hs.
  - destruct (secret_failure _ _ _ _ _ _ _ _) as [a rs] eqn:Hf.
    pose proof (secret_failure_answer state true meta rq now (access_key c) (query_params form_decode rq) e) as Ha.
    pose proof (secret_failure_recorded state meta rq now (access_key c) (query_params form_decode rq) e) as Hr.
    rewrite Hf in Ha, Hr. cbn in Ha, Hr. subst a. destruct Hr as [(? & ? & ->)|?]; [right; right; eauto|by left].
Qed.

(** C15. The audit trail: on a server that requires authentication and has an
    audit log, every request that is not exempt hands exactly one audit record
    to the log, with the status that the client gets; this holds whatever the
    key cache contains. A record without an error is about a request that the
    handlers answered, under the access key of its user; on a server without
    session tokens, with any cache that its requests can lead to, the request was
    authentic. The only request that leaves no record is one with a session
    token that is sent to a server without session tokens; it is refused. *)
Theorem every_request_is_audited state meta now next rq cache :
  auth_enabled state = true → skips_auth rq = false →
  let '(answer, records, _) := audited_middleware state true meta now next rq cache in
  answer = answer_of next (middleware state now rq cache).1 ∧
  (records_refusal meta answer records ∨
   (records_success meta rq answer records ∧
    (decrypt_token state = None →
     reachable sha256 hmac_sha256 hex regex_is_match form_decode parse_datetime parse_naive parse_i64 bucket_policy state cache →
     authentic sha256 hmac_sha256 hex regex_is_match form_decode parse_datetime parse_naive parse_i64 bucket_policy state now rq)) ∨
   (decrypt_token state = None ∧ is_Some (sts_token form_decode rq) ∧ records = [] ∧ ∃ e, answer = Denied e)).
Proof.
  intros Hen Hsk. pose proof (audited_agrees state true meta now next rq cache) as Ha.
  pose proof (audited_records state meta now next rq cache Hen Hsk) as Hr.
  destruct (audited_middleware _ _ _ _ _ _ _) as [[answer records] cache']. injection Ha as Ha _. split; [done|].
  destruct Hr as [Hr|[Hr|Hr]]; [by left| |by right; right]. right; left. split; [done|]. intros Hsts Hreach.
  destruct Hr as (r & c & _ & Hh & _). rewrite Ha in Hh. destruct (middleware state now rq cache).1 as [ctx|] eqn:Hm; [|done].
  pose proof (reachable_ok _ _ _ _ _ _ _ _ _ _ _ Hsts Hreach) as Hok.
  destruct (proj2 (middleware_ok sha256 hmac_sha256 hex regex_is_match form_decode parse_datetime parse_naive parse_i64 bucket_policy
    state now rq cache Hsts Hok) ctx Hm) as [H|[H|H]]; [congruence..|done].
Qed.

End audited.

(** ** Examples *)

Lemma every_request_is_audited_witness :
  let '(answer, records, _) :=
    audited_middleware AuthDemo.sha256 AuthDemo.hmac_sha256 AuthDemo.hex AuthDemo.regex (λ _, ∅) (λ _, Some 0%Z) (λ _, None) (λ _, None)
      (λ _, None) (λ _, "now") (AuthDemo.server false) true (mkMeta "id" None 5 7) 1000 (λ _, 200%N) (AuthDemo.request "root-secret" []) ∅ in
  answer = Handled 200 ∧ user_id <$> records = ["ROOT"].
Proof.
  pose proof (every_request_is_audited AuthDemo.sha256 AuthDemo.hmac_sha256 AuthDemo.hex AuthDemo.regex (λ _, ∅) (λ _, Some 0%Z)
    (λ _, None) (λ _, None) (λ _, None) (λ _, "now") (AuthDemo.server false) (mkMeta "id" None 5 7) 1000 (λ _, 200%N)
    (AuthDemo.request "root-secret" []) ∅ eq_refl eq_refl) as H.
  destruct (audited_middleware _ _ _ _ _ _ _ _ _ _ _ _ _ _ _ _ _) as [[answer records] c] eqn:E.
  destruct H as [Ha [Hr|[[Hr _]|Hr]]].
  - destruct Hr as (r & e & code & _ & Hd & _). rewrite Hd in Ha. vm_compute in Ha. discriminate Ha.
  - destruct Hr as (r & cr & -> & Hh & _ & _ & Hc & Hu). rewrite Ha. vm_compute in Hc. injection Hc as <-.
    split; [vm_compute; reflexivity|]. cbn. rewrite Hu. reflexivity.
  - destruct Hr as (_ & [t Ht] & _). vm_compute in Ht. discriminate Ht.
Defined.

(** A presigned request is refused whenever its date does not parse as a date
    with an offset, also when it parses as the date that presigned URLs carry. *)
Lemma presigned_needs_offset parse_datetime parse_naive parse_i64 now ts q :
  parse_datetime ts = None → is_presigned q = true → check_time parse_datetime parse_naive parse_i64 now ts q = Some MissingAuth.
Proof. intros Hp Hq. unfold check_time. by rewrite Hp, Hq. Qed.
