(* ===== verification/Workload.v ===== *)
(** * The workload generator

    dfs/client/src/workload.rs: concurrent tasks put, get, delete and rename
    random files and write a line to a history before and after each operation;
    the checker reads the history. The tasks are programs over the random number
    generator, the operation counter, the clock, the history file and the client
    library; a step relation interleaves them. The lines are given decoded, and
    writes to the history succeed. MD5 is a parameter. *)

From Stdlib Require Import Strings.Byte.
From stdpp Require Import pretty.
From S2P Require Import Prelude BTree Text MasterState Erasure Checker.

(** ** The tasks *)

(** What a task does: draws, numbers, times and lines of the history, and the
    operations of the client library, whose errors are texts. *)
Inductive WorkEffect : Type :=
  | IsRename
  | GenRange (n : nat)
  | FetchAdd
  | NowNs
  | WriteEntry (e : HistoryEntry)
  | PutFile (data : bytes) (p : string)
  | GetFile (p : string)
  | DeleteFile (p : string)
  | RenameFile (src dst : string).

Definition answer (e : WorkEffect) : Type :=
  match e with
  | IsRename => bool
  | GenRange _ => nat
  | FetchAdd | NowNs => N
  | WriteEntry _ => unit
  | GetFile _ => bytes + string
  | PutFile _ _ | DeleteFile _ | RenameFile _ _ => unit + string
  end.

(** Programs of these effects. *)
Inductive Work (A : Type) : Type :=
  | Ret (a : A)
  | Vis (e : WorkEffect) (k : answer e → Work A).
Arguments Ret {A} a.
Arguments Vis {A} e k.

Fixpoint work_bind {A B} (p : Work A) (k : A → Work B) : Work B :=
  match p with
  | Ret a => k a
  | Vis e k' => Vis e (λ b, work_bind (k' b) k)
  end.

Definition perform (e : WorkEffect) : Work (answer e) := Vis e Ret.

Declare Scope work_scope.
Notation "'let*' x ':=' p 'in' k" := (work_bind p (λ x, k))
  (at level 10, x name, p at level 200, k at level 200) : work_scope.
Notation "'do*' p 'in' k" := (work_bind p (λ _, k))
  (at level 10, p at level 200, k at level 200) : work_scope.
Open Scope work_scope.

Notation Task := (Work unit).

(** [src/dfs/client/src/workload.rs:43-49 key_path] *)
Definition key_path (index : nat) : string :=
  if Nat.even index then "/a/lin_" +:+ pretty index else "/z/lin_" +:+ pretty index.

(** The entries before and after an operation.
    [src/dfs/client/src/workload.rs:115-126 do_put] *)
Definition invoke_entry (id : N) (client op p src dst hash : string) (ts : N) : HistoryEntry :=
  mkHistoryEntry id client "invoke" op p src dst hash "" ts.

(** [src/dfs/client/src/workload.rs:135-149 do_put] *)
Definition return_entry (id : N) (client op p src dst hash result : string) (ts : N) : HistoryEntry :=
  mkHistoryEntry id client "return" op p src dst hash result ts.

(** `msg.contains("not found") || msg.contains("Not found")`; the third text that
    a get looks for contains the first.
    [src/dfs/client/src/workload.rs:197-205 do_get] *)
Definition says_not_found (msg : string) : bool := contains "not found" msg || contains "Not found" msg.

(** [src/dfs/client/src/workload.rs:250-258 do_delete] *)
Definition unit_result (r : unit + string) : string :=
  match r with inl _ => "ok" | inr msg => if says_not_found msg then "not_found" else "error" end.

Section workload.
  Context (md5_hex : bytes → string).

(** [src/dfs/client/src/workload.rs:101-151 do_put] *)
Definition do_put (client_name : string) (key_space : nat) : Task :=
  let* idx := perform (GenRange key_space) in
  let p := key_path idx in
  let* id := perform FetchAdd in
  let* now := perform NowNs in
  let data := String.list_byte_of_string ("data_" +:+ pretty id +:+ "_" +:+ pretty now) in
  let data_hash := md5_hex data in
  let* ts := perform NowNs in
  do* perform (WriteEntry (invoke_entry id client_name "put" p "" "" data_hash ts)) in
  let* result := perform (PutFile data p) in
  let* ts := perform NowNs in
  perform (WriteEntry (return_entry id client_name "put" p "" "" data_hash
    (match result with inl _ => "put_ok:" +:+ data_hash | inr _ => "error" end) ts)).

(** [src/dfs/client/src/workload.rs:153-211 do_get] *)
Definition do_get (client_name : string) (key_space : nat) : Task :=
  let* idx := perform (GenRange key_space) in
  let p := key_path idx in
  let* id := perform FetchAdd in
  let* ts := perform NowNs in
  do* perform (WriteEntry (invoke_entry id client_name "get" p "" "" "" ts)) in
  let* result := perform (GetFile p) in
  let* ts := perform NowNs in
  perform (WriteEntry (return_entry id client_name "get" p "" "" ""
    (match result with
     | inl data => "get_ok:" +:+ md5_hex data
     | inr msg => if says_not_found msg then "not_found" else "error"
     end) ts)).

(** [src/dfs/client/src/workload.rs:213-263 do_delete] *)
Definition do_delete (client_name : string) (key_space : nat) : Task :=
  let* idx := perform (GenRange key_space) in
  let p := key_path idx in
  let* id := perform FetchAdd in
  let* ts := perform NowNs in
  do* perform (WriteEntry (invoke_entry id client_name "delete" p "" "" "" ts)) in
  let* result := perform (DeleteFile p) in
  let* ts := perform NowNs in
  perform (WriteEntry (return_entry id client_name "delete" p "" "" "" (unit_result result) ts)).

(** [src/dfs/client/src/workload.rs:265-320 do_rename] *)
Definition do_rename (client_name : string) (key_space : nat) : Task :=
  let* src_idx := perform (GenRange key_space) in
  let* dst_idx := perform (GenRange key_space) in
  let dst_idx := if decide (dst_idx = src_idx) then (src_idx + 1) `mod` key_space else dst_idx in
  let src := key_path src_idx in
  let dst := key_path dst_idx in
  let* id := perform FetchAdd in
  let* ts := perform NowNs in
  do* perform (WriteEntry (invoke_entry id client_name "rename" "" src dst "" ts)) in
  let* result := perform (RenameFile src dst) in
  let* ts := perform NowNs in
  perform (WriteEntry (return_entry id client_name "rename" "" src dst "" (unit_result result) ts)).

(** [src/dfs/client/src/workload.rs:66-82 run_workload] *)
Fixpoint client_task (client_name : string) (key_space ops : nat) : Task :=
  match ops with
  | 0 => Ret tt
  | S ops =>
      let* is_rename := perform IsRename in
      do*
        (if is_rename : bool then do_rename client_name key_space
         else
           let* choice := perform (GenRange 3) in
           match choice with
           | 0 => do_put client_name key_space
           | 1 => do_get client_name key_space
           | _ => do_delete client_name key_space
           end) in
      client_task client_name key_space ops
  end.

(** [src/dfs/client/src/workload.rs:18-29 WorkloadConfig] *)
Record WorkloadConfig : Type := mkWorkloadConfig {
  ops_per_client : nat;
  num_clients : nat;
  key_space : nat;
}.

(** The tasks that are spawned.
    [src/dfs/client/src/workload.rs:51-84 run_workload] *)
Definition run_workload (config : WorkloadConfig) : list Task :=
  List.map (λ i : nat, client_task ("c" +:+ pretty i) (key_space config) (ops_per_client config)) (seq 0 (num_clients config)).

(** ** Executions *)

Record World : Type := mkWorld {
  op_counter : N;
  clock : N;
  history : list HistoryEntry;
  files : gmap string bytes;
}.

(** An operation of the client library takes effect at one moment, as a file
    store; one that reports an error took effect or did not, but "not found"
    is only reported for a file that is not there. *)
Definition call_outcome {A} (good : A → Prop) (effect : gmap string bytes) (missing : Prop) (s s' : gmap string bytes)
    (r : A + string) : Prop :=
  match r with
  | inl a => good a ∧ s' = effect
  | inr msg => if says_not_found msg then missing ∧ s' = s else s' = s ∨ s' = effect
  end.

Definition renamed (src dst : string) (s : gmap string bytes) : gmap string bytes :=
  match s !! src with Some d => <[dst := d]> (delete src s) | None => s end.

Definition performs (e : WorkEffect) (w : World) : answer e → World → Prop :=
  let 'mkWorld c t h s := w in
  match e return answer e → World → Prop with
  | IsRename => λ _ w', w' = w
  | GenRange n => λ i w', i < n ∧ w' = w
  | FetchAdd => λ id w', id = c ∧ w' = mkWorld (wrap64 (c + 1)) t h s
  | NowNs => λ ts w', ts = wrap64 t ∧ w' = w
  | WriteEntry e => λ _ w', w' = mkWorld c t (h ++ [e]) s
  | PutFile data p => λ r w', ∃ s', w' = mkWorld c t h s' ∧
      match r with inl _ => s' = <[p := data]> s | inr _ => s' = s ∨ s' = <[p := data]> s end
  | GetFile p => λ r w', w' = w ∧
      match r with inl data => s !! p = Some data | inr msg => says_not_found msg = true → s !! p = None end
  | DeleteFile p => λ r w', ∃ s', w' = mkWorld c t h s' ∧ call_outcome (λ _, True) (delete p s) (s !! p = None) s s' r
  | RenameFile src dst => λ r w', ∃ s', w' = mkWorld c t h s' ∧
      call_outcome (λ _, is_Some (s !! src)) (renamed src dst s) (s !! src = None) s s' r
  end.

(** One step of a task. *)
Definition task_step (p : Task) (w : World) (p' : Task) (w' : World) : Prop :=
  match p with
  | Ret _ => False
  | Vis e k => ∃ b, performs e w b w' ∧ p' = k b
  end.

(** Some task makes a step, or time passes. *)
Inductive step : list Task * World → list Task * World → Prop :=
  | step_task i ts p p' w w' : ts !! i = Some p → task_step p w p' w' → step (ts, w) (<[i := p']> ts, w')
  | step_clock ts c t t' h s : (t ≤ t')%N → step (ts, mkWorld c t h s) (ts, mkWorld c t' h s).

End workload.

(** ** The protocol of a task

    Between its steps a task is in one of four phases; [obeys] says that what it
    does next fits its phase, with a bound on the operations it has left. *)

Inductive Phase : Type :=
  | Idle
  | Numbered (id : N) (t : option N)
  | Invoked (inv : HistoryEntry)
  | Answered (inv : HistoryEntry) (r : OpResult) (t : option N).

Definition differs (k : OpType) : Prop := match k with Rename src dst => src ≠ dst | _ => True end.

Record invokes (id t : N) (e : HistoryEntry) : Prop := {
  inv_type : entry_type e = "invoke";
  inv_id : he_id e = id;
  inv_time : ts_ns e = t;
  inv_kind : ∃ k, parse_op_type e = Ok k ∧ differs k;
}.

Record returns (inv : HistoryEntry) (r : OpResult) (t : N) (e : HistoryEntry) : Prop := {
  ret_type : entry_type e = "return";
  ret_id : he_id e = he_id inv;
  ret_time : ts_ns e = t;
  ret_result : parse_result e = r;
}.

Section protocol.
  Context (md5_hex : bytes → string).

(** What the history will say of an answer. *)
Definition unit_answer (r : unit + string) : OpResult :=
  match r with inl _ => ResOk | inr msg => if says_not_found msg then ResNotFound else ResError end.
Definition put_answer (data : bytes) (r : unit + string) : OpResult :=
  match r with inl _ => ResPutOk (md5_hex data) | inr _ => ResError end.
Definition get_answer (r : bytes + string) : OpResult :=
  match r with inl data => ResGetOk (md5_hex data) | inr msg => if says_not_found msg then ResNotFound else ResError end.

Definition calls {A} (k : OpType) (report : A → OpResult) (n : nat) (ph : Phase) (Q : A → nat → Phase → Prop) : Prop :=
  match ph with Invoked inv => parse_op_type inv = Ok k ∧ ∀ r, Q r n (Answered inv (report r) None) | _ => False end.

Definition allows (e : WorkEffect) (n : nat) (ph : Phase) : (answer e → nat → Phase → Prop) → Prop :=
  match e return (answer e → nat → Phase → Prop) → Prop with
  | IsRename => λ Q, ∀ b, Q b n ph
  | GenRange m => λ Q, ∀ i, i < m → Q i n ph
  | FetchAdd => λ Q, match ph, n with Idle, S n => ∀ id, Q id n (Numbered id None) | _, _ => False end
  | NowNs => λ Q, ∀ t,
      match ph with
      | Numbered id _ => Q t n (Numbered id (Some t))
      | Answered inv r _ => Q t n (Answered inv r (Some t))
      | _ => False
      end
  | WriteEntry e => λ Q,
      match ph with
      | Numbered id (Some t) => invokes id t e ∧ Q tt n (Invoked e)
      | Answered inv r (Some t) => returns inv r t e ∧ Q tt n Idle
      | _ => False
      end
  | PutFile data p => calls (Put p (md5_hex data)) (put_answer data) n ph
  | GetFile p => calls (Get p) get_answer n ph
  | DeleteFile p => calls (Delete p) unit_answer n ph
  | RenameFile src dst => calls (Rename src dst) unit_answer n ph
  end.

Fixpoint obeys {A} (p : Work A) (n : nat) (ph : Phase) (Q : A → nat → Phase → Prop) : Prop :=
  match p with
  | Ret a => Q a n ph
  | Vis e k => allows e n ph (λ b n ph, obeys (k b) n ph Q)
  end.

Lemma allows_mono e n ph (Q Q' : answer e → nat → Phase → Prop) :
  (∀ b n ph, Q b n ph → Q' b n ph) → allows e n ph Q → allows e n ph Q'.
Proof. intros HQ. destruct e, ph, n; cbn; unfold calls; repeat case_match; naive_solver. Qed.

Lemma obeys_bind {A C} (p : Work A) (f : A → Work C) n ph Q :
  obeys p n ph (λ a n ph, obeys (f a) n ph Q) → obeys (work_bind p f) n ph Q.
Proof.
  revert n ph. induction p as [a|e k IH]; intros n ph; [done|]. cbn [obeys work_bind]. apply allows_mono. auto.
Qed.

Lemma after7_app a b c d e f g s : after7 (String a (String b (String c (String d (String e (String f (String g s))))))) = s.
Proof.
  unfold after7. cbn. rewrite Nat.sub_0_r. induction s as [|x s IH]; [done|]. cbn. by rewrite IH.
Qed.

Lemma key_path_inj i j : key_path i = key_path j → i = j.
Proof.
  unfold key_path. intros H. assert (pretty i = pretty j) as ?%(inj pretty); [|done].
  destruct (Nat.even i), (Nat.even j); try discriminate H; by injection H.
Qed.

Lemma rename_differs n i j :
  2 ≤ n → i < n → j < n → key_path i ≠ key_path (if decide (j = i) then (i + 1) `mod` n else j).
Proof.
  intros Hn Hi Hj H%key_path_inj. case_decide as Hd; [|congruence].
  destruct (decide (i + 1 = n)) as [Hw|Hw].
  - rewrite Hw, Nat.Div0.mod_same in H. lia.
  - rewrite Nat.mod_small in H; lia.
Qed.

(** Each operation goes from idle to idle and takes one number. *)
Definition one_op (n : nat) : unit → nat → Phase → Prop := λ _ n' ph, n' = n ∧ ph = Idle.

Lemma parse_unit_result id c op p src dst h r ts : parse_result (return_entry id c op p src dst h (unit_result r) ts) = unit_answer r.
Proof. unfold parse_result, unit_answer, unit_result. cbn [he_result return_entry]. destruct r as [|msg]; [done|]. by destruct (says_not_found msg). Qed.

Lemma parse_put_ok id c op p src dst h h' ts : parse_result (return_entry id c op p src dst h ("put_ok:" +:+ h') ts) = ResPutOk h'.
Proof.
  unfold parse_result. cbn [he_result return_entry]. rewrite !decide_False by done. rewrite prefix_append. f_equal. apply after7_app.
Qed.

Lemma parse_get_ok id c op p src dst h h' ts : parse_result (return_entry id c op p src dst h ("get_ok:" +:+ h') ts) = ResGetOk h'.
Proof.
  unfold parse_result. cbn [he_result return_entry]. rewrite !decide_False by done. rewrite prefix_append. f_equal. apply after7_app.
Qed.

Lemma do_put_obeys c m n : obeys (do_put md5_hex c m) (S n) Idle (one_op n).
Proof.
  cbn. intros i _ id t1 t2. split; [split; try done; by eexists|]. split; [done|]. intros r t3. split; [split; try done|done].
  destruct r as [[]|msg]; [apply parse_put_ok|done].
Qed.

Lemma do_get_obeys c m n : obeys (do_get md5_hex c m) (S n) Idle (one_op n).
Proof.
  cbn. intros i _ id t1. split; [split; try done; by eexists|]. split; [done|]. intros r t3. split; [split; try done|done].
  destruct r as [data|msg].
  - apply parse_get_ok.
  - unfold get_answer, parse_result. cbn [he_result return_entry]. by destruct (says_not_found msg).
Qed.

Lemma do_delete_obeys c m n : obeys (do_delete c m) (S n) Idle (one_op n).
Proof.
  cbn. intros i _ id t1. split; [split; try done; by eexists|]. split; [done|]. intros r t3. split; [split; try done|done].
  apply parse_unit_result.
Qed.

Lemma do_rename_obeys c m n : 2 ≤ m → obeys (do_rename c m) (S n) Idle (one_op n).
Proof.
  intros Hm. cbn. intros i Hi j Hj id t1. split.
  - split; try done. eexists. split; [done|]. by apply rename_differs.
  - split; [done|]. intros r t3. split; [split; try done|done]. apply parse_unit_result.
Qed.

(** A task obeys the protocol. *)
Lemma client_task_obeys c m n : 2 ≤ m → obeys (client_task md5_hex c m n) n Idle (λ _ _ _, True).
Proof.
  intros Hm. induction n as [|n IH]; [done|]. cbn [client_task]. apply obeys_bind. cbn [obeys perform allows]. intros b. apply obeys_bind.
  assert (∀ p : Task, obeys p (S n) Idle (one_op n) →
    obeys p (S n) Idle (λ _ n' ph, obeys (client_task md5_hex c m n) n' ph (λ _ _ _, True))) as Hop.
  { intros p. generalize (S n) Idle. induction p as [[]|e k IHp]; intros n' ph; cbn; [by intros [-> ->]|].
    apply allows_mono. eauto. }
  destruct b; [by apply Hop, do_rename_obeys|]. cbn [obeys work_bind perform allows]. intros i _.
  destruct i as [|[|i]]; apply Hop; [apply do_put_obeys|apply do_get_obeys|apply do_delete_obeys].
Qed.

End protocol.
