(* ===== verification/WorkloadSpec.v ===== *)
(** * What the workload generator records

    Whatever the interleaving of the tasks, the history that the generator
    writes is read back as the operations that were performed, and when the
    client library behaves as a file store, the history is linearizable and the
    search of the checker accepts it. *)

From Stdlib Require Import Strings.Byte.
From stdpp Require Import pretty.
From S2P Require Import Prelude BTree Text MasterState Erasure Checker Workload.

(** ** The ledger of an execution

    [calls] holds the entries of each operation by its number, [lin] the
    operations in the order in which they took effect. *)

Notation Call := (HistoryEntry * option HistoryEntry)%type.

Record Eff : Type := mkEff {
  eff_id : N;
  eff_kind : OpType;
  eff_result : OpResult;
  eff_time : N;
}.

(** The operation that the checker will see. *)
Definition call_op (c : Call) : Operation :=
  mkOperation (he_id c.1) (he_client c.1) (match parse_op_type c.1 with Ok k => k | _ => Get "" end) (ts_ns c.1)
    (match c.2 with Some e => ts_ns e | None => 0%N end) (match c.2 with Some e => parse_result e | None => ResUnknown end).

Definition eff_step (e : Eff) (st st' : store) : Prop :=
  match eff_result e with
  | ResError => st' = store_effect (eff_kind e) st ∨ st' = st
  | r => store_answers (eff_kind e) st r ∧ st' = store_effect (eff_kind e) st
  end.

Fixpoint lin_run (l : list Eff) (st st' : store) : Prop :=
  match l with
  | [] => st' = st
  | e :: l => ∃ s1, eff_step e st s1 ∧ lin_run l s1 st'
  end.

Lemma lin_run_snoc l e st st1 st' : lin_run l st st1 → eff_step e st1 st' → lin_run (l ++ [e]) st st'.
Proof.
  revert st. induction l as [|e' l IH]; intros st; cbn; [intros ->; eauto|]. intros (s1 & He & Hl) H. exists s1. eauto.
Qed.

Record call_ok (counter now : N) (id : N) (c : Call) : Prop := {
  co_id : he_id c.1 = id;
  co_bound : (id < counter)%N;
  co_kind : ∃ k, parse_op_type c.1 = Ok k ∧ differs k;
  co_invoke : (ts_ns c.1 ≤ now)%N;
  co_return r : c.2 = Some r → (ts_ns c.1 ≤ ts_ns r ≤ now)%N ∧ (0 < ts_ns r)%N;
}.

Record eff_ok (now : N) (calls : gmap N Call) (e : Eff) : Prop := {
  eo_call : ∃ c, calls !! eff_id e = Some c ∧ parse_op_type c.1 = Ok (eff_kind e) ∧ (ts_ns c.1 ≤ eff_time e)%N ∧
    (∀ r, c.2 = Some r → (eff_time e ≤ ts_ns r)%N ∧ parse_result r = eff_result e);
  eo_time : (eff_time e ≤ now)%N;
  eo_fits : result_fits (eff_kind e) (eff_result e) ∧ eff_result e ≠ ResUnknown;
}.

(** What [parse_entries] makes of the calls. *)
Definition parsed (entries : list HistoryEntry) (calls : gmap N Call) : Prop :=
  ∃ pending finished, parse_entries 0 entries ∅ [] = Ok (pending, finished) ∧ bt_wf finished ∧
    (∀ id inv, pending !! id = Some inv ↔ calls !! id = Some (inv, None)) ∧
    (∀ id o, bt_get id finished = Some o ↔ ∃ inv r, calls !! id = Some (inv, Some r) ∧ o = call_op (inv, Some r)).

Section ledger.
  Context (md5_hex : bytes → string).

Record ledger (w : World) (calls : gmap N Call) (lin : list Eff) : Prop := {
  lg_parsed : parsed (history w) calls;
  lg_calls id c : calls !! id = Some c → call_ok (op_counter w) (clock w) id c;
  lg_nodup : NoDup (eff_id <$> lin);
  lg_effects : Forall (eff_ok (clock w) calls) lin;
  lg_returned id inv r : calls !! id = Some (inv, Some r) → id ∈ eff_id <$> lin;
  lg_sorted : StronglySorted (λ a b, (eff_time a ≤ eff_time b)%N) lin;
  lg_run : lin_run lin ∅ (md5_hex <$> files w);
  lg_clock : (0 < clock w)%N;
}.

(** *** Time passes and numbers are drawn *)

Lemma call_ok_mono n n' t t' id c : call_ok n t id c → (n ≤ n')%N → (t ≤ t')%N → call_ok n' t' id c.
Proof.
  intros [] Hc Ht. split; [done|lia|done|lia|]. intros r Hr. destruct (co_return0 r Hr). lia.
Qed.

Lemma eff_ok_mono t t' calls e : eff_ok t calls e → (t ≤ t')%N → eff_ok t' calls e.
Proof. intros [] Ht. split; [done|lia|done]. Qed.

Lemma ledger_mono w calls lin c t :
  ledger w calls lin → (op_counter w ≤ c)%N → (clock w ≤ t)%N → ledger (mkWorld c t (history w) (files w)) calls lin.
Proof.
  intros [] Hc Ht. split; try done.
  - intros id c' H. eapply call_ok_mono; eauto.
  - eapply Forall_impl; [done|]. intros e He. by eapply eff_ok_mono.
  - cbn. lia.
Qed.

(** *** An invocation is written *)

Lemma parse_entries_snoc n l e i o i' o' :
  parse_entries n l i o = Ok (i', o') → parse_entries n (l ++ [e]) i o = parse_entries (n + length l) [e] i' o'.
Proof.
  revert n i o. induction l as [|x l IH]; intros n i o; [cbn; intros [= <- <-]; by rewrite Nat.add_0_r|].
  assert (n + length (x :: l) = S n + length l) as -> by (cbn; lia). set (rhs := parse_entries (S n + length l) [e] i' o').
  cbn [parse_entries app]. repeat case_match; intros E; try done; by apply IH.
Qed.

Lemma parsed_invoke entries calls id t e :
  parsed entries calls → calls !! id = None → invokes id t e → parsed (entries ++ [e]) (<[id := (e, None)]> calls).
Proof.
  intros (pd & fin & Hp & Hwf & Hpd & Hfin) Hid [Hty Hi _ _]. exists (<[id := e]> pd), fin.
  rewrite (parse_entries_snoc _ _ _ _ _ _ _ Hp). cbn. rewrite decide_True, Hi by done. split; [done|]. split; [done|]. split.
  - intros id' inv. destruct (decide (id = id')) as [<-|Hne].
    + rewrite !lookup_insert_eq. naive_solver.
    + rewrite !lookup_insert_ne by done. apply Hpd.
  - intros id' o. rewrite Hfin. destruct (decide (id = id')) as [<-|Hne].
    + rewrite lookup_insert_eq, Hid. naive_solver.
    + by rewrite lookup_insert_ne.
Qed.

Lemma eff_ok_insert t calls id c e : eff_ok t calls e → calls !! id = None → eff_ok t (<[id := c]> calls) e.
Proof.
  intros [(c' & Hc & H) Ht Hf] Hid. split; [|done|done]. exists c'. rewrite lookup_insert_ne; [done|]. congruence.
Qed.

Lemma ledger_invoke w calls lin id t e :
  ledger w calls lin → calls !! id = None → (id < op_counter w)%N → (t ≤ clock w)%N → invokes id t e →
  ledger (mkWorld (op_counter w) (clock w) (history w ++ [e]) (files w)) (<[id := (e, None)]> calls) lin.
Proof.
  intros [] Hid Hb Ht He. pose proof He as [_ Hi Hts Hk]. split; try done.
  - by eapply parsed_invoke.
  - intros id' c. destruct (decide (id = id')) as [<-|Hne].
    + rewrite lookup_insert_eq. intros E. injection E as <-. split; cbn; [done..| |done]. by rewrite Hts.
    + rewrite lookup_insert_ne by done. intros H. by apply lg_calls0.
  - eapply Forall_impl; [done|]. intros x Hx. by apply eff_ok_insert.
  - intros id' inv r. destruct (decide (id = id')) as [<-|Hne]; [by rewrite lookup_insert_eq|].
    rewrite lookup_insert_ne by done. eauto.
Qed.

(** *** An operation takes effect *)

Lemma ledger_effect w calls lin inv k r s' :
  ledger w calls lin → calls !! he_id inv = Some (inv, None) → he_id inv ∉ eff_id <$> lin → parse_op_type inv = Ok k →
  result_fits k r → r ≠ ResUnknown → eff_step (mkEff (he_id inv) k r (clock w)) (md5_hex <$> files w) (md5_hex <$> s') →
  ledger (mkWorld (op_counter w) (clock w) (history w) s') calls (lin ++ [mkEff (he_id inv) k r (clock w)]).
Proof.
  intros [] Hid Hlin Hk Hfit Hr Hs. split; try done.
  - rewrite fmap_app. apply NoDup_app. split; [done|]. split; [|apply NoDup_singleton]. cbn. set_solver.
  - apply Forall_app. split; [done|]. apply Forall_singleton. split; cbn; [|done|done].
    exists (inv, None). split; [done|]. split; [done|]. split; [|done]. apply (co_invoke _ _ _ _ (lg_calls0 _ _ Hid)).
  - intros id i e H. rewrite fmap_app, elem_of_app. left. eauto.
  - clear -lg_sorted0 lg_effects0. induction lin as [|x lin IH]; cbn; [repeat constructor|].
    apply StronglySorted_inv in lg_sorted0 as [Hs Hx]. apply Forall_cons in lg_effects0 as [Hx' Hl].
    constructor; [by apply IH|]. apply Forall_app. split; [done|]. apply Forall_singleton. apply (eo_time _ _ _ Hx').
  - by eapply lin_run_snoc.
Qed.

(** The answers of the client library are those of the store of hashes. *)
Lemma fmap_renamed src dst s : md5_hex <$> renamed src dst s = store_effect (Rename src dst) (md5_hex <$> s).
Proof.
  unfold renamed, store_effect. rewrite lookup_fmap. destruct (s !! src); cbn; [|done]. by rewrite fmap_insert, fmap_delete.
Qed.

Definition answered (k : OpType) (r : OpResult) (s s' : gmap string bytes) : Prop :=
  result_fits k r ∧ r ≠ ResUnknown ∧ ∀ id t, eff_step (mkEff id k r t) (md5_hex <$> s) (md5_hex <$> s').

Lemma put_answered data p c t h s r w' :
  performs (PutFile data p) (mkWorld c t h s) r w' →
  ∃ s', w' = mkWorld c t h s' ∧ answered (Put p (md5_hex data)) (put_answer md5_hex data r) s s'.
Proof.
  intros (s' & -> & Hr). exists s'. split; [done|]. destruct r as [[]|msg]; (split; [done|]); (split; [done|]); intros id ts; unfold eff_step; cbn.
  - split; [done|]. by rewrite Hr, fmap_insert.
  - destruct Hr as [-> | ->]; [by right|]. left. by rewrite fmap_insert.
Qed.

Lemma get_answered p c t h s r w' :
  performs (GetFile p) (mkWorld c t h s) r w' → ∃ s', w' = mkWorld c t h s' ∧ answered (Get p) (get_answer md5_hex r) s s'.
Proof.
  intros [-> Hr]. exists s. split; [done|]. destruct r as [data|msg]; cbn.
  - split; [done|]. split; [done|]. intros id ts. unfold eff_step. cbn. by rewrite lookup_fmap, Hr.
  - destruct (says_not_found msg); (split; [done|]); (split; [done|]); intros id ts; unfold eff_step; cbn.
    + by rewrite lookup_fmap, Hr.
    + by left.
Qed.

Lemma unit_answered k (good : unit → Prop) effect missing s s' r :
  call_outcome good effect missing s s' r → md5_hex <$> effect = store_effect k (md5_hex <$> s) →
  (∀ a, good a → store_answers k (md5_hex <$> s) ResOk) →
  (missing → store_answers k (md5_hex <$> s) ResNotFound ∧ store_effect k (md5_hex <$> s) = md5_hex <$> s) →
  result_fits k ResOk → result_fits k ResNotFound → answered k (unit_answer r) s s'.
Proof.
  intros Hr He Hg Hm Hok Hnf. unfold answered, eff_step, unit_answer. destruct r as [a|msg]; cbn in *.
  - destruct Hr as [Ha ->]. split; [done|]. split; [done|]. intros. split; [by eapply Hg|done].
  - destruct (says_not_found msg).
    + destruct Hr as [Hmi ->]. destruct (Hm Hmi) as [? Hs]. by rewrite Hs.
    + split; [by destruct k|]. split; [done|]. intros _ _. destruct Hr as [-> | ->]; auto.
Qed.

Lemma delete_answered p c t h s r w' :
  performs (DeleteFile p) (mkWorld c t h s) r w' → ∃ s', w' = mkWorld c t h s' ∧ answered (Delete p) (unit_answer r) s s'.
Proof.
  intros (s' & -> & Hr). exists s'. split; [done|]. eapply unit_answered; [done|by rewrite fmap_delete|done| |done..].
  cbn. intros Hn. rewrite lookup_fmap, Hn. split; [done|]. apply delete_id. by rewrite lookup_fmap, Hn.
Qed.

Lemma rename_answered src dst c t h s r w' :
  performs (RenameFile src dst) (mkWorld c t h s) r w' →
  ∃ s', w' = mkWorld c t h s' ∧ answered (Rename src dst) (unit_answer r) s s'.
Proof.
  intros (s' & -> & Hr). exists s'. split; [done|]. eapply unit_answered; [done|apply fmap_renamed| | |done..].
  - intros _ [d Hd]. cbn. by rewrite lookup_fmap, Hd.
  - cbn. intros Hn. by rewrite lookup_fmap, Hn.
Qed.

(** *** A return is written *)

Lemma parsed_return entries calls inv k r t e :
  parsed entries calls → calls !! he_id inv = Some (inv, None) → parse_op_type inv = Ok k → returns inv r t e →
  parsed (entries ++ [e]) (<[he_id inv := (inv, Some e)]> calls).
Proof.
  intros (pd & fin & Hp & Hwf & Hpd & Hfin) Hid Hk [Hty Hi _ _].
  exists (delete (he_id inv) pd), (bt_insert (he_id inv) (call_op (inv, Some e)) fin).
  rewrite (parse_entries_snoc _ _ _ _ _ _ _ Hp). cbn. rewrite decide_False by (by rewrite Hty). rewrite decide_True by done.
  rewrite Hi. rewrite (proj2 (Hpd _ _) Hid), Hk. unfold call_op. cbn. rewrite Hk. split; [done|]. split; [by apply bt_insert_wf|]. split.
  - intros id' inv'. destruct (decide (he_id inv = id')) as [<-|Hne].
    + rewrite lookup_delete_eq, lookup_insert_eq. naive_solver.
    + rewrite lookup_delete_ne, lookup_insert_ne by done. apply Hpd.
  - intros id' o. destruct (decide (he_id inv = id')) as [<-|Hne].
    + rewrite bt_get_insert_eq, lookup_insert_eq. split; [intros [= <-]; exists inv, e; cbn; by rewrite Hk|].
      intros (i & r' & [= <- <-] & ->). cbn. by rewrite Hk.
    + rewrite bt_get_insert_ne, lookup_insert_ne by done. apply Hfin.
Qed.

Lemma eff_unique lin a b : NoDup (eff_id <$> lin) → a ∈ lin → b ∈ lin → eff_id a = eff_id b → a = b.
Proof.
  intros Hnd (i & Hi)%list_elem_of_lookup (j & Hj)%list_elem_of_lookup E. assert (i = j) as ->; [|congruence].
  eapply NoDup_lookup; [done|by rewrite list_lookup_fmap, Hi|]. by rewrite list_lookup_fmap, Hj, E.
Qed.

Lemma eff_ok_return t calls inv e x :
  eff_ok t calls x → calls !! he_id inv = Some (inv, None) →
  (eff_id x = he_id inv → (eff_time x ≤ ts_ns e)%N ∧ parse_result e = eff_result x) →
  eff_ok t (<[he_id inv := (inv, Some e)]> calls) x.
Proof.
  intros [(c & Hc & Hk & Ht & Hr) Hn Hf] Hid He. split; [|done|done]. destruct (decide (eff_id x = he_id inv)) as [Heq|Hne].
  - rewrite Heq, Hid in Hc. injection Hc as <-. exists (inv, Some e). rewrite Heq, lookup_insert_eq. split; [done|].
    split; [done|]. split; [done|]. intros r [= <-]. by apply He.
  - exists c. by rewrite lookup_insert_ne.
Qed.

Lemma ledger_return w calls lin inv x t e :
  ledger w calls lin → calls !! he_id inv = Some (inv, None) → x ∈ lin → eff_id x = he_id inv → (eff_time x ≤ t ≤ clock w)%N → (0 < t)%N →
  returns inv (eff_result x) t e →
  ledger (mkWorld (op_counter w) (clock w) (history w ++ [e]) (files w)) (<[he_id inv := (inv, Some e)]> calls) lin.
Proof.
  intros [] Hid Hx Hxi Ht Hpos He. pose proof He as [_ Hi Hts Hres]. pose proof (lg_calls0 _ _ Hid) as [Hc1 Hc2 [k [Hk Hd]] Hc4 _].
  pose proof (proj1 (Forall_forall _ _) lg_effects0 x Hx) as [(c & Hc & _ & Hxt & _) _ _].
  rewrite Hxi, Hid in Hc. injection Hc as <-. split; try done.
  - by eapply parsed_return.
  - intros id c. destruct (decide (he_id inv = id)) as [<-|Hne]; [|rewrite lookup_insert_ne by done; apply lg_calls0].
    rewrite lookup_insert_eq. intros E. injection E as <-. split; cbn in *; [done|done|eauto|done|].
    intros r E. injection E as <-. lia.
  - apply Forall_forall. intros y Hy. apply eff_ok_return; [by eapply Forall_forall|done|].
    intros Hyi. assert (y = x) as -> by (eapply eff_unique; eauto; congruence). split; [lia|done].
  - intros id i r. destruct (decide (he_id inv = id)) as [<-|Hne]; [|rewrite lookup_insert_ne by done; apply lg_returned0].
    intros _. rewrite <- Hxi. by apply list_elem_of_fmap_2.
Qed.

End ledger.

(** ** The phases of the tasks *)

Section phases.
  Context (md5_hex : bytes → string).

Definition owned (ph : Phase) : option N :=
  match ph with Idle => None | Numbered id _ => Some id | Invoked inv | Answered inv _ _ => Some (he_id inv) end.

Definition phase_ok (w : World) (calls : gmap N Call) (lin : list Eff) (ph : Phase) : Prop :=
  match ph with
  | Idle => True
  | Numbered id t => (id < op_counter w)%N ∧ calls !! id = None ∧ (∀ t', t = Some t' → (t' ≤ clock w)%N)
  | Invoked inv => calls !! he_id inv = Some (inv, None) ∧ he_id inv ∉ eff_id <$> lin
  | Answered inv r t => calls !! he_id inv = Some (inv, None) ∧
      ∃ x, x ∈ lin ∧ eff_id x = he_id inv ∧ eff_result x = r ∧ (∀ t', t = Some t' → (eff_time x ≤ t' ≤ clock w)%N ∧ (0 < t')%N)
  end.

Lemma owned_bound w calls lin ph id : ledger md5_hex w calls lin → phase_ok w calls lin ph → owned ph = Some id → (id < op_counter w)%N.
Proof.
  intros Hl Hp Ho. destruct ph as [|i t|inv|inv r t]; cbn in *; simplify_eq/=; [by destruct Hp| |]; destruct Hp as [Hc _];
    eapply co_bound; by eapply lg_calls.
Qed.

(** A step of a task that owns the number [x] leaves what the others rely on. *)
Record frame (x : option N) (w : World) (calls : gmap N Call) (lin : list Eff) (w' : World) (calls' : gmap N Call) (lin' : list Eff) : Prop := {
  fr_counter : (op_counter w ≤ op_counter w')%N;
  fr_clock : (clock w ≤ clock w')%N;
  fr_calls id : x ≠ Some id → calls' !! id = calls !! id;
  fr_lin e : x ≠ Some (eff_id e) → e ∈ lin' ↔ e ∈ lin;
}.

Lemma phase_frame x w calls lin w' calls' lin' ph :
  frame x w calls lin w' calls' lin' → owned ph = None ∨ owned ph ≠ x → phase_ok w calls lin ph → phase_ok w' calls' lin' ph.
Proof.
  intros [Hn Ht Hc Hl] Ho. destruct ph as [|id t|inv|inv r t]; cbn in *; [done|..];
    (destruct Ho as [?|Ho]; [done|]); (rewrite Hc by congruence).
  - intros (? & ? & Ht'). split; [lia|]. split; [done|]. intros t' E. pose proof (Ht' t' E). lia.
  - intros [? Hni]. split; [done|]. rewrite list_elem_of_fmap in Hni |- *. intros (e & He & Hin). apply Hni. exists e. split; [done|].
    apply Hl; [congruence|done].
  - intros (? & e & He & Hei & Her & Ht'). split; [done|]. exists e. split; [apply Hl; [congruence|done]|]. split; [done|]. split; [done|].
    intros t' E. destruct (Ht' t' E). lia.
Qed.

(** One step of a task in its phase. *)
Record moved (w : World) (calls : gmap N Call) (lin : list Eff) (n : nat) (ph : Phase)
    (w' : World) (calls' : gmap N Call) (lin' : list Eff) (n' : nat) (ph' : Phase) : Prop := {
  mv_ledger : ledger md5_hex w' calls' lin';
  mv_phase : phase_ok w' calls' lin' ph';
  mv_frame : frame (owned ph) w calls lin w' calls' lin';
  mv_owned : owned ph' = None ∨ owned ph' = owned ph ∨ owned ph' = Some (op_counter w);
  mv_budget : (op_counter w' + N.of_nat n' ≤ op_counter w + N.of_nat n)%N;
}.

Lemma frame_refl x w calls lin : frame x w calls lin w calls lin.
Proof. split; [lia|lia|done|done]. Qed.

Lemma moved_stay w calls lin n ph ph' :
  ledger md5_hex w calls lin → phase_ok w calls lin ph' → owned ph' = owned ph → moved w calls lin n ph w calls lin n ph'.
Proof. intros Hl Hp Ho. split; [done|done|apply frame_refl|auto|lia]. Qed.

Lemma moved_number w calls lin n :
  ledger md5_hex w calls lin → (op_counter w + N.of_nat (S n) < 2 ^ 64)%N →
  moved w calls lin (S n) Idle (mkWorld (wrap64 (op_counter w + 1)) (clock w) (history w) (files w)) calls lin n (Numbered (op_counter w) None).
Proof.
  intros Hl Hb. assert (wrap64 (op_counter w + 1) = op_counter w + 1)%N as ->.
  { unfold wrap64. apply N.mod_small. unfold u64_mod. lia. }
  split; cbn; [apply ledger_mono; [done|lia|lia]| |split; cbn; [lia|lia|done|done]|auto|lia].
  split; [lia|]. split; [|done]. apply eq_None_not_Some. intros [c Hc]. pose proof (co_bound _ _ _ _ (lg_calls _ _ _ _ Hl _ _ Hc)). lia.
Qed.

Lemma moved_invoke w calls lin n id t e :
  ledger md5_hex w calls lin → phase_ok w calls lin (Numbered id (Some t)) → invokes id t e →
  moved w calls lin n (Numbered id (Some t)) (mkWorld (op_counter w) (clock w) (history w ++ [e]) (files w))
    (<[id := (e, None)]> calls) lin n (Invoked e).
Proof.
  intros Hl (Hb & Hn & Ht) He. pose proof He as [_ Hi _ _]. split; cbn; [by apply (ledger_invoke _ _ _ _ _ t); auto| | |rewrite Hi; auto|lia].
  - rewrite Hi, lookup_insert_eq. split; [done|]. intros (x & Hx & Hin)%list_elem_of_fmap.
    pose proof (proj1 (Forall_forall _ _) (lg_effects _ _ _ _ Hl) x Hin) as [(c & Hc & _) _ _]. congruence.
  - split; cbn; [lia|lia| |done]. intros id' Hne. rewrite lookup_insert_ne; [done|congruence].
Qed.

Lemma moved_answer w calls lin n inv k r s' :
  ledger md5_hex w calls lin → phase_ok w calls lin (Invoked inv) → parse_op_type inv = Ok k → answered md5_hex k r (files w) s' →
  moved w calls lin n (Invoked inv) (mkWorld (op_counter w) (clock w) (history w) s') calls (lin ++ [mkEff (he_id inv) k r (clock w)])
    n (Answered inv r None).
Proof.
  intros Hl [Hc Hni] Hk (Hf & Hu & Hs). split; cbn; [by apply ledger_effect| | |auto|lia].
  - split; [done|]. exists (mkEff (he_id inv) k r (clock w)). split; [set_solver|]. done.
  - split; cbn; [lia|lia|done|]. intros e He. rewrite elem_of_app, list_elem_of_singleton. split; [|by left].
    intros [?| ->]; [done|]. by destruct He.
Qed.

Lemma moved_return w calls lin n inv r t e :
  ledger md5_hex w calls lin → phase_ok w calls lin (Answered inv r (Some t)) → returns inv r t e →
  moved w calls lin n (Answered inv r (Some t)) (mkWorld (op_counter w) (clock w) (history w ++ [e]) (files w))
    (<[he_id inv := (inv, Some e)]> calls) lin n Idle.
Proof.
  intros Hl (Hc & x & Hx & Hxi & <- & Ht) He. destruct (Ht t eq_refl) as [Ht1 Ht2]. split; cbn; [|done| |auto|lia].
  - by eapply ledger_return.
  - split; cbn; [lia|lia| |done]. intros id' Hne. rewrite lookup_insert_ne; [done|congruence].
Qed.

Lemma task_answers {A} w calls lin n ph k (report : A → OpResult) (Q : A → nat → Phase → Prop) b s' :
  ledger md5_hex w calls lin → phase_ok w calls lin ph → Workload.calls k report n ph Q → answered md5_hex k (report b) (files w) s' →
  ∃ calls' lin' n' ph', Q b n' ph' ∧ moved w calls lin n ph (mkWorld (op_counter w) (clock w) (history w) s') calls' lin' n' ph'.
Proof.
  intros Hl Hp Ha Hs. destruct ph as [| |inv|]; try done. destruct Ha as [Hk Hq].
  eexists _, _, _, _. split; [apply Hq|by apply moved_answer].
Qed.

Lemma task_moves (e : WorkEffect) w calls lin n ph b w' (Q : answer e → nat → Phase → Prop) :
  ledger md5_hex w calls lin → phase_ok w calls lin ph → (op_counter w + N.of_nat n < 2 ^ 64)%N → (clock w < 2 ^ 64)%N →
  allows md5_hex e n ph Q → performs e w b w' →
  ∃ calls' lin' n' ph', Q b n' ph' ∧ moved w calls lin n ph w' calls' lin' n' ph'.
Proof.
  intros Hl Hp Hb Ht Ha He. destruct e as [|m| | |e|data p|p|p|src dst]; cbn [allows] in Ha.
  - destruct w. cbn in He. subst. exists calls, lin, n, ph. split; [apply Ha|by apply moved_stay].
  - destruct w. destruct He as [Hi ->]. exists calls, lin, n, ph. split; [by apply Ha|by apply moved_stay].
  - destruct ph; try done. destruct n as [|n]; [done|]. exists calls, lin, n, (Numbered (op_counter w) None).
    destruct w as [c t h s]. destruct He as [-> ->]. split; [apply Ha|]. by apply (moved_number (mkWorld c t h s)).
  - assert (w' = w ∧ b = clock w) as [-> ->].
    { destruct w. destruct He as [-> ->]. split; [done|]. apply N.mod_small. cbn in Ht. by unfold u64_mod. }
    specialize (Ha (clock w)). destruct ph as [|id t|inv|inv r t]; try done; eexists calls, lin, n, _; (split; [exact Ha|]).
    + destruct Hp as (? & ? & ?). apply moved_stay; [done| |done]. cbn. split; [done|]. split; [done|]. by intros t' [= <-].
    + destruct Hp as (? & x & Hx & Hxi & Hxr & _). apply moved_stay; [done| |done]. split; [done|]. exists x. split; [done|]. split; [done|].
      split; [done|]. intros t' E. injection E as <-. pose proof (lg_clock _ _ _ _ Hl).
      pose proof (eo_time _ _ _ (proj1 (Forall_forall _ _) (lg_effects _ _ _ _ Hl) x Hx)). lia.
  - destruct b. destruct w as [c t h s]. cbn in He. subst w'. destruct ph as [|id [t'|]|inv|inv r [t'|]]; try done; destruct Ha as [Hi Hq].
    + eexists _, _, _, _. split; [exact Hq|]. by apply (moved_invoke (mkWorld c t h s)).
    + eexists _, _, _, _. split; [exact Hq|]. by apply (moved_return (mkWorld c t h s)).
  - destruct w as [c t h s], (put_answered md5_hex _ _ _ _ _ _ _ _ He) as (s' & -> & Hs). by eapply (task_answers (mkWorld c t h s)).
  - destruct w as [c t h s], (get_answered md5_hex _ _ _ _ _ _ _ He) as (s' & -> & Hs). by eapply (task_answers (mkWorld c t h s)).
  - destruct w as [c t h s], (delete_answered md5_hex _ _ _ _ _ _ _ He) as (s' & -> & Hs). by eapply (task_answers (mkWorld c t h s)).
  - destruct w as [c t h s], (rename_answered md5_hex _ _ _ _ _ _ _ _ He) as (s' & -> & Hs). by eapply (task_answers (mkWorld c t h s)).
Qed.

(** ** All tasks together *)

Record pool_ok (ts : list Task) (w : World) (calls : gmap N Call) (lin : list Eff) (locals : list (nat * Phase)) : Prop := {
  po_ledger : ledger md5_hex w calls lin;
  po_obeys : Forall2 (λ p l, obeys md5_hex p l.1 l.2 (λ _ _ _, True)) ts locals;
  po_phases i l : locals !! i = Some l → phase_ok w calls lin l.2;
  po_distinct i j l m x : locals !! i = Some l → locals !! j = Some m → owned l.2 = Some x → owned m.2 = Some x → i = j;
  po_budget : (op_counter w + N.of_nat (sum_list locals.*1) < 2 ^ 64)%N;
}.

Lemma sum_list_insert (l : list nat) i x y : l !! i = Some x → sum_list (<[i := y]> l) + x = sum_list l + y.
Proof.
  revert i. induction l as [|z l IH]; intros [|i] H; simplify_eq/=; [lia|]. pose proof (IH i H). lia.
Qed.

Lemma pool_task i ts p p' w w' calls lin locals :
  pool_ok ts w calls lin locals → (clock w < 2 ^ 64)%N → ts !! i = Some p → task_step p w p' w' →
  ∃ calls' lin' locals', pool_ok (<[i := p']> ts) w' calls' lin' locals'.
Proof.
  intros [Hl Hob Hph Hd Hb] Ht Hi Hs. destruct p as [|e k]; [done|]. destruct Hs as (b & Hperf & ->).
  destruct (Forall2_lookup_l _ _ _ _ _ Hob Hi) as ([n ph] & Hloc & Hobi). cbn in Hobi.
  assert (locals.*1 !! i = Some n) as Hn by (by rewrite list_lookup_fmap, Hloc).
  assert (op_counter w + N.of_nat n < 2 ^ 64)%N as Hbn by (pose proof (sum_list_insert _ _ _ 0 Hn); lia).
  destruct (task_moves e w calls lin n ph b w' _ Hl (Hph _ _ Hloc) Hbn Ht Hobi Hperf)
    as (calls' & lin' & n' & ph' & Hq & [Hl' Hp' Hf Ho Hb']).
  assert (∀ j l, i ≠ j → locals !! j = Some l → owned l.2 = None ∨ owned l.2 ≠ owned ph) as Hother.
  { intros j l Hne Hj. destruct (owned l.2) as [x|] eqn:Hx; [|by left]. right. intros E. apply Hne. by eapply (Hd i j (n, ph)). }
  exists calls', lin', (<[i := (n', ph')]> locals). split.
  - done.
  - by apply Forall2_insert.
  - intros j l [(<- & <- & _)|[Hne Hj]]%list_lookup_insert_Some; [done|]. eapply phase_frame; [done|by eapply Hother|by eapply Hph].
  - assert (∀ j l x, i ≠ j → locals !! j = Some l → owned ph' = Some x → owned l.2 ≠ Some x) as Hnew.
    { intros j l x Hne Hj Hx E. destruct Ho as [Ho|[Ho|Ho]]; [congruence| |].
      - destruct (Hother j l Hne Hj) as [|Ho']; congruence.
      - pose proof (owned_bound w calls lin _ _ Hl (Hph _ _ Hj) E). assert (x = op_counter w) by congruence. lia. }
    intros j j' l l' x [(<- & <- & _)|[Hne Hj]]%list_lookup_insert_Some [(<- & <- & _)|[Hne' Hj']]%list_lookup_insert_Some Hx Hx'; [done| | |].
    + by destruct (Hnew j' l' x).
    + by destruct (Hnew j l x).
    + by eapply Hd.
  - rewrite list_fmap_insert. cbn. pose proof (sum_list_insert _ _ _ n' Hn). lia.
Qed.

Lemma pool_clock ts c t t' h s calls lin locals :
  pool_ok ts (mkWorld c t h s) calls lin locals → (t ≤ t')%N → pool_ok ts (mkWorld c t' h s) calls lin locals.
Proof.
  intros [Hl Hob Hph Hd Hb] Ht. split; [|done| |done|done].
  - by apply (ledger_mono _ (mkWorld c t h s)).
  - intros i l Hi. eapply (phase_frame None); [|destruct (owned l.2); auto|by eapply Hph]. split; cbn; [lia|lia|done|done].
Qed.

(** The start of a workload: an empty history and an empty store. *)
Definition start_world (t : N) : World := mkWorld 1 t [] ∅.

Lemma pool_start config t :
  (0 < t)%N → 2 ≤ key_space config → (N.of_nat (num_clients config * ops_per_client config) < 2 ^ 64 - 1)%N →
  pool_ok (run_workload md5_hex config) (start_world t) ∅ [] (replicate (num_clients config) (ops_per_client config, Idle)).
Proof.
  intros Ht Hk Hb. split.
  - split; [|done|apply NoDup_nil_2|constructor|done|constructor|apply fmap_empty|done].
    exists ∅, []. repeat split; try done; [constructor|naive_solver].
  - unfold run_workload. generalize 0. clear Hb. induction (num_clients config) as [|m IH]; intros i; cbn; constructor; [by apply client_task_obeys|apply IH].
  - intros i l [-> _]%lookup_replicate. done.
  - intros i j l m x [-> _]%lookup_replicate. done.
  - rewrite fmap_replicate. cbn. assert (∀ n x, sum_list (replicate n x) = n * x) as -> by (induction n; intros; cbn; auto). lia.
Qed.

Lemma pool_reachable config t tw :
  (0 < t)%N → 2 ≤ key_space config → (N.of_nat (num_clients config * ops_per_client config) < 2 ^ 64 - 1)%N →
  rtc step (run_workload md5_hex config, start_world t) tw → (clock tw.2 < 2 ^ 64)%N →
  ∃ calls lin locals, pool_ok tw.1 tw.2 calls lin locals.
Proof.
  intros Ht Hk Hb. revert tw.
  apply (rtc_ind_r (λ tw, (clock tw.2 < 2 ^ 64)%N → ∃ calls lin locals, pool_ok tw.1 tw.2 calls lin locals)).
  - intros _. eexists _, _, _. by apply pool_start.
  - intros tw tw' _ Hs IH Hc. destruct Hs as [i ts p p' w w' Hi Hs|ts c t1 t2 h s Hle]; cbn in *.
    + assert (clock w' = clock w) as Heq.
      { destruct p as [|e k]; [done|]. destruct Hs as (b & Hp & _). destruct w, e; cbn in Hp; naive_solver. }
      destruct IH as (calls & lin & locals & Hp); [lia|]. eapply pool_task; [done|lia|done|done].
    + destruct IH as (calls & lin & locals & Hp); [lia|]. eexists _, _, _. by eapply pool_clock.
Qed.

End phases.

(** ** The history that is read back *)

Lemma add_crashed_spec l ops :
  bt_wf ops → NoDup l.*1 → (∀ id inv, (id, inv) ∈ l → he_id inv = id ∧ (∃ k, parse_op_type inv = Ok k) ∧ bt_get id ops = None) →
  ∃ ops', add_crashed l ops = Ok ops' ∧ bt_wf ops' ∧
    ∀ id o, bt_get id ops' = Some o ↔ bt_get id ops = Some o ∨ ∃ inv, (id, inv) ∈ l ∧ o = call_op (inv, None).
Proof.
  revert ops. induction l as [|[id inv] l IH]; intros ops Hwf Hnd Hl.
  { exists ops. split; [done|]. split; [done|]. intros id o. split; [by left|]. intros [?|(? & ?%not_elem_of_nil & _)]; done. }
  cbn in Hnd. apply NoDup_cons in Hnd as [Hni Hnd]. destruct (Hl id inv) as (Hid & [k Hk] & Hnone); [left|]. cbn. rewrite Hk.
  assert (mkOperation id (he_client inv) k (ts_ns inv) 0 ResUnknown = call_op (inv, None)) as ->.
  { unfold call_op. cbn. by rewrite Hk, Hid. }
  assert (∀ i' v, (i', v) ∈ l → i' ≠ id) as Hne.
  { intros i' v Hin ->. apply Hni. apply list_elem_of_fmap. by exists (id, v). }
  destruct (IH (bt_insert id (call_op (inv, None)) ops)) as (ops' & Ha & Hwf' & Hget); [by apply bt_insert_wf|done| |].
  { intros i' v Hin. destruct (Hl i' v) as (? & ? & ?); [by right|]. rewrite bt_get_insert_ne by eauto. done. }
  exists ops'. split; [done|]. split; [done|]. intros i' o. rewrite Hget. destruct (decide (i' = id)) as [->|Hi'].
  - rewrite bt_get_insert_eq, Hnone. split.
    + intros [[= <-]|(v & Hin & _)]; [right; exists inv; split; [left|done]|by destruct (Hne _ _ Hin)].
    + intros [?|(v & [[= ->]|Hin]%elem_of_cons & ->)]; [done|by left|by destruct (Hne _ _ Hin)].
  - rewrite bt_get_insert_ne by done. split.
    + intros [?|(v & Hin & ->)]; [by left|]. right. exists v. split; [by right|done].
    + intros [?|(v & [[= -> ->]|Hin]%elem_of_cons & ->)]; [by left|done|]. right. eauto.
Qed.

Section outcome.
  Context (md5_hex : bytes → string).

Definition op_at (calls : gmap N Call) (id : N) : Operation :=
  match calls !! id with Some c => call_op c | None => inhabitant end.

Lemma ledger_history w calls lin :
  ledger md5_hex w calls lin →
  ∃ keys, parse_history (history w) = Ok (op_at calls <$> keys) ∧ NoDup keys ∧ ∀ id, id ∈ keys ↔ is_Some (calls !! id).
Proof.
  intros [(pd & fin & Hp & Hwf & Hpd & Hfin) Hcalls _ _ _ _ _ _]. unfold parse_history. rewrite Hp.
  destruct (add_crashed_spec (map_to_list pd) fin Hwf (NoDup_fst_map_to_list pd)) as (ops & Ha & Hwf' & Hget).
  { intros id inv Hin%elem_of_map_to_list. apply Hpd in Hin. destruct (Hcalls _ _ Hin) as [Hid _ [k [Hk _]] _ _].
    split; [done|]. split; [eauto|]. apply eq_None_not_Some. intros [o (i & r & Hc & _)%Hfin]. congruence. }
  assert (∀ id o, bt_get id ops = Some o ↔ ∃ c, calls !! id = Some c ∧ o = call_op c) as Hops.
  { intros id o. rewrite Hget, Hfin. split.
    - intros [(inv & r & Hc & ->)|(inv & Hin%elem_of_map_to_list%Hpd & ->)]; eauto.
    - intros ([inv [r|]] & Hc & ->); [eauto|]. right. exists inv. by rewrite elem_of_map_to_list, Hpd. }
  exists ops.*1. rewrite Ha. split; [|split].
  - f_equal. rewrite <- list_fmap_compose. apply list_fmap_ext. intros i [id o] Hi. cbn. unfold op_at.
    assert (bt_get id ops = Some o) as (c & -> & ->)%Hops; [|done]. apply elem_bt_get; [done|]. by eapply list_elem_of_lookup_2.
  - clear -Hwf'. unfold bt_wf in Hwf'. induction ops.*1 as [|k ks IH]; [apply NoDup_nil_2|].
    apply StronglySorted_inv in Hwf' as [Hs Hk]. apply NoDup_cons. split; [|auto]. intros Hin.
    by apply (key_lt_irrefl k), (proj1 (Forall_forall _ _) Hk).
  - intros id. rewrite <- bt_get_is_Some. split; [intros [o (c & Hc & _)%Hops]; eauto|]. intros [c Hc]. exists (call_op c). rewrite Hops. eauto.
Qed.

Lemma pending_unreturned w calls lin id :
  ledger md5_hex w calls lin → id ∉ eff_id <$> lin → is_Some (calls !! id) →
  return_ts (op_at calls id) = 0%N ∧ ambiguous (op_at calls id) = true.
Proof.
  intros Hl Hni [[inv [r|]] Hc]; unfold op_at; rewrite Hc; [|done]. by destruct Hni; eapply lg_returned.
Qed.

Lemma store_run_pending l st : Forall (λ op, ambiguous op = true) l → store_run l st.
Proof. induction 1 as [|op l Ha _ IH]; [done|]. exists st. split; [|done]. unfold store_step. rewrite Ha. by right. Qed.

Lemma eff_store_step t calls e st st' : eff_ok t calls e → eff_step e st st' → store_step (op_at calls (eff_id e)) st st'.
Proof.
  intros [(c & Hc & Hk & _ & Hr) _ [Hfit Hu]] Hs. unfold store_step, op_at. rewrite Hc.
  assert (op_kind (call_op c) = eff_kind e) as -> by (unfold call_op; cbn; by rewrite Hk).
  unfold ambiguous, call_op. cbn. unfold eff_step in Hs. destruct (c.2) as [r|] eqn:Hc2.
  - destruct (Hr r eq_refl) as [_ ->]. destruct (ts_ns r =? 0)%N; cbn; [destruct (eff_result e); naive_solver|].
    by destruct (eff_result e).
  - cbn. destruct (eff_result e); naive_solver.
Qed.

Lemma store_run_lin t calls lin pending st st' :
  Forall (eff_ok t calls) lin → lin_run lin st st' → Forall (λ op, ambiguous op = true) pending →
  store_run ((op_at calls <$> (eff_id <$> lin)) ++ pending) st.
Proof.
  intros He Hr Hp. revert st Hr. induction He as [|e lin He _ IH]; intros st; [intros _; by apply store_run_pending|].
  intros (s1 & Hs & Hr). exists s1. split; [by eapply eff_store_step|by apply IH].
Qed.

Lemma real_time_lin t calls lin pending :
  Forall (eff_ok t calls) lin → StronglySorted (λ a b, (eff_time a ≤ eff_time b)%N) lin → Forall (λ op, return_ts op = 0%N) pending →
  real_time ((op_at calls <$> (eff_id <$> lin)) ++ pending).
Proof.
  intros He Hs Hp. induction Hs as [|e lin Hs IH Hle].
  { clear He. induction Hp as [|op l Hop Hp IH]; [done|]. split; [|done]. eapply Forall_impl; [done|]. unfold precedes. intros b ->. lia. }
  apply Forall_cons in He as [He Hl]. cbn. split; [|by apply IH]. apply Forall_app. split.
  - rewrite !Forall_fmap. apply Forall_forall. intros e' Hin Hpr. cbn in Hpr. pose proof (proj1 (Forall_forall _ _) Hle _ Hin) as Ht.
    destruct He as [(c & Hc & _ & Hct & _) _ _]. pose proof (proj1 (Forall_forall _ _) Hl _ Hin) as [(c' & Hc' & _ & _ & Hr) _ _].
    unfold precedes, op_at in Hpr. rewrite Hc, Hc' in Hpr. unfold call_op in Hpr. cbn in *. destruct (c'.2) as [r|]; [|lia].
    destruct (Hr r eq_refl). lia.
  - eapply Forall_impl; [done|]. unfold precedes. intros b ->. lia.
Qed.

Lemma ledger_linearizable w calls lin keys :
  ledger md5_hex w calls lin → NoDup keys → (∀ id, id ∈ keys ↔ is_Some (calls !! id)) → linearizable (op_at calls <$> keys).
Proof.
  intros Hl Hnd Hkeys. set (pending := filter (λ id, id ∉ eff_id <$> lin) keys).
  assert (Forall (λ id, return_ts (op_at calls id) = 0%N ∧ ambiguous (op_at calls id) = true) pending) as [Hp1 Hp2]%Forall_and.
  { apply Forall_forall. intros id [Hni Hin]%list_elem_of_filter. apply Hkeys in Hin. by eapply pending_unreturned. }
  exists ((op_at calls <$> (eff_id <$> lin)) ++ (op_at calls <$> pending)). split_and!.
  - rewrite <- fmap_app. apply fmap_Permutation. apply NoDup_Permutation; [|done|].
    + apply NoDup_app. split; [apply Hl|]. split; [|by apply NoDup_filter]. intros id Hin [? _]%list_elem_of_filter. done.
    + intros id. rewrite elem_of_app. unfold pending. rewrite list_elem_of_filter. split; [intros [Hin|[_ ?]]; [|done]|].
      * apply Hkeys. apply list_elem_of_fmap in Hin as (e & -> & Hin).
        destruct (proj1 (Forall_forall _ _) (lg_effects _ _ _ _ Hl) e Hin) as [(c & -> & _) _ _]. eauto.
      * intros Hin. destruct (decide (id ∈ eff_id <$> lin)); auto.
  - eapply real_time_lin; [apply Hl|apply Hl|by apply Forall_fmap].
  - eapply store_run_lin; [apply Hl|apply Hl|by apply Forall_fmap].
Qed.

Lemma ledger_recorded w calls lin keys :
  ledger md5_hex w calls lin → (clock w < 2 ^ 64)%N → (∀ id, id ∈ keys → is_Some (calls !! id)) → Forall recorded (op_at calls <$> keys).
Proof.
  intros Hl Ht Hkeys. apply Forall_fmap, Forall_forall. intros id [c Hc]%Hkeys. cbn. unfold op_at. rewrite Hc.
  destruct (lg_calls _ _ _ _ Hl _ _ Hc) as [_ _ (k & Hk & Hd) Hi Hr]. unfold recorded, call_op. cbn. rewrite Hk.
  split_and!; [|unfold u64_max; lia| |done].
  - destruct c as [inv [r|]]; cbn in *; [|by destruct k].
    pose proof (lg_returned _ _ _ _ Hl _ _ _ Hc) as (e & -> & Hin)%list_elem_of_fmap.
    destruct (proj1 (Forall_forall _ _) (lg_effects _ _ _ _ Hl) e Hin) as [(c' & Hc' & Hk' & _ & Hr') _ [Hf _]].
    rewrite Hc in Hc'. injection Hc' as <-. cbn in *. destruct (Hr' r eq_refl) as [_ ->]. congruence.
  - destruct (c.2) as [r|]; [|by left]. right. destruct (Hr r eq_refl). lia.
Qed.

End outcome.

(** ** The part of a history that renames connect *)

Section linked.
  Context (K : gset string).

(** The files of the keys in [K]. *)
Definition restrict (st : store) : store := filter (λ '(p, _), p ∈ K) st.

Lemma lookup_restrict st p : p ∈ K → restrict st !! p = st !! p.
Proof.
  intros Hp. apply option_eq. intros v. unfold restrict. rewrite map_lookup_filter_Some. naive_solver.
Qed.

Lemma restrict_effect_in op st : (∀ k, k ∈ keys_of op → k ∈ K) → restrict (store_effect (op_kind op) st) = store_effect (op_kind op) (restrict st).
Proof.
  unfold keys_of. destruct (op_kind op) as [p h|p|p|src dst]; cbn; intros Hk.
  - apply map_filter_insert_True. apply Hk. by left.
  - done.
  - apply map_filter_delete.
  - rewrite lookup_restrict by (apply Hk; left). destruct (st !! src); [|done].
    unfold restrict. rewrite map_filter_insert_True by (apply Hk; right; left). by rewrite map_filter_delete.
Qed.

Lemma restrict_effect_out op st : (∀ k, k ∈ keys_of op → k ∉ K) → restrict (store_effect (op_kind op) st) = restrict st.
Proof.
  assert (∀ p (s : store), p ∉ K → restrict (delete p s) = restrict s) as Hdel.
  { intros p s Hp. unfold restrict. rewrite map_filter_delete. apply delete_id. apply map_lookup_filter_None. right. done. }
  assert (∀ p v (s : store), p ∉ K → restrict (<[p := v]> s) = restrict s) as Hins.
  { intros p v s Hp. unfold restrict. rewrite map_filter_insert_False by done. by apply Hdel. }
  unfold keys_of. destruct (op_kind op) as [p h|p|p|src dst]; cbn; intros Hk.
  - apply Hins, Hk. by left.
  - done.
  - apply Hdel, Hk. by left.
  - destruct (st !! src); [|done]. rewrite Hins by (apply Hk; right; left). apply Hdel, Hk. left.
Qed.

Lemma restrict_answers op st : (∀ k, k ∈ keys_of op → k ∈ K) → store_answers (op_kind op) st (op_result op) → store_answers (op_kind op) (restrict st) (op_result op).
Proof.
  unfold keys_of. intros Hk. destruct (op_kind op), (op_result op); cbn in *; try done; rewrite lookup_restrict by (apply Hk; left); done.
Qed.

Lemma store_run_linked (linked : Operation → bool) l st :
  (∀ op, op ∈ l → linked op = true → ∀ k, k ∈ keys_of op → k ∈ K) →
  (∀ op, op ∈ l → linked op = false → ∀ k, k ∈ keys_of op → k ∉ K) →
  store_run l st → store_run (List.filter linked l) (restrict st).
Proof.
  intros Hin Hout. revert st. induction l as [|op l IH]; intros st; [done|]. intros (st' & Hs & Hr).
  apply IH in Hr; [|intros op' H; apply Hin; by right|intros op' H; apply Hout; by right]. cbn. destruct (linked op) eqn:Hl.
  - pose proof (Hin op ltac:(left) Hl) as Hk. exists (restrict st'). split; [|done]. unfold store_step in *.
    destruct (ambiguous op).
    + destruct Hs as [-> | ->]; [left; by apply restrict_effect_in|by right].
    + destruct Hs as [Ha ->]. split; [by apply restrict_answers|by apply restrict_effect_in].
  - pose proof (Hout op ltac:(left) Hl) as Hk. unfold store_step in Hs. destruct (ambiguous op).
    + destruct Hs as [-> | ->]; [by rewrite restrict_effect_out in Hr|done].
    + destruct Hs as [_ ->]. by rewrite restrict_effect_out in Hr.
Qed.

End linked.

Lemma real_time_filter f l : real_time l → real_time (List.filter f l).
Proof.
  induction l as [|a l IH]; [done|]. intros [Ha Hl]. cbn. destruct (f a); [|by apply IH]. split; [|by apply IH].
  rewrite Forall_forall in *. intros b Hb. apply Ha. apply list_elem_of_In in Hb. apply filter_In in Hb as [Hb _]. by apply list_elem_of_In.
Qed.

Lemma list_filter_perm {A} (f : A → bool) l l' : l ≡ₚ l' → List.filter f l ≡ₚ List.filter f l'.
Proof. induction 1; cbn; repeat case_match; eauto using Permutation. Qed.

(** The operations on keys that renames connect are a history of their own. *)
Lemma linearizable_linked ops : linearizable ops → linearizable (List.filter (touches_rename ops) ops).
Proof.
  intros (l & Hp & Hrt & Hrun). exists (List.filter (touches_rename ops) l).
  split; [by apply list_filter_perm|]. split; [by apply real_time_filter|].
  assert (restrict (rename_keys ops) ∅ = ∅) as <- by apply map_filter_empty. apply store_run_linked; [| |done].
  - intros op Hin Ht k Hk. rewrite Hp in Hin. unfold touches_rename, op_key, keys_of in *. destruct (op_kind op) as [p h|p|p|src dst] eqn:Hkind.
    1-3: apply list_elem_of_singleton in Hk as ->; by apply bool_decide_eq_true in Ht.
    unfold rename_keys. apply elem_of_list_to_set, list_elem_of_join. exists [src; dst]. split; [done|].
    apply list_elem_of_fmap. exists op. by rewrite Hkind.
  - intros op Hin Ht k Hk. unfold touches_rename, op_key, keys_of in *. destruct (op_kind op) as [p h|p|p|src dst]; [..|done].
    all: apply list_elem_of_singleton in Hk as ->; by apply bool_decide_eq_false in Ht.
Qed.

(** ** The checker on the histories of the generator *)

(** C12. The workload generator and the checker agree: whatever the
    interleaving of the tasks, and wherever they stop, the history is read back,
    and when each operation of the client library takes effect at one moment
    before it returns, as on a file store that was empty, the history is
    linearizable and the search of the checker accepts it, when at most fifteen
    of its operations have an unknown outcome: only the check of the keys that
    no rename touches may report a violation. *)
Theorem workload_histories_accepted md5_hex config t ts w :
  (0 < t)%N → 2 ≤ key_space config → (N.of_nat (num_clients config * ops_per_client config) < 2 ^ 64 - 1)%N →
  rtc step (run_workload md5_hex config, start_world t) (ts, w) → (clock w < 2 ^ 64)%N →
  ∃ ops, parse_history (history w) = Ok ops ∧ linearizable ops ∧
    (length (List.filter ambiguous (List.filter (touches_rename ops) ops)) ≤ 15 →
     check_linearizability ops = check_simple (List.filter (λ op, negb (touches_rename ops op)) ops)).
Proof.
  intros Ht Hk Hb Hr Hc. destruct (pool_reachable md5_hex config t (ts, w) Ht Hk Hb Hr Hc) as (calls & lin & locals & [Hl _ _ _ _]).
  cbn in Hl. destruct (ledger_history _ _ _ _ Hl) as (keys & Hp & Hnd & Hkeys). exists (op_at calls <$> keys).
  pose proof (ledger_linearizable _ _ _ _ _ Hl Hnd Hkeys) as Hlin. split; [done|]. split; [done|]. intros Hamb.
  unfold check_linearizability. rewrite (rename_check_complete (List.filter _ _)); [|  |done|by apply linearizable_linked].
  - destruct (List.filter (touches_rename _) _); apply andb_true_r.
  - apply Forall_forall. intros op [Hin _]%list_elem_of_In%filter_In. apply list_elem_of_In in Hin.
    eapply (proj1 (Forall_forall _ _)); [|done]. eapply ledger_recorded; [done|done|]. intros id. by rewrite Hkeys.
Qed.

(** *** A concrete workload *)

Module WorkloadDemo.

(** An atomic store behind the client library. Tasks rename once there are
    files; they draw the least number. *)
Definition atomic (e : WorkEffect) (w : World) : option (answer e * World) :=
  let 'mkWorld c t h s := w in
  match e return option (answer e * World) with
  | IsRename => Some (bool_decide (s ≠ ∅), w)
  | GenRange n => if n is 0 then None else Some (0, w)
  | FetchAdd => Some (c, mkWorld (wrap64 (c + 1)) t h s)
  | NowNs => Some (wrap64 t, w)
  | WriteEntry e => Some (tt, mkWorld c t (h ++ [e]) s)
  | PutFile data p => Some (inl tt, mkWorld c t h (<[p := data]> s))
  | GetFile p => Some (match s !! p with Some d => inl d | None => inr "File not found" end, w)
  | DeleteFile p => Some (match s !! p with Some _ => inl tt | None => inr "File not found" end, mkWorld c t h (delete p s))
  | RenameFile src dst => Some (match s !! src with Some _ => inl tt | None => inr "Source file not found" end, mkWorld c t h (renamed src dst s))
  end.

Lemma atomic_performs e w b w' : atomic e w = Some (b, w') → performs e w b w'.
Proof.
  destruct w as [c t h s], e as [|[|n]| | |e|data p|p|p|src dst]; cbn; intros E; try done; simplify_eq/=; try done; [split; [lia|done]|..].
  - by exists (<[p := data]> s).
  - by destruct (s !! p).
  - exists (delete p s). split; [done|]. destruct (s !! p) eqn:Hp; cbn; [done|]. split; [done|]. by rewrite delete_id.
  - exists (renamed src dst s). split; [done|]. unfold renamed. destruct (s !! src) eqn:Hp; cbn; [|done]. eauto.
Qed.

(** One step of task [i], one tick later. *)
Definition turn (tw : list Task * World) (i : nat) : list Task * World :=
  let '(ts, mkWorld c t h s) := tw in
  let w := mkWorld c (t + 1) h s in
  match ts !! i with
  | Some (Vis e k) => match atomic e w with Some (b, w') => (<[i := k b]> ts, w') | None => (ts, w) end
  | _ => (ts, w)
  end.

Lemma turns_step schedule tw : rtc step tw (foldl turn tw schedule).
Proof.
  revert tw. induction schedule as [|i schedule IH]; intros tw; [done|]. cbn. etrans; [|apply IH]. destruct tw as [ts [c t h s]]. unfold turn.
  eapply rtc_l; [by apply (step_clock ts c t (t + 1)); lia|]. destruct (ts !! i) as [[a|e k]|] eqn:Hi; [done| |done].
  destruct (atomic e _) as [[b w']|] eqn:He; [|done]. apply rtc_once. eapply step_task; [done|]. exists b. split; [by apply atomic_performs|done].
Qed.

(** One task puts a file; another renames it before the put has returned. *)
Definition config : WorkloadConfig := mkWorkloadConfig 1 2 2.
Definition final : list Task * World :=
  foldl turn (run_workload String.string_of_list_byte config, start_world 1) (replicate 8 0 ++ replicate 9 1 ++ replicate 2 0).

End WorkloadDemo.

Lemma workload_histories_accepted_witness :
  length (history WorkloadDemo.final.2) = 4 ∧
  ∃ ops, parse_history (history WorkloadDemo.final.2) = Ok ops ∧ linearizable ops ∧
    (length (List.filter ambiguous (List.filter (touches_rename ops) ops)) ≤ 15 →
     check_linearizability ops = check_simple (List.filter (λ op, negb (touches_rename ops op)) ops)).
Proof.
  split; [vm_compute; reflexivity|].
  apply (workload_histories_accepted String.string_of_list_byte WorkloadDemo.config 1 WorkloadDemo.final.1).
  - reflexivity.
  - exact (Nat.le_refl 2).
  - reflexivity.
  - rewrite <- surjective_pairing. apply WorkloadDemo.turns_step.
  - vm_compute. reflexivity.
Defined.

(** An operation that reports an error may take effect after it has returned,
    when its command is still in the log of the leader. The checker takes the
    return for the end of the operation: a put that fails, a read that finds
    nothing and a later one that finds the file are reported as a violation,
    although the history has an explanation when the put never returns. *)
Definition late_put (returned : N) : list Operation :=
  [mkOperation 1 "c0" (Put "/a" "h") 100 returned (if (returned =? 0)%N then ResUnknown else ResError);
   mkOperation 2 "c1" (Get "/a") 300 400 ResNotFound; mkOperation 3 "c1" (Get "/a") 500 600 (ResGetOk "h");
   mkOperation 4 "c1" (Rename "/a" "/z") 700 800 ResOk].

Lemma late_effect_false_alarm : check_linearizability (late_put 0) = true ∧ check_linearizability (late_put 200) = false.
Proof. split; vm_compute; reflexivity. Qed.

(** A rename that is repeated after a lost answer finds its source gone, and
    "not found" is recorded: the checker takes it for a rename that did
    nothing. *)
Lemma repeated_rename_false_alarm :
  check_linearizability
    [mkOperation 1 "c0" (Put "/a" "h") 100 200 (ResPutOk "h"); mkOperation 2 "c0" (Rename "/a" "/z") 300 400 ResNotFound;
     mkOperation 3 "c0" (Get "/z") 500 600 (ResGetOk "h")] = false.
Proof. vm_compute. reflexivity. Qed.
