(* ===== verification/Benchmark.v ===== *)
(** * Benchmarks of the command-line client

    dfs/client/src/bin/dfs_cli.rs: the write, read and stress benchmarks with
    their JoinSet of concurrent tasks, and the latency statistics. A benchmark
    is a program over the tasks it spawns and joins; tasks finish in any order
    and may fail. Durations are whole nanoseconds; the throughputs, which are
    floating-point quotients for the screen, are left out. *)

From stdpp Require Import pretty.
From S2P Require Import Prelude MasterState Program.

(** ** Effects *)

(** What join_next gives: the task panicked, or its result (the bytes it read,
    none for a write) and its latency. *)
Inductive Joined : Type :=
  | TaskDied (e : string)
  | TaskDone (res : N + string) (latency : N).

Inductive BenchEffect : Type → Type :=
  | SpawnWrite (filename : string) (size : N) : BenchEffect unit
  | SpawnRead (filename : string) : BenchEffect unit
  | JoinNext : BenchEffect (option Joined)
  | Now : BenchEffect N
  | UnixSecs : BenchEffect N
  | ListAllFiles : BenchEffect (list string + string)
  | Sleep10ms : BenchEffect unit
  | Say (line : string) : BenchEffect unit.

(** An error that `?` passes on, a panic, or a loop that was cut off. *)
Inductive BenchStop : Type :=
  | BenchErr (e : string)
  | BenchPanic (why : string)
  | OutOfFuel.

Notation BProg A := (Prog BenchEffect (A + BenchStop)).

(** ** Statistics *)

(** The figures that are printed. *)
Record Stats : Type := mkStats {
  sr_count : N;
  sr_avg_size : N;
  sr_total : N;
  sr_min : N;
  sr_avg : N;
  sr_p95 : N;
  sr_p99 : N;
  sr_max : N;
}.

(** `Duration::MAX` in nanoseconds. *)
Definition duration_max : N := 18446744073709551615 * 1000000000 + 999999999.

Definition total_latency (l : list N) : N := foldr N.add 0%N l.

(** The sum of durations is checked, the count is cast to 32 bits.
    [src/dfs/client/src/bin/dfs_cli.rs:854-858 print_stats] *)
Definition average (l : list N) : outcome N :=
  match l with
  | [] => Ok 0%N
  | _ =>
      if (duration_max <? total_latency l)%N then Panic "overflow in iter::sum over durations"
      else if (wrap32 (N.of_nat (length l)) =? 0)%N then Panic "divide by zero error when dividing duration by scalar"
      else Ok (total_latency l / wrap32 (N.of_nat (length l)))%N
  end.

(** `latencies.get(latencies.len() * p / 100).cloned().unwrap_or_default()`. *)
Definition percentile (p : nat) (sorted : list N) : N := default 0%N (sorted !! (length sorted * p / 100)).

(** [src/dfs/client/src/bin/dfs_cli.rs:840-882 print_stats] *)
Definition print_stats (count avg_size total_duration : N) (latencies : list N) : outcome Stats :=
  let sorted := sort_by N.leb latencies in
  match average sorted with
  | Ok avg =>
      Ok (mkStats count avg_size total_duration (default 0%N (head sorted)) avg
            (percentile 95 sorted) (percentile 99 sorted) (default 0%N (last sorted)))
  | Err e => Err e
  | Panic w => Panic w
  end.

Definition finish (s : outcome Stats) : BProg Stats :=
  match s with Ok s => reply s | Err e => fail (BenchErr e) | Panic w => fail (BenchPanic w) end.

(** ** Jobs with bounded concurrency *)

(** `let (res, lat) = res?; let data = res?;`: bytes and latency. *)
Definition collected (j : Joined) : (N * N) + BenchStop :=
  match j with
  | TaskDied e => inr (BenchErr e)
  | TaskDone (inr e) _ => inr (BenchErr e)
  | TaskDone (inl b) lat => inl (b, lat)
  end.

(** Bytes and latencies so far. *)
Notation Tally := (N * list N)%type.
Definition add_result (t : Tally) (r : N * N) : Tally := ((t.1 + r.1)%N, t.2 ++ [r.2]).

(** `if let Some(res) = join_set.join_next().await { .. }`; [k] goes on with the
    number of tasks in flight. *)
Definition join_one (n : nat) (t : Tally) (k : nat → Tally → BProg Tally) : BProg Tally :=
  let* r := perform JoinNext in
  match r with
  | None => k n t
  | Some j => match collected j with inl r => k (n - 1) (add_result t r) | inr e => fail e end
  end.

(** `while let Some(res) = join_set.join_next().await`.
    [src/dfs/client/src/bin/dfs_cli.rs:618-622 main] *)
Fixpoint drain_jobs (fuel : nat) (t : Tally) : BProg Tally :=
  match fuel with
  | 0 => fail OutOfFuel
  | S fuel =>
      let* r := perform JoinNext in
      match r with
      | None => reply t
      | Some j => match collected j with inl r => drain_jobs fuel (add_result t r) | inr e => fail e end
      end
  end.

(** Spawn one task per job; when [concurrency] are in flight, wait for one. [n]
    is `join_set.len()`. [src/dfs/client/src/bin/dfs_cli.rs:596-622 main] *)
Fixpoint run_jobs (spawn : string → BenchEffect unit) (concurrency : nat) (jobs : list string) (n : nat) (t : Tally)
  : BProg Tally :=
  match jobs with
  | [] => drain_jobs (S n) t
  | job :: jobs =>
      do* perform (spawn job) in
      if concurrency <=? S n then join_one (S n) t (run_jobs spawn concurrency jobs)
      else run_jobs spawn concurrency jobs (S n) t
  end.

(** `{:010}`. *)
Definition zero_padded (n : N) : string :=
  let s := pretty n in String.concat "" (replicate (10 - String.length s) "0") +:+ s.

(** [src/dfs/client/src/bin/dfs_cli.rs:600 main] *)
Definition bench_name (prefix : string) (run_id : N) (kind : string) (i : N) : string :=
  prefix +:+ "/" +:+ pretty run_id +:+ "/" +:+ kind +:+ zero_padded i.

(** [src/dfs/client/src/bin/dfs_cli.rs:574-626 main] *)
Definition bench_write (count : nat) (size : N) (concurrency : nat) (prefix : string) : BProg Stats :=
  do* perform (Say ("🚀 Starting Write Benchmark: " +:+ pretty (N.of_nat count) +:+ " files, " +:+ pretty size +:+
                    " bytes each, concurrency=" +:+ pretty (N.of_nat concurrency))) in
  let* start := perform Now in
  let* run_id := perform UnixSecs in
  let? t := run_jobs (λ f, SpawnWrite f size) concurrency
              (List.map (λ i, bench_name prefix run_id "bench_" (N.of_nat i)) (seq 0 count)) 0 (0%N, []) in
  let* stop := perform Now in
  finish (print_stats (N.of_nat count) size (stop - start)%N t.2).

(** [None] when no file matches. [src/dfs/client/src/bin/dfs_cli.rs:627-693 main] *)
Definition bench_read (prefix : string) (concurrency : nat) : BProg (option Stats) :=
  do* perform (Say ("🚀 Starting Read Benchmark: prefix=" +:+ prefix +:+ ", concurrency=" +:+
                    pretty (N.of_nat concurrency))) in
  let* files := perform ListAllFiles in
  match files with
  | inr e => fail (BenchErr e)
  | inl all_files =>
      match List.filter (String.prefix prefix) all_files with
      | [] => do* perform (Say ("No files found matching prefix: " +:+ prefix)) in reply None
      | target_files =>
          do* perform (Say ("Found " +:+ pretty (N.of_nat (length target_files)) +:+ " files to read")) in
          let* start := perform Now in
          let? t := run_jobs SpawnRead concurrency target_files 0 (0%N, []) in
          let* stop := perform Now in
          let? s := finish (print_stats (N.of_nat (length t.2)) (t.1 / N.max (N.of_nat (length t.2)) 1)%N
                              (stop - start)%N t.2) in
          reply (Some s)
      end
  end.

(** ** The stress test *)

Record Stress : Type := mkStress {
  total_ops : N;
  success_count : N;
  error_count : N;
  st_latencies : list N;
  in_flight : nat;
}.

Definition spawned (s : Stress) : Stress :=
  mkStress (total_ops s + 1) (success_count s) (error_count s) (st_latencies s) (S (in_flight s)).

(** [src/dfs/client/src/bin/dfs_cli.rs:765-779 main] *)
Definition joined (j : Joined) (s : Stress) : Stress :=
  match j with
  | TaskDone (inl _) lat =>
      mkStress (total_ops s) (success_count s + 1) (error_count s) (st_latencies s ++ [lat]) (in_flight s - 1)
  | _ => mkStress (total_ops s) (success_count s) (error_count s + 1) (st_latencies s) (in_flight s - 1)
  end.

Section stress.
  Context (size : N) (concurrency : nat) (prefix : string) (run_id start end_time duration : N).

(** `while join_set.len() < concurrency && Instant::now() < end_time`; [room] is
    what is left of the concurrency.
    [src/dfs/client/src/bin/dfs_cli.rs:746-757 main] *)
Fixpoint spawn_more (room : nat) (s : Stress) : Prog BenchEffect Stress :=
  match room with
  | 0 => Ret s
  | S room =>
      let* now := perform Now in
      if (now <? end_time)%N then
        do* perform (SpawnWrite (bench_name prefix run_id "stress_" (total_ops s)) size) in
        spawn_more room (spawned s)
      else Ret s
  end.

(** The progress line; its floating-point figures are left out.
    [src/dfs/client/src/bin/dfs_cli.rs:730-743 main] *)
Definition progress_report (now last_report : N) (s : Stress) : Prog BenchEffect N :=
  if (5 <=? (now - last_report) / 1000000000)%N then
    let* _ := perform Now in
    do* perform (Say ("⏱️  Progress: Success: " +:+ pretty (success_count s) +:+ ", Errors: " +:+
                      pretty (error_count s))) in
    Ret now
  else Ret last_report.

(** One round of the loop uses one unit of fuel.
    [src/dfs/client/src/bin/dfs_cli.rs:723-790 main] *)
Fixpoint stress_loop (fuel : nat) (last_report : N) (s : Stress) : BProg Stress :=
  match fuel with
  | 0 => fail OutOfFuel
  | S fuel =>
      let* now := perform Now in
      if (end_time <=? now)%N && (in_flight s =? 0) then reply s
      else
        let* last_report := progress_report now last_report s in
        let* s := spawn_more (concurrency - in_flight s) s in
        if negb (in_flight s =? 0) then
          let* r := perform JoinNext in
          stress_loop fuel last_report (match r with Some j => joined j s | None => s end)
        else
          let* now := perform Now in
          if (now <? end_time)%N then do* perform Sleep10ms in stress_loop fuel last_report s
          else
            let* now := perform Now in
            if (end_time <=? now)%N then reply s else stress_loop fuel last_report s
  end.

End stress.

(** [src/dfs/client/src/bin/dfs_cli.rs:694-804 main] *)
Definition bench_stress_write (fuel : nat) (duration size : N) (concurrency : nat) (prefix : string) : BProg Stats :=
  do* perform (Say ("🔥 Starting Write Stress Test: duration=" +:+ pretty duration +:+ "s, size=" +:+ pretty size +:+
                    " bytes, concurrency=" +:+ pretty (N.of_nat concurrency))) in
  let* start := perform Now in
  let end_time := (start + duration * 1000000000)%N in
  let* run_id := perform UnixSecs in
  let* last_report := perform Now in
  let? s := stress_loop size concurrency prefix run_id end_time fuel last_report (mkStress 0 0 0 [] 0) in
  let* stop := perform Now in
  do* perform (Say "🚨 Stress Test Completed!") in
  do* perform (Say ("Total Success: " +:+ pretty (success_count s))) in
  do* perform (Say ("Total Errors:  " +:+ pretty (error_count s))) in
  finish (print_stats (success_count s) size (stop - start)%N (st_latencies s)).

(** ** Executions *)

(** The tasks in flight, the jobs that succeeded, the errors of the others, the
    most tasks there were at once, and the clock. *)
Record Bench : Type := mkBench {
  bw_flight : list string;
  bw_done : list string;
  bw_errors : list string;
  bw_peak : nat;
  bw_clock : N;
}.

Definition bench_start (t : N) : Bench := mkBench [] [] [] 0 t.

Definition start_task (f : string) (w : Bench) : Bench :=
  mkBench (f :: bw_flight w) (bw_done w) (bw_errors w) (bw_peak w `max` S (length (bw_flight w))) (bw_clock w).

(** A task ends with success or with an error. *)
Definition end_task (f : string) (flight : list string) (j : Joined) (w : Bench) : Bench :=
  match j with
  | TaskDone (inl _) _ => mkBench flight (bw_done w ++ [f]) (bw_errors w) (bw_peak w) (bw_clock w)
  | TaskDone (inr e) _ | TaskDied e => mkBench flight (bw_done w) (bw_errors w ++ [e]) (bw_peak w) (bw_clock w)
  end.

Definition bench_performs {B} (e : BenchEffect B) : Bench → B → Bench → Prop :=
  match e in BenchEffect B return Bench → B → Bench → Prop with
  | SpawnWrite f _ | SpawnRead f => λ w _ w', w' = start_task f w
  | JoinNext => λ w r w',
      match r with
      | None => bw_flight w = [] ∧ w' = w
      | Some j => ∃ f flight, bw_flight w ≡ₚ f :: flight ∧ w' = end_task f flight j w
      end
  | Now => λ w t w',
      (bw_clock w ≤ t)%N ∧ w' = mkBench (bw_flight w) (bw_done w) (bw_errors w) (bw_peak w) t
  | UnixSecs => λ w _ w', w' = w
  | ListAllFiles => λ w _ w', w' = w
  | Sleep10ms => λ w _ w', w' = w
  | Say _ => λ w _ w', w' = w
  end.

(** Nothing else touches the join set. *)
Notation bx := (exec (@bench_performs) eq).

Lemma bx_vis {A B} (e : BenchEffect B) (k : B → Prog BenchEffect A) w a w' :
  bx (prog_bind (perform e) k) w a w' ↔ ∃ b w1, bench_performs e w b w1 ∧ bx (k b) w1 a w'.
Proof. simpl. naive_solver. Qed.

(** *** Jobs *)

(** What a loop over jobs keeps: [n] tasks in flight, one result per job that
    is done, no error so far. *)
Record counted (concurrency : nat) (jobs : list string) (n : nat) (t : Tally) (w : Bench) : Prop := {
  ct_flight : length (bw_flight w) = n;
  ct_done : length t.2 = length (bw_done w);
  ct_jobs : bw_done w ++ bw_flight w ≡ₚ jobs;
  ct_errors : bw_errors w = [];
  ct_peak : bw_peak w ≤ max 1 concurrency;
}.

Definition jobs_done (concurrency : nat) (jobs : list string) (r : Tally + BenchStop) (w : Bench) : Prop :=
  bw_peak w ≤ max 1 concurrency ∧
  match r with
  | inl t => length t.2 = length jobs ∧ bw_done w ≡ₚ jobs ∧ bw_flight w = [] ∧ bw_errors w = []
  | inr (BenchErr e) => bw_errors w = [e]
  | inr _ => False
  end.

(** Joining a task: it was the result of a job, or its error ends the run. *)
Lemma joined_counted concurrency jobs n t w j w1 :
  counted concurrency jobs n t w → bench_performs JoinNext w (Some j) w1 →
  match collected j with
  | inl r => 0 < n ∧ counted concurrency jobs (n - 1) (add_result t r) w1
  | inr e => jobs_done concurrency jobs (inr e) w1
  end.
Proof.
  intros [Hf Hd Hj He Hp] (f & flight & Hperm & ->). apply Permutation_length in Hperm as Hlen. simpl in Hlen.
  destruct j as [e|[b|e] lat]; simpl; [split; simpl; [done|by rewrite He]| |split; simpl; [done|by rewrite He]].
  split; [lia|]. split; simpl; [lia| | |done|done].
  - rewrite !length_app, Hd. simpl. lia.
  - rewrite <- Hj, Hperm, <- app_assoc. done.
Qed.

Lemma drain_jobs_spec concurrency jobs fuel n t w r w' :
  counted concurrency jobs n t w → n < fuel → bx (drain_jobs fuel t) w r w' → jobs_done concurrency jobs r w'.
Proof.
  revert n t w. induction fuel as [|fuel IH]; intros n t w Hc Hn Hx; [lia|]. cbn [drain_jobs] in Hx.
  apply bx_vis in Hx as ([j|] & w1 & Hj & Hx).
  - pose proof (joined_counted _ _ _ _ _ _ _ Hc Hj) as Hc'. destruct (collected j) as [r1|e].
    + destruct Hc' as [? Hc']. eapply IH; [exact Hc'|lia|exact Hx].
    + destruct Hx as [-> ->]. exact Hc'.
  - destruct Hj as [Hnil ->], Hx as [-> ->], Hc as [Hf Hd Hj He Hp]. rewrite Hnil, app_nil_r in Hj.
    split; [done|]. simpl. rewrite Hd, Hj. done.
Qed.

Lemma spawned_counted concurrency jobs n t w f :
  S n ≤ max 1 concurrency → counted concurrency jobs n t w →
  counted concurrency (jobs ++ [f]) (S n) t (start_task f w).
Proof.
  intros Hn [Hf Hd Hj He Hp]. split; simpl; [lia|done| |done|rewrite Hf; lia].
  rewrite <- Permutation_middle, Hj. by rewrite Permutation_app_comm.
Qed.

Lemma run_jobs_spec (spawn : string → BenchEffect unit) concurrency jobs n t before w r w' :
  (∀ f w b w1, bench_performs (spawn f) w b w1 → w1 = start_task f w) →
  S n ≤ max 1 concurrency → counted concurrency before n t w →
  bx (run_jobs spawn concurrency jobs n t) w r w' → jobs_done concurrency (before ++ jobs) r w'.
Proof.
  intros Hspawn. revert n t before w. induction jobs as [|job jobs IH]; intros n t before w Hn Hc Hx.
  { rewrite app_nil_r. eapply drain_jobs_spec; [exact Hc| |exact Hx]. lia. }
  cbn [run_jobs] in Hx. apply bx_vis in Hx as (b & w1 & ->%Hspawn & Hx).
  pose proof (spawned_counted _ _ _ _ _ job Hn Hc) as Hc1. rewrite cons_middle, app_assoc.
  destruct (Nat.leb_spec concurrency (S n)) as [Hle|Hlt]; [|by eapply IH; [|exact Hc1|exact Hx]; lia].
  apply bx_vis in Hx as ([j|] & w2 & Hj & Hx).
  - pose proof (joined_counted _ _ _ _ _ _ _ Hc1 Hj) as Hc2. destruct (collected j) as [r1|e].
    + destruct Hc2 as [_ Hc2]. eapply IH; [|exact Hc2|exact Hx]. lia.
    + destruct Hx as [-> ->]. destruct Hc2 as [Hp Hc2]. by split.
  - destruct Hj as [Hnil _]. by destruct Hc1 as [Hf _ _ _ _]; rewrite Hnil in Hf.
Qed.

(** *** The stress test *)

Record accounted (concurrency : nat) (s : Stress) (w : Bench) : Prop := {
  ac_flight : length (bw_flight w) = in_flight s;
  ac_total : total_ops s = (success_count s + error_count s + N.of_nat (in_flight s))%N;
  ac_success : success_count s = N.of_nat (length (st_latencies s));
  ac_done : length (bw_done w) = length (st_latencies s);
  ac_room : in_flight s ≤ concurrency;
  ac_peak : bw_peak w ≤ concurrency;
}.

Lemma accounted_clock concurrency s w t :
  accounted concurrency s w →
  accounted concurrency s (mkBench (bw_flight w) (bw_done w) (bw_errors w) (bw_peak w) t).
Proof. by intros []. Qed.

Lemma accounted_spawn concurrency s w f :
  in_flight s < concurrency → accounted concurrency s w → accounted concurrency (spawned s) (start_task f w).
Proof. intros Hr [Hf Ht Hs Hd Hroom Hp]. split; simpl; lia. Qed.

Lemma accounted_join concurrency s w j f flight :
  bw_flight w ≡ₚ f :: flight → accounted concurrency s w →
  accounted concurrency (joined j s) (end_task f flight j w) ∧ S (in_flight (joined j s)) = in_flight s.
Proof.
  intros Hperm [Hf Ht Hs Hd Hroom Hp]. apply Permutation_length in Hperm. simpl in Hperm.
  destruct j as [e|[b|e] lat]; simpl; (split; [split; simpl; rewrite ?length_app; simpl|]); lia.
Qed.

Lemma spawn_more_spec size concurrency prefix run_id end_time room s w s' w' :
  room = concurrency - in_flight s → accounted concurrency s w →
  bx (spawn_more size prefix run_id end_time room s) w s' w' →
  accounted concurrency s' w' ∧ (bw_clock w ≤ bw_clock w')%N ∧ ((end_time ≤ bw_clock w)%N → s' = s).
Proof.
  revert s w. induction room as [|room IH]; intros s w Hroom Ha Hx.
  { destruct Hx as [-> ->]. done. }
  cbn [spawn_more] in Hx. apply bx_vis in Hx as (now & w1 & [Hclk ->] & Hx). apply (accounted_clock _ _ _ now) in Ha.
  destruct (N.ltb_spec now end_time).
  - apply bx_vis in Hx as ([] & w2 & -> & Hx). apply (accounted_spawn _ _ _ (bench_name prefix run_id "stress_" (total_ops s))) in Ha; [|lia].
    edestruct IH as (? & Hc & _); [|exact Ha|exact Hx|]; [simpl; lia|]. simpl in Hc. split_and!; [done|lia|lia].
  - destruct Hx as [-> ->]. done.
Qed.

Lemma progress_report_spec now last s w r w' :
  bx (progress_report now last s) w r w' →
  ∃ t, (bw_clock w ≤ t)%N ∧ w' = mkBench (bw_flight w) (bw_done w) (bw_errors w) (bw_peak w) t.
Proof.
  unfold progress_report. case_match.
  - intros (t & w1 & [? ->] & (b & w2 & -> & [_ ->])%bx_vis)%bx_vis. eauto.
  - intros [_ ->]. exists (bw_clock w). by destruct w.
Qed.

(** One round that does not end: what goes on, and that it joined a task when
    the time was over. *)
Lemma stress_round size concurrency prefix run_id end_time fuel last s w r w' :
  accounted concurrency s w →
  bx (stress_loop size concurrency prefix run_id end_time (S fuel) last s) w r w' →
  (∃ s' w1, r = inl s' ∧ w' = w1 ∧ accounted concurrency s' w1 ∧ in_flight s' = 0) ∨
  (∃ last' s' w1, accounted concurrency s' w1 ∧ (bw_clock w ≤ bw_clock w1)%N ∧
     ((end_time ≤ bw_clock w)%N → S (in_flight s') = in_flight s) ∧
     bx (stress_loop size concurrency prefix run_id end_time fuel last' s') w1 r w').
Proof.
  intros Ha Hx. cbn [stress_loop] in Hx. apply bx_vis in Hx as (now & w1 & [Hclk ->] & Hx).
  apply (accounted_clock _ _ _ now) in Ha.
  destruct ((end_time <=? now)%N && (in_flight s =? 0)) eqn:Eend.
  { apply andb_true_iff in Eend as [_ Eend%Nat.eqb_eq]. destruct Hx as [-> ->]. left. eauto 10. }
  apply exec_bind in Hx as (last' & w2 & (t2 & Hclk2 & ->)%progress_report_spec & Hx). simpl in Hclk2.
  apply (accounted_clock _ _ _ t2) in Ha. simpl in Ha.
  apply exec_bind in Hx as (s3 & w3 & Hsp & Hx).
  destruct (spawn_more_spec _ _ _ _ _ _ _ _ _ _ eq_refl Ha Hsp) as (Ha3 & Hclk3 & Hsame). simpl in Hclk3, Hsame.
  destruct (in_flight s3 =? 0) eqn:E3; cbn [negb] in Hx.
  - apply Nat.eqb_eq in E3. apply bx_vis in Hx as (now4 & w4 & [Hclk4 ->] & Hx).
    apply (accounted_clock _ _ _ now4) in Ha3.
    assert ((end_time ≤ bw_clock w)%N → False) as Hover.
    { intros Hle. apply andb_false_iff in Eend as [?%N.leb_gt|Eend%Nat.eqb_neq]; [lia|].
      rewrite (Hsame ltac:(lia)) in E3. lia. }
    destruct (N.ltb_spec now4 end_time).
    + apply bx_vis in Hx as ([] & w5 & -> & Hx). right. eexists _, _, _. split_and!; [exact Ha3|simpl; lia| |exact Hx].
      intros Hle. by destruct (Hover Hle).
    + apply bx_vis in Hx as (now5 & w5 & [Hclk5 ->] & Hx). apply (accounted_clock _ _ _ now5) in Ha3.
      simpl in Ha3. destruct (end_time <=? now5)%N.
      * destruct Hx as [-> ->]. left. eauto 10.
      * right. eexists _, _, _. simpl in Hclk5. split_and!; [exact Ha3|simpl; lia| |exact Hx].
        intros Hle. by destruct (Hover Hle).
  - apply Nat.eqb_neq in E3. apply bx_vis in Hx as ([j|] & w4 & Hj & Hx).
    + destruct Hj as (f & flight & Hperm & ->). destruct (accounted_join _ _ _ j _ _ Hperm Ha3) as [Ha4 Hdec].
      right. eexists _, _, _. split_and!; [exact Ha4| |intros Hle; rewrite <- (Hsame ltac:(lia)); exact Hdec|exact Hx].
      destruct j as [|[]]; simpl; lia.
    + destruct Hj as [Hnil _], Ha3 as [Hf _ _ _ _ _]. rewrite Hnil in Hf. simpl in Hf. lia.
Qed.

(** Whenever the loop ends, every operation is accounted for. *)
Lemma stress_loop_accounts size concurrency prefix run_id end_time fuel last s w s' w' :
  accounted concurrency s w →
  bx (stress_loop size concurrency prefix run_id end_time fuel last s) w (inl s') w' →
  accounted concurrency s' w' ∧ in_flight s' = 0.
Proof.
  revert last s w. induction fuel as [|fuel IH]; intros last s w Ha Hx; [by destruct Hx|].
  apply stress_round in Hx as [(s1 & w1 & E & -> & ? & ?)|(last1 & s1 & w1 & Ha1 & _ & _ & Hx)]; [|by eapply IH|done].
  by simplify_eq.
Qed.

(** When the time is over, each round waits for one task: the loop ends after
    as many rounds as there are tasks in flight, and one more. *)
Lemma stress_loop_ends size concurrency prefix run_id end_time fuel last s w r w' :
  accounted concurrency s w → (end_time ≤ bw_clock w)%N → in_flight s < fuel →
  bx (stress_loop size concurrency prefix run_id end_time fuel last s) w r w' →
  ∃ s', r = inl s'.
Proof.
  revert last s w. induction fuel as [|fuel IH]; intros last s w Ha Hend Hfuel Hx; [lia|].
  apply stress_round in Hx as [(s1 & w1 & E & _)|(last1 & s1 & w1 & Ha1 & Hclk & Hdec & Hx)]; [eauto| |done].
  specialize (Hdec Hend). eapply IH; [exact Ha1|lia|lia|exact Hx].
Qed.

(** ** The statistics are those of the sample *)

Notation ascending := (StronglySorted (λ x y, N.leb x y = true)).

Lemma ascending_lookup l i j x y :
  ascending l → i ≤ j → l !! i = Some x → l !! j = Some y → (x ≤ y)%N.
Proof.
  intros Hs. revert i j. induction Hs as [|a l Hs IH Ha]; intros i j Hij Hi Hj; [done|].
  destruct i, j; simpl in *; simplify_eq; [lia| |lia|eapply (IH i j); [lia|done|done]].
  rewrite Forall_forall in Ha. apply N.leb_le, Ha. by eapply list_elem_of_lookup_2.
Qed.

(** How many of the sample are at most [x]. *)
Definition at_most (x : N) (l : list N) : nat := length (List.filter (λ y, (y <=? x)%N) l).

Lemma at_most_perm x l l' : l ≡ₚ l' → at_most x l = at_most x l'.
Proof. unfold at_most. induction 1; simpl; repeat case_match; simpl; congruence. Qed.

Lemma at_most_lookup l i x : ascending l → l !! i = Some x → i < at_most x l.
Proof.
  intros Hs. revert i. induction Hs as [|a l Hs IH Ha]; intros i Hi; [done|]. unfold at_most in *. cbn [List.filter].
  assert ((a <=? x)%N = true) as ->.
  { destruct i; simpl in Hi; simplify_eq; [apply N.leb_refl|]. rewrite Forall_forall in Ha.
    apply Ha. by eapply list_elem_of_lookup_2. }
  destruct i; simpl in *; [lia|]. apply IH in Hi. lia.
Qed.

Lemma percentile_lookup p l : l ≠ [] → p < 100 → l !! (length l * p / 100) = Some (percentile p l).
Proof.
  intros Hl Hp. unfold percentile. destruct (lookup_lt_is_Some_2 l (length l * p / 100)) as [x ->]; [|done].
  apply Nat.Div0.div_lt_upper_bound. destruct l; [done|]. cbn [length]. nia.
Qed.

Lemma percentile_covers p l :
  ascending l → l ≠ [] → p < 100 → length l * p < 100 * at_most (percentile p l) l.
Proof.
  intros Hs Hl Hp. pose proof (at_most_lookup _ _ _ Hs (percentile_lookup p l Hl Hp)).
  pose proof (Nat.div_mod_eq (length l * p) 100). pose proof (Nat.mod_upper_bound (length l * p) 100). lia.
Qed.

Lemma total_bounds l lo hi :
  Forall (λ x, lo ≤ x ∧ x ≤ hi)%N l →
  (N.of_nat (length l) * lo ≤ total_latency l ∧ total_latency l ≤ N.of_nat (length l) * hi)%N.
Proof. induction 1 as [|x l [? ?] _ [? ?]]; simpl; [lia|]. unfold total_latency in *. cbn [foldr]. nia. Qed.

Lemma total_perm l l' : l ≡ₚ l' → total_latency l = total_latency l'.
Proof. unfold total_latency. induction 1; simpl; lia. Qed.

Lemma average_bounds l lo hi avg :
  l ≠ [] → (N.of_nat (length l) < u32_mod)%N → Forall (λ x, lo ≤ x ∧ x ≤ hi)%N l → average l = Ok avg →
  (lo ≤ avg ∧ avg ≤ hi)%N.
Proof.
  intros Hl Hn Hb. unfold average. destruct l as [|x l]; [done|]. set (k := x :: l) in *. case_match; [done|].
  unfold wrap32. rewrite N.mod_small by done. case_match; [done|]. intros E. injection E as <-. fold k.
  change (x + total_latency l)%N with (total_latency k). change (S (length l)) with (length k).
  destruct (total_bounds k lo hi Hb) as [Hlo Hhi].
  assert (N.of_nat (length k) ≠ 0%N) by (by apply N.eqb_neq). split.
  - apply N.div_le_lower_bound; lia.
  - apply N.Div0.div_le_upper_bound. lia.
Qed.

Lemma average_ok l :
  l ≠ [] → (N.of_nat (length l) < u32_mod)%N → (total_latency l ≤ duration_max)%N → ∃ avg, average l = Ok avg.
Proof.
  intros Hl Hn Ht. unfold average. destruct l as [|x l]; [done|]. rewrite (proj2 (N.ltb_ge _ _)) by done.
  unfold wrap32. rewrite N.mod_small by done. rewrite (proj2 (N.eqb_neq _ _)) by (simpl; lia). eauto.
Qed.

(** The latency statistics of a benchmark are those of its sample: for a
    sample that is not empty and whose sum is a representable duration,
    `print_stats` does not panic, the least and the greatest latency bound the
    sample, the average and the percentiles lie between them in order, all but
    the average are latencies that were measured, and more than 95 (99) percent
    of the sample are at most the 95th (99th) percentile. *)
Theorem print_stats_spec count avg_size total latencies :
  latencies ≠ [] → (N.of_nat (length latencies) < u32_mod)%N → (total_latency latencies ≤ duration_max)%N →
  ∃ s, print_stats count avg_size total latencies = Ok s ∧
    (sr_min s ≤ sr_p95 s ∧ sr_p95 s ≤ sr_p99 s ∧ sr_p99 s ≤ sr_max s ∧ sr_min s ≤ sr_avg s ∧ sr_avg s ≤ sr_max s)%N ∧
    Forall (λ x, sr_min s ≤ x ∧ x ≤ sr_max s)%N latencies ∧
    Forall (λ x, x ∈ latencies) [sr_min s; sr_p95 s; sr_p99 s; sr_max s] ∧
    length latencies * 95 < 100 * at_most (sr_p95 s) latencies ∧
    length latencies * 99 < 100 * at_most (sr_p99 s) latencies.
Proof.
  intros Hne Hn Ht. unfold print_stats. set (l := sort_by N.leb latencies).
  assert (l ≡ₚ latencies) as Hp by apply sort_by_perm.
  assert (ascending l) as Hs.
  { apply sort_by_sorted; [intros x y; rewrite !N.leb_le; lia|intros x y z; rewrite !N.leb_le; lia]. }
  assert (l ≠ []) as Hl by (intros E; rewrite E in Hp; by apply Permutation_nil_l in Hp; subst).
  rewrite <- Hp in Hn. rewrite <- (total_perm _ _ Hp) in Ht. destruct (average_ok l Hl Hn Ht) as [avg Ea].
  rewrite Ea. eexists. split; [done|]. simpl.
  pose proof (percentile_lookup 95 l Hl ltac:(lia)) as H95. pose proof (percentile_lookup 99 l Hl ltac:(lia)) as H99.
  assert (l !! 0 = Some (default 0%N (head l))) as H0 by (by destruct l).
  assert (l !! pred (length l) = Some (default 0%N (last l))) as H1.
  { rewrite <- last_lookup. by destruct (proj2 (last_is_Some l) Hl) as [? ->]. }
  assert (Forall (λ x, default 0 (head l) ≤ x ∧ x ≤ default 0 (last l))%N l) as Hb.
  { apply Forall_lookup. intros i x Hi. apply lookup_lt_Some in Hi as Hlt. split.
    - eapply (ascending_lookup l 0 i); eauto with lia.
    - eapply (ascending_lookup l i (pred (length l))); eauto with lia. }
  split; [|split; [by rewrite <- Hp|split]].
  - pose proof (average_bounds _ _ _ _ Hl Hn Hb Ea). rewrite Forall_forall in Hb.
    split_and!; try lia; [by apply Hb; eapply list_elem_of_lookup_2| |by apply Hb; eapply list_elem_of_lookup_2].
    eapply (ascending_lookup l _ _ _ _ Hs); [|exact H95|exact H99]. apply Nat.Div0.div_le_mono. lia.
  - repeat constructor; rewrite <- Hp; by eapply list_elem_of_lookup_2.
  - rewrite <- !(at_most_perm _ l latencies), <- (Permutation_length Hp) by done.
    split; apply percentile_covers; (done || lia).
Qed.

Lemma print_stats_spec_witness :
  print_stats 4 100 1000 [30%N; 10%N; 40%N; 20%N] = Ok (mkStats 4 100 1000 10 25 40 40 40) ∧
  ∃ s, print_stats 4 100 1000 [30%N; 10%N; 40%N; 20%N] = Ok s ∧ (sr_min s ≤ sr_p95 s)%N.
Proof.
  split; [vm_compute; reflexivity|].
  destruct (print_stats_spec 4 100 1000 [30%N; 10%N; 40%N; 20%N]) as (s & E & H & _); [discriminate|vm_compute; reflexivity| |].
  - vm_compute. discriminate.
  - exists s. split; [exact E|apply H].
Defined.

(** ** The benchmarks as a whole *)

Lemma bench_start_counted concurrency t0 w :
  bw_flight w = [] → bw_done w = [] → bw_errors w = [] → bw_peak w = 0 → t0 = (0%N, []) → counted concurrency [] 0 t0 w.
Proof. intros Hf Hd He Hp ->. split; rewrite ?Hf, ?Hd, ?Hp; (done || simpl; lia). Qed.

Lemma finish_spec s w r w' : bx (finish s) w r w' → w' = w ∧ r = match s with
  | Ok s => inl s | Err e => inr (BenchErr e) | Panic e => inr (BenchPanic e) end.
Proof. destruct s; by intros [-> ->]. Qed.

Lemma print_stats_not_err count avg_size total l e : print_stats count avg_size total l ≠ Err e.
Proof. unfold print_stats, average. by repeat case_match. Qed.

Lemma print_stats_count count avg_size total l s : print_stats count avg_size total l = Ok s → sr_count s = count.
Proof. unfold print_stats. destruct (average _); [|done|done]. by intros [= <-]. Qed.

(** C30. The write benchmark, in whatever order its tasks finish: it never has
    more tasks in flight than the concurrency asks for (one when that is zero);
    it reports statistics only when every one of the [count] files was written,
    the reported count is [count] and no task is left; an error ends it, and is
    the error of a task; and the loops that collect the results always end. *)
Theorem bench_write_runs count size concurrency prefix t r w' :
  bx (bench_write count size concurrency prefix) (bench_start t) r w' →
  bw_peak w' ≤ max 1 concurrency ∧
  match r with
  | inl s => sr_count s = N.of_nat count ∧ bw_flight w' = [] ∧ bw_errors w' = [] ∧
      ∃ run_id, bw_done w' ≡ₚ List.map (λ i, bench_name prefix run_id "bench_" (N.of_nat i)) (seq 0 count)
  | inr (BenchErr e) => bw_errors w' = [e]
  | inr (BenchPanic _) => length (bw_done w') = count
  | inr OutOfFuel => False
  end.
Proof.
  unfold bench_write. intros (? & w1 & -> & Hx)%bx_vis. apply bx_vis in Hx as (start & w2 & [_ ->] & Hx).
  apply bx_vis in Hx as (run_id & w3 & -> & Hx). apply exec_try in Hx as (rt & w4 & Hjobs & Hx).
  set (names := List.map _ (seq 0 count)) in *.
  eapply (run_jobs_spec _ concurrency names 0 (0%N, []) []) in Hjobs;
    [|by intros f w b w1 ->|lia|by apply bench_start_counted]. destruct Hjobs as [Hpeak Hr].
  destruct rt as [tally|stop].
  - destruct Hr as (Hlen & Hdone & Hflight & Herr). apply bx_vis in Hx as (stop & w5 & [_ ->] & Hx).
    apply finish_spec in Hx as [-> ->]. simpl. split; [done|].
    destruct (print_stats _ _ _ _) as [s|e|e] eqn:E.
    + apply print_stats_count in E. split_and!; [done..|]. by exists run_id.
    + by apply print_stats_not_err in E.
    + rewrite Hdone. simpl. subst names. by rewrite List.length_map, List.length_seq.
  - destruct Hx as [-> ->]. split; [done|]. destruct stop; [exact Hr|by destruct Hr|by destruct Hr].
Qed.

(** An execution in which the oldest task finishes first, without failures. *)
Definition bench_step (B : Type) (e : BenchEffect B) : Bench → B * Bench :=
  match e in BenchEffect B return Bench → B * Bench with
  | SpawnWrite f _ | SpawnRead f => λ w, (tt, start_task f w)
  | JoinNext => λ w,
      match bw_flight w with
      | [] => (None, w)
      | f :: flight => (Some (TaskDone (inl 0%N) 7), end_task f flight (TaskDone (inl 0%N) 7) w)
      end
  | Now => λ w, let t := (bw_clock w + 1000)%N in (t, mkBench (bw_flight w) (bw_done w) (bw_errors w) (bw_peak w) t)
  | UnixSecs => λ w, (1700000000%N, w)
  | ListAllFiles => λ w, (inl ["bench_write/1"; "other"; "bench_write/2"], w)
  | Sleep10ms => λ w, (tt, w)
  | Say _ => λ w, (tt, w)
  end.

Lemma bench_step_performs B (e : BenchEffect B) w : bench_performs e w (bench_step B e w).1 (bench_step B e w).2.
Proof.
  destruct e; simpl; try done.
  - destruct (bw_flight w) as [|f flight] eqn:E; simpl; [done|]. by exists f, flight.
  - split; [lia|done].
Qed.

Lemma bench_run_exec {A} (p : Prog BenchEffect A) w : bx p w (run bench_step p w).1 (run bench_step p w).2.
Proof. apply run_exec; [done|]. intros B e w1. apply bench_step_performs. Qed.

Lemma bench_write_runs_witness :
  let r := run bench_step (bench_write 3 1 2 "p") (bench_start 5) in
  bw_peak r.2 = 2 ∧ length (bw_done r.2) = 3 ∧ r.1 = inl (mkStats 3 1 1000 7 7 7 7 7) ∧ bw_peak r.2 ≤ max 1 2.
Proof.
  intros r. split; [vm_compute; reflexivity|]. split; [vm_compute; reflexivity|].
  split; [vm_compute; reflexivity|].
  pose proof (bench_run_exec (bench_write 3 1 2 "p") (bench_start 5)) as Hx.
  exact (proj1 (bench_write_runs 3 1 2 "p" 5 _ _ Hx)).
Defined.

(** The stress test accounts for every operation: when it reports, the tasks
    that were spawned are those that succeeded and those that failed, and at
    most [concurrency] ran at once; and when its time is over it only waits for
    the tasks in flight. *)
Theorem stress_accounts size concurrency prefix run_id end_time fuel last t s w' :
  bx (stress_loop size concurrency prefix run_id end_time fuel last (mkStress 0 0 0 [] 0)) (bench_start t) (inl s) w' →
  total_ops s = (success_count s + error_count s)%N ∧ success_count s = N.of_nat (length (st_latencies s)) ∧
  bw_flight w' = [] ∧ bw_peak w' ≤ concurrency.
Proof.
  intros Hx. apply stress_loop_accounts in Hx as [[Hf Ht Hs Hd Hr Hp] Hz]; [|split; simpl; lia].
  split_and!; [lia|done| |done]. apply nil_length_inv. lia.
Qed.
