(* ===== verification/Cli.v ===== *)
(** * The command-line client

    dfs/client/src/bin/dfs_cli.rs: the commands, what each asks of the client
    library, of a master or of the local machine, and what it prints. A run is a
    program over these effects. The command line is given parsed; TLS is the
    choice of the address and the domain, the certificates and the transport
    are on the other side of the effects. The benchmarks are in Benchmark.v;
    the words of the operating system's errors are answers of the effects. *)

From stdpp Require Import pretty.
From Stdlib Require Import Strings.Byte.
From Stdlib Require Import SpecFloat.
From S2P Require Import Prelude BTree Text Workload Sharding MasterState Signing Checker Diagnosis Erasure Placement Healing MasterService ServiceSpec ChunkServer Benchmark Program Client.

#[local] Open Scope outcome_scope.

Notation bytes := (list byte).

(** ** Commands *)

(** [src/dfs/client/src/bin/dfs_cli.rs:168-176 SafeModeAction] *)
Inductive SafeModeAction : Type := SafeGet | SafeEnter | SafeLeave.

(** [src/dfs/client/src/bin/dfs_cli.rs:178-196 ClusterAction] *)
Inductive ClusterAction : Type :=
  | ClusterInfo
  | AddServer (server_id : N) (server_address : string)
  | RemoveServer (server_id : N).

(** [src/dfs/client/src/bin/dfs_cli.rs:128-166 BenchmarkAction] *)
Inductive BenchmarkAction : Type :=
  | BenchWrite (count : nat) (size : N) (concurrency : nat) (prefix : string)
  | BenchRead (prefix : string) (concurrency : nat)
  | BenchStress (duration size : N) (concurrency : nat) (prefix : string).

(** [src/dfs/client/src/bin/dfs_cli.rs:45-126 Commands] *)
Inductive Commands : Type :=
  | CmdLs
  | CmdPut (source dest : string) (ec_data ec_parity : Z)
  | CmdGet (source dest : string)
  | CmdInspect (p : string)
  | CmdRename (source dest : string)
  | CmdSafeMode (action : SafeModeAction)
  | CmdCluster (action : ClusterAction)
  | CmdShuffle (prefix : string)
  | CmdBenchmark (action : BenchmarkAction)
  | CmdCheckHistory (p : string) (self_test : bool)
  | CmdWorkload (config : WorkloadConfig) (history : string)
  | CmdPresign (url method : string) (expires : N) (endpoint : option string).

(** The backoff time is left out. [src/dfs/client/src/bin/dfs_cli.rs:9-43 Cli] *)
Record Cli : Type := mkCli {
  cli_master : string;
  cli_config_servers : list string;
  cli_max_retries : nat;
  cli_host_alias : list string;
  cli_ca_cert : option string;
  cli_domain_name : option string;
  cli_command : Commands;
}.

(** ** Effects *)

Inductive AdminRequest : Type :=
  | AGetSafeMode
  | ASetSafeMode (enter : bool)
  | AClusterInfo
  | AAddServer (server_id : N) (server_address : string)
  | ARemoveServer (server_id : N).

(** GetClusterInfoResponse of the protocol; a member has a number, an address
    and a flag. *)
Record ClusterView : Type := mkClusterView {
  cv_node_id : N;
  cv_role : string;
  cv_current_term : N;
  cv_leader_id : N;
  cv_leader_address : string;
  cv_commit_index : N;
  cv_last_applied : N;
  cv_members : list (N * string * bool);
}.

Inductive AdminReply : Type :=
  | RSafeMode (s : SafeModeStatus)
  | RSafeModeSet (success : bool) (error_message : string)
  | RCluster (c : ClusterView)
  | RChanged (r : Response).

(** The client library and the benchmarks; local files (open and read, create,
    append, open as lines); an environment variable; the certificate of the
    authority; a connection and the calls on it; a run of the workload
    generator; date and time; the terminal. *)
Inductive CliEffect : Type → Type :=
  | OfClient {B} (e : ClientEffect B) : CliEffect B
  | OfBench {B} (e : BenchEffect B) : CliEffect B
  | ReadLocal (p : string) : CliEffect (bytes + string)
  | CreateLocal (p : string) : CliEffect (unit + string)
  | AppendLocal (p : string) (data : bytes) : CliEffect (unit + string)
  | OpenLines (p : string) : CliEffect (list (outcome string) + string)
  | EnvVar (name : string) : CliEffect (option string)
  | LoadCa (p domain : string) : CliEffect bool
  | Connect (url : string) (tls_domain : option string) : CliEffect (unit + string)
  | Admin (rq : AdminRequest) : CliEffect (AdminReply + Status)
  | RunWorkload (config : WorkloadConfig) (history : string) : CliEffect (unit + string)
  | UtcNow : CliEffect (string * string)
  | Println (line : string) : CliEffect unit
  | Eprintln (line : string) : CliEffect unit.

(** How main ends before its end: `return Err`, `process::exit`, a panic, and a
    stress test that was cut off. *)
Inductive Stop : Type :=
  | ReturnedErr (e : string)
  | ReturnedStatus (s : Status)
  | Exited (code : N)
  | Crashed (why : string)
  | CutOff.

Notation Main A := (Prog CliEffect (A + Stop)).

(** A program of the client library, or of a benchmark, inside main. *)
Fixpoint embed {E : Type → Type} {A} (inj : ∀ B, E B → CliEffect B) (p : Prog E A) : Prog CliEffect A :=
  match p with
  | Ret a => Ret a
  | Vis e k => Vis (inj _ e) (λ b, embed inj (k b))
  end.

Definition of_failure (f : Client.Failure) : Stop :=
  match f with Client.Failed m => ReturnedErr m | Client.Panicked w => Crashed w end.

Definition of_bench_stop (b : BenchStop) : Stop :=
  match b with BenchErr e => ReturnedErr e | BenchPanic w => Crashed w | OutOfFuel => CutOff end.

(** `.await?` on an operation of the client. *)
Definition library {A} (p : CProg A) : Main A :=
  let* r := embed (@OfClient) p in Ret (match r with inl a => inl a | inr f => inr (of_failure f) end).
Definition benchmark {A} (p : BProg A) : Main A :=
  let* r := embed (@OfBench) p in Ret (match r with inl a => inl a | inr b => inr (of_bench_stop b) end).

(** An effect whose error `?` passes on. *)
Definition must {A} (e : CliEffect (A + string)) : Main A :=
  let* r := perform e in Ret (match r with inl a => inl a | inr m => inr (ReturnedErr m) end).
Definition call (rq : AdminRequest) : Main AdminReply :=
  let* r := perform (Admin rq) in Ret (match r with inl a => inl a | inr s => inr (ReturnedStatus s) end).

Definition println (line : string) : Main unit := do* perform (Println line) in reply tt.
Definition eprintln (line : string) : Main unit := do* perform (Eprintln line) in reply tt.
Definition exit {A} (code : N) : Main A := fail (Exited code).
Definition answer_of_another_kind {A} : Main A := fail (ReturnedStatus (Internal "decode error")).

Fixpoint print_all (lines : list string) : Main unit :=
  match lines with
  | [] => reply tt
  | line :: lines => do? println line in print_all lines
  end.

(** ** Addresses *)

(** `path.find('/')` and the two parts.
    [src/dfs/client/src/bin/dfs_cli.rs:198-213 parse_s3_url] *)
Definition parse_s3_url (url : string) : outcome (string * string) :=
  if String.prefix "s3://" url then
    match split_once "/" (String.substring 5 (String.length url - 5) url) with
    | (bucket, Some key) =>
        if decide (bucket = "") then Err "Bucket and key must not be empty"
        else if decide (key = "") then Err "Bucket and key must not be empty"
        else Ok (bucket, key)
    | (_, None) => Err "URL must contain a key (s3://bucket/key)"
    end
  else Err "URL must start with s3://".

(** A HashMap insert. [src/dfs/client/src/mod.rs:86-89 add_host_alias] *)
Definition add_host_alias (alias real : string) (c : Client) : Client :=
  mkClient (master_addrs c) ((alias, real) :: List.filter (λ e, negb (bool_decide (e.1 = alias))) (host_aliases c))
    (config_server_addrs c) (max_retries c) (has_ca_cert c) (hedge_delay_ms c).

(** [src/dfs/client/src/mod.rs:67-71 with_retry_config] *)
Definition with_retry_config (n : nat) (c : Client) : Client :=
  mkClient (master_addrs c) (host_aliases c) (config_server_addrs c) n (has_ca_cert c) (hedge_delay_ms c).

(** [src/dfs/client/src/mod.rs:57-65 with_tls_config] *)
Definition with_tls_config (ca_cert : option string) (c : Client) : Client :=
  mkClient (master_addrs c) (host_aliases c) (config_server_addrs c) (max_retries c) (bool_decide (is_Some ca_cert))
    (hedge_delay_ms c).

(** [src/dfs/client/src/bin/dfs_cli.rs:230-244 main] *)
Definition make_client (cli : Cli) : Client :=
  let master_addrs := trim <$> split_on "," (cli_master cli) in
  let client := with_tls_config (cli_ca_cert cli)
                  (with_retry_config (cli_max_retries cli) (client_new master_addrs (cli_config_servers cli))) in
  foldl (λ c alias_pair,
    match split_once "=" alias_pair with
    | (alias, Some real) => add_host_alias (trim alias) (trim real) c
    | (_, None) => c
    end) client (cli_host_alias cli).

(** `s.split(sep).last()`. *)
Fixpoint last_part (fuel : nat) (sep s : string) : string :=
  match fuel with
  | 0 => s
  | S fuel => match find_sub sep s with Some (_, rest) => last_part fuel sep rest | None => s end
  end.

(** [src/dfs/client/src/bin/dfs_cli.rs:253-261 connect_master] *)
Definition master_url (master : string) (has_ca : bool) : string :=
  let url := if String.prefix "http" master then master else "http://" +:+ master in
  if has_ca && String.prefix "http://" url then replace "http://" "https://" url else url.

(** [src/dfs/client/src/bin/dfs_cli.rs:266-275 connect_master] *)
Definition url_domain (url : string) : string :=
  (split_once ":" (last_part (String.length url) "://" url)).1.

(** A certificate that cannot be read leaves the connection without one.
    [src/dfs/client/src/bin/dfs_cli.rs:248-286 connect_master] *)
Definition connect_master (master : string) (ca_cert domain_name : option string) : Main unit :=
  let url := master_url master (bool_decide (is_Some ca_cert)) in
  match ca_cert with
  | None => must (Connect url None)
  | Some ca_path =>
      let domain := default (url_domain url) domain_name in
      let* loaded := perform (LoadCa ca_path domain) in
      must (Connect url (if (loaded : bool) then Some domain else None))
  end.

(** ** The commands that ask one master *)

(** `x as u32` of a float: towards zero, within the range. *)
Definition f64_to_u32 (x : f64) : N :=
  match x with
  | S754_finite false m e =>
      N.min (u32_mod - 1) (if (0 <=? e)%Z then N.shiftl (N.pos m) (Z.to_N e) else N.shiftr (N.pos m) (Z.to_N (- e)))
  | S754_infinity false => (u32_mod - 1)%N
  | _ => 0%N
  end.

(** `(response.threshold * 100.0) as u32`. *)
Definition percent (t : f64) : N := f64_to_u32 (SFmul 53 1024 t (f64_of_N 100)).

Definition yes_no (b : bool) : string := if b then "true" else "false".

(** [src/dfs/client/src/bin/dfs_cli.rs:352-397 main] *)
Definition safe_mode_command (cli : Cli) (action : SafeModeAction) : Main unit :=
  do? connect_master (cli_master cli) (cli_ca_cert cli) (cli_domain_name cli) in
  match action with
  | SafeGet =>
      let? r := call AGetSafeMode in
      match r with
      | RSafeMode s =>
          print_all ["Safe Mode Status:"; "  Active: " +:+ yes_no (st_is_safe_mode s);
                     "  Manual: " +:+ yes_no (st_is_manual s);
                     "  ChunkServers: " +:+ pretty (st_chunk_server_count s);
                     "  Blocks: " +:+ pretty (st_reported_blocks s) +:+ "/" +:+ pretty (st_expected_blocks s);
                     "  Threshold: " +:+ pretty (percent (st_threshold s)) +:+ "%"]
      | _ => answer_of_another_kind
      end
  | SafeEnter =>
      let? r := call (ASetSafeMode true) in
      match r with
      | RSafeModeSet ok e => println (if ok then "Entered Safe Mode" else "Failed to enter Safe Mode: " +:+ e)
      | _ => answer_of_another_kind
      end
  | SafeLeave =>
      let? r := call (ASetSafeMode false) in
      match r with
      | RSafeModeSet ok e => println (if ok then "Left Safe Mode" else "Failed to leave Safe Mode: " +:+ e)
      | _ => answer_of_another_kind
      end
  end.

(** A change of the cluster that was refused.
    [src/dfs/client/src/bin/dfs_cli.rs:443-448 main] *)
Definition refused (what : string) (r : Response) : list string :=
  ("Failed to " +:+ what +:+ " server: " +:+ error_message r) ::
  (if decide (leader_hint r = "") then [] else ["Leader hint: " +:+ leader_hint r]).

(** [src/dfs/client/src/bin/dfs_cli.rs:410-426 main] *)
Definition cluster_lines (c : ClusterView) : list string :=
  ["Raft Cluster Info:"; "  Node ID: " +:+ pretty (cv_node_id c); "  Role: " +:+ cv_role c;
   "  Term: " +:+ pretty (cv_current_term c); "  Leader ID: " +:+ pretty (cv_leader_id c);
   "  Leader Address: " +:+ cv_leader_address c; "  Commit Index: " +:+ pretty (cv_commit_index c);
   "  Last Applied: " +:+ pretty (cv_last_applied c);
   "  Members (" +:+ pretty (N.of_nat (length (cv_members c))) +:+ "):"] ++
  ((λ '(i, addr, is_self), "    - [" +:+ pretty (i : N) +:+ "] " +:+ addr +:+ " " +:+
      (if (is_self : bool) then "(self)" else "")) <$> cv_members c).

(** [src/dfs/client/src/bin/dfs_cli.rs:398-466 main] *)
Definition cluster_command (cli : Cli) (action : ClusterAction) : Main unit :=
  do? connect_master (cli_master cli) (cli_ca_cert cli) (cli_domain_name cli) in
  match action with
  | ClusterInfo =>
      let? r := call AClusterInfo in
      match r with RCluster c => print_all (cluster_lines c) | _ => answer_of_another_kind end
  | AddServer server_id server_address =>
      let? r := call (AAddServer server_id server_address) in
      match r with
      | RChanged r =>
          print_all (if success r then ["Added server " +:+ pretty server_id +:+ " (" +:+ server_address +:+ ") to cluster"]
                     else refused "add" r)
      | _ => answer_of_another_kind
      end
  | RemoveServer server_id =>
      let? r := call (ARemoveServer server_id) in
      match r with
      | RChanged r =>
          print_all (if success r then ["Removed server " +:+ pretty server_id +:+ " from cluster"]
                     else refused "remove" r)
      | _ => answer_of_another_kind
      end
  end.

(** ** Presigned URLs *)

Section presign.
  Context (sha256 : string → string) (hmac_sha256 : string → string → string) (hex : string → string).

(** A variable that must be set. *)
Definition env_var (name : string) : Main string :=
  let* v := perform (EnvVar name) in
  match v with Some v => reply v | None => fail (ReturnedErr (name +:+ " environment variable not set")) end.

(** The first variable that is set, or a default. *)
Fixpoint env_or (names : list string) (d : string) : Prog CliEffect string :=
  match names with
  | [] => Ret d
  | name :: names => let* v := perform (EnvVar name) in match v with Some v => Ret v | None => env_or names d end
  end.

(** The checks of the arguments.
    [src/dfs/client/src/bin/dfs_cli.rs:490-508 main] *)
Definition presign_checked (url method : string) (expires : N) : outcome (string * string * string) :=
  match parse_s3_url url with
  | Ok (bucket, key) =>
      let method_upper := map_string upper method in
      if negb (bool_decide (method_upper ∈ ["GET"; "PUT"; "DELETE"])) then
        Err ("Unsupported method '" +:+ method +:+ "'. Supported methods: GET, PUT, DELETE")
      else if (expires =? 0)%N then Err "--expires must be at least 1 second"
      else if (604800 <? expires)%N then
        Err ("--expires " +:+ pretty expires +:+ " exceeds the maximum of 604800 seconds (7 days)")
      else Ok (bucket, key, method_upper)
  | Err e => Err e
  | Panic w => Panic w
  end.

(** [src/dfs/client/src/bin/dfs_cli.rs:471-523 main] *)
Definition presign_command (url method : string) (expires : N) (endpoint : option string) : Main unit :=
  let? access_key := env_var "AWS_ACCESS_KEY_ID" in
  let? secret_key := env_var "AWS_SECRET_ACCESS_KEY" in
  let* region := env_or ["AWS_REGION"; "AWS_DEFAULT_REGION"] "us-east-1" in
  let* endpoint_url := match endpoint with Some e => Ret e | None => env_or ["S3_ENDPOINT"] "http://localhost:9000" end in
  match presign_checked url method expires with
  | Ok (bucket, key, method_upper) =>
      let params := mkPresign endpoint_url bucket key method_upper access_key secret_key region expires in
      let* now := perform UtcNow in
      println (generate_presigned_url sha256 hmac_sha256 hex params now.1 now.2)
  | Err e => fail (ReturnedErr e)
  | Panic w => fail (Crashed w)
  end.

End presign.

(** ** Histories *)

Section check_history.
  Context (from_str : string → outcome HistoryEntry).

Fixpoint eprint_all (lines : list string) : Main unit :=
  match lines with
  | [] => reply tt
  | line :: lines => do? eprintln line in eprint_all lines
  end.

(** [src/dfs/client/src/bin/dfs_cli.rs:524-558 main] *)
Definition check_history_command (p : string) (self_test : bool) : Main unit :=
  if self_test then
    match run_self_tests with
    | Ok _ => println "All checker self-tests passed."
    | Err e => do? eprintln ("Checker self-test FAILED: " +:+ e) in exit 1
    | Panic w => fail (Crashed w)
    end
  else
    let* file := perform (OpenLines p) in
    match file with
    | inr e => do? eprintln ("Cannot open " +:+ p +:+ ": " +:+ e) in exit 1
    | inl lines =>
        match read_history from_str lines with
        | Err e => do? eprintln ("Parse error: " +:+ e) in exit 1
        | Panic w => fail (Crashed w)
        | Ok ops =>
            do? println ("Parsed " +:+ pretty (N.of_nat (length ops)) +:+ " operations") in
            match linearizability_verdict ops with
            | Passed => println "Linearizability check PASSED"
            | Diagnosis.Failed violations =>
                do? eprintln "Linearizability FAILED:" in
                do? eprint_all ((λ v, "  - " +:+ Diagnosis.message v) <$> violations) in
                exit 1
            end
        end
    end.

End check_history.

(** ** The commands on files *)

Section files.
  Context `{RS : ReedSolomon}.
  Context (ring_crc : string → N) (crc32 : bytes → N) (md5_hex : bytes → string).
  Context (self : Client).

(** [src/dfs/client/src/mod.rs:202-209 create_file] *)
Definition upload (source dest : string) : Main unit :=
  let? buffer := must (ReadLocal source) in
  library (create_file_from_buffer ring_crc crc32 md5_hex self buffer dest).

(** [src/dfs/client/src/mod.rs:211-223 create_file_ec] *)
Definition upload_ec (source dest : string) (ec_data ec_parity : Z) : Main unit :=
  let? buffer := must (ReadLocal source) in
  library (create_file_from_buffer_ec ring_crc crc32 self buffer dest ec_data ec_parity).

(** [src/dfs/client/src/mod.rs:717-727 get_file] *)
Fixpoint write_blocks (dest : string) (l : list BlockInfo) : Main unit :=
  match l with
  | [] => reply tt
  | block :: l =>
      let? data := library (read_whole self block) in
      do? must (AppendLocal dest data) in
      write_blocks dest l
  end.

(** The local file is made when the file is known, and filled block by block.
    [src/dfs/client/src/mod.rs:695-728 get_file] *)
Definition download (source dest : string) : Main unit :=
  let? info := library (get_file_info ring_crc self source) in
  let? metadata := library (found info) in
  do? must (CreateLocal dest) in
  write_blocks dest (blocks metadata).

(** [src/dfs/client/src/bin/dfs_cli.rs:295-313 main] *)
Definition put_command (source dest : string) (ec_data ec_parity : Z) : Main unit :=
  if ((0 <? ec_data) && (0 <? ec_parity))%Z then
    do? upload_ec source dest ec_data ec_parity in
    println ("File uploaded successfully with EC RS(" +:+ pretty ec_data +:+ "," +:+ pretty ec_parity +:+ ")")
  else
    do? upload source dest in
    println "File uploaded successfully with replication".

(** [src/dfs/client/src/bin/dfs_cli.rs:330-343 main] *)
Definition block_line (i : nat) (block : BlockInfo) : string :=
  "    Block " +:+ pretty (N.of_nat i) +:+ ": ID=" +:+ block_id block +:+ ", Size=" +:+ pretty (block_size block) +:+
  (if (0 <? block_ec_data_shards block)%Z then
     ", EC=RS(" +:+ pretty (block_ec_data_shards block) +:+ "," +:+ pretty (block_ec_parity_shards block) +:+
     "), OriginalSize=" +:+ pretty (original_size block) +:+ ", Shards=" +:+ debug_vec (locations block)
   else ", Locations=" +:+ debug_vec (locations block)).

(** [src/dfs/client/src/bin/dfs_cli.rs:318-347 main] *)
Definition inspect_lines (p : string) (metadata : option FileMetadata) : list string :=
  match metadata with
  | Some meta =>
      ["File Metadata for: " +:+ path meta; "  Size: " +:+ pretty (file_size meta) +:+ " bytes";
       if (0 <? ec_data_shards meta)%Z then
         "  Storage: EC RS(" +:+ pretty (ec_data_shards meta) +:+ "," +:+ pretty (ec_parity_shards meta) +:+ ")"
       else "  Storage: Replicated";
       "  Blocks: " +:+ pretty (N.of_nat (length (blocks meta)))] ++ imap block_line (blocks meta)
  | None => ["File not found: " +:+ p]
  end.

End files.

Section main.
  Context `{RS : ReedSolomon}.
  Context (ring_crc : string → N) (crc32 : bytes → N) (md5_hex : bytes → string).
  Context (sha256 : string → string) (hmac_sha256 : string → string → string) (hex : string → string).
  Context (from_str : string → outcome HistoryEntry).

(** [stress_fuel] bounds the rounds of the stress test.
    [src/dfs/client/src/bin/dfs_cli.rs:573-806 main] *)
Definition benchmark_command (stress_fuel : nat) (action : BenchmarkAction) : Main unit :=
  match action with
  | BenchWrite count size concurrency prefix =>
      do? benchmark (bench_write count size concurrency prefix) in reply tt
  | BenchRead prefix concurrency => do? benchmark (bench_read prefix concurrency) in reply tt
  | BenchStress duration size concurrency prefix =>
      do? benchmark (bench_stress_write stress_fuel duration size concurrency prefix) in reply tt
  end.

(** The names of a HashSet come in any order; here in that of its elements.
    [src/dfs/client/src/bin/dfs_cli.rs:215-810 main] *)
Definition cli_main (stress_fuel : nat) (cli : Cli) : Main unit :=
  let client := make_client cli in
  match cli_command cli with
  | CmdLs =>
      let? files := library (list_all_files ring_crc client) in
      print_all (elements files)
  | CmdPut source dest ec_data ec_parity => put_command ring_crc crc32 md5_hex client source dest ec_data ec_parity
  | CmdGet source dest =>
      do? download ring_crc client source dest in
      println "File downloaded successfully"
  | CmdInspect p =>
      let? metadata := library (get_file_info ring_crc client p) in
      print_all (inspect_lines p metadata)
  | CmdRename source dest =>
      do? library (rename_file ring_crc client source dest) in
      println ("File renamed successfully: " +:+ source +:+ " -> " +:+ dest)
  | CmdSafeMode action => safe_mode_command cli action
  | CmdCluster action => cluster_command cli action
  | CmdShuffle prefix =>
      do? library (initiate_shuffle ring_crc client prefix) in
      println ("Triggered background shuffling for prefix: " +:+ prefix)
  | CmdPresign url method expires endpoint =>
      presign_command sha256 hmac_sha256 hex url method expires endpoint
  | CmdCheckHistory p self_test => check_history_command from_str p self_test
  | CmdWorkload config history =>
      let* r := perform (RunWorkload config history) in
      match r with
      | inl _ => println "Workload completed."
      | inr e => do? eprintln ("Workload failed: " +:+ e) in exit 1
      end
  | CmdBenchmark action => benchmark_command stress_fuel action
  end.

End main.
