(* ===== verification/CliSpec.v ===== *)
(** * What the commands of the client do

    Runs of the command-line client: what a download leaves in the local file,
    what presign prints, when check-history succeeds, and where the
    administrative commands connect. The client library may answer anything
    that its own environment allows. *)

From stdpp Require Import pretty.
From Stdlib Require Import Strings.Byte.
From S2P Require Import Prelude BTree Text Workload Sharding MasterState Signing Checker Diagnosis Erasure Placement Healing MasterService ServiceSpec ChunkServer Benchmark Program Client ClientRead Cli.

#[local] Open Scope outcome_scope.

(** ** Addresses of objects *)

Lemma split_once_inv c s a b : split_once c s = (a, Some b) → s = a +:+ String c b ∧ absent c a = true.
Proof.
  revert a. induction s as [|x s IH]; intros a; simpl; [done|]. case_decide as Hx; [by intros [= <- <-]; subst|].
  destruct (split_once c s) as [k [v|]] eqn:E; [|done]. intros [= <- <-]. destruct (IH k eq_refl) as [-> Ha].
  split; [done|]. simpl. by rewrite bool_decide_false.
Qed.

Lemma substring_all s : String.substring 0 (String.length s) s = s.
Proof. induction s as [|a s IH]; simpl; [done|by rewrite IH]. Qed.

Lemma substring_skip p s : String.substring (String.length p) (String.length (p +:+ s) - String.length p) (p +:+ s) = s.
Proof.
  induction p as [|a p IH]; simpl; [rewrite Nat.sub_0_r; apply substring_all|]. apply IH.
Qed.

Lemma after_scheme t : String.substring 5 (String.length ("s3://" +:+ t) - 5) ("s3://" +:+ t) = t.
Proof. apply (substring_skip "s3://" t). Qed.

(** `parse_s3_url` reads exactly the addresses `s3://bucket/key` with a bucket
    that is not empty and has no slash and a key that is not empty, and gives
    back bucket and key. *)
Lemma s3_url_spec url bucket key :
  parse_s3_url url = Ok (bucket, key) ↔
  url = "s3://" +:+ bucket +:+ "/" +:+ key ∧ bucket ≠ "" ∧ key ≠ "" ∧ absent "/" bucket = true.
Proof.
  unfold parse_s3_url. split.
  - destruct (String.prefix "s3://" url) eqn:Ep; [|done]. apply prefix_strip in Ep as [t ->].
    rewrite after_scheme. destruct (split_once "/" t) as [b [k|]] eqn:Es; [|done].
    apply split_once_inv in Es as [-> Ha]. repeat case_decide; [done..|]. by intros [= -> ->].
  - intros (-> & Hb & Hk & Ha). rewrite prefix_append.
    rewrite after_scheme. change ("/" +:+ key) with (String "/" key). rewrite split_once_app by done.
    by rewrite !decide_False.
Qed.

Lemma s3_url_unique b k b' k' :
  "s3://" +:+ b +:+ "/" +:+ k = "s3://" +:+ b' +:+ "/" +:+ k' → absent "/" b = true → absent "/" b' = true → b = b' ∧ k = k'.
Proof.
  intros E%append_inj_l Hb Hb'. apply (f_equal (split_once "/")) in E. change ("/" +:+ ?x) with (String "/" x) in E.
  rewrite !split_once_app in E by done. by injection E.
Qed.

(** ** Runs *)

Section runs.
  (** The world of the client library, what its calls may answer and do, and
      what may happen in between; the environment variables, the date and time,
      and the lines of a local file. *)
  Context {W : Type} (R : ∀ B, ClientEffect B → W → B → W → Prop) (I : W → W → Prop).
  Context (env : string → option string) (utc : string * string).
  Context (lines_of : string → list (outcome string) + string).

(** The library's world, the join set of a benchmark, the local files, what was
    printed, and the connections made. *)
Record CliWorld : Type := mkCliWorld {
  cw_client : W;
  cw_bench : Bench;
  cw_local : gmap string bytes;
  cw_out : list string;
  cw_err : list string;
  cw_connected : list (string * option string);
}.

Definition set_client (w : CliWorld) (c : W) : CliWorld :=
  mkCliWorld c (cw_bench w) (cw_local w) (cw_out w) (cw_err w) (cw_connected w).
Definition set_local (w : CliWorld) (l : gmap string bytes) : CliWorld :=
  mkCliWorld (cw_client w) (cw_bench w) l (cw_out w) (cw_err w) (cw_connected w).
Definition say (w : CliWorld) (line : string) : CliWorld :=
  mkCliWorld (cw_client w) (cw_bench w) (cw_local w) (cw_out w ++ [line]) (cw_err w) (cw_connected w).
Definition complain (w : CliWorld) (line : string) : CliWorld :=
  mkCliWorld (cw_client w) (cw_bench w) (cw_local w) (cw_out w) (cw_err w ++ [line]) (cw_connected w).

(** Local files may fail at any time; a failed write leaves something. *)
Definition cli_performs {B} (e : CliEffect B) : CliWorld → B → CliWorld → Prop :=
  match e in CliEffect B return CliWorld → B → CliWorld → Prop with
  | OfClient e => λ w b w', ∃ c, R _ e (cw_client w) b c ∧ w' = set_client w c
  | OfBench e => λ w b w', ∃ c, bench_performs e (cw_bench w) b c ∧
      w' = mkCliWorld (cw_client w) c (cw_local w) (cw_out w) (cw_err w) (cw_connected w)
  | ReadLocal p => λ w r w', w' = w ∧ match r with inl d => cw_local w !! p = Some d | inr _ => True end
  | CreateLocal p => λ w r w',
      match r with inl _ => w' = set_local w (<[p := []]> (cw_local w)) | inr _ => w' = w end
  | AppendLocal p data => λ w r w',
      match r with
      | inl _ => w' = set_local w (<[p := default [] (cw_local w !! p) ++ data]> (cw_local w))
      | inr _ => ∃ d, w' = set_local w (<[p := d]> (cw_local w))
      end
  | OpenLines p => λ w b w', b = lines_of p ∧ w' = w
  | EnvVar name => λ w v w', v = env name ∧ w' = w
  | LoadCa _ _ => λ w _ w', w' = w
  | Connect url d => λ w _ w',
      w' = mkCliWorld (cw_client w) (cw_bench w) (cw_local w) (cw_out w) (cw_err w) (cw_connected w ++ [(url, d)])
  | Admin _ => λ w _ w', w' = w
  | RunWorkload _ _ => λ w _ w', w' = w
  | UtcNow => λ w b w', b = utc ∧ w' = w
  | Println line => λ w _ w', w' = say w line
  | Eprintln line => λ w _ w', w' = complain w line
  end.

(** Between two steps of the client only the file system moves. *)
Definition between (w w' : CliWorld) : Prop := ∃ c, I (cw_client w) c ∧ w' = set_client w c.

Notation cx := (exec (@cli_performs) between).

(** Equal but for the world of the library. *)
Definition same_local (w w' : CliWorld) : Prop := w' = set_client w (cw_client w').

Lemma same_local_set w c : same_local w (set_client w c).
Proof. done. Qed.
Lemma same_local_refl w : same_local w w.
Proof. by destruct w. Qed.
Lemma same_local_trans w1 w2 w3 : same_local w1 w2 → same_local w2 w3 → same_local w1 w3.
Proof. unfold same_local. intros H1 H2. rewrite H2, H1. done. Qed.

Lemma cx_vis {A B} (e : CliEffect B) (k : B → Prog CliEffect A) w a w' :
  cx (prog_bind (perform e) k) w a w' ↔
  ∃ w1 b w2, between w w1 ∧ cli_performs e w1 b w2 ∧ cx (k b) w2 a w'.
Proof. done. Qed.

(** A program of the library inside main is a run of the library. *)
Lemma cx_embed {A} (p : Prog ClientEffect A) w a w' :
  cx (embed (@OfClient) p) w a w' ↔ ∃ c, exec R I p (cw_client w) a c ∧ w' = set_client w c.
Proof.
  revert w. induction p as [x|B e k IH]; intros w; simpl.
  - split; [intros [-> ->]; exists (cw_client w); by destruct w|intros (c & [-> ->] & ->); by destruct w].
  - split.
    + intros (w1 & b & w2 & (c1 & HI & ->) & (c2 & HR & ->) & Hx). apply IH in Hx as (c & Hx & ->). eauto 10.
    + intros (c & (c1 & b & c2 & HI & HR & Hx) & ->). exists (set_client w c1), b, (set_client w c2).
      split; [by exists c1|]. split; [by exists c2|]. apply IH. eauto.
Qed.

Lemma cx_library {A} (p : CProg A) w r w' :
  cx (library p) w r w' ↔
  ∃ r0 c, exec R I p (cw_client w) r0 c ∧ w' = set_client w c ∧
    r = match r0 with inl a => inl a | inr f => inr (of_failure f) end.
Proof.
  unfold library. rewrite exec_bind. setoid_rewrite cx_embed. simpl. split.
  - intros (r0 & w1 & (c & ? & ->) & -> & ->). eauto 10.
  - intros (r0 & c & ? & -> & ->). eauto 10.
Qed.

Lemma cx_println line w r w' :
  cx (println line) w r w' → r = inl tt ∧ ∃ w1, same_local w w1 ∧ w' = say w1 line.
Proof.
  intros (w1 & b & w2 & (c & _ & ->) & -> & [-> ->]). split; [done|]. exists (set_client w c).
  split; [apply same_local_set|done].
Qed.

Lemma cx_eprintln line w r w' :
  cx (eprintln line) w r w' → r = inl tt ∧ ∃ w1, same_local w w1 ∧ w' = complain w1 line.
Proof.
  intros (w1 & b & w2 & (c & _ & ->) & -> & [-> ->]). split; [done|]. exists (set_client w c).
  split; [apply same_local_set|done].
Qed.

Lemma cx_must {A} (e : CliEffect (A + string)) w r w' :
  cx (must e) w r w' → ∃ w1 b, same_local w w1 ∧ cli_performs e w1 b w' ∧
    r = match b with inl a => inl a | inr m => inr (ReturnedErr m) end.
Proof. intros (w1 & b & w2 & (c & _ & ->) & Hp & [-> ->]). exists (set_client w c), b. by split_and!. Qed.

Lemma cx_try {A B} (p : Main A) (k : A → Main B) w r w' :
  cx (try p k) w r w' →
  ∃ ra w1, cx p w ra w1 ∧ match ra with inl a => cx (k a) w1 r w' | inr e => r = inr e ∧ w' = w1 end.
Proof. apply exec_try. Qed.

(** *** Downloads *)

Section download.
  Context `{RS : ReedSolomon} (ring_crc : string → N) (self : Client).
  Context (I_trans : ∀ a b c, I a b → I b c → I a c).

(** A run may start earlier. *)
Lemma exec_before {A} (p : Prog ClientEffect A) c0 c1 a c' :
  I c0 c1 → exec R I p c1 a c' → ∃ c'', exec R I p c0 a c''.
Proof.
  intros HI. destruct p as [x|B e k]; simpl.
  - intros [-> _]. by exists c0.
  - intros (c2 & b & c3 & HI2 & ?). exists c'. exists c2, b, c3. split; [by eapply I_trans|done].
Qed.

Lemma exec_try_ok {A B} (p : CProg A) (k : A → CProg B) c0 a c1 r c2 :
  exec R I p c0 (inl a) c1 → exec R I (k a) c1 r c2 → exec R I (try p k) c0 r c2.
Proof. intros H1 H2. unfold try. apply exec_bind. by exists (inl a), c1. Qed.

Lemma write_blocks_spec dest l old w w' :
  cw_local w !! dest = Some old → cx (write_blocks self dest l) w (inl tt) w' →
  ∃ data c, exec R I (read_blocks (read_whole self) l) (cw_client w) (inl data) c ∧
    cw_local w' = <[dest := old ++ data]> (cw_local w).
Proof.
  revert old w. induction l as [|b l IH]; intros old w Hold Hx.
  { destruct Hx as [_ ->]. exists [], (cw_client w). split; [done|]. by rewrite app_nil_r, insert_id. }
  cbn [write_blocks] in Hx. apply cx_try in Hx as (rd & w1 & Hr & Hx).
  apply cx_library in Hr as (r0 & c1 & Hr & -> & ->). destruct r0 as [data|f]; [|by destruct Hx].
  apply cx_try in Hx as (ra & w2 & Ha & Hx). destruct Ha as (w3 & ba & w4 & (c2 & HI & ->) & Hp & [-> ->]).
  destruct ba as [[]|m]; [|by destruct Hx]. simpl in Hp. subst w4. rewrite Hold in Hx. simpl in Hx.
  apply (IH (old ++ data)) in Hx as (rest & c3 & Hrest & Hloc); [|by simpl; rewrite lookup_insert_eq].
  simpl in Hrest, Hloc, HI. destruct (exec_before _ _ _ _ _ HI Hrest) as [c4 Hrest'].
  exists (data ++ rest), c4. split.
  - cbn [read_blocks]. eapply exec_try_ok; [exact Hr|]. eapply exec_try_ok; [exact Hrest'|]. done.
  - rewrite Hloc, insert_insert_eq. by rewrite app_assoc.
Qed.

Lemma download_spec source dest w w' :
  cx (download ring_crc self source dest) w (inl tt) w' →
  ∃ data c, exec R I (get_file ring_crc self source) (cw_client w) (inl data) c ∧
    cw_local w' = <[dest := data]> (cw_local w).
Proof.
  unfold download. intros (ri & w1 & Hi & Hx)%cx_try.
  apply cx_library in Hi as (r0 & c1 & Hi & -> & ->). destruct r0 as [info|f]; [|by destruct Hx].
  apply cx_try in Hx as (rm & w2 & Hm & Hx). apply cx_library in Hm as (r1 & c2 & Hm & -> & ->).
  destruct r1 as [metadata|f]; [|by destruct Hx].
  apply cx_try in Hx as (ra & w3 & Ha & Hx). destruct Ha as (w4 & ba & w5 & (c3 & HI & ->) & Hp & [-> ->]).
  destruct ba as [[]|m]; [|by destruct Hx]. simpl in Hp. subst w5.
  apply (write_blocks_spec _ _ []) in Hx as (data & c4 & Hrd & Hloc); [|by simpl; rewrite lookup_insert_eq].
  simpl in Hrd, Hloc, HI, Hm. destruct (exec_before _ _ _ _ _ HI Hrd) as [c5 Hrd'].
  exists data, c5. split; [|by rewrite Hloc, insert_insert_eq].
  unfold get_file. eapply exec_try_ok; [exact Hi|]. eapply exec_try_ok; [exact Hm|]. exact Hrd'.
Qed.

(** A download that ends with success leaves the blocks of the file, one after
    the other, in the local file and touches no other, when the masters name
    the blocks and each of them reads as its data. *)
Theorem download_content (Inv : W → Prop) source dest bs size datas w w' :
  Inv (cw_client w) → told self R I Inv ring_crc source bs size →
  Forall2 (λ b d, ∀ c r c', Inv c → exec R I (read_whole self b) c r c' → r = inl d ∧ Inv c') bs datas →
  cx (download ring_crc self source dest) w (inl tt) w' →
  cw_local w' = <[dest := mjoin datas]> (cw_local w).
Proof.
  intros Hw Htold Hall (data & c & Hget & ->)%download_spec. f_equal.
  apply exec_try in Hget as (ri & w1 & Hi & Hk). apply Htold in Hi as (m & -> & Hbs & Hm & Hw1); [|done].
  apply exec_try in Hk as (rm & w2 & [-> ->] & Hk). rewrite Hbs in Hk.
  apply (ex_read_blocks R I Inv _ bs datas) in Hk as [Hd _]; [|done|done]. by simplify_eq.
Qed.

End download.

(** *** Presigned URLs *)

Section presign.
  Context (sha256 : string → string) (hmac_sha256 : string → string → string) (hex : string → string).

Lemma presign_checked_ok url method expires bucket key m :
  presign_checked url method expires = Ok (bucket, key, m) →
  parse_s3_url url = Ok (bucket, key) ∧ m = map_string upper method ∧ m ∈ ["GET"; "PUT"; "DELETE"] ∧
  (1 ≤ expires ∧ expires ≤ 604800)%N.
Proof.
  unfold presign_checked. destruct (parse_s3_url url) as [[b k]| |]; [|done|done].
  case_bool_decide as Hm; simpl; [|done]. destruct (N.eqb_spec expires 0); [done|].
  destruct (N.ltb_spec 604800 expires); [done|]. intros [= <- <- <-]. split_and!; [done..|lia|lia].
Qed.

Lemma cx_env_var name w r w' :
  cx (env_var name) w r w' → same_local w w' ∧
    match env name with
    | Some v => r = inl v
    | None => r = inr (ReturnedErr (name +:+ " environment variable not set"))
    end.
Proof.
  intros (w1 & v & w2 & (c & _ & ->) & [-> ->] & Hx). destruct (env name); destruct Hx as [-> ->];
    by split; [apply same_local_set|].
Qed.

(** The value that [env_or] finds. *)
Definition first_set (names : list string) (d : string) : string := default d (head (omap env names)).

Lemma cx_env_or names d w v w' :
  cx (env_or names d) w v w' → v = first_set names d ∧ same_local w w'.
Proof.
  revert w. induction names as [|name names IH]; intros w; [intros [-> ->]; split; [done|apply same_local_refl]|].
  intros (w1 & b & w2 & (c & _ & ->) & [-> ->] & Hx). unfold first_set. cbn [omap list_omap].
  destruct (env name) as [x|].
  - destruct Hx as [-> ->]. split; [done|apply same_local_set].
  - apply IH in Hx as [-> Hs]. split; [done|]. by eapply same_local_trans; [apply same_local_set|].
Qed.

(** The region and the endpoint that a run uses. *)
Definition presign_region : string := first_set ["AWS_REGION"; "AWS_DEFAULT_REGION"] "us-east-1".
Definition presign_endpoint (endpoint : option string) : string :=
  default (first_set ["S3_ENDPOINT"] "http://localhost:9000") endpoint.

(** What presign prints, or the error it ends with. *)
Definition presign_result (url method : string) (expires : N) (endpoint : option string) : outcome string :=
  match env "AWS_ACCESS_KEY_ID" with
  | None => Err "AWS_ACCESS_KEY_ID environment variable not set"
  | Some access_key =>
      match env "AWS_SECRET_ACCESS_KEY" with
      | None => Err "AWS_SECRET_ACCESS_KEY environment variable not set"
      | Some secret_key =>
          match presign_checked url method expires with
          | Ok (bucket, key, m) =>
              Ok (generate_presigned_url sha256 hmac_sha256 hex
                    (mkPresign (presign_endpoint endpoint) bucket key m access_key secret_key presign_region expires)
                    utc.1 utc.2)
          | Err e => Err e
          | Panic e => Panic e
          end
      end
  end.

Lemma presign_run url method expires endpoint w r w' :
  cx (presign_command sha256 hmac_sha256 hex url method expires endpoint) w r w' →
  match presign_result url method expires endpoint with
  | Ok line => r = inl tt ∧ cw_out w' = cw_out w ++ [line]
  | Err e => r = inr (ReturnedErr e) ∧ cw_out w' = cw_out w
  | Panic e => r = inr (Crashed e) ∧ cw_out w' = cw_out w
  end.
Proof.
  unfold presign_command, presign_result. intros (ra & w1 & [Hs1 Ha]%cx_env_var & Hx)%cx_try.
  destruct (env "AWS_ACCESS_KEY_ID") as [ak|]; subst ra; [|destruct Hx as [-> ->]; by rewrite Hs1].
  apply cx_try in Hx as (rs & w2 & [Hs2 Hsk]%cx_env_var & Hx). pose proof (same_local_trans _ _ _ Hs1 Hs2) as Hs12.
  destruct (env "AWS_SECRET_ACCESS_KEY") as [sk|]; subst rs; [|destruct Hx as [-> ->]; by rewrite Hs12].
  apply exec_bind in Hx as (region & w3 & [-> Hs3]%cx_env_or & Hx).
  pose proof (same_local_trans _ _ _ Hs12 Hs3) as Hs13.
  apply exec_bind in Hx as (ep & w4 & Hep & Hx).
  assert (ep = presign_endpoint endpoint ∧ same_local w3 w4) as [-> Hs4].
  { destruct endpoint; [destruct Hep as [-> ->]; split; [done|apply same_local_refl]|by apply cx_env_or in Hep]. }
  pose proof (same_local_trans _ _ _ Hs13 Hs4) as Hs14. clear Hs1 Hs2 Hs12 Hs3 Hs13 Hs4.
  destruct (presign_checked url method expires) as [[[b k] m]|e|e].
  - apply cx_vis in Hx as (w5 & now & w6 & (c & _ & ->) & [-> ->] & Hx). apply cx_println in Hx as [-> (w7 & Hs7 & ->)].
    split; [done|]. simpl. rewrite Hs7. simpl. by rewrite Hs14.
  - destruct Hx as [-> ->]. by rewrite Hs14.
  - destruct Hx as [-> ->]. by rewrite Hs14.
Qed.

(** C34. `presign` from the command line to the check of the signature. A run
    that succeeds prints one line: the URL of the object that its argument
    names, for one of the three methods and a validity between one second and
    seven days, made with the access key and the secret of the environment, the
    region and the endpoint that the options and the environment give, and the
    validity that was asked for. The gateway's parser finds the credentials in
    the query of that URL, and its check of the signature accepts it under this
    secret. *)
Theorem presign_command_signs url method expires endpoint w w' :
  (∀ s, absent "&" (hex s) = true) →
  cx (presign_command sha256 hmac_sha256 hex url method expires endpoint) w (inl tt) w' →
  ∃ b k access_key secret_key,
    let p := mkPresign (presign_endpoint endpoint) b k (map_string upper method) access_key secret_key presign_region expires in
    url = "s3://" +:+ b +:+ "/" +:+ k ∧ absent "/" b = true ∧
    env "AWS_ACCESS_KEY_ID" = Some access_key ∧ env "AWS_SECRET_ACCESS_KEY" = Some secret_key ∧
    map_string upper method ∈ ["GET"; "PUT"; "DELETE"] ∧ (1 ≤ expires ∧ expires ≤ 604800)%N ∧
    cw_out w' = cw_out w ++ [generate_presigned_url sha256 hmac_sha256 hex p utc.1 utc.2] ∧
    (absent "/" access_key = true → absent "/" utc.1 = true → absent "/" presign_region = true →
     join " " (split_whitespace (host_of (presign_endpoint endpoint))) = host_of (presign_endpoint endpoint) →
     ∀ query,
       (∀ k v, (k, v) ∈ presign_params p utc.1 utc.2 → query !! k = Some v) →
       query !! "X-Amz-Signature" = Some (presign_signature sha256 hmac_sha256 hex p utc.1 utc.2) →
       let h := [("host", Some (host_of (presign_endpoint endpoint)))] in
       ∃ c, parse_credentials h query = Some c ∧
         verify_signature sha256 hmac_sha256 hex
           (build_signing_input h c (map_string upper (map_string upper method)) (presign_path p)
             (normalize_query_string (presigned_raw_query sha256 hmac_sha256 hex p utc.1 utc.2))) c secret_key =
         None).
Proof.
  intros Hhex Hx%presign_run. unfold presign_result in Hx.
  destruct (env "AWS_ACCESS_KEY_ID") as [ak|]; [|by destruct Hx].
  destruct (env "AWS_SECRET_ACCESS_KEY") as [sk|]; [|by destruct Hx].
  destruct (presign_checked url method expires) as [[[b k] m]|e|e] eqn:E; [|by destruct Hx..].
  apply presign_checked_ok in E as (Hurl & -> & Hm & Hexp). apply s3_url_spec in Hurl as (-> & _ & _ & Hb).
  destruct Hx as [_ ->]. exists b, k, ak, sk. intros p. split_and!; [done..|apply Hexp|apply Hexp|done|].
  intros Hak Hd Hr Hh query Hq Hs. exact (presigned_verifies sha256 hmac_sha256 hex p _ _ Hhex query Hak Hd Hr Hh Hq Hs).
Qed.

End presign.

(** *** Histories *)

Section histories.
  Context (from_str : string → outcome HistoryEntry).

Lemma cx_eprint_all lines w r w' :
  cx (eprint_all lines) w r w' → r = inl tt ∧ cw_err w' = cw_err w ++ lines.
Proof.
  revert w. induction lines as [|line lines IH]; intros w; [intros [-> ->]; by rewrite app_nil_r|].
  intros (r1 & w1 & [-> (w2 & Hs & ->)]%cx_eprintln & Hx)%cx_try. apply IH in Hx as [-> ->]. split; [done|].
  simpl. rewrite Hs. simpl. by rewrite <- app_assoc.
Qed.

Lemma cx_complain_exit {A} line w (r : A + Stop) w' :
  cx (do? eprintln line in exit 1) w r w' → r = inr (Exited 1) ∧ cw_err w' = cw_err w ++ [line].
Proof.
  intros (r1 & w1 & [-> (w2 & Hs & ->)]%cx_eprintln & [-> ->])%cx_try. split; [done|]. simpl. by rewrite Hs.
Qed.

(** The exit of check-history. *)
Lemma check_history_run p w r w' :
  cx (check_history_command from_str p false) w r w' →
  match lines_of p with
  | inr e => r = inr (Exited 1)
  | inl lines =>
      match read_history from_str lines with
      | Err e => r = inr (Exited 1)
      | Panic e => r = inr (Crashed e)
      | Ok ops =>
          match linearizability_verdict ops with
          | Passed => r = inl tt ∧ cw_err w' = cw_err w
          | Diagnosis.Failed vs =>
              r = inr (Exited 1) ∧
              cw_err w' = cw_err w ++ "Linearizability FAILED:" :: ((λ v, "  - " +:+ Diagnosis.message v) <$> vs)
          end
      end
  end.
Proof.
  unfold check_history_command. intros (w1 & b & w2 & (c & _ & ->) & [-> ->] & Hx)%cx_vis. cbn [prog_bind] in Hx.
  destruct (lines_of p) as [lines|e]; [|by apply cx_complain_exit in Hx as [-> _]].
  destruct (read_history from_str lines) as [ops|e|e]; [|by apply cx_complain_exit in Hx as [-> _]|by destruct Hx].
  apply cx_try in Hx as (r1 & w3 & [-> (w4 & Hs & ->)]%cx_println & Hx).
  destruct (linearizability_verdict ops) as [|vs].
  - apply cx_println in Hx as [-> (w5 & Hs5 & ->)]. split; [done|]. simpl. rewrite Hs5. simpl. by rewrite Hs.
  - apply cx_try in Hx as (r2 & w5 & [-> (w6 & Hs6 & ->)]%cx_eprintln & Hx).
    apply cx_try in Hx as (r3 & w7 & [-> He]%cx_eprint_all & [-> ->]). split; [done|]. rewrite He. simpl.
    rewrite Hs6. simpl. rewrite Hs. simpl. by rewrite <- app_assoc.
Qed.

(** When renames connect all operations, the check is the search. *)
Lemma check_all_linked ops :
  Forall Checker.recorded ops → Forall (λ op, touches_rename ops op = true) ops → length (List.filter ambiguous ops) ≤ 15 →
  check_linearizability ops = true ↔ linearizable ops.
Proof.
  intros Hrec Hlinked Hamb. unfold check_linearizability, check_simple.
  assert (List.filter (touches_rename ops) ops = ops) as ->.
  { apply List.forallb_filter_id, List.forallb_forall. intros op Hin. rewrite Forall_forall in Hlinked.
    by apply Hlinked, list_elem_of_In. }
  assert (List.filter (λ op, negb (touches_rename ops op)) ops = []) as ->.
  { clear Hrec Hamb. revert Hlinked. generalize (touches_rename ops) as f. intros f.
    induction 1 as [|op l Hop _ IH]; simpl; [done|]. by rewrite Hop. }
  simpl. assert (linearizable ops ↔ check_rename_linked ops = true) as ->.
  { split; [by apply rename_check_complete|by apply rename_check_sound]. }
  by destruct ops.
Qed.

(** C11. `check-history` decides linearizability: run on a file whose lines are
    the entries of a recorded history, in which renames connect all operations
    and at most fifteen of them have an unknown outcome, the command ends with
    success exactly when the history is linearizable; otherwise it ends with
    exit code 1 and at least one violation on the standard error. *)
Theorem check_history_decides p lines entries ops w r w' :
  lines_of p = inl lines → decoded from_str lines entries → parse_history entries = Ok ops →
  Forall Checker.recorded ops → Forall (λ op, touches_rename ops op = true) ops → length (List.filter ambiguous ops) ≤ 15 →
  cx (check_history_command from_str p false) w r w' →
  (linearizable ops ∧ r = inl tt ∧ cw_err w' = cw_err w) ∨
  (¬ linearizable ops ∧ r = inr (Exited 1) ∧ ∃ vs, vs ≠ [] ∧
     cw_err w' = cw_err w ++ "Linearizability FAILED:" :: ((λ v, "  - " +:+ Diagnosis.message v) <$> vs)).
Proof.
  intros Hl Hd Hp Hrec Hlinked Hamb Hx%check_history_run. rewrite Hl in Hx.
  assert (read_history from_str lines = Ok ops) as Hr by (apply read_history_spec; eauto). rewrite Hr in Hx.
  pose proof (check_all_linked ops Hrec Hlinked Hamb) as Hlin. rewrite <- verdict_agrees in Hlin.
  pose proof (verdict_not_empty ops) as Hne.
  destruct (linearizability_verdict ops) as [|vs]; [left; split; [by apply Hlin|exact Hx]|]. right.
  split; [by intros ?%Hlin|]. destruct Hx as [-> ->]. split; [done|]. exists vs. split; [by intros ->|done].
Qed.

End histories.

(** *** Administration *)

(** The safe-mode and cluster commands begin with one connection, to the whole
    `--master` argument. *)
Lemma connect_once master ca_cert domain_name w r w' :
  cx (connect_master master ca_cert domain_name) w r w' →
  ∃ tls, cw_connected w' = cw_connected w ++ [(master_url master (bool_decide (is_Some ca_cert)), tls)].
Proof.
  unfold connect_master. destruct ca_cert as [ca|]; intros Hc.
  - apply cx_vis in Hc as (w2 & b & w3 & (c & _ & ->) & -> & Hc).
    apply cx_must in Hc as (w4 & b4 & Hs & -> & _). eexists. simpl. rewrite Hs. done.
  - apply cx_must in Hc as (w4 & b4 & Hs & -> & _). eexists. simpl. rewrite Hs. done.
Qed.

End runs.

(** With a list of masters the other commands try each of them; safe-mode and
    cluster commands take the list for one address. A host whose name begins
    with http gets no scheme. *)
Example master_list_as_address :
  let cli := mkCli "m1:50051, m2:50051" [] 5 [] None None (CmdSafeMode SafeEnter) in
  master_addrs (make_client cli) = ["m1:50051"; "m2:50051"] ∧
  master_url (cli_master cli) false = "http://m1:50051, m2:50051" ∧
  master_url "httpd1:50051" false = "httpd1:50051".
Proof. vm_compute. done. Qed.

(** ** Examples *)

Module CliDemo.

Definition env (name : string) : option string :=
  if decide (name = "AWS_ACCESS_KEY_ID") then Some "AKID"
  else if decide (name = "AWS_SECRET_ACCESS_KEY") then Some "secret" else None.
Definition utc : string * string := ("20240101", "20240101T000000Z").

(** A decoder that finds the entries of a history by their position, and the
    file with these lines and a blank one. *)
Definition lines (p : string) : list (outcome string) + string :=
  inl ([Ok "0"; Ok "1"; Ok " "; Ok "2"; Ok "3"; Ok "4"; Ok "5"; Ok "6"; Ok "7"]).
Definition decoder (history : list HistoryEntry) (line : string) : outcome HistoryEntry :=
  match List.find (λ e, bool_decide (pretty (N.of_nat e.1) = line)) (imap pair history) with
  | Some (_, e) => Ok e
  | None => Err "expected value"
  end.

Notation World := (CliWorld (W := unit)).
Definition start : World := mkCliWorld tt (bench_start 0) ∅ [] [] [].

Definition step (B : Type) (e : CliEffect B) : World → B * World :=
  match e in CliEffect B return World → B * World with
  | OfClient e => λ w, (ReadDemo.respond e, w)
  | OfBench e => λ w, let '(b, c) := bench_step _ e (cw_bench w) in
      (b, mkCliWorld tt c (cw_local w) (cw_out w) (cw_err w) (cw_connected w))
  | ReadLocal p => λ w, (match cw_local w !! p with Some d => inl d | None => inr "No such file" end, w)
  | CreateLocal p => λ w, (inl tt, set_local w (<[p := []]> (cw_local w)))
  | AppendLocal p data => λ w, (inl tt, set_local w (<[p := default [] (cw_local w !! p) ++ data]> (cw_local w)))
  | OpenLines p => λ w, (lines p, w)
  | EnvVar name => λ w, (env name, w)
  | LoadCa _ _ => λ w, (true, w)
  | Connect url d => λ w,
      (inl tt, mkCliWorld tt (cw_bench w) (cw_local w) (cw_out w) (cw_err w) (cw_connected w ++ [(url, d)]))
  | Admin _ => λ w, (inr (Internal ""), w)
  | RunWorkload _ _ => λ w, (inl tt, w)
  | UtcNow => λ w, (utc, w)
  | Println line => λ w, (tt, say w line)
  | Eprintln line => λ w, (tt, complain w line)
  end.

Lemma step_performs B (e : CliEffect B) w :
  cli_performs ReadDemo.R env utc lines e w (step B e w).1 (step B e w).2.
Proof.
  destruct w as [[] b l o er cn]. destruct e; simpl; try done; try (by exists tt).
  - pose proof (bench_step_performs _ e b) as Hb. destruct (bench_step _ e b) as [x c]. by exists c.
  - by destruct (l !! p).
Qed.

Lemma cli_demo_exec {A} (p : Prog CliEffect A) w :
  exec (@cli_performs unit ReadDemo.R env utc lines) (between (λ _ _, True)) p w (run step p w).1 (run step p w).2.
Proof.
  apply run_exec; [intros []; by exists tt; destruct cw_client0|]. intros B e w1. apply step_performs.
Qed.

End CliDemo.

(** The query of the demo's URL. *)
Definition demo_params : PresignParams :=
  mkPresign "http://localhost:9000" "my-bucket" "dir/file" "GET" "AKID" "secret" "us-east-1" 3600.
Definition demo_query : gmap string string :=
  <["X-Amz-Signature" := presign_signature SigningDemo.sha256 SigningDemo.hmac_sha256 SigningDemo.hex demo_params "20240101" "20240101T000000Z"]>
    (list_to_map (presign_params demo_params "20240101" "20240101T000000Z")).

Lemma presign_command_signs_witness :
  let p := presign_command SigningDemo.sha256 SigningDemo.hmac_sha256 SigningDemo.hex "s3://my-bucket/dir/file" "get" 3600 None in
  (run CliDemo.step p CliDemo.start).1 = inl tt ∧
  cw_out (run CliDemo.step p CliDemo.start).2 =
    [generate_presigned_url SigningDemo.sha256 SigningDemo.hmac_sha256 SigningDemo.hex demo_params "20240101" "20240101T000000Z"] ∧
  ∃ c, parse_credentials [("host", Some "localhost:9000")] demo_query = Some c ∧
    verify_signature SigningDemo.sha256 SigningDemo.hmac_sha256 SigningDemo.hex
      (build_signing_input [("host", Some "localhost:9000")] c "GET" "/my-bucket/dir/file"
        (normalize_query_string (presigned_raw_query SigningDemo.sha256 SigningDemo.hmac_sha256 SigningDemo.hex demo_params
           "20240101" "20240101T000000Z"))) c "secret" = None.
Proof.
  intros p. assert ((run CliDemo.step p CliDemo.start).1 = inl tt) as E by (vm_compute; reflexivity).
  split; [exact E|]. pose proof (CliDemo.cli_demo_exec p CliDemo.start) as Hx. rewrite E in Hx.
  destruct (presign_command_signs ReadDemo.R (λ _ _, True) CliDemo.env CliDemo.utc CliDemo.lines SigningDemo.sha256
              SigningDemo.hmac_sha256 SigningDemo.hex "s3://my-bucket/dir/file" "get" 3600 None _ _
              SigningDemo.hex_plain Hx) as (b & k & ak & sk & Hu & Hb & Ha & Hs & _ & _ & Ho & Hv).
  destruct (s3_url_unique "my-bucket" "dir/file" b k Hu eq_refl Hb) as [<- <-]. injection Ha as <-. injection Hs as <-.
  split; [exact Ho|]. apply (Hv eq_refl eq_refl eq_refl eq_refl demo_query).
  - intros k v Hkv. unfold demo_query. rewrite lookup_insert_ne.
    + apply elem_of_list_to_map_1; [|exact Hkv]. apply (bool_decide_unpack _). vm_compute. exact Logic.I.
    + intros <-. rewrite presign_params_eq in Hkv.
      repeat (apply elem_of_cons in Hkv as [Hkv|Hkv]; [by simplify_eq|]). by apply not_elem_of_nil in Hkv.
  - apply lookup_insert_eq.
Defined.

Lemma check_history_decides_witness :
  let p := check_history_command (CliDemo.decoder good_rename) "history.jsonl" false in
  let r := run CliDemo.step p CliDemo.start in
  r.1 = inl tt ∧ linearizable good_ops.
Proof.
  intros p r. assert (r.1 = inl tt) as E by (vm_compute; reflexivity). split; [exact E|].
  pose proof (CliDemo.cli_demo_exec p CliDemo.start) as Hx. fold r in Hx. rewrite E in Hx.
  destruct (check_history_decides ReadDemo.R (λ _ _, True) CliDemo.env CliDemo.utc CliDemo.lines (CliDemo.decoder good_rename) "history.jsonl"
              _ good_rename good_ops CliDemo.start (inl tt) r.2 eq_refl) as [(Hl & _)|(_ & Hr & _)].
  - repeat first [apply decoded_nil | apply decoded_blank; [reflexivity|] |
                  eapply decoded_entry; [discriminate|reflexivity|]].
  - reflexivity.
  - repeat (apply Forall_cons; split; [repeat split; try exact Logic.I; try (right; discriminate); discriminate|]).
    apply Forall_nil. exact Logic.I.
  - apply (bool_decide_unpack _). vm_compute. exact Logic.I.
  - apply (bool_decide_unpack _). vm_compute. exact Logic.I.
  - exact Hx.
  - exact Hl.
  - discriminate Hr.
Defined.
