(* ===== verification/Transport.v ===== *)
(** * The Raft messages on their way

    dfs/metaserver/src/bin/master.rs and config_server.rs: the HTTP routes of
    the two metadata servers, and the tasks of simple_raft.rs that post the
    messages of a node to them and hand the answers back. The proofs about
    elections ([RaftElection]) and about logs ([RaftStateMachine]) each assume
    a network that says which events reach a node; here the routes and the tasks
    are shown to implement both. JSON decoding is by the kind of
    the message; the text format of the metrics is external. *)

From S2P Require Import Prelude BTree Sharding MasterState AppState ClusterConfig RaftNode RaftRpc RaftLoop RaftDemo RaftFrame RaftElection RaftLog RaftDurable RaftSafety RaftCommit RaftMatching RaftGhost RaftSteps RaftComplete RaftStateMachine Program.

Section transport.
  Context {E : RaftEnv}.

(** ** Requests and replies *)

(** The body of a request, decoded. *)
Inductive Body : Type :=
  | BodyVote (a : RequestVoteArgs)
  | BodyAppend (a : AppendEntriesArgs)
  | BodySnapshot (a : InstallSnapshotArgs)
  | BodyTimeoutNow (a : TimeoutNowArgs)
  | NoBody.

Record HttpRequest : Type := mkHttpRequest {
  rq_method : string;
  rq_path : string;
  rq_body : Body;
}.

Inductive HttpReply : Type :=
  | HttpText (text : string)
  | JsonVote (r : RequestVoteReply)
  | JsonAppend (r : AppendEntriesReply)
  | JsonSnapshot (r : InstallSnapshotReply)
  | JsonTimeoutNow (r : TimeoutNowReply)
  | JsonClusterInfo (i : ClusterInfo)
  | JsonShards (shards : list string)
  | MetricsPage (gauges : list (string * f64))
  | InternalServerError
  | UnprocessableEntity
  | MethodNotAllowed
  | NotFound.

(** An event for the Raft node with a new reply channel, and its answer; a
    look at the shared state. *)
Inductive HttpEffect : Type → Type :=
  | Ask (ev : nat → Event) : HttpEffect (Answer ChanMessage)
  | Peek {B} (f : AppState → B) : HttpEffect B.

Notation Route := (Prog HttpEffect HttpReply).


(** ** The routes *)

(** [src/dfs/metaserver/src/bin/master.rs:257-259 handle_health] *)
Definition handle_health : Route := Ret (HttpText "OK").

(** [src/dfs/metaserver/src/bin/master.rs:261-278 handle_raft_state] *)
Definition handle_raft_state : Route :=
  let* a := perform (Ask EvGetClusterInfo) in
  Ret (match a with Answered (ClusterInfoReply info) => JsonClusterInfo info | _ => InternalServerError end).

(** [src/dfs/metaserver/src/bin/master.rs:332-343 handle_metrics] *)
Definition gauges (info : ClusterInfo) : list (string * f64) :=
  [("raft_role", f64_of_N (match ci_role info with Follower => 0 | Candidate => 1 | Leader => 2 end));
   ("raft_current_term", f64_of_N (ci_current_term info));
   ("raft_commit_index", f64_of_N (N.of_nat (ci_commit_index info)));
   ("raft_last_applied", f64_of_N (N.of_nat (ci_last_applied info)));
   ("raft_log_len", f64_of_N (N.of_nat (ci_log_len info)));
   ("raft_votes_received", f64_of_N (N.of_nat (ci_votes_received info)));
   ("dfs_master_safe_mode_status", f64_of_N (if ci_is_safe_mode info then 1 else 0))].

(** [src/dfs/metaserver/src/bin/master.rs:280-350 handle_metrics] *)
Definition handle_metrics : Route :=
  let* a := perform (Ask EvGetClusterInfo) in
  Ret (match a with Answered (ClusterInfoReply info) => MetricsPage (gauges info) | _ => InternalServerError end).

(** What the four handlers share: the event goes to the node with a reply
    channel, and only a reply of the right kind is passed on. *)
Definition rpc_route (msg : RpcMessage) (json : RpcMessage → option HttpReply) : Route :=
  let* a := perform (Ask (λ tx, EvRpc msg (Some tx))) in
  Ret (match a with Answered (RpcReply m) => default InternalServerError (json m) | _ => InternalServerError end).

Definition json_of_RequestVote (m : RpcMessage) : option HttpReply :=
  match m with RequestVoteResponse r => Some (JsonVote r) | _ => None end.
Definition json_of_AppendEntries (m : RpcMessage) : option HttpReply :=
  match m with AppendEntriesResponse r => Some (JsonAppend r) | _ => None end.
Definition json_of_InstallSnapshot (m : RpcMessage) : option HttpReply :=
  match m with InstallSnapshotResponse r => Some (JsonSnapshot r) | _ => None end.
Definition json_of_TimeoutNow (m : RpcMessage) : option HttpReply :=
  match m with TimeoutNowResponse r => Some (JsonTimeoutNow r) | _ => None end.

(** [src/dfs/metaserver/src/bin/master.rs:352-375 handle_vote] *)
Definition handle_vote (args : RequestVoteArgs) : Route := rpc_route (RequestVote args) json_of_RequestVote.

(** [src/dfs/metaserver/src/bin/master.rs:377-400 handle_append] *)
Definition handle_append (args : AppendEntriesArgs) : Route := rpc_route (AppendEntries args) json_of_AppendEntries.

(** [src/dfs/metaserver/src/bin/master.rs:402-425 handle_snapshot] *)
Definition handle_snapshot (args : InstallSnapshotArgs) : Route := rpc_route (InstallSnapshot args) json_of_InstallSnapshot.

(** [src/dfs/metaserver/src/bin/master.rs:427-450 handle_timeout_now] *)
Definition handle_timeout_now_route (args : TimeoutNowArgs) : Route := rpc_route (TimeoutNow args) json_of_TimeoutNow.

(** The configuration server has its own copies. *)

(** [src/dfs/metaserver/src/bin/config_server.rs:174-197 handle_vote] *)
Definition config_handle_vote (args : RequestVoteArgs) : Route := rpc_route (RequestVote args) json_of_RequestVote.

(** [src/dfs/metaserver/src/bin/config_server.rs:199-222 handle_append] *)
Definition config_handle_append (args : AppendEntriesArgs) : Route := rpc_route (AppendEntries args) json_of_AppendEntries.

(** [src/dfs/metaserver/src/bin/config_server.rs:224-247 handle_snapshot] *)
Definition config_handle_snapshot (args : InstallSnapshotArgs) : Route := rpc_route (InstallSnapshot args) json_of_InstallSnapshot.

(** [src/dfs/metaserver/src/bin/config_server.rs:249-259 handle_get_shards] *)
Definition handle_get_shards : Route :=
  let* shards := perform (Peek (λ a, match a with
    | AConfig c => Some (get_all_shards (shard_map c))
    | AMaster _ => None
    end)) in
  Ret (match shards with Some shards => JsonShards shards | None => InternalServerError end).

(** `get(h)` and `post(h)` with a JSON body. *)
Definition get_route (rq : HttpRequest) (h : Route) : Route :=
  if decide (rq_method rq = "GET") then h else Ret MethodNotAllowed.
Definition post_route (rq : HttpRequest) (h : Body → option Route) : Route :=
  if decide (rq_method rq = "POST") then
    match h (rq_body rq) with Some r => r | None => Ret UnprocessableEntity end
  else Ret MethodNotAllowed.

Definition vote_route (h : RequestVoteArgs → Route) (rq : HttpRequest) : Route :=
  post_route rq (λ b, match b with BodyVote a => Some (h a) | _ => None end).
Definition append_route (h : AppendEntriesArgs → Route) (rq : HttpRequest) : Route :=
  post_route rq (λ b, match b with BodyAppend a => Some (h a) | _ => None end).
Definition snapshot_route (h : InstallSnapshotArgs → Route) (rq : HttpRequest) : Route :=
  post_route rq (λ b, match b with BodySnapshot a => Some (h a) | _ => None end).
Definition timeout_now_route (h : TimeoutNowArgs → Route) (rq : HttpRequest) : Route :=
  post_route rq (λ b, match b with BodyTimeoutNow a => Some (h a) | _ => None end).

(** [src/dfs/metaserver/src/bin/master.rs:163-171 main] *)
Definition master_app (rq : HttpRequest) : Route :=
  let p := rq_path rq in
  if decide (p = "/health") then get_route rq handle_health
  else if decide (p = "/metrics") then get_route rq handle_metrics
  else if decide (p = "/raft/state") then get_route rq handle_raft_state
  else if decide (p = "/raft/vote") then vote_route handle_vote rq
  else if decide (p = "/raft/append") then append_route handle_append rq
  else if decide (p = "/raft/snapshot") then snapshot_route handle_snapshot rq
  else if decide (p = "/raft/timeout_now") then timeout_now_route handle_timeout_now_route rq
  else Ret NotFound.

(** [src/dfs/metaserver/src/bin/config_server.rs:127-132 main] *)
Definition config_app (rq : HttpRequest) : Route :=
  let p := rq_path rq in
  if decide (p = "/raft/vote") then vote_route config_handle_vote rq
  else if decide (p = "/raft/append") then append_route config_handle_append rq
  else if decide (p = "/raft/snapshot") then snapshot_route config_handle_snapshot rq
  else if decide (p = "/shards") then get_route rq handle_get_shards
  else Ret NotFound.

(** ** The tasks that post *)

(** One post to a peer: [None] when it failed. *)
Inductive PostEffect : Type → Type :=
  | Post (rq : HttpRequest) : PostEffect (option HttpReply)
  | Backoff : PostEffect unit.

(** What a message is posted as; replies are never posted. *)
Definition request_for (msg : RpcMessage) : option HttpRequest :=
  match msg with
  | RequestVote a => Some (mkHttpRequest "POST" "/raft/vote" (BodyVote a))
  | AppendEntries a => Some (mkHttpRequest "POST" "/raft/append" (BodyAppend a))
  | InstallSnapshot a => Some (mkHttpRequest "POST" "/raft/snapshot" (BodySnapshot a))
  | TimeoutNow a => Some (mkHttpRequest "POST" "/raft/timeout_now" (BodyTimeoutNow a))
  | _ => None
  end.

(** `resp.json::<..>()` of the task: the reply that goes to the node's inbox.
    The status is not looked at. The answer to TimeoutNow is only logged. *)
Definition decode_reply (msg : RpcMessage) (reply : HttpReply) : option RpcMessage :=
  match msg, reply with
  | RequestVote _, JsonVote r => Some (RequestVoteResponse r)
  | AppendEntries _, JsonAppend r => Some (AppendEntriesResponse r)
  | InstallSnapshot _, JsonSnapshot r => Some (InstallSnapshotResponse r)
  | _, _ => None
  end.

(** [max_retries] of the three loops and of the single post.
    [src/dfs/metaserver/src/simple_raft.rs:1597 send_heartbeats] *)
Definition max_retries_of (msg : RpcMessage) : nat :=
  match msg with
  | RequestVote _ | InstallSnapshot _ => 3
  | AppendEntries _ => 2
  | _ => 1
  end.

(** The loop of a task; what it sends to the node's inbox.
    [src/dfs/metaserver/src/simple_raft.rs:1593-1650 send_heartbeats] *)
Fixpoint post_loop (attempts : nat) (msg : RpcMessage) (rq : HttpRequest) : Prog PostEffect (option Event) :=
  match attempts with
  | 0 => Ret None
  | S attempts =>
      let* resp := perform (Post rq) in
      match resp with
      | Some reply =>
          match decode_reply msg reply with
          | Some m => Ret (Some (EvRpc m None))
          | None => if attempts =? 0 then Ret None else do* perform Backoff in post_loop attempts msg rq
          end
      | None => if attempts =? 0 then Ret None else do* perform Backoff in post_loop attempts msg rq
      end
  end.

Definition post_task (msg : RpcMessage) : Prog PostEffect (option Event) :=
  match request_for msg with
  | Some rq => post_loop (max_retries_of msg) msg rq
  | None => Ret None
  end.

(** ** The networks of the proofs *)

(** The node a reply channel leads to, and the command lines of the cluster. *)
Context (requester : nat → nat) (cluster : gmap nat Cli).

(** The reply [m] answers the request [msg]. *)
Definition answers (msg m : RpcMessage) : Prop :=
  match msg, m with
  | RequestVote _, RequestVoteResponse _ | AppendEntries _, AppendEntriesResponse _
  | InstallSnapshot _, InstallSnapshotResponse _ => True
  | _, _ => False
  end.

(** What a proof about Raft assumes of the network: the nodes, the state after a
    round of a node, the steps, and the events that may be handed to a node. A
    round that handles such events is a step; an event that was sent stays
    deliverable; and so is the reply of a node to a request it was handed. *)
Record Network : Type := mkNetwork {
  nw_state : Type;
  nw_nodes : nw_state → gmap nat RaftNode;
  nw_after : nw_state → nat → RaftNode → nw_state;
  nw_step : nw_state → nw_state → Prop;
  nw_ok : nw_state → nat → Event → Prop;
  nw_round s j n evs now wall timeout n' :
    nw_nodes s !! j = Some n → Forall (nw_ok s j) evs → run_once (Batch evs) (at_time now wall timeout n) = (Ok tt, n') →
    nw_step s (nw_after s j n');
  nw_mono s s' i ev : nw_step s s' → nw_ok s i ev → nw_ok s' i ev;
  nw_reply s j n' tx msg m :
    nw_ok s j (EvRpc msg (Some tx)) → (tx, RpcReply m) ∈ chan_out n' → answers msg m →
    nw_ok (nw_after s j n') (requester tx) (EvRpc m None);
}.

Lemma granted_elem out tx r :
  (tx, RpcReply (RequestVoteResponse r)) ∈ out → rvr_vote_granted r = true → (tx, r) ∈ granted out.
Proof.
  intros Hin Hg. unfold granted. apply list_elem_of_omap. eexists. split; [exact Hin|]. simpl. by rewrite Hg.
Qed.

(** A granted vote on a channel is a vote of the round for the node behind it. *)
Lemma vote_sent n' tx r votes :
  (tx, RpcReply (RequestVoteResponse r)) ∈ chan_out n' → rvr_vote_granted r = true → (requester tx, r) ∈ votes ++ votes_of requester n'.
Proof.
  intros Hin Hg. apply elem_of_app. right. unfold votes_of. apply list_elem_of_fmap. exists (tx, r). split; [done|]. by apply granted_elem.
Qed.

Lemma sent_mono s s' i ev :
  (∀ p t c, sent s p t c → sent s' p t c) → event_ok requester (sent s) i ev → event_ok requester (sent s') i ev.
Proof.
  intros Hs. destruct ev as [msg tx| | | |]; try done. destruct msg; try done. simpl. intros [? Hv]. split; [done|]. auto.
Qed.

(** *** The network of the elections *)

Lemma step_votes s s' p t c : net_step requester cluster s s' → sent s p t c → sent s' p t c.
Proof.
  intros Hs (r & Hin & ?). destruct Hs; exists r; simpl; [|done]. split; [|done]. apply elem_of_app. by left.
Qed.

Definition election_network : Network.
Proof.
  refine (mkNetwork Net net_nodes (λ s j n', mkNet (<[j := n']> (net_nodes s)) (net_votes s ++ votes_of requester n'))
    (net_step requester cluster) (λ s, event_ok requester (sent s)) _ _ _).
  - intros s j n evs now wall timeout n' Hn Hevs Hrun. eapply (step_round _ _ _ _ _ (Batch evs)); done.
  - intros s s' i ev Hs. apply sent_mono. intros p t c. by apply step_votes.
  - intros s j n' tx msg m _ Hin Ha. destruct msg, m; try done. split; [done|]. intros Hg. eexists. split; [|done]. by apply vote_sent.
Defined.

(** *** The network of the logs *)

Lemma log_step_net s s' :
  log_step requester cluster s s' →
  (∀ p t c, sent (ln_net s) p t c → sent (ln_net s') p t c) ∧ ∀ m, m ∈ ln_messages s → m ∈ ln_messages s'.
Proof.
  intros Hs. destruct Hs; simpl; [|done]. split.
  - intros p t c (r & Hin & ?). exists r. split; [|done]. simpl. apply elem_of_app. by left.
  - intros m Hm. apply elem_of_app. by left.
Qed.

Definition log_network : Network.
Proof.
  refine (mkNetwork LogNet (λ s, net_nodes (ln_net s))
    (λ s j n', mkLogNet (mkNet (<[j := n']> (net_nodes (ln_net s))) (net_votes (ln_net s) ++ votes_of requester n'))
                        (ln_messages s ++ messages_of n'))
    (log_step requester cluster) (λ s, delivered requester (pool_of s)) _ _ _).
  - intros s j n evs now wall timeout n' Hn Hevs Hrun. eapply (log_round _ _ _ _ _ (Batch evs)); done.
  - intros s s' i ev [Hv Hm]%log_step_net [Hok Hd]. split; [by eapply sent_mono|].
    destruct ev as [msg tx| | | |]; try done. destruct msg; try done; by apply Hm.
  - intros s j n' tx msg m [_ Hd] Hin Ha. destruct msg, m; try done.
    + split; [|done]. split; [done|]. intros Hg. eexists. split; [|done]. by apply vote_sent.
    + split; [done|]. cbn. apply elem_of_app. right. unfold messages_of. apply elem_of_app. right.
      apply list_elem_of_omap. by eexists.
Defined.

(** *** Posting over a network *)

Section posting.
  Context (nw : Network).
Notation step := (nw_step nw).

(** A fresh one-shot channel carries at most one message. *)
Definition reply_on (tx : nat) (n : RaftNode) : Answer ChanMessage :=
  match last (filter (λ m, m.1 = tx) (chan_out n)) with Some m => Answered m.2 | None => Unanswered end.

(** A request of node [i] at the server of node [j]: the node is gone, or drops
    the channel, or handles the event in a batch with others. *)
Definition http_performs (i j : nat) {B} (e : HttpEffect B) : nw_state nw → B → nw_state nw → Prop :=
  match e in HttpEffect B return nw_state nw → B → nw_state nw → Prop with
  | Ask ev => λ s a s',
      ((a = ChannelClosed ∨ a = Unanswered) ∧ s' = s) ∨
      ∃ tx evs n now wall timeout n', nw_nodes nw s !! j = Some n ∧ requester tx = i ∧ ev tx ∈ evs ∧
        Forall (λ e, e = ev tx ∨ nw_ok nw s j e) evs ∧
        run_once (Batch evs) (at_time now wall timeout n) = (Ok tt, n') ∧
        s' = nw_after nw s j n' ∧ a = reply_on tx n'
  | Peek f => λ s b s', s' = s ∧ ∃ n, nw_nodes nw s !! j = Some n ∧ b = f (app_state n)
  end.

(** A post that fails may have reached the server. *)
Definition post_performs (i j : nat) (app : HttpRequest → Route) {B} (e : PostEffect B) : nw_state nw → B → nw_state nw → Prop :=
  match e in PostEffect B return nw_state nw → B → nw_state nw → Prop with
  | Post rq => λ s r s',
      (r = None ∧ s' = s) ∨
      ∃ reply, exec (@http_performs i j) (rtc step) (app rq) s reply s' ∧ (r = None ∨ r = Some reply)
  | Backoff => λ s _ s', s' = s
  end.

(** The network may hand the message of node [i] to node [j]. *)
Definition postable (s : nw_state nw) (i j : nat) (msg : RpcMessage) : Prop :=
  ∀ tx, requester tx = i → nw_ok nw s j (EvRpc msg (Some tx)).

Lemma steps_ok s s' i ev : rtc step s s' → nw_ok nw s i ev → nw_ok nw s' i ev.
Proof. induction 1; eauto using nw_mono. Qed.

Lemma steps_postable s s' i j msg : rtc step s s' → postable s i j msg → postable s' i j msg.
Proof. intros Hs Hp tx Htx. eapply steps_ok; [done|]. by apply Hp. Qed.

(** *** The routes *)

Lemma reply_on_sent tx n m : reply_on tx n = Answered m → (tx, m) ∈ chan_out n.
Proof.
  unfold reply_on. destruct (last _) as [[tx' m']|] eqn:Hl; [|done]. intros [= <-].
  apply last_Some in Hl as [l Hl]. assert ((tx', m') ∈ filter (λ m, m.1 = tx) (chan_out n)) as Hin.
  { rewrite Hl. apply elem_of_app. right. by left. }
  apply list_elem_of_filter in Hin as [<- Hin]. done.
Qed.

(** Asking the node is a step of the network, and the network may hand its reply
    to the node that asked. *)
Lemma ask_step i j msg s a s' :
  postable s i j msg → http_performs i j (Ask (λ tx, EvRpc msg (Some tx))) s a s' →
  rtc step s s' ∧ ∀ m, a = Answered (RpcReply m) → answers msg m → nw_ok nw s' i (EvRpc m None).
Proof.
  intros Hp [[Ha ->]|(tx & evs & n & now & wall & timeout & n' & Hn & Htx & _ & Hevs & Hrun & -> & ->)].
  { split; [done|]. intros r Hr. by destruct Ha; subst. }
  split.
  - apply rtc_once. eapply nw_round; [exact Hn| |exact Hrun]. eapply Forall_impl; [exact Hevs|].
    intros ev [->|?]; [|done]. by apply Hp.
  - intros m Hm%reply_on_sent Ha. rewrite <- Htx. eapply nw_reply; [by apply Hp|done|done].
Qed.

(** What an HTTP reply means for the node that asked. *)
Definition reply_ok (s : nw_state nw) (i : nat) (msg : RpcMessage) (reply : HttpReply) : Prop :=
  ∀ m, decode_reply msg reply = Some m → nw_ok nw s i (EvRpc m None).

Lemma decode_answers msg reply m : decode_reply msg reply = Some m → answers msg m.
Proof. destruct msg, reply; simpl; try done; by intros [= <-]. Qed.

(** The JSON that the route of a request makes of a reply. *)
Definition json_of (msg m : RpcMessage) : option HttpReply :=
  match msg with
  | RequestVote _ => json_of_RequestVote m
  | AppendEntries _ => json_of_AppendEntries m
  | InstallSnapshot _ => json_of_InstallSnapshot m
  | TimeoutNow _ => json_of_TimeoutNow m
  | _ => None
  end.

(** A reply that is decoded is the one that was encoded. *)
Lemma decode_json msg m reply m' : json_of msg m = Some reply → decode_reply msg reply = Some m' → m' = m.
Proof. destruct msg, m; simpl; try done; intros [= <-]; by intros [= <-]. Qed.

Lemma rpc_route_ok i j msg s reply s' :
  postable s i j msg → exec (@http_performs i j) (rtc step) (rpc_route msg (json_of msg)) s reply s' →
  rtc step s s' ∧ reply_ok s' i msg reply.
Proof.
  intros Hp (s1 & a & s2 & Hs1 & Ha & [-> ->]). apply ask_step in Ha as [Hs2 Hv]; [|by eapply steps_postable].
  split; [by etrans|]. intros m' Hd. destruct a as [[| | | |m]| |]; try (by destruct msg).
  destruct (json_of msg m) as [reply|] eqn:Ej; simpl in Hd; [|by destruct msg].
  pose proof (decode_answers _ _ _ Hd). rewrite (decode_json _ _ _ _ Ej Hd) in *. by apply Hv.
Qed.

(** The server of a peer. *)
Class RaftServer (app : HttpRequest → Route) : Prop := {
  server_vote args : app (mkHttpRequest "POST" "/raft/vote" (BodyVote args)) =
    rpc_route (RequestVote args) json_of_RequestVote;
  server_append args : app (mkHttpRequest "POST" "/raft/append" (BodyAppend args)) =
    rpc_route (AppendEntries args) json_of_AppendEntries;
  server_snapshot args : app (mkHttpRequest "POST" "/raft/snapshot" (BodySnapshot args)) =
    rpc_route (InstallSnapshot args) json_of_InstallSnapshot;
  server_timeout_now args :
    app (mkHttpRequest "POST" "/raft/timeout_now" (BodyTimeoutNow args)) =
      rpc_route (TimeoutNow args) json_of_TimeoutNow ∨
    app (mkHttpRequest "POST" "/raft/timeout_now" (BodyTimeoutNow args)) = Ret NotFound;
}.

#[export] Instance master_is_server : RaftServer master_app.
Proof. split; try done. by left. Qed.
#[export] Instance config_is_server : RaftServer config_app.
Proof. split; try done. by right. Qed.

Lemma server_ok i j app `{!RaftServer app} msg rq s reply s' :
  postable s i j msg → request_for msg = Some rq →
  exec (@http_performs i j) (rtc step) (app rq) s reply s' → rtc step s s' ∧ reply_ok s' i msg reply.
Proof.
  intros Hp Hrq. destruct msg; simpl in Hrq; try done; simplify_eq.
  - rewrite server_vote. by apply (rpc_route_ok i j (RequestVote a)).
  - rewrite server_append. by apply (rpc_route_ok i j (AppendEntries a)).
  - rewrite server_snapshot. by apply (rpc_route_ok i j (InstallSnapshot a)).
  - destruct (server_timeout_now a) as [-> | ->]; [by apply (rpc_route_ok i j (TimeoutNow a))|]. intros [-> ->]. done.
Qed.

(** *** The tasks *)

(** What a task may put into the inbox of node [i]. *)
Definition handed (s : nw_state nw) (i : nat) (msg : RpcMessage) (ev : option Event) : Prop :=
  ∀ e, ev = Some e → nw_ok nw s i e ∧ ∃ m, e = EvRpc m None ∧ answers msg m.

Lemma post_loop_ok i j app `{!RaftServer app} attempts msg rq s ev s' :
  postable s i j msg → request_for msg = Some rq →
  exec (@post_performs i j app) (rtc step) (post_loop attempts msg rq) s ev s' →
  rtc step s s' ∧ handed s' i msg ev.
Proof.
  intros Hp Hrq. revert s Hp. induction attempts as [|attempts IH]; intros s Hp; [by intros [-> ->]|].
  cbn [post_loop]. intros (s1 & resp & s2 & Hs1 & Hpost & Hx).
  assert (rtc step s s2 ∧ ∀ reply, resp = Some reply → reply_ok s2 i msg reply) as [Hs2 Hreply].
  { destruct Hpost as [[-> ->]|(reply & Hr & Hresp)]; [done|].
    eapply server_ok in Hr as [? Hok]; [|done|by eapply steps_postable|done]. split; [by etrans|]. intros reply' ->.
    by destruct Hresp; simplify_eq. }
  assert (exec (@post_performs i j app) (rtc step)
    (if attempts =? 0 then Ret None else do* perform Backoff in post_loop attempts msg rq) s2 ev s' →
    rtc step s s' ∧ handed s' i msg ev) as Hagain.
  { destruct (attempts =? 0); [by intros [-> ->]|]. intros (s3 & [] & s4 & Hs3 & -> & Hx').
    apply IH in Hx' as [Hs4 Hev]; [|eapply steps_postable; [|exact Hp]; by etrans]. split; [|done]. etrans; [exact Hs2|]. by etrans. }
  cbn [prog_bind] in Hx. destruct resp as [reply|]; [|by apply Hagain].
  destruct (decode_reply msg reply) as [m|] eqn:Ed; [|by apply Hagain].
  destruct Hx as [-> ->]. split; [done|]. intros e [= <-]. split; [by eapply Hreply|]. exists m. split; [done|]. by eapply decode_answers.
Qed.

(** All that a task does are steps of the network, and the event it hands to its
    node is a reply that the network may hand it then and at any later time. *)
Definition implements (i j : nat) (app : HttpRequest → Route) (msg : RpcMessage) (s : nw_state nw) : Prop :=
  ∀ ev s', exec (@post_performs i j app) (rtc step) (post_task msg) s ev s' →
    rtc step s s' ∧
    ∀ e, ev = Some e → (∃ m, e = EvRpc m None ∧ answers msg m) ∧ ∀ s'', rtc step s' s'' → nw_ok nw s'' i e.

Lemma post_task_implements i j app `{!RaftServer app} msg s : postable s i j msg → implements i j app msg s.
Proof.
  unfold implements, post_task. intros Hp ev s'. destruct (request_for msg) as [rq|] eqn:Hrq; [|by intros [-> ->]].
  intros [Hs Hd]%(post_loop_ok i j app); [|done..]. split; [done|]. intros e He. destruct (Hd e He) as [Hok Hm].
  split; [done|]. intros s'' Hs''. by eapply steps_ok.
Qed.

End posting.

(** A request that a node may post as far as elections are concerned: its own
    candidacy, entries that do not change the membership, anything else. *)
Definition election_request (i : nat) (msg : RpcMessage) : Prop :=
  match msg with
  | RequestVote args => rv_candidate_id args = i
  | AppendEntries args => Forall plain (ae_entries args)
  | InstallSnapshot _ | TimeoutNow _ => True
  | _ => False
  end.

(** A request that a node of a cluster has sent: its own candidacy, or entries. *)
Definition log_request (s : LogNet) (i : nat) (msg : RpcMessage) : Prop :=
  match msg with
  | RequestVote args => rv_candidate_id args = i ∧ msg ∈ ln_messages s
  | AppendEntries _ => msg ∈ ln_messages s
  | TimeoutNow _ => True
  | _ => False
  end.

Lemma election_postable s i j msg : election_request i msg → postable election_network s i j msg.
Proof. intros Hm tx Htx. destruct msg; cbn in *; try done. congruence. Qed.

Lemma append_plain g a : global cluster g → append_ok cluster g a → Forall plain (ae_entries a).
Proof.
  intros Hg (l & e & [rest Hl] & _ & _ & -> & _). apply Forall_drop. pose proof (gl_data _ _ Hg (ae_term a)) as Hd.
  rewrite Hl in Hd. apply Forall_app in Hd as [Hd _]. eapply Forall_impl; [exact Hd|]. apply data_plain.
Qed.

(** The entries of the messages of an execution do not change the membership. *)
Lemma log_postable s0 s i j msg :
  well_addressed cluster → log_init cluster s0 → rtc (log_step requester cluster) s0 s →
  log_request s i msg → postable log_network s i j msg.
Proof.
  intros Hw H0 Hs Hm tx Htx.
  destruct (cluster_inv_steps _ _ _ _ _ Hw (log_init_inv requester _ _ H0) Hs) as (g & _ & Hg & [_ Hok] & _).
  destruct msg as [a|a|a|a|a|a|a|a]; cbn in Hm |- *; try done.
  - destruct Hm as [Hc Hm]. split; [cbn; congruence|done].
  - split; [|done]. cbn. apply (append_plain g); [done|]. exact (Hok (AppendEntries a) Hm).
Qed.

(** C5. The transport implements the networks that the proofs about Raft assume,
    the one of Election Safety and the one of Log Matching, Leader Completeness
    and State Machine Safety. A task of node [i] posts a message to the server of a
    master or of a configuration server while the cluster goes on, repeats the
    post when it or its answer is lost, and may reach the peer several times. All
    that happens are steps of the network; what the task puts into the node's
    inbox comes without a reply channel, answers the message, and is an event that
    the network may hand to the node then and at any later time: a vote that its
    voter sent to this node, a reply that the peer gave. For the second network the
    message is one that a node of the cluster has sent and not a snapshot. *)
Theorem transport_refines_network i j app `{!RaftServer app} msg :
  (∀ s, election_request i msg → implements election_network i j app msg s) ∧
  (∀ s0 s, well_addressed cluster → log_init cluster s0 → rtc (log_step requester cluster) s0 s →
     log_request s i msg → implements log_network i j app msg s).
Proof.
  split.
  - intros s Hm. by apply post_task_implements, election_postable.
  - intros s0 s Hw H0 Hs Hm. by eapply post_task_implements, log_postable.
Qed.

(** *** The answers *)

(** The reply of a node to a request is of the kind its route waits for. *)
Lemma rpc_reply_kind msg n m n' :
  is_Some (request_for msg) → handle_rpc msg n = (Ok m, n') → is_Some (json_of msg m).
Proof.
  intros [rq Hrq] H. destruct msg; simpl in *; try done;
    unfold handle_request_vote, handle_append_entries, handle_install_snapshot, handle_timeout_now in H;
    inv_ok; by eexists.
Qed.

Lemma handle_event_replies msg tx n n' :
  handle_event (EvRpc msg (Some tx)) n = (Ok tt, n') →
  ∃ m n1, handle_rpc msg n = (Ok m, n1) ∧ reply_on tx n' = Answered (RpcReply m).
Proof.
  cbn [handle_event]. unfold bind. destruct (handle_rpc msg n) as [[m| |] n1] eqn:Hr; [|done..].
  unfold send_chan, modify. intros [= <-]. exists m, n1. split; [done|]. unfold reply_on. simpl.
  rewrite filter_app, filter_cons_True, filter_nil by done. by rewrite last_snoc.
Qed.

(** A server whose node gave this answer. *)
Definition answering (a : Answer ChanMessage) (st : AppState) (B : Type) (e : HttpEffect B) (w : unit) : B * unit :=
  match e in HttpEffect B return B * unit with Ask _ => (a, w) | Peek f => (f st, w) end.

Lemma route_run a st msg rq :
  request_for msg = Some rq →
  (run (answering a st) (master_app rq) tt).1 =
  match a with Answered (RpcReply m) => default InternalServerError (json_of msg m) | _ => InternalServerError end.
Proof. destruct msg; simpl; try done; by intros [= <-]. Qed.

(** A route of the master answers with the node's own reply: when the node
    handles the event of a request, the reply on the channel is the result of
    the handler and the route passes it on as it is. "Internal server error" is
    left for a node that failed or is gone. *)
Theorem route_passes_reply msg rq tx st n n' :
  request_for msg = Some rq → handle_event (EvRpc msg (Some tx)) n = (Ok tt, n') →
  ∃ m n1 reply, handle_rpc msg n = (Ok m, n1) ∧ json_of msg m = Some reply ∧
    (run (answering (reply_on tx n') st) (master_app rq) tt).1 = reply.
Proof.
  intros Hrq (m & n1 & Hr & Htx)%handle_event_replies.
  destruct (rpc_reply_kind msg n m n1) as [reply Hj]; [by eexists|done|].
  exists m, n1, reply. split; [done|]. split; [done|]. rewrite Htx, (route_run _ _ msg) by done. by rewrite Hj.
Qed.

(** The configuration server has no route for TimeoutNow: a transfer of the
    leadership never reaches its target, whatever the sender tries. *)
Theorem config_refuses_timeout_now args :
  config_app (mkHttpRequest "POST" "/raft/timeout_now" (BodyTimeoutNow args)) = Ret NotFound ∧
  master_app (mkHttpRequest "POST" "/raft/timeout_now" (BodyTimeoutNow args)) = handle_timeout_now_route args.
Proof. done. Qed.

End transport.

(** ** A vote that is asked for twice *)

Module TransportDemo.
#[local] Existing Instance demo_env.

Definition args : RequestVoteArgs := mkRequestVoteArgs 1 1 0 0.

(** Node 2 when node 1 stands for election, and after it was asked. *)
Definition voter : RaftNode := restart (Demo.cli 2) 0 0 1500 2 empty_db.
Definition asked : RaftNode := (run_once (Batch [Demo.vote_request]) (at_time 2000 0 1500 voter)).2.

Notation election := (election_network Demo.requester Demo.cluster).
Notation logs := (log_network Demo.requester Demo.cluster).

(** Node 1 asks node 2: the first post is lost, the second is answered. *)
Lemma second_post nw s :
  nw_nodes Demo.requester nw s !! 2 = Some voter →
  exec (@post_performs demo_env Demo.requester nw 1 2 master_app) (rtc (nw_step Demo.requester nw)) (post_task (RequestVote args))
    s (Some Demo.vote_reply) (nw_after Demo.requester nw s 2 asked).
Proof.
  intros Hn. exists s, None, s. split; [done|]. split; [by left|].
  exists s, tt, s. split; [done|]. split; [done|].
  exists s, (Some (JsonVote (mkRequestVoteReply 1 true 2))), (nw_after Demo.requester nw s 2 asked). split; [done|].
  split; [|by split]. right. exists (JsonVote (mkRequestVoteReply 1 true 2)). split; [|by right].
  exists s, (Answered (RpcReply (RequestVoteResponse (mkRequestVoteReply 1 true 2)))), (nw_after Demo.requester nw s 2 asked).
  split; [done|]. split; [|by split]. right.
  exists 1, [Demo.vote_request], voter, 2000%N, 0%N, 1500%N, asked. split; [exact Hn|]. split; [done|]. split; [by left|].
  split; [by constructor; [left|]|]. split; [|split; [done|by vm_compute]].
  unfold asked. destruct (run_once (Batch [Demo.vote_request]) (at_time 2000 0 1500 voter)) as [o n'] eqn:Hr.
  vm_compute in Hr. by injection Hr as <- <-.
Qed.

End TransportDemo.

Import TransportDemo.

(** The reply of the voter may be handed to the candidate, in both networks. *)
Lemma transport_refines_network_witness :
  event_ok (E := demo_env) Demo.requester (sent (E := demo_env) (nw_after Demo.requester election Demo.candidate 2 asked)) 1 Demo.vote_reply ∧
  delivered (E := demo_env) Demo.requester (pool_of (nw_after Demo.requester logs LogDemo.s1 2 asked)) 1 Demo.vote_reply.
Proof.
  destruct (transport_refines_network (E := demo_env) Demo.requester Demo.cluster 1 2 master_app (RequestVote TransportDemo.args))
    as [He Hl]. split.
  - destruct (He Demo.candidate eq_refl _ _ (second_post election Demo.candidate ltac:(vm_compute; reflexivity))) as [_ Hev].
    exact (proj2 (Hev Demo.vote_reply eq_refl) _ (rtc_refl _ _)).
  - destruct (Hl LogDemo.start LogDemo.s1 LogDemo.addressed LogDemo.start_logged) with
      (3 := second_post logs LogDemo.s1 ltac:(vm_compute; reflexivity)) as [_ Hev].
    + apply rtc_once, LogDemo.logged_round; [exact Logic.I|vm_compute; reflexivity].
    + split; [reflexivity|]. vm_compute. left.
    + exact (proj2 (Hev Demo.vote_reply eq_refl) _ (rtc_refl _ _)).
Defined.
