(* ===== verification/Startup.v ===== *)
(** * Starting the servers

    dfs/metaserver/src/bin/master.rs and config_server.rs, and
    dfs/chunkserver/src/bin/chunkserver.rs with the constructor of the chunk
    server: what a process makes of its command line, the state it starts with,
    and what it says of itself on its HTTP port. Listening, TLS and the text of
    the metrics are left out. *)

From Stdlib Require Import Strings.Byte.
From S2P Require Import Prelude BTree Text Sharding MasterState AppState ClusterConfig RaftNode RaftElection Monitor ChunkServer.

(** ** Numbers in environment variables *)

Definition digit_value (a : ascii) : option N :=
  let n := N_of_ascii a in if ((48 <=? n) && (n <=? 57))%N then Some (n - 48)%N else None.

Fixpoint decimal (acc : N) (s : string) : option N :=
  match s with
  | EmptyString => Some acc
  | String a s => match digit_value a with Some d => decimal (acc * 10 + d) s | None => None end
  end.

(** `s.parse::<uN>()` for numbers below [bound]; a leading plus is allowed. *)
Definition parse_uint (bound : N) (s : string) : option N :=
  let digits := match s with String "+" rest => rest | _ => s end in
  match digits with
  | EmptyString => None
  | _ => match decimal 0 digits with Some n => if (n <? bound)%N then Some n else None | None => None end
  end.

(** `std::env::var(name).ok().and_then(|v| v.parse().ok()).unwrap_or(d)`. *)
Definition env_number (env : string → option string) (bound : N) (name : string) (d : N) : N :=
  default d (env name ≫= parse_uint bound).

(** ** Masters *)

(** The options that decide what a master is.
    [src/dfs/metaserver/src/bin/master.rs:21-80 Args] *)
Record MasterArgs : Type := mkMasterArgs {
  ma_addr : string;
  ma_id : nat;
  ma_peers : list string;
  ma_advertise_addr : option string;
  ma_shard_id : string;
  ma_shard_config : option string;
  ma_config_servers : list string;
  ma_split_threshold_rps : f64;
  ma_split_cooldown_secs : N;
  ma_merge_threshold_rps : f64;
  ma_backup_s3_endpoint : option string;
}.

(** `peers.filter(|p| !p.is_empty())`. [src/dfs/metaserver/src/bin/master.rs:133-138 main] *)
Definition named_peers (peers : list string) : list string := filter (λ p, p ≠ "") peers.

(** [src/dfs/metaserver/src/bin/master.rs:119-125 main] *)
Definition master_start_state (now : N) : AppState := AMaster (enter_safe_mode now master_default).

(** What the Raft node of a master is created with.
    [src/dfs/metaserver/src/bin/master.rs:140-151 main] *)
Definition master_cli (args : MasterArgs) (now : N) : Cli :=
  mkCli (named_peers (ma_peers args)) (default (ma_addr args) (ma_advertise_addr args)) (master_start_state now)
    (ma_backup_s3_endpoint args).

(** [src/dfs/metaserver/src/bin/master.rs:195-201 main] *)
Definition master_shard_map (crc : string → N) (from_file : string → option ShardConfig) (args : MasterArgs) : ShardMap :=
  match ma_config_servers args with
  | [] => load_shard_map_from_config crc from_file (ma_shard_config args) 100
  | _ => new_range
  end.

(** The settings of the service.
    [src/dfs/metaserver/src/bin/master.rs:207-224 main] *)
Record MasterConfig : Type := mkMasterConfig {
  mc_shard_id : string;
  mc_config_server_addrs : list string;
  mc_master_address : string;
  mc_split_threshold_rps : f64;
  mc_split_cooldown_secs : N;
  mc_merge_threshold_rps : f64;
  mc_cold_threshold_secs : N;
  mc_ec_threshold_secs : N;
}.

(** [src/dfs/metaserver/src/bin/master.rs:203-225 main] *)
Definition master_config (env : string → option string) (args : MasterArgs) : MasterConfig :=
  mkMasterConfig (ma_shard_id args) (ma_config_servers args) (default (ma_addr args) (ma_advertise_addr args))
    (ma_split_threshold_rps args) (ma_split_cooldown_secs args) (ma_merge_threshold_rps args)
    (env_number env u64_mod "COLD_THRESHOLD_SECS" 604800) (env_number env u64_mod "EC_THRESHOLD_SECS" 2592000).

(** ** Configuration servers *)

(** [src/dfs/metaserver/src/bin/config_server.rs:91-96 main] *)
Definition config_start_state : AppState := AConfig (mkConfigState new_range ∅).

(** [src/dfs/metaserver/src/bin/config_server.rs:80-114 main] *)
Definition config_cli (addr : string) (advertise_addr : option string) (peers : list string) : Cli :=
  mkCli (named_peers peers) (default addr advertise_addr) config_start_state None.

(** ** Chunk servers *)

(** The capacity of the cache is from the environment; a capacity of zero
    panics. [src/dfs/chunkserver/src/chunkserver.rs:44-92 new] *)
Definition chunk_server_new (crc : string → N) (from_file : string → option ShardConfig) (env : string → option string)
    (has_cold_dir : bool) (hot_files : gmap string (list byte)) (cold_files : gmap string (list byte))
  : outcome (MyChunkServer * ShardMap * N) :=
  let shard_map :=
    match env "SHARD_CONFIG" with
    | Some path => load_shard_map_from_config crc from_file (Some path) 100
    | None => shard_map_new 100
    end in
  let cache_capacity := env_number env u64_mod "BLOCK_CACHE_SIZE" 100 in
  if (cache_capacity =? 0)%N then Panic "called `Option::unwrap()` on a `None` value"
  else
    Ok (mkChunkServer hot_files (if has_cold_dir then Some cold_files else None) ∅ [] 0, shard_map, cache_capacity).

(** Free and total space of the storage directory, when they can be read, and
    the number of its entries.
    [src/dfs/chunkserver/src/bin/chunkserver.rs:411-417 handle_metrics] *)
Definition chunk_stats (free_space total_space : option N) (s : MyChunkServer) : N * N * N :=
  let available_space := default 0%N free_space in
  let used_space := (default 0 total_space - available_space)%N in
  (available_space, used_space, N.of_nat (size (hot s))).

(** [src/dfs/chunkserver/src/bin/chunkserver.rs:381-428 handle_metrics] *)
Definition chunk_gauges (free_space total_space : option N) (s : MyChunkServer) : list (string * f64) :=
  let '(available_space, used_space, chunk_count) := chunk_stats free_space total_space s in
  [("dfs_chunkserver_available_space_bytes", f64_of_N available_space);
   ("dfs_chunkserver_used_space_bytes", f64_of_N used_space);
   ("dfs_chunkserver_total_chunks", f64_of_N chunk_count)].

(** The first map: until a configuration server answers, one try after the
    other. [fetch] is one refresh; [None] when it fails.
    [src/dfs/chunkserver/src/bin/chunkserver.rs:145-163 main] *)
Fixpoint initial_discovery (tries : nat) (fetch : nat → ShardMap → option ShardMap) (i : nat) (m : ShardMap)
  : option ShardMap :=
  match get_all_masters m with
  | [] =>
      match tries with
      | 0 => None
      | S tries => match fetch i m with Some m => Some m | None => initial_discovery tries fetch (S i) m end
      end
  | _ => Some m
  end.

(** ** Safe mode at the start *)

Section start.
  Context {E : RaftEnv}.

(** The state of a master that starts on a database. *)
Lemma restart_state cli now wall timeout i d :
  app_state (restart cli now wall timeout i d) = (load_state d (cli_state cli)).2.
Proof.
  unfold restart, raft_new. destruct (load_state d (cli_state cli)) as [[[[[t vote] lg] lii] lit] a].
  by destruct (load_config d).
Qed.

(** Without a snapshot a master starts in safe mode. It counted the blocks of
    an empty name space, so that the share of reported blocks never matters:
    whatever files the log then brings back, the first chunk server that
    registers ends the safe mode. *)
Theorem start_threshold_unused args start now wall timeout i d files0 servers now' :
  db_snapshot_meta d = None → servers ≠ ∅ →
  ∃ m, app_state (restart (master_cli args start) now wall timeout i d) = AMaster m ∧ safe_mode m = true ∧
    should_exit_safe_mode now' (m <| files := files0 |> <| chunk_servers := servers |>) = true.
Proof.
  intros Hd Hs. rewrite restart_state. unfold load_state. rewrite Hd. simpl. eexists. split; [done|].
  split; [done|]. unfold should_exit_safe_mode. cbn.
  destruct (size servers) eqn:Hz; [|done]. by apply map_size_empty_inv in Hz.
Qed.

(** A master that starts from a snapshot is not in safe mode at all: the
    snapshot replaces the state that main prepared, and the safe mode is not
    part of it. *)
Theorem start_from_snapshot_unsafe args start now wall timeout i d meta m data :
  db_snapshot_meta d = Some meta → to_vec (AMaster m) = Some data → db_snapshot_data d = Some data →
  is_safe_mode (app_state (restart (master_cli args start) now wall timeout i d)) = false.
Proof.
  intros Hmeta Hvec Hdata. rewrite restart_state. unfold load_state. rewrite Hmeta, Hdata.
  rewrite (from_slice_to_vec _ _ Hvec). by destruct meta.
Qed.

End start.
