(* ===== verification/IoUring.v ===== *)
(** * The io_uring pool

    dfs/chunkserver/src/io_uring_pool.rs: block files written whole and read in
    ranges through a thread that owns the ring. The kernel may answer a read
    with fewer bytes than asked for, differently on every call; the loop that
    fills the buffer is proved to return exactly the range, or to say that the
    file is too short. *)

From Stdlib Require Import Strings.Byte.
From S2P Require Import Prelude MasterState.

Notation bytes := (list byte).

(** `io::Error`: what went wrong, and whether it is an unexpected end. *)
Inductive IoError : Type :=
  | IoOther (what : string)
  | UnexpectedEof.

(** [src/dfs/chunkserver/src/io_uring_pool.rs:7-19 IoRequest] *)
Inductive IoRequest : Type :=
  | WriteRequest (path : string) (data : bytes)
  | ReadRequest (path : string) (offset : N) (length : nat).

(** The reply of either. *)
Inductive IoReply : Type :=
  | Written (r : unit + IoError)
  | ReadBack (r : bytes + IoError).

Section uring.
  (** What the kernel answers to a read: the number of the call, the file, the
      offset and the size of the buffer; [None] is an error. *)
  Context (read_at : nat → bytes → N → nat → option bytes).
  (** Whether the kernel opens, writes and syncs. *)
  Context (creates syncs : string → bool).

(** `buf[filled..]` overwritten with the bytes that came. *)
Definition fill (buf : bytes) (filled : nat) (data : bytes) : bytes :=
  take filled buf ++ data ++ drop (filled + length data) buf.

(** `while filled < length`; every call but the last brings a byte, so that one
    unit of fuel more than the length is enough.
    [src/dfs/chunkserver/src/io_uring_pool.rs:102-122 do_read] *)
Fixpoint read_loop (fuel call : nat) (content : bytes) (offset : N) (len filled : nat) (buf : bytes)
  : option (bytes + IoError) :=
  if filled <? len then
    match fuel with
    | 0 => None
    | S fuel =>
        match read_at call content (wrap64 (offset + N.of_nat filled)) (len - filled) with
        | None => Some (inr (IoOther "read_at"))
        | Some [] => Some (inr UnexpectedEof)
        | Some data => read_loop fuel (S call) content offset len (filled + length data) (fill buf filled data)
        end
    end
  else Some (inl buf).

(** [src/dfs/chunkserver/src/io_uring_pool.rs:100-123 do_read] *)
Definition do_read (files : gmap string bytes) (path : string) (offset : N) (len : nat) : option (bytes + IoError) :=
  match files !! path with
  | None => Some (inr (IoOther "No such file or directory"))
  | Some content => read_loop (S len) 0 content offset len 0 (replicate len "000"%byte)
  end.

(** `File::create` truncates; a write that fails, or that is not synced, may
    leave a part. [src/dfs/chunkserver/src/io_uring_pool.rs:91-98 do_write] *)
Definition do_write (path : string) (data : bytes) (written : nat) (files : gmap string bytes)
  : (unit + IoError) * gmap string bytes :=
  if negb (creates path) then (inr (IoOther "create"), files)
  else if written <? length data then (inr (IoOther "write"), <[path := take written data]> files)
  else if negb (syncs path) then (inr (IoOther "sync"), <[path := data]> files)
  else (inl tt, <[path := data]> files).

(** One request in the thread of the pool; [written] is how much of a write
    the kernel takes. [src/dfs/chunkserver/src/io_uring_pool.rs:32-58 new] *)
Definition serve (written : nat) (rq : IoRequest) (files : gmap string bytes) : option (IoReply * gmap string bytes) :=
  match rq with
  | WriteRequest path data =>
      let '(r, files) := do_write path data written files in Some (Written r, files)
  | ReadRequest path offset len =>
      match do_read files path offset len with Some r => Some (ReadBack r, files) | None => None end
  end.

(** What the caller gets: the thread may be gone before or while it serves.
    [src/dfs/chunkserver/src/io_uring_pool.rs:60-88 IoUringPool] *)
Definition pool_write (sent : bool) (reply : option IoReply) : unit + IoError :=
  if negb sent then inr (IoOther "io_uring pool unavailable")
  else match reply with Some (Written r) => r | _ => inr (IoOther "io_uring thread panicked") end.

(** [src/dfs/chunkserver/src/io_uring_pool.rs:75-88 IoUringPool] *)
Definition pool_read (sent : bool) (reply : option IoReply) : bytes + IoError :=
  if negb sent then inr (IoOther "io_uring pool unavailable")
  else match reply with Some (ReadBack r) => r | _ => inr (IoOther "io_uring thread panicked") end.

(** ** Short reads *)

(** A read gives bytes of the file from the offset on, at most as many as the
    buffer holds, and none only at the end of the file. *)
Definition reads_ok : Prop := ∀ call content off len data, 0 < len →
  read_at call content off len = Some data →
  length data ≤ len ∧ data = take (length data) (drop (N.to_nat off) content) ∧
  (data = [] → length content ≤ N.to_nat off).

Lemma fill_length buf filled data : filled + length data ≤ length buf → length (fill buf filled data) = length buf.
Proof. intros H. unfold fill. rewrite !length_app, length_take, length_drop. lia. Qed.

Lemma fill_prefix buf filled data :
  filled + length data ≤ length buf → take (filled + length data) (fill buf filled data) = take filled buf ++ data.
Proof.
  intros H. unfold fill. rewrite app_assoc. apply take_app_length'. rewrite length_app, length_take. lia.
Qed.

Lemma range_extend (content : bytes) off filled n :
  take filled (drop off content) ++ take n (drop (off + filled) content) = take (filled + n) (drop off content).
Proof. rewrite <- drop_drop. apply take_take_drop. Qed.

(** The loop: the part of the buffer that is filled is the beginning of the
    range; it ends with the range, with an error of the kernel, or because the
    file is shorter. *)
Lemma read_loop_spec fuel call content offset len filled buf :
  reads_ok → (offset + N.of_nat len < u64_mod)%N → filled ≤ len → len - filled < fuel → length buf = len →
  take filled buf = take filled (drop (N.to_nat offset) content) →
  ∃ r, read_loop fuel call content offset len filled buf = Some r ∧
    match r with
    | inl data => data = take len (drop (N.to_nat offset) content) ∧ length data = len
    | inr UnexpectedEof => length content < N.to_nat offset + len
    | inr (IoOther _) => True
    end.
Proof.
  intros Hk Hoff. revert call filled buf. induction fuel as [|fuel IH]; intros call filled buf Hle Hfuel Hbuf Hpre; [lia|].
  cbn [read_loop]. destruct (Nat.ltb_spec filled len) as [Hlt|Hge].
  2: { assert (filled = len) as -> by lia. exists (inl buf). split; [done|]. split; [|done].
       rewrite <- Hpre, take_ge by lia. done. }
  unfold wrap64. rewrite N.mod_small by lia.
  destruct (read_at call content (offset + N.of_nat filled) (len - filled)) as [data|] eqn:Hr; [|by eexists].
  apply Hk in Hr as (Hlen & Hdata & Hend); [|lia].
  replace (N.to_nat (offset + N.of_nat filled)) with (N.to_nat offset + filled) in * by lia.
  destruct data as [|b data]; [exists (inr UnexpectedEof); split; [done|]; specialize (Hend eq_refl); lia|].
  set (d := b :: data) in *. assert (0 < length d) by (simpl; lia).
  apply IH; [lia|lia|rewrite fill_length; lia|]. rewrite fill_prefix by lia. rewrite Hpre, Hdata at 1.
  rewrite range_extend. done.
Qed.

Lemma do_read_spec files path offset len content :
  reads_ok → (offset + N.of_nat len < u64_mod)%N → files !! path = Some content →
  ∃ r, do_read files path offset len = Some r ∧
    match r with
    | inl data => data = take len (drop (N.to_nat offset) content) ∧ length data = len
    | inr UnexpectedEof => length content < N.to_nat offset + len
    | inr (IoOther _) => True
    end.
Proof.
  intros Hk Hoff Hf. unfold do_read. rewrite Hf. apply read_loop_spec; [done|done|lia|lia| |done].
  by rewrite length_replicate.
Qed.

(** A block that was written and is read in a range, however the kernel cuts
    the read up: the request is answered, with exactly the bytes of the range
    when it lies within the block, and never with others; "unexpected end" is
    only said of a range that does not lie within the block, and the file
    before the write plays no part. *)
Theorem uring_roundtrip path data written files offset len files' :
  reads_ok → (offset + N.of_nat len < u64_mod)%N →
  serve written (WriteRequest path data) files = Some (Written (inl tt), files') →
  ∃ r, serve written (ReadRequest path offset len) files' = Some (ReadBack r, files') ∧
    match r with
    | inl back => back = take len (drop (N.to_nat offset) data) ∧ length back = len
    | inr UnexpectedEof => length data < N.to_nat offset + len
    | inr (IoOther _) => True
    end.
Proof.
  intros Hk Hoff. cbn [serve]. unfold do_write. destruct (negb (creates path)); [done|].
  destruct (written <? length data); [done|]. destruct (negb (syncs path)); [done|]. intros [= <-].
  destruct (do_read_spec (<[path := data]> files) path offset len data Hk Hoff) as (r & -> & Hr);
    [by rewrite lookup_insert_eq|]. by exists r.
Qed.

End uring.

(** A kernel that gives two bytes at a time. *)
Definition two_bytes (call : nat) (content : bytes) (off : N) (len : nat) : option bytes :=
  Some (take (min 2 len) (drop (N.to_nat off) content)).

Lemma two_bytes_ok : reads_ok two_bytes.
Proof.
  intros call content off len data Hlen Hr. unfold two_bytes in Hr.
  assert (data = take (min 2 len) (drop (N.to_nat off) content)) as -> by congruence.
  rewrite length_take. split; [lia|]. split.
  - destruct (Nat.min_spec (min 2 len) (length (drop (N.to_nat off) content))) as [[? ->]|[? ->]]; [done|].
    by rewrite !take_ge by lia.
  - intros Hnil%(f_equal length). rewrite length_take, length_drop in Hnil. cbn [length] in Hnil. lia.
Qed.
