(* ===== verification/GatewayStart.v ===== *)
(** * Starting the gateway

    dfs/s3_server/src/main.rs: what the gateway makes of its environment (the
    client, authentication, sessions, policies, the audit log, encryption at
    rest) and its routes. Files and their JSON are read by parameters; the
    pages of metrics are left out. *)

From Stdlib Require Import Strings.Byte.
From S2P Require Import Prelude Text Sharding MasterState Policy Signing AuthMiddleware Erasure ChunkServer Client Sse S3Base AuditWorker AuditLog AuditQuery Tokens TokenService Startup.

Section gateway.
  Context `{Aead} `{SessionCodec}.
  (** The environment; `hex::decode`; reading a file; parsing the IAM
      configuration; opening the audit log. *)
  Context (env : string → option string).
  Context (hex_decode : string → option bytes).
  Context (read_to_string : string → option string).
  Context (parse_iam : string → option (list Role)).
  Context (open_audit : string → bool).

Definition env_or (name d : string) : string := default d (env name).
Definition env_true (name d : string) : bool := bool_decide (env_or name d = "true").

(** [src/dfs/s3_server/src/main.rs:47-52 parse_sse_master_key] *)
Definition parse_sse_master_key (hex_str : string) : option bytes :=
  match hex_decode hex_str with
  | Some bytes => if decide (length bytes = 32) then Some bytes else None
  | None => None
  end.

(** [src/dfs/s3_server/src/main.rs:64-84 main] *)
Definition gateway_client : Client :=
  let config_servers := filter (λ s, s ≠ "") (split_on "," (env_or "CONFIG_SERVERS" "")) in
  mkClient [env_or "MASTER_ADDR" "http://127.0.0.1:8081"] [] config_servers 5 (bool_decide (is_Some (env "CA_CERT"))) None.

(** The first 32 bytes of the variable, padded with zeros.
    [src/dfs/s3_server/src/main.rs:144-147 main] *)
Definition sts_key (key_str : string) : bytes :=
  let key_bytes := String.list_byte_of_string key_str in
  take 32 key_bytes ++ replicate (32 - length key_bytes) "000"%byte.

(** [src/dfs/s3_server/src/main.rs:143-153 main] *)
Definition sts_token_manager : option StsTokenManager :=
  match env "STS_SIGNING_KEY" with
  | Some key_str => Some (mkStsTokenManager (<[1%N := sts_key key_str]> ∅) 1)
  | None => None
  end.

(** [src/dfs/s3_server/src/main.rs:104-141 main] *)
Definition oidc_validator : option OidcValidator :=
  match env "OIDC_ISSUER_URL", env "OIDC_CLIENT_ID" with
  | Some issuer, Some client_id => Some (mkOidcValidator issuer client_id)
  | _, _ => None
  end.

(** A file that cannot be read or parsed is logged, and there is no evaluator.
    [src/dfs/s3_server/src/main.rs:155-173 main] *)
Definition iam_evaluator : option (list Role) :=
  match env "IAM_CONFIG_PATH" with
  | Some path => match read_to_string path with Some content => parse_iam content | None => None end
  | None => None
  end.

(** Directory, days, batch size and secret.
    [src/dfs/s3_server/src/main.rs:175-213 main] *)
Definition audit_settings : option (string * N * N * string) :=
  if env_true "AUDIT_LOG_ENABLED" "true" then
    let log_dir := env_or "AUDIT_LOG_DIR" "/tmp/s3_audit_log" in
    let retention := env_number env u32_mod "AUDIT_LOG_RETENTION_DAYS" 30 in
    let batch_size := env_number env u64_mod "AUDIT_LOG_BATCH_SIZE" 100 in
    match env "AUDIT_HMAC_SECRET" with
    | Some s =>
        if 16 <=? String.length s then
          if open_audit log_dir then Some (log_dir, retention, batch_size, s) else None
        else None
    | None => None
    end
  else None.

(** [src/dfs/s3_server/src/main.rs:215-226 main] *)
Definition sse_key : option bytes := env "SSE_MASTER_KEY" ≫= parse_sse_master_key.

(** [src/dfs/common/src/auth/credentials.rs:12-36 EnvCredentialProvider] *)
Definition env_secret_key (access_key : string) : option string :=
  match env "S3_ACCESS_KEY", env "S3_SECRET_KEY" with
  | Some ak, Some sk => if decide (access_key = ak) then Some sk else None
  | _, _ => None
  end.

(** The state of the middleware.
    [src/dfs/s3_server/src/main.rs:94-241 main] *)
Definition gateway_state : AppState :=
  mkAppState (env_true "S3_AUTH_ENABLED" "") (env_true "S3_REQUIRE_TLS" "") (env_or "S3_REGION" "us-east-1")
    (env_true "S3_ALLOW_UNSIGNED_PAYLOAD" "true") env_secret_key (decrypt_with <$> sts_token_manager) iam_evaluator.

(** [src/dfs/s3_server/src/main.rs:258-261 main] *)
Definition port : N := env_number env 65536 "PORT" 9000.

(** ** Routes *)

Inductive Target : Type :=
  | Health
  | Metrics
  | Handler (root : bool)
  | NotAllowed.

(** Which function a request reaches; the handlers only through the
    middleware. [src/dfs/s3_server/src/main.rs:243-256 main] *)
Definition route (rq : Request) : Target :=
  if decide (rq_path rq = "/health") then if decide (rq_method rq = "GET") then Health else NotAllowed
  else if decide (rq_path rq = "/metrics") then if decide (rq_method rq = "GET") then Metrics else NotAllowed
  else Handler (bool_decide (rq_path rq = "/")).

(** ** Consequences *)

(** The key of the token service always has 32 bytes; it is the variable itself
    when that has 32. *)
Lemma sts_key_length s : length (sts_key s) = 32.
Proof. unfold sts_key. rewrite length_app, length_take, length_replicate. lia. Qed.

(** Only the first 32 bytes of a longer key count. *)
Lemma sts_key_truncates s t :
  32 ≤ String.length s → sts_key (s +:+ t) = sts_key s.
Proof.
  unfold sts_key. assert (∀ a, length (String.list_byte_of_string a) = String.length a) as Hlen.
  { intros a. unfold String.list_byte_of_string. rewrite List.length_map. induction a; simpl; congruence. }
  assert (String.list_byte_of_string (s +:+ t) = String.list_byte_of_string s ++ String.list_byte_of_string t) as ->.
  { unfold String.list_byte_of_string. rewrite <- List.map_app. f_equal. induction s; simpl; [done|by f_equal]. }
  intros Hs. rewrite length_app, !Hlen. replace (32 - _) with 0 by lia. replace (32 - _) with 0 by lia.
  by rewrite take_app_le by (rewrite Hlen; lia).
Qed.

(** A policy file that cannot be read or parsed switches the policies of the
    roles off: a request with a session is then refused by a bucket policy only,
    whatever its role may do. *)
Theorem broken_iam_config_allows (regex_is_match : string → string → option bool) form_decode role ctx rq path :
  env "IAM_CONFIG_PATH" = Some path → read_to_string path ≫= parse_iam = None →
  check_policies regex_is_match form_decode (λ _, None) gateway_state (Some (role, ctx)) rq = None.
Proof.
  intros Hp Hnone. assert (policy_evaluator gateway_state = None) as Hpe.
  { simpl. unfold iam_evaluator. rewrite Hp. by destruct (read_to_string path). }
  unfold check_policies. rewrite Hpe.
  destruct (resolve_s3_action_and_resource _ _ _) as [action resource]. simpl.
  destruct (has_key _ _); [done|]. by destruct (bucket_from_path _).
Qed.

(** Without S3_AUTH_ENABLED=true nothing is asked of a request. *)
Lemma open_by_default sha256 hmac_sha256 hex regex_is_match form_decode parse_datetime parse_naive parse_i64 bucket_policy
    now rq cache :
  env "S3_AUTH_ENABLED" = None →
  (auth_middleware sha256 hmac_sha256 hex regex_is_match form_decode parse_datetime parse_naive parse_i64
     bucket_policy gateway_state now rq cache).1 = AuthMiddleware.Pass None.
Proof. intros He. unfold auth_middleware. cbn. unfold env_true, env_or. by rewrite He. Qed.

(** The names of the pages are taken: a bucket of that name cannot be made. *)
Lemma reserved_buckets rq :
  rq_path rq = "/health" ∨ rq_path rq = "/metrics" → rq_method rq = "PUT" → route rq = NotAllowed.
Proof. unfold route. intros [-> | ->] ->; done. Qed.

End gateway.
